(* ===== verification/_CoqProject ===== *)
-Q . S2P
Prelude.v
GoLib.v
Memory.v
K8s.v
Types.v
DeepCopy.v
DeepCopyProofs.v
Effects.v
Client.v
Logic.v
Robin.v
Config.v
Metrics.v
ScaleZero.v
Controller.v
Main.v
FakeCluster.v
Samples.v
RobinProofs.v
ConfigProofs.v
ConfigStore.v
Footprint.v
ControllerProofs.v
Failing.v
ScaleZeroProofs.v
TraceProofs.v
Workers.v
MetricsProofs.v
Access.v
Validation.v
Life.v
Interleaving.v
Reconciling.v
System.v
Departing.v
Fleet.v
Stale.v
CatchUp.v
RedisClient.v
Waiting.v
Maintenance.v
Cost.v
Divergences.v
MainProofs.v
