(* ===== verification/Prelude.v ===== *)
(** * Redkey operator: a verification development

    The Redkey operator is a Kubernetes controller that runs Redis clusters.
    A user declares a cluster as a [Redkey] object; the operator turns every
    generation of its spec into an immutable, sequenced [RedkeyConfig], deploys
    one helper process per cluster (Robin: a Deployment with its own
    ServiceAccount, Role and RoleBinding) that applies the configs to Redis and
    reports on them, and aggregates those reports into the [Redkey] status.
    Scaling to zero makes Robin tear the cluster down and then removes Robin
    itself.  This library models the operator's Go code and proves what makes
    it correct.

    ** How the code is represented

    Effects.v.  A Go function that talks to the API server, reads the clock or
    touches the in-memory trackers is a value of [prog]: a finite tree of
    requests ([Req]) continued by every possible response.  A function that
    returns [(T, error)] has type [go T]; [x ⇐ p; k] and [p ;;; k] are the
    [if err != nil { return err }] idioms.  [runs p tr a] follows a program along
    an arbitrary sequence of responses and [obeys] along the responses that
    satisfy a condition, so a theorem stated with them holds whatever the API
    server answers.

    Client.v.  The libraries the code calls are interfaces.  [K8sLib] holds the
    helper functions of apimachinery and controller-runtime ([SetStatusCondition],
    [DeepDerivative], [SetControllerReference], [RetryOnConflict], ...) and
    [K8sLaws] their documented behaviour.  [KubeClient] is a client: how it
    answers a request, the server's store, the informer cache it reads from, the
    operator's memory, and what other actors may do between requests ([rely]).
    [KubeLaws] is the contract of any lawful client (reads from a possibly stale
    cache, failed writes change nothing, status updates go through on the live
    resource version only); [KubeQuiet] is a client with a fresh cache and no
    interference, any of whose requests may fail; [KubeIdeal] is one that does not
    fail without a reason.  Logic.v executes programs against a
    client ([exec], [trace]) and gives the weakest-precondition rules.
    FakeCluster.v implements all the interfaces (an in-memory cluster, with or
    without a stale cache), which shows that the laws can hold and lets every
    witness evaluate; Samples.v holds the inputs of the witnesses.

    ** The parts of the program

    - Types.v, K8s.v: api/v1beta1 (redkey_types.go, redkeyconfig_types.go) and
      the part of the Kubernetes types the code reads or writes, as values.
      Validation.v: the markers as the API server applies them to a write (defaults,
      required fields, bounds, enumerations, CEL rules), on objects whose fields are
      present or not.
    - Memory.v, DeepCopy.v: the same types as they lie in memory
      (zz_generated.deepcopy.go and the struct declarations).  Memory.v has the
      heap of variables, arrays and maps, the allocating operations and the
      classes [Readable] and [Deep]; DeepCopy.v every [DeepCopyInto], [DeepCopy]
      and [DeepCopyObject], the status copy that ends [aggregateStatus], and the
      scheme (groupversion_info.go).
    - GoLib.v: fixed-width integers with wrap-around, nil and allocated maps,
      [strconv], [sort.Slice].
    - Robin.v: internal/controller/redkey_robin.go (desired Deployment, RBAC,
      drift detection, create/patch paths).
    - Config.v: redkey_config.go (listing, creating and cleaning up configs,
      aggregating their status).
    - ScaleZero.v: redkey_scale_zero.go (the four cases of scaling to zero).
    - Metrics.v: metrics.go (the vectors and their registration, operation and
      readiness trackers, gauges).
    - Controller.v: redkey_controller.go ([Reconcile], [controllerOptions], what
      [SetupWithManager] watches); Access.v: its RBAC markers.
    - Life.v, Interleaving.v, Reconciling.v, System.v: the life of a cluster, a
      transition system whose steps are spec edits of the user, status reports of
      Robin, changes to anything else, and the single requests of reconciles, any
      of which may fail and after any of which the operator may stop.  Stale.v: the
      same with the operator's reads answered from a Redkey cache and a config cache
      that lag behind the store.  Both are instances of the class [Interleaved] of
      Interleaving.v.  Fleet.v: all clusters in one store, each with its own user,
      Robin and reconciles; clusters are created, deleted, garbage collected and
      created again.  Departing.v: a reconcile whose Redkey is deleted under it, a third
      instance.
    - Main.v: cmd/main.go (package initialisation, flags, TLS option slices with
      their backing arrays, watched namespaces, the encoder of the logger, the
      profiling server, the sequence of start-up steps and exits).
    - RedisClient.v: test/e2e/framework/redisclient.go (what the end-to-end tests
      read off CLUSTER INFO and CLUSTER NODES, their health check, and the commands
      they run in pods).
    - Maintenance.v: [SetClusterConfigStatus] of test/e2e/framework/wait.go, by which
      tests write in Robin's place.
    - Waiting.v: the rest of test/e2e/framework/wait.go, and test/chaos/framework/readiness.go
      (the waits, the search for the newest config, the readiness gates and the
      topology checks), over what one look at the cluster finds.

    [Reconcile] calls Robin.v's [ensureRBAC] and [ensureRobinDeployment], then
    Config.v's [listConfigs], [createNewConfig], [cleanupSupersededConfigs] and
    [aggregateStatus], or ScaleZero.v's [reconcileScaleToZero] when the spec asks
    for no primaries, and ends in Metrics.v's [recordRedkeyMetrics].  Names are
    those of the Go code; a method of a receiver type [T] is prefixed with it.

    ** What is proved

    - System.v: at every moment each config is a snapshot of the spec of one
      generation, taken in order and at most once; the operator catches up from every
      reachable state, with the current spec of a running cluster and with the scale
      to zero of another, as long as the spec does not claim the Deployment
      controller's revision annotation.  Fleet.v: any number of clusters,
      reconciled side by side in one store, do not see each other, so what System.v
      shows of one cluster holds of all of them; a deleted cluster stays deleted once
      the reconcile that was under way is over.  Life.v has the invariant and what
      the other actors do to it, Interleaving.v the logic of programs that others
      interfere with, Reconciling.v the invariant through a reconcile.
    - Stale.v: on a cluster that is never scaled to zero, however far each cache lags
      behind, configs keep carrying increasing sequences made from increasing
      generations, and no sequence serves two.  What such a cluster can lose (a
      generation without a config) and what a scale to zero adds (configs out of
      order) are executions in Divergences.v.  CatchUp.v: on such a
      cluster a generation that has not been marked observed is handed over once the
      caches have caught up.
    - Waiting.v: the readiness gate, put to any reachable state of System.v, passes
      only a cluster whose newest config was made from the spec in force and applied;
      the topology check needs three clean polls in a row; the tests find the
      operator's newest config.  Maintenance.v: what tests write in Robin's place is one
      more report of his, tried again on conflicts, and overwrites only the version that
      was read.  RedisClient.v: the parser of CLUSTER NODES reads back what Redis
      prints, IPv6 addresses apart.
    - Failing.v: what a reconcile leaves of the store when any of its requests may
      fail or the operator stops; a client that fails on schedule shows it.
    - ControllerProofs.v (with ConfigStore.v): against an ideal client a
      reconcile of a running cluster that does not claim the revision annotation
      brings Robin's objects and the status in line with the spec, a second one
      changes nothing but the time of the last update, and exactly the configs that
      are due are appended while the newest is kept.
    - Footprint.v: whatever the API answers, a reconcile stays within its own
      Redkey's objects; against any lawful client the recorded topology is never
      lost.
    - ScaleZeroProofs.v: nothing is torn down before Robin has applied zero
      primaries; the teardown removes exactly the cluster's objects; scaling to
      zero completes once Robin reports.
    - TraceProofs.v: every failure is counted once; lock discipline; no call on a
      metric vector panics.
    - Cost.v: a bound on the requests of a reconcile, in a logic of credits.
    - DeepCopyProofs.v: a deep copy stands for the same value and shares no
      memory with the original, for every API type; the status copy in memory is
      the record update of the value model.  This is what justifies treating
      objects as values in the other files.
    - Workers.v: reconciles of several Redkeys at once, as a step relation over
      workers that share the trackers and their mutexes.  Under every schedule
      the maps are accessed by the holder of their mutex only, no worker is ever
      stuck, all schedules end, and no Redkey's worker can tell the others apart
      from their absence.
    - MetricsProofs.v: the trackers refine their abstract histories, at the times
      read from the clock; gauges are one-hot, a deleted Redkey is forgotten.
    - RobinProofs.v, ConfigProofs.v: the functional behaviour of merging, drift
      detection, config creation, ordering, selection (against a reference that
      needs no order), cleanup, aggregation.
    - Access.v, Validation.v, MainProofs.v: permissions suffice and events on
      created objects come back to their Redkey; the admission rules and the
      scale-from-zero lock over the object's life; [NodesNeeded] on [int32];
      start-up.
    - Divergences.v: behaviours that comments and documents do not lead one to
      expect.  In general: a scale to zero leaves the recorded topology as it was,
      and a config is taken for the Redkey's own by the generation it names.  As
      executions: what lagging caches lose or disorder, and a cluster deleted and
      created again under its name, which inherits configs.

    ** Bounds, fuel and choices

    Programs are finite trees, so no fuel is needed: every execution returns.
    [RetryOnConflict] is a parameter whose law says that it repeats its argument
    some fixed number of times while it fails with a conflict.  The work queue of
    controller-runtime, which never hands out a key twice at once, is represented
    by one worker per Redkey; that the number of workers is bounded only
    restricts the schedules.  Sequence numbers
    are [int64]; theorems that append a config assume room below the maximum.
    Timestamps are integers ([Now] is a request).  [sort.Slice] is not stable:
    [sort_slice] is one admissible sort, and on distinct sequences the only one.
    [TrimSpace] is modelled on ASCII.  Logging and events are left out: the code
    never reads them back.  In System.v the other actors write at any
    moment (a status report gives the config any resource version), but reads show the
    store as it is; in Stale.v a cache shows some version
    of the store at or after the one it showed before.  Neither the number of
    versions a cache lags behind nor the length of a run is bounded.  The polling loop
    of the tests is a parameter; [allowsPolls n] says that the time given suffices for
    [n] polls.  One reconcile of a Redkey runs at a time, as controller-runtime
    guarantees.
    In memory, a struct variable is one cell, so a pointer into the middle of a
    struct is the pointer to the struct; allocation returns some fresh address
    and a map is ranged over in some order, both parameters ([GoRuntime]).  The
    library types inside the API types and their own copy methods are parameters
    with the law that they are deep copies ([LibLaws]).  The value types do not
    tell a nil slice from an empty one.

    ** Not modelled

    What registration with the scheme, the controller builder and the Prometheus
    registry do with the data they are given (library code), the Helm chart,
    manifests, dashboards, and the rest of the end-to-end and chaos test harnesses
    (drivers of kubectl, Helm and k6, and the building of test objects).  A cluster is
    created again in Fleet.v only when no reconcile of its former life is under way and
    no config of it is left; Divergences.v shows what happens otherwise.  A Redkey that
    waits for its dependents to be deleted first (foreground deletion) is an ordinary
    Redkey to this code, which does not look at deletion timestamps. *)

From stdpp Require Export base gmap strings list sorting pretty.

(** ** Automation

    [redkey] collects the rewriting equations the files share and, locally, the
    lemmas that follow a program step by step. *)

Create HintDb redkey.
Create Rewrite HintDb redkey.

(** ** Results of fallible Go code *)

(** A Go function returning [(T, error)]: either a value with a nil error, or
    an error. *)
Inductive res (E A : Type) : Type :=
| Ok (a : A)
| Err (e : E).
Arguments Ok {E A} a.
Arguments Err {E A} e.

Definition is_ok {E A} (r : res E A) : bool :=
  match r with Ok _ => true | Err _ => false end.

Lemma is_ok_Ok {E A} (r : res E A) : is_ok r = true ↔ ∃ a, r = Ok a.
Proof. destruct r; simpl; split; intros Hr; [by eexists|done|done|by destruct Hr]. Qed.

(** ** Booleans *)

Lemma bool_decide_eqb {A} `{EqDecision A} (x y : A) :
  bool_decide (x = y) = true ↔ x = y.
Proof. apply bool_decide_eq_true. Qed.

(** ** Lists *)

(** The scan [for i := len(l)-1; i >= 0; i--] that stops at the first hit:
    the index of the last element satisfying [p]. *)
Fixpoint find_last_index {A} (p : A → bool) (l : list A) : option nat :=
  match l with
  | [] => None
  | x :: l' =>
      match find_last_index p l' with
      | Some i => Some (S i)
      | None => if p x then Some 0 else None
      end
  end.

Section find_last.
Context {A : Type} (p : A → bool).
Implicit Types l : list A.

Lemma find_last_index_Some l i :
  find_last_index p l = Some i →
  (∃ x, l !! i = Some x ∧ p x = true) ∧
  (∀ j x, i < j → l !! j = Some x → p x = false).
Proof.
  revert i. induction l as [|x l IH]; intros i Hi; [done|]. simpl in Hi.
  destruct (find_last_index p l) as [k|] eqn:Hk.
  - simplify_eq. destruct (IH k eq_refl) as [H1 H2]. split; [done|].
    intros [|j] y Hj Hy; [lia|]. apply (H2 j); [lia|done].
  - destruct (p x) eqn:Hx; [|done]. simplify_eq. split; [by exists x|].
    intros [|j] y Hj Hy; [lia|]. clear IH Hj. simpl in Hy. revert j y Hy Hk.
    induction l as [|z l IHl]; intros j y Hy Hk; [done|]. simpl in Hk.
    destruct (find_last_index p l) eqn:E; [done|]. destruct (p z) eqn:Hz; [done|].
    destruct j as [|j]; simplify_eq/=; [done|]. by eapply IHl.
Qed.

Lemma find_last_index_None l :
  find_last_index p l = None ↔ ∀ x, x ∈ l → p x = false.
Proof.
  induction l as [|y l IH]; simpl; [by split; [intros _ x Hx; inversion Hx|]|].
  destruct (find_last_index p l) as [k|] eqn:Hk.
  - split; [done|]. intros H. exfalso.
    destruct (find_last_index_Some l k Hk) as [(x & Hx & Hp) _].
    rewrite (H x) in Hp; [done|]. right. by eapply list_elem_of_lookup_2.
  - destruct (p y) eqn:Hy.
    + split; [done|]. intros H. by rewrite H in Hy; [|left].
    + split; [|done]. intros _ x [->|Hx]%elem_of_cons; [done|]. by apply IH.
Qed.

Lemma find_last_index_lt l i : find_last_index p l = Some i → i < length l.
Proof.
  intros [(x & Hx & _) _]%find_last_index_Some. by eapply lookup_lt_Some.
Qed.

Lemma find_last_index_split l i :
  find_last_index p l = Some i →
  ∃ old a new, l = old ++ a :: new ∧ i = length old ∧ p a = true ∧ Forall (λ x, p x = false) new.
Proof.
  intros [(a & Ha & Hp) Hn]%find_last_index_Some. exists (take i l), a, (drop (S i) l).
  split; [by rewrite take_drop_middle|]. split; [|split; [done|]].
  - apply lookup_lt_Some in Ha. rewrite length_take. lia.
  - apply Forall_lookup. intros j x Hx. rewrite lookup_drop in Hx. eapply Hn; [|done]. lia.
Qed.
End find_last.

(** The first element satisfying [p], as a Go [for range] that returns it. *)
Fixpoint find_first {A} (p : A → bool) (l : list A) : option A :=
  match l with
  | [] => None
  | x :: l' => if p x then Some x else find_first p l'
  end.

Lemma find_first_Some {A} (p : A → bool) l x :
  find_first p l = Some x →
  ∃ l1 l2, l = l1 ++ x :: l2 ∧ p x = true ∧ (∀ y, y ∈ l1 → p y = false).
Proof.
  induction l as [|y l IH]; simpl; [done|].
  destruct (p y) eqn:Hy; intros H.
  - simplify_eq. exists [], l. split; [done|]. split; [done|]. by intros z Hz; inversion Hz.
  - destruct (IH H) as (l1 & l2 & -> & Hp & Hl). exists (y :: l1), l2.
    split; [done|]. split; [done|]. intros z [->|Hz]%elem_of_cons; auto.
Qed.

Lemma find_first_None {A} (p : A → bool) l :
  find_first p l = None ↔ ∀ x, x ∈ l → p x = false.
Proof.
  induction l as [|y l IH]; simpl; [by split; [intros _ x Hx; inversion Hx|]|].
  destruct (p y) eqn:Hy.
  - split; [done|]. intros H. by rewrite H in Hy; [|left].
  - rewrite IH. split; intros H x Hx; [|by apply H; right].
    apply elem_of_cons in Hx as [->|Hx]; auto.
Qed.

Lemma last_lookup_length {A} (l : list A) : last l = l !! pred (length l).
Proof. apply last_lookup. Qed.

(** ** Strings *)

Lemma string_app_cons c (s t : string) : String c s +:+ t = String c (s +:+ t).
Proof. done. Qed.

Lemma string_app_nil_l (s : string) : "" +:+ s = s.
Proof. done. Qed.

Lemma string_app_nil_r (s : string) : s +:+ "" = s.
Proof. induction s as [|c s IH]; [done|]. by rewrite string_app_cons, IH. Qed.

#[export] Hint Rewrite string_app_cons string_app_nil_l string_app_nil_r : redkey.

Lemma string_app_assoc (s1 s2 s3 : string) : (s1 +:+ s2) +:+ s3 = s1 +:+ (s2 +:+ s3).
Proof. induction s1 as [|c s1 IH]; [done|]. by rewrite !string_app_cons, IH. Qed.

Lemma string_app_inj_r (s t1 t2 : string) : s +:+ t1 = s +:+ t2 → t1 = t2.
Proof.
  induction s as [|c s IH]; [done|]. rewrite !string_app_cons. intros H. simplify_eq. auto.
Qed.

(** Whether character [a] occurs in [s]. *)
Fixpoint string_mem (a : Ascii.ascii) (s : string) : bool :=
  match s with
  | EmptyString => false
  | String b s' => bool_decide (a = b) || string_mem a s'
  end.

Lemma string_mem_app (a : Ascii.ascii) (s t : string) :
  string_mem a (s +:+ t) = string_mem a s || string_mem a t.
Proof.
  induction s as [|c s IH]; [done|]. rewrite string_app_cons. simpl.
  by rewrite IH, orb_assoc.
Qed.

(** The text after the last occurrence of a separator is determined by the
    whole string. *)
Lemma string_split_last (a : Ascii.ascii) (s1 s2 t1 t2 : string) :
  string_mem a t1 = false → string_mem a t2 = false →
  s1 +:+ String a t1 = s2 +:+ String a t2 → s1 = s2 ∧ t1 = t2.
Proof.
  assert (Hmem : ∀ s t, string_mem a (s +:+ String a t) = true).
  { intros s t. rewrite string_mem_app. simpl.
    by rewrite bool_decide_eq_true_2, orb_true_r. }
  intros H1 H2. revert s2.
  induction s1 as [|c s1 IH]; intros [|d s2]; autorewrite with redkey; intros H; simplify_eq.
  - done.
  - by rewrite Hmem in H1.
  - by rewrite Hmem in H2.
  - destruct (IH s2) as [-> ->]; auto.
Qed.

(** ** Sublists *)

Lemma Forall2_sublist_r {A B} (P : A → B → Prop) (gens : list A) (l l' : list B) :
  l' `sublist_of` l → Forall2 P gens l → ∃ gens', gens' `sublist_of` gens ∧ Forall2 P gens' l'.
Proof.
  intros Hsub. revert gens.
  induction Hsub as [|c l1 l2 _ IH|c l1 l2 _ IH]; intros gens H1.
  - apply Forall2_nil_inv_r in H1 as ->. by exists [].
  - apply Forall2_cons_inv_r in H1 as (g & gens1 & Hg & H1 & ->). destruct (IH gens1 H1) as (gens' & H2 & H3).
    exists (g :: gens'). split; [by apply sublist_skip|by constructor].
  - apply Forall2_cons_inv_r in H1 as (g & gens1 & _ & H1 & ->). destruct (IH gens1 H1) as (gens' & H2 & H3).
    exists gens'. split; [by apply sublist_cons|done].
Qed.

Lemma Forall_sublist {A} (P : A → Prop) l l' : l' `sublist_of` l → Forall P l → Forall P l'.
Proof. rewrite !Forall_forall. intros Hsub HP x Hx. apply HP. by eapply elem_of_sublist. Qed.

Lemma sorted_sublist {A} (R : A → A → Prop) l l' :
  l' `sublist_of` l → StronglySorted R l → StronglySorted R l'.
Proof.
  induction 1 as [|c l1 l2 Hsub IH|c l1 l2 _ IH]; [done|..]; intros [Hl Hc]%StronglySorted_inv; [|auto].
  constructor; [auto|]. by eapply Forall_sublist.
Qed.

Lemma sorted_lookup {A} (R : A → A → Prop) l i j x y :
  StronglySorted R l → l !! i = Some x → l !! j = Some y → (i < j)%nat → R x y.
Proof.
  intros Hs. revert i j. induction Hs as [|z l Hs IH Hz]; intros i j Hi Hj Hij; [done|].
  destruct j as [|j]; [lia|]. destruct i as [|i]; simpl in *.
  - injection Hi as <-. by apply (Forall_lookup_1 _ _ _ _ Hz Hj).
  - apply (IH i j Hi Hj). lia.
Qed.
