(* ===== verification/GoLib.v ===== *)
(** * The Go language and standard library, as far as the operator uses them

    Fixed-width integers, [map[string]string] values (with the nil map kept
    apart from the empty one), [maps.Copy], [strconv.FormatInt],
    [strconv.ParseInt] for base 10 and 64 bits, [fmt.Sprintf] with the
    verbs the operator uses, and [sort.Slice]. *)

From Stdlib Require Import Ascii.
From S2P Require Import Prelude.
Local Open Scope Z_scope.

(** ** Fixed-width integers *)

Definition wrap (bits : Z) (z : Z) : Z :=
  (z + 2 ^ (bits - 1)) mod 2 ^ bits - 2 ^ (bits - 1).

(** Conversion to [int32] (and the result of every [int32] operation). *)
Definition int32 (z : Z) : Z := wrap 32 z.
(** Conversion to [int64]; [int] has 64 bits on the operator's platforms. *)
Definition int64 (z : Z) : Z := wrap 64 z.

Definition in_int32 (z : Z) : Prop := - 2 ^ 31 ≤ z < 2 ^ 31.
Definition in_int64 (z : Z) : Prop := - 2 ^ 63 ≤ z < 2 ^ 63.

Lemma wrap_id bits z : 0 < bits → - 2 ^ (bits - 1) ≤ z < 2 ^ (bits - 1) → wrap bits z = z.
Proof.
  intros Hb Hz. unfold wrap. rewrite Z.mod_small; [lia|].
  assert (2 ^ bits = 2 * 2 ^ (bits - 1)) as ->; [|lia].
  rewrite <- Z.pow_succ_r by lia. f_equal. lia.
Qed.

Lemma int32_id z : in_int32 z → int32 z = z.
Proof. intros H. apply wrap_id; unfold in_int32 in H; lia. Qed.

Lemma int64_id z : in_int64 z → int64 z = z.
Proof. intros H. apply wrap_id; unfold in_int64 in H; lia. Qed.

Lemma wrap_range bits z : 0 < bits → - 2 ^ (bits - 1) ≤ wrap bits z < 2 ^ (bits - 1).
Proof.
  intros Hb. unfold wrap.
  assert (Hp : 2 ^ bits = 2 * 2 ^ (bits - 1)).
  { rewrite <- Z.pow_succ_r by lia. f_equal. lia. }
  assert (0 < 2 ^ (bits - 1)) by (apply Z.pow_pos_nonneg; lia).
  pose proof (Z.mod_pos_bound (z + 2 ^ (bits - 1)) (2 ^ bits)). lia.
Qed.

(** Wrapping an operand first makes no difference. *)
Lemma wrap_add_r bits a b : 0 < bits → wrap bits (a + wrap bits b) = wrap bits (a + b).
Proof.
  intros Hb. unfold wrap. f_equal.
  replace (a + ((b + 2 ^ (bits - 1)) mod 2 ^ bits - 2 ^ (bits - 1)) + 2 ^ (bits - 1))
    with (a + (b + 2 ^ (bits - 1)) mod 2 ^ bits) by lia.
  rewrite Z.add_mod_idemp_r; [f_equal; lia|]. apply Z.pow_nonzero; lia.
Qed.

(** ** [map[string]string]

    [None] is the nil map, [Some m] an allocated one. *)
Abbreviation gomap := (option (gmap string string)).

(** The entries of a map; a nil map has none. *)
Definition entries (m : gomap) : gmap string string := default ∅ m.

(** [len(m)]. *)
Definition go_len (m : gomap) : nat := size (entries m).

(** [m[k]]: the zero value for a missing key, also on a nil map. *)
Definition go_index (m : gomap) (k : string) : string := default "" (entries m !! k).

(** [v, ok := m[k]]. *)
Definition go_lookup (m : gomap) (k : string) : option string := entries m !! k.

(** [maps.Copy(dst, src)] on an allocated [dst]: entries of [src] overwrite. *)
Definition maps_Copy (dst : gmap string string) (src : gomap) : gmap string string :=
  entries src ∪ dst.

(** ** [strconv] *)

Inductive NumError := ErrSyntax | ErrRange.

(** The decimal value of a digit character, if it is one. *)
Definition digit_val (c : Ascii.ascii) : option Z :=
  let n := Z.of_N (Ascii.N_of_ascii c) in
  if bool_decide (48 ≤ n ≤ 57) then Some (n - 48) else None.

Definition maxUint64 : Z := 2 ^ 64 - 1.

(** The digit loop of [strconv.ParseUint(s, 10, 64)]: [n] is the value read
    so far.  A value past [maxUint64] stops the scan with [ErrRange], a
    character that is not a digit stops it with [ErrSyntax]. *)
Fixpoint parse_digits (n : Z) (s : string) : res NumError Z :=
  match s with
  | EmptyString => Ok n
  | String c s' =>
      match digit_val c with
      | None => Err ErrSyntax
      | Some d =>
          let n1 := n * 10 + d in
          if maxUint64 <? n1 then Err ErrRange else parse_digits n1 s'
      end
  end.

Definition ParseUint (s : string) : res NumError Z :=
  match s with EmptyString => Err ErrSyntax | _ => parse_digits 0 s end.

(** [strconv.ParseInt(s, 10, 64)]: an optional sign, then an unsigned value
    that must fit 63 bits (or be [2^63] when negative). *)
Definition ParseInt (s : string) : res NumError Z :=
  let '(neg, digits) :=
    match s with
    | String "+"%char s' => (false, s')
    | String "-"%char s' => (true, s')
    | _ => (false, s)
    end in
  match s with
  | EmptyString => Err ErrSyntax
  | _ =>
      match ParseUint digits with
      | Err ErrSyntax => Err ErrSyntax
      | Err ErrRange => Err ErrRange
      | Ok un =>
          if negb neg && (2 ^ 63 <=? un) then Err ErrRange
          else if neg && (2 ^ 63 <? un) then Err ErrRange
          else Ok (if (neg : bool) then - un else un)
      end
  end.

(** [strconv.FormatInt(z, 10)], and the [%d] verb of [fmt.Sprintf]. *)
Definition FormatInt (z : Z) : string := pretty z.

(** ** [strings]

    [strings.Split(s, sep)] for a separator of one character. *)
Fixpoint splitOn (sep : ascii) (s : string) : list string :=
  match s with
  | EmptyString => [""]
  | String a s' =>
      if bool_decide (a = sep) then "" :: splitOn sep s'
      else match splitOn sep s' with
           | piece :: pieces => String a piece :: pieces
           | [] => [String a ""]
           end
  end.

(** [strings.TrimSpace] on ASCII text . *)
Definition isSpace (a : ascii) : bool :=
  let n := nat_of_ascii a in bool_decide (n = 32 ∨ (9 ≤ n ∧ n ≤ 13))%nat.

Fixpoint trimLeft (s : string) : string :=
  match s with
  | String a s' => if isSpace a then trimLeft s' else s
  | EmptyString => ""
  end.
Fixpoint trimRight (s : string) : string :=
  match s with
  | EmptyString => ""
  | String a s' =>
      match trimRight s' with
      | EmptyString => if isSpace a then "" else String a ""
      | t => String a t
      end
  end.
Definition TrimSpace (s : string) : string := trimRight (trimLeft s).

(** ** [sort.Slice] with a [<] on an integer key

    [sort.Slice] leaves the order of equal keys open; [sort_slice] is one
    such sort, and [sort_slice_unique] shows that on distinct keys it is the
    only one. *)
Definition key_le {A} (key : A → Z) (x y : A) : Prop := key x ≤ key y.

#[global] Instance key_le_dec {A} (key : A → Z) (x y : A) : Decision (key_le key x y) :=
  decide (key x ≤ key y).

Definition sort_slice {A} (key : A → Z) (l : list A) : list A :=
  merge_sort (key_le key) l.

(** ** Lemmas *)

#[global] Instance key_le_total {A} (key : A → Z) : Total (key_le key).
Proof. intros x y. unfold key_le. lia. Qed.

#[global] Instance key_le_trans {A} (key : A → Z) : Transitive (key_le key).
Proof. intros x y z. unfold key_le. lia. Qed.

Lemma sort_slice_perm {A} (key : A → Z) l : sort_slice key l ≡ₚ l.
Proof. apply merge_sort_Permutation. Qed.

Lemma sort_slice_sorted {A} (key : A → Z) l :
  StronglySorted (key_le key) (sort_slice key l).
Proof. apply StronglySorted_merge_sort; apply _. Qed.

Lemma StronglySorted_last {A} (key : A → Z) l x :
  StronglySorted (key_le key) l → last l = Some x → ∀ y, y ∈ l → key y ≤ key x.
Proof.
  induction 1 as [|z l Hl IH Hz]; [done|]. intros Hlast y Hy.
  destruct l as [|z' l]; [apply list_elem_of_singleton in Hy; by simplify_eq/=|].
  rewrite last_cons_cons in Hlast. apply elem_of_cons in Hy as [->|Hy]; [|by apply IH].
  rewrite Forall_forall in Hz. apply Hz. by apply last_Some_elem_of.
Qed.

Lemma NoDup_key_inj {A B} (key : A → B) (l : list A) x y :
  NoDup (key <$> l) → x ∈ l → y ∈ l → key x = key y → x = y.
Proof.
  intros Hnd [i Hi]%list_elem_of_lookup [j Hj]%list_elem_of_lookup Heq.
  assert (i = j) as ->; [|congruence].
  eapply (NoDup_lookup _ i j (key x) Hnd); rewrite list_lookup_fmap; [by rewrite Hi|by rewrite Hj, Heq].
Qed.

(** Any sorted permutation of a list with distinct keys is the same list. *)
Lemma sort_slice_unique {A} (key : A → Z) (l l' : list A) :
  NoDup (key <$> l) → l' ≡ₚ l → StronglySorted (key_le key) l' → l' = sort_slice key l.
Proof.
  intros Hnd Hp Hs. apply (StronglySorted_unique_strong (key_le key)); [|done| |].
  - intros x1 x2 H1 H2 Hle1 Hle2. unfold key_le in *.
    apply (NoDup_key_inj key l); [done|by rewrite <- Hp|by rewrite sort_slice_perm in H2|lia].
  - apply sort_slice_sorted.
  - by rewrite sort_slice_perm.
Qed.

Lemma maps_Copy_lookup dst src k :
  maps_Copy dst src !! k = match entries src !! k with Some v => Some v | None => dst !! k end.
Proof.
  unfold maps_Copy. rewrite lookup_union. by destruct (entries src !! k), (dst !! k).
Qed.

Lemma digit_val_pretty x : (x < 10)%N → digit_val (pretty_N_char x) = Some (Z.of_N x).
Proof.
  intros Hx. assert (x = 0 ∨ x = 1 ∨ x = 2 ∨ x = 3 ∨ x = 4 ∨ x = 5 ∨ x = 6 ∨ x = 7
    ∨ x = 8 ∨ x = 9)%N as H by lia. by destruct_or! H; subst.
Qed.

Lemma parse_digits_go x s :
  Z.of_N x ≤ maxUint64 → parse_digits 0 (pretty_N_go x s) = parse_digits (Z.of_N x) s.
Proof.
  revert s. induction (N.lt_wf_0 x) as [x _ IH]; intros s Hx.
  destruct (decide (0 < x)%N) as [Hpos|Hz]; [|by assert (x = 0%N) as -> by lia].
  rewrite pretty_N_go_step by done.
  assert (Hd : (x = 10 * (x `div` 10) + x `mod` 10)%N) by (apply N.div_mod; lia).
  assert (Hm : (x `mod` 10 < 10)%N) by (apply N.mod_lt; lia).
  assert (Hlt : (x `div` 10 < x)%N) by by apply N.div_lt.
  rewrite IH; [|done|]; simpl.
  - rewrite digit_val_pretty by done. remember (x `div` 10)%N as q. remember (x `mod` 10)%N as m.
    assert (Z.of_N q * 10 + Z.of_N m = Z.of_N x) as -> by lia.
    destruct (Z.ltb_spec maxUint64 (Z.of_N x)); [lia|done].
  - remember (x `div` 10)%N as q. lia.
Qed.

Lemma pretty_N_not_empty (x : N) : pretty x ≠ "".
Proof.
  unfold pretty, pretty_N. case_decide; [done|]. rewrite pretty_N_go_step by lia.
  intros Heq. apply (f_equal String.length) in Heq. revert Heq.
  assert (Hlen : ∀ y s, (String.length s ≤ String.length (pretty_N_go y s))%nat).
  { intros y. induction (N.lt_wf_0 y) as [y _ IH]; intros s.
    destruct (decide (0 < y)%N) as [Hpos|Hz]; [|by assert (y = 0%N) as -> by lia].
    rewrite pretty_N_go_step by done. etrans; [|apply IH; by apply N.div_lt]. simpl. lia. }
  match goal with |- context [ pretty_N_go ?y ?s ] => specialize (Hlen y s) end.
  simpl in *. lia.
Qed.

(** The first character of a printed natural number is a digit, so no sign. *)
Lemma pretty_N_go_head x s :
  (0 < x)%N → ∃ c s', pretty_N_go x s = String c s' ∧ is_Some (digit_val c).
Proof.
  revert s. induction (N.lt_wf_0 x) as [x _ IH]; intros s Hpos.
  rewrite pretty_N_go_step by done.
  assert (Hm : (x `mod` 10 < 10)%N) by (apply N.mod_lt; lia).
  destruct (decide (0 < x `div` 10)%N) as [Hd|Hd].
  - apply IH; [by apply N.div_lt|done].
  - assert (x `div` 10 = 0)%N as -> by by apply N.le_0_r, N.nlt_ge. rewrite pretty_N_go_0.
    eexists _, _. split; [done|]. by rewrite digit_val_pretty.
Qed.

Lemma pretty_N_head (x : N) :
  ∃ c s, pretty x = String c s ∧ is_Some (digit_val c).
Proof.
  unfold pretty, pretty_N. case_decide; [by eexists _, _|].
  apply pretty_N_go_head. lia.
Qed.

Lemma ParseUint_pretty (x : N) : Z.of_N x ≤ maxUint64 → ParseUint (pretty x) = Ok (Z.of_N x).
Proof.
  intros Hx. destruct (pretty_N_head x) as (c & s & Heq & _). unfold ParseUint.
  rewrite Heq, <- Heq. unfold pretty, pretty_N. case_decide as Hz; [by subst|].
  by rewrite parse_digits_go.
Qed.

Lemma digit_val_not_sign c : is_Some (digit_val c) → c ≠ "+"%char ∧ c ≠ "-"%char.
Proof. intros [d Hd]. split; intros ->; done. Qed.

Lemma pretty_Z_nonneg (z : Z) : 0 ≤ z → pretty z = pretty (Z.to_N z).
Proof. by destruct z. Qed.

Lemma pretty_Z_neg (z : Z) : z < 0 → pretty z = "-" +:+ pretty (Z.to_N (- z)).
Proof. by destruct z. Qed.

Lemma FormatInt_not_empty z : FormatInt z ≠ "".
Proof.
  unfold FormatInt. destruct (Z.leb_spec 0 z).
  - rewrite pretty_Z_nonneg by done. apply pretty_N_not_empty.
  - by rewrite pretty_Z_neg.
Qed.

(** [ParseInt] undoes [FormatInt] on every 64-bit value. *)
Lemma ParseInt_FormatInt z : in_int64 z → ParseInt (FormatInt z) = Ok z.
Proof.
  unfold in_int64, FormatInt. intros Hz. destruct (Z.leb_spec 0 z) as [Hp|Hn].
  - rewrite pretty_Z_nonneg by done.
    assert (HU := ParseUint_pretty (Z.to_N z)). rewrite Z2N.id in HU by done.
    destruct (pretty_N_head (Z.to_N z)) as (c & s & Heq & [Hc1 Hc2]%digit_val_not_sign).
    assert (Hsign : ParseInt (pretty (Z.to_N z)) =
      match ParseUint (pretty (Z.to_N z)) with
      | Ok un => if 2 ^ 63 <=? un then Err ErrRange else Ok un
      | Err e => Err e
      end).
    { rewrite Heq. unfold ParseInt. destruct c as [[] [] [] [] [] [] [] []]; try done;
        simpl; (destruct (parse_digits _ _) as [un|[]] eqn:?); simpl in *; simplify_eq;
        try done; repeat case_match; done. }
    rewrite Hsign, HU by (unfold maxUint64; lia).
    by destruct (Z.leb_spec (2 ^ 63) z); [lia|].
  - rewrite pretty_Z_neg by done.
    assert (HU := ParseUint_pretty (Z.to_N (- z))). rewrite Z2N.id in HU by lia.
    unfold ParseInt. rewrite string_app_cons, string_app_nil_l, HU by (unfold maxUint64; lia).
    simpl. destruct (Z.ltb_spec (2 ^ 63) (- z)); [lia|]. f_equal. lia.
Qed.

Lemma string_mem_pretty_N_go x s :
  string_mem "-"%char s = false → string_mem "-"%char (pretty_N_go x s) = false.
Proof.
  revert s. induction (N.lt_wf_0 x) as [x _ IH]; intros s Hs.
  destruct (decide (0 < x)%N) as [Hpos|Hz]; [|by assert (x = 0%N) as -> by lia].
  rewrite pretty_N_go_step by done. apply IH; [by apply N.div_lt|]. simpl. rewrite Hs.
  assert (Hm : (x `mod` 10 < 10)%N) by (apply N.mod_lt; lia).
  destruct (digit_val_not_sign (pretty_N_char (x `mod` 10))) as [_ Hne].
  { by rewrite digit_val_pretty. }
  by rewrite bool_decide_eq_false_2.
Qed.

Lemma string_mem_FormatInt z : 0 ≤ z → string_mem "-"%char (FormatInt z) = false.
Proof.
  intros Hz. unfold FormatInt. rewrite pretty_Z_nonneg by done. unfold pretty, pretty_N.
  case_decide; [done|]. by apply string_mem_pretty_N_go.
Qed.

Lemma FormatInt_inj z1 z2 : FormatInt z1 = FormatInt z2 → z1 = z2.
Proof. apply (inj pretty). Qed.

(** ** Splitting *)

Lemma splitOn_nonempty sep s : splitOn sep s ≠ [].
Proof. destruct s as [|a s]; [done|]. simpl. case_bool_decide; [done|]. by destruct (splitOn sep s). Qed.
