(* ===== verification/Memory.v ===== *)
(** * Go memory

    The rest of the development treats API objects as values.  In the program
    they are graphs of pointers, slices and maps that may share memory, so this
    file models memory as Go code sees it: addresses, cells that hold a variable,
    an array or a map, and programs that allocate, load and store.  [Readable]
    says how a datum in memory stands for a value, and [Deep] what it means for
    a copy function to be deep; the combinators for pointers, slices and maps
    are proved to preserve it. *)

From Stdlib Require Import Eqdep_dec.
From S2P Require Import Prelude.

(** The types of the variables a program keeps in memory. *)
Class Universe := {
  Ty : Type;
  #[global] Ty_eq_dec :: EqDecision Ty;
  denote : Ty → Type;
}.

Abbreviation loc := positive.

Section memory.
Context `{Universe}.

(** What an address can hold: a variable, the backing array of a slice, or the
    table behind a map. *)
Inductive Cell :=
| CVar (t : Ty) (x : denote t)
| CArray (t : Ty) (l : list (denote t))
| CMap (t : Ty) (m : gmap string (denote t)).

Abbreviation Heap := (gmap loc Cell).

(** A slice: an address in an array, an offset and a length; [None] is nil. *)
Record Slice := mkSlice { sl_array : loc; sl_off : nat; sl_len : nat }.

(** What Go leaves open: which free address an allocation returns, and in which
    order [range] goes through a map. *)
Class GoRuntime := {
  new_addr : Heap → loc;
  range : ∀ {A}, gmap string A → list (string * A);
}.

Class GoRuntimeLaws `{GoRuntime} : Prop := {
  new_addr_fresh : ∀ h : Heap, h !! new_addr h = None;
  range_perm : ∀ A (m : gmap string A), range m ≡ₚ map_to_list m;
}.

(** ** Programs *)

(** [None] is a run-time panic (a nil or dangling address). *)
Definition M (A : Type) : Type := Heap → option (A * Heap).
#[global] Instance M_ret : MRet M := λ A a h, Some (a, h).
#[global] Instance M_bind : MBind M := λ A B f m h,
  match m h with Some (a, h') => f a h' | None => None end.

Definition retype {F : Ty → Type} {t : Ty} (t' : Ty) (x : F t) : option (F t') :=
  match decide (t = t') with
  | left E => Some (eq_rect t F x t' E)
  | right _ => None
  end.

Lemma retype_same {F : Ty → Type} {t : Ty} (x : F t) : retype t x = Some x.
Proof.
  unfold retype. destruct (decide (t = t)) as [E|]; [|done].
  by rewrite (UIP_dec Ty_eq_dec E eq_refl).
Qed.

Definition varAt (h : Heap) (t : Ty) (l : loc) : option (denote t) :=
  match h !! l with Some (CVar t' x) => retype t x | _ => None end.
Definition arrayAt (h : Heap) (t : Ty) (l : loc) : option (list (denote t)) :=
  match h !! l with Some (CArray t' x) => retype (F := λ t, list (denote t)) t x | _ => None end.
Definition mapAt (h : Heap) (t : Ty) (l : loc) : option (gmap string (denote t)) :=
  match h !! l with Some (CMap t' x) => retype (F := λ t, gmap string (denote t)) t x | _ => None end.

(** The elements of a slice. *)
Definition elemsAt (h : Heap) (t : Ty) (s : Slice) : option (list (denote t)) :=
  match arrayAt h t (sl_array s) with
  | Some a => if bool_decide (sl_off s + sl_len s ≤ length a) then Some (take (sl_len s) (drop (sl_off s) a)) else None
  | None => None
  end.

Definition reading {A} (f : Heap → option A) : M A := λ h,
  match f h with Some a => Some (a, h) | None => None end.

Definition load (t : Ty) (l : loc) : M (denote t) := reading (λ h, varAt h t l).
Definition loadElems (t : Ty) (s : Slice) : M (list (denote t)) := reading (λ h, elemsAt h t s).
Definition loadMap (t : Ty) (l : loc) : M (gmap string (denote t)) := reading (λ h, mapAt h t l).

(** [*l = x], for a variable that exists. *)
Definition store (t : Ty) (l : loc) (x : denote t) : M unit := λ h,
  match varAt h t l with Some _ => Some (tt, <[l := CVar t x]> h) | None => None end.

Section copy.
Context `{GoRuntime}.

Definition alloc (c : Cell) : M loc := λ h, Some (new_addr h, <[new_addr h := c]> h).
Definition new (t : Ty) (x : denote t) : M loc := alloc (CVar t x).

(** [if in.F != nil { *out = new(T); in.F.DeepCopyInto(out.F) }]. *)
Definition copyPtr (t : Ty) (copy : denote t → M (denote t)) (p : option loc) : M (option loc) :=
  match p with
  | None => mret None
  | Some l =>
      x ← load t l;
      y ← copy x;
      l' ← new t y;
      mret (Some l')
  end.

(** [for i := range *in { copy the element }]. *)
Fixpoint copyElems {A} (copy : A → M A) (l : list A) : M (list A) :=
  match l with
  | [] => mret []
  | x :: l' =>
      y ← copy x;
      ys ← copyElems copy l';
      mret (y :: ys)
  end.

(** [if in.F != nil { *out = make([]T, len( *in)); ... }]. *)
Definition copySlice (t : Ty) (copy : denote t → M (denote t)) (s : option Slice) : M (option Slice) :=
  match s with
  | None => mret None
  | Some s =>
      xs ← loadElems t s;
      ys ← copyElems copy xs;
      l ← alloc (CArray t ys);
      mret (Some (mkSlice l 0 (length ys)))
  end.

(** [for key, val := range *in { out[key] = copy of val }], on the entries
    in the order of the iteration. *)
Fixpoint copyEntries {A} (copy : A → M A) (out : gmap string A) (l : list (string * A)) : M (gmap string A) :=
  match l with
  | [] => mret out
  | (key, val) :: l' =>
      outVal ← copy val;
      copyEntries copy (<[key := outVal]> out) l'
  end.

(** [if in.F != nil { *out = make(map[string]T, len( *in)); ... }]. *)
Definition copyMap (t : Ty) (copy : denote t → M (denote t)) (m : option loc) : M (option loc) :=
  match m with
  | None => mret None
  | Some l =>
      entries ← loadMap t l;
      out ← copyEntries copy ∅ (range entries);
      l' ← alloc (CMap t out);
      mret (Some l')
  end.

(** [DeepCopy] of a pointer to [T]: nil for nil, else a new variable. *)
Definition DeepCopyOf (t : Ty) (DeepCopyInto : denote t → M (denote t)) (p : option loc) : M (option loc) :=
  copyPtr t DeepCopyInto p.
End copy.

(** ** Data in memory *)

(** [Readable rd]: [rd h a] is the value [a] stands for in [h], if it stands for
    one, and memory that only grows does not change it. *)
Class Readable {A V} (rd : Heap → A → option V) : Prop :=
  readable_mono : ∀ h g a v, h ⊆ g → rd h a = Some v → rd g a = Some v.

Definition readFlat {A} (_ : Heap) (a : A) : option A := Some a.

Definition readPtr (t : Ty) {V} (rd : Heap → denote t → option V) (h : Heap) (p : option loc)
    : option (option V) :=
  match p with
  | None => Some None
  | Some l => x ← varAt h t l; v ← rd h x; Some (Some v)
  end.

Definition readElems {A V} (rd : Heap → A → option V) (h : Heap) (l : list A) : option (list V) :=
  mapM (rd h) l.

Definition readSlice (t : Ty) {V} (rd : Heap → denote t → option V) (h : Heap) (s : option Slice)
    : option (list V) :=
  match s with
  | None => Some []
  | Some s => xs ← elemsAt h t s; readElems rd h xs
  end.

Definition readEntry {A V} (rd : Heap → A → option V) (h : Heap) (kv : string * A) : option (string * V) :=
  v ← rd h kv.2; Some (kv.1, v).

Definition readEntries {A V} (rd : Heap → A → option V) (h : Heap) (m : gmap string A)
    : option (gmap string V) :=
  list_to_map <$> mapM (readEntry rd h) (map_to_list m).

Definition readMap (t : Ty) {V} (rd : Heap → denote t → option V) (h : Heap) (m : option loc)
    : option (option (gmap string V)) :=
  match m with
  | None => Some None
  | Some l => m ← mapAt h t l; vs ← readEntries rd h m; Some (Some vs)
  end.

Lemma varAt_mono h g t l x : h ⊆ g → varAt h t l = Some x → varAt g t l = Some x.
Proof.
  unfold varAt. intros Hsub. destruct (h !! l) as [c|] eqn:Hl; [|done].
  by rewrite (lookup_weaken h g l c Hl Hsub).
Qed.

Lemma arrayAt_mono h g t l x : h ⊆ g → arrayAt h t l = Some x → arrayAt g t l = Some x.
Proof.
  unfold arrayAt. intros Hsub. destruct (h !! l) as [c|] eqn:Hl; [|done].
  by rewrite (lookup_weaken h g l c Hl Hsub).
Qed.

Lemma mapAt_mono h g t l x : h ⊆ g → mapAt h t l = Some x → mapAt g t l = Some x.
Proof.
  unfold mapAt. intros Hsub. destruct (h !! l) as [c|] eqn:Hl; [|done].
  by rewrite (lookup_weaken h g l c Hl Hsub).
Qed.

Lemma elemsAt_mono h g t s xs : h ⊆ g → elemsAt h t s = Some xs → elemsAt g t s = Some xs.
Proof.
  unfold elemsAt. intros Hsub. destruct (arrayAt h t _) as [a|] eqn:Ha; [|done].
  by rewrite (arrayAt_mono h g t _ a Hsub Ha).
Qed.

(** [readEntries] is pointwise. *)
Lemma readEntries_sound {A V} (rd : Heap → A → option V) h (m : gmap string A) vs :
  readEntries rd h m = Some vs → map_Forall2 (λ _ x v, rd h x = Some v) m vs.
Proof.
  unfold readEntries. rewrite fmap_Some. intros (l & Hl%mapM_Some & ->) k.
  assert (Hkeys : l.*1 = (map_to_list m).*1).
  { clear -Hl. induction Hl as [|[k x] [k' v] l l' Hkv _ IH]; [done|]. simpl. f_equal; [|done].
    unfold readEntry in Hkv. simpl in Hkv. by apply bind_Some in Hkv as (v' & _ & [= <- _]). }
  assert (Hnd : NoDup l.*1) by (rewrite Hkeys; apply NoDup_fst_map_to_list).
  destruct (m !! k) as [x|] eqn:Hk.
  - apply elem_of_map_to_list, list_elem_of_lookup in Hk as [i Hi].
    destruct (Forall2_lookup_l _ _ _ _ _ Hl Hi) as ([k' v] & Hi' & Hkv).
    unfold readEntry in Hkv. simpl in Hkv. apply bind_Some in Hkv as (v' & Hv & [= <- ->]).
    rewrite (elem_of_list_to_map_1 l k v) by (done || by eapply list_elem_of_lookup_2). by constructor.
  - rewrite not_elem_of_list_to_map_1; [constructor|]. rewrite Hkeys. intros Hin.
    apply list_elem_of_fmap in Hin as ([k' x] & -> & Hin%elem_of_map_to_list). simpl in Hk. congruence.
Qed.

Lemma readEntries_complete {A V} (rd : Heap → A → option V) h (m : gmap string A) vs :
  map_Forall2 (λ _ x v, rd h x = Some v) m vs → readEntries rd h m = Some vs.
Proof.
  intros Hm. assert (Hex : is_Some (readEntries rd h m)).
  { unfold readEntries. apply fmap_is_Some, mapM_is_Some_2. apply Forall_forall.
    intros [k x] Hkx%elem_of_map_to_list. specialize (Hm k). rewrite Hkx in Hm.
    inversion Hm as [? v Hv|]; subst. unfold readEntry. simpl. rewrite Hv. by eexists. }
  destruct Hex as [vs' Hvs']. rewrite Hvs'. f_equal. apply readEntries_sound in Hvs'.
  apply map_eq. intros k. specialize (Hm k). specialize (Hvs' k).
  inversion Hm; inversion Hvs'; congruence.
Qed.

#[global] Instance readable_flat {A} : Readable (@readFlat A).
Proof. by intros h g a v _. Qed.

#[global] Instance readable_ptr t {V} (rd : Heap → denote t → option V) :
  Readable rd → Readable (readPtr t rd).
Proof.
  intros Hr h g [l|] v Hsub; [|done]. simpl. intros (x & Hx & (w & Hw & [= <-])%bind_Some)%bind_Some.
  rewrite (varAt_mono h g t l x Hsub Hx). simpl. by rewrite (Hr h g x w Hsub Hw).
Qed.

Lemma readElems_mono {A V} (rd : Heap → A → option V) h g l vs :
  Readable rd → h ⊆ g → readElems rd h l = Some vs → readElems rd g l = Some vs.
Proof.
  intros Hr Hsub. unfold readElems. rewrite !mapM_Some. intros HF.
  eapply Forall2_impl; [exact HF|]. intros x v. by apply Hr.
Qed.

#[global] Instance readable_slice t {V} (rd : Heap → denote t → option V) :
  Readable rd → Readable (readSlice t rd).
Proof.
  intros Hr h g [s|] v Hsub; [|done]. simpl. intros (xs & Hxs & Hv)%bind_Some.
  rewrite (elemsAt_mono h g t s xs Hsub Hxs). simpl. by eapply readElems_mono.
Qed.

Lemma readEntries_mono {A V} (rd : Heap → A → option V) h g m vs :
  Readable rd → h ⊆ g → readEntries rd h m = Some vs → readEntries rd g m = Some vs.
Proof.
  intros Hr Hsub Hm%readEntries_sound. apply readEntries_complete.
  eapply map_Forall2_impl; [done|]. intros k x v. by apply Hr.
Qed.

#[global] Instance readable_map t {V} (rd : Heap → denote t → option V) :
  Readable rd → Readable (readMap t rd).
Proof.
  intros Hr h g [l|] v Hsub; [|done]. simpl. intros (m & Hm & (vs & Hvs & [= <-])%bind_Some)%bind_Some.
  rewrite (mapAt_mono h g t l m Hsub Hm). simpl. by rewrite (readEntries_mono rd h g m vs Hr Hsub Hvs).
Qed.

(** ** Deep copies *)

Definition mwp {A} (m : M A) (h : Heap) (Q : A → Heap → Prop) : Prop :=
  match m h with Some (a, h') => Q a h' | None => False end.

(** Run on a datum that stands for [v], a deep copy ends without a panic, adds
    cells but changes none, and returns a datum that stands for [v] in the new
    cells alone. *)
Class Deep {A V} (rd : Heap → A → option V) (copy : A → M A) : Prop :=
  deep_copy : ∀ h a v, rd h a = Some v →
    mwp (copy a) h (λ b h', h ⊆ h' ∧ rd (h' ∖ h) b = Some v).

Lemma mwp_bind {A B} (m : M A) (f : A → M B) h Q :
  mwp m h (λ a h', mwp (f a) h' Q) → mwp (m ≫= f) h Q.
Proof. unfold mwp, mbind, M_bind. by destruct (m h) as [[a h']|]. Qed.

Lemma mwp_mono {A} (m : M A) h (Q Q' : A → Heap → Prop) :
  mwp m h Q → (∀ a h', Q a h' → Q' a h') → mwp m h Q'.
Proof. unfold mwp. destruct (m h) as [[a h']|]; auto. Qed.

Lemma mwp_reading {A} (f : Heap → option A) h x Q : f h = Some x → Q x h → mwp (reading f) h Q.
Proof. unfold mwp, reading. by intros ->. Qed.

Lemma difference_mono (h0 h h' : Heap) : h ⊆ h' → h ∖ h0 ⊆ h' ∖ h0.
Proof.
  intros Hsub. apply map_subseteq_spec. intros l c. rewrite !lookup_difference_Some.
  intros [Hl H0]. split; [by eapply lookup_weaken|done].
Qed.

Lemma difference_anti (h0 h1 h : Heap) : h0 ⊆ h1 → h ∖ h1 ⊆ h ∖ h0.
Proof.
  intros Hsub. apply map_subseteq_spec. intros l c. rewrite !lookup_difference_Some.
  intros [Hl H1]. split; [done|]. by eapply lookup_weaken_None.
Qed.

(** One copy within a longer program that started on [h0]. *)
Lemma mwp_deep {A V B} (rd : Heap → A → option V) (copy : A → M A) (k : A → M B) h0 h x v Q :
  Readable rd → Deep rd copy → h0 ⊆ h → rd h0 x = Some v →
  (∀ y h', h0 ⊆ h' → h ∖ h0 ⊆ h' ∖ h0 → rd (h' ∖ h0) y = Some v → mwp (k y) h' Q) →
  mwp (copy x ≫= k) h Q.
Proof.
  intros Hr Hc Hsub Hx HQ. apply mwp_bind. eapply mwp_mono.
  - apply Hc. by eapply Hr.
  - intros y h' [Hh Hy]. apply HQ; [by etrans|by apply difference_mono|].
    eapply Hr; [|done]. by apply difference_anti.
Qed.

Section deep.
Context `{GoRuntimeLaws}.

#[global] Instance deep_flat {A} : Deep (@readFlat A) mret.
Proof. intros h a v Hv. by split. Qed.

Lemma mwp_alloc {B} (c : Cell) (k : loc → M B) h Q :
  (∀ l h', h !! l = None → h' = <[l := c]> h → mwp (k l) h' Q) → mwp (alloc c ≫= k) h Q.
Proof. intros HQ. apply mwp_bind. unfold mwp at 1, alloc. by apply HQ; [apply new_addr_fresh|]. Qed.

(** What an allocation adds to the cells beyond [h0]. *)
Lemma alloc_new (h0 h : Heap) l c :
  h0 ⊆ h → h !! l = None → h0 ⊆ <[l := c]> h ∧ h ∖ h0 ⊆ <[l := c]> h ∖ h0 ∧
  (<[l := c]> h ∖ h0) !! l = Some c.
Proof.
  intros Hsub Hl. assert (Hh : h ⊆ <[l := c]> h) by by apply insert_subseteq.
  split; [by etrans|]. split; [by apply difference_mono|].
  apply lookup_difference_Some. rewrite lookup_insert_eq. split; [done|]. by eapply lookup_weaken_None.
Qed.

#[global] Instance deep_ptr t {V} (rd : Heap → denote t → option V) copy :
  Readable rd → Deep rd copy → Deep (readPtr t rd) (copyPtr t copy).
Proof.
  intros Hr Hc h [l|] v; [|by intros [= <-]]. simpl.
  intros (x & Hx & (w & Hw & [= <-])%bind_Some)%bind_Some.
  apply mwp_bind, (mwp_reading _ _ x); [done|].
  apply (mwp_deep rd copy _ h h x w); [done..|]. intros y h1 Hsub _ Hy.
  apply mwp_alloc. intros l' h2 Hl' ->. destruct (alloc_new h h1 l' (CVar t y) Hsub Hl') as (Hn1 & Hn2 & Hn3).
  split; [done|]. simpl. unfold varAt. rewrite Hn3, retype_same. simpl.
  by rewrite (Hr _ _ y w Hn2 Hy).
Qed.

Lemma mwp_copyElems {A V} (rd : Heap → A → option V) copy h0 l vs h :
  Readable rd → Deep rd copy → h0 ⊆ h → readElems rd h0 l = Some vs →
  mwp (copyElems copy l) h (λ ys h',
    h0 ⊆ h' ∧ h ∖ h0 ⊆ h' ∖ h0 ∧ readElems rd (h' ∖ h0) ys = Some vs).
Proof.
  intros Hr Hc. revert vs h. induction l as [|x l IH]; intros vs h Hsub; [by intros [= <-]|].
  unfold readElems. simpl. intros (v & Hv & (vs' & Hvs' & [= <-])%bind_Some)%bind_Some.
  apply (mwp_deep rd copy _ h0 h x v); [done..|]. intros y h1 Hs1 Hd1 Hy.
  apply mwp_bind. eapply mwp_mono; [by apply (IH vs')|]. intros ys h2 (Hs2 & Hd2 & Hys).
  split; [done|]. split; [by etrans|]. simpl. rewrite (Hr _ _ y v Hd2 Hy). simpl.
  unfold readElems in Hys. by rewrite Hys.
Qed.

#[global] Instance deep_slice t {V} (rd : Heap → denote t → option V) copy :
  Readable rd → Deep rd copy → Deep (readSlice t rd) (copySlice t copy).
Proof.
  intros Hr Hc h [s|] v; [|by intros [= <-]]. simpl. intros (xs & Hxs & Hv)%bind_Some.
  apply mwp_bind, (mwp_reading _ _ xs); [done|].
  apply mwp_bind. eapply mwp_mono; [by apply (mwp_copyElems rd copy h xs v)|].
  intros ys h1 (Hsub & _ & Hys).
  apply mwp_alloc. intros l h2 Hl ->. destruct (alloc_new h h1 l (CArray t ys) Hsub Hl) as (Hn1 & Hn2 & Hn3).
  split; [done|]. simpl. unfold elemsAt, arrayAt. simpl. rewrite Hn3, retype_same.
  rewrite bool_decide_eq_true_2 by done. rewrite drop_0, firstn_all. simpl.
  by eapply readElems_mono.
Qed.

(** The iteration over a map, in whatever order it visits the entries. *)
Lemma mwp_copyEntries {A V} (rd : Heap → A → option V) copy h0 (vs : gmap string V) l
    (out : gmap string A) h :
  Readable rd → Deep rd copy → h0 ⊆ h → NoDup l.*1 →
  (∀ key x, (key, x) ∈ l → ∃ v, vs !! key = Some v ∧ rd h0 x = Some v) →
  mwp (copyEntries copy out l) h (λ out' h', h0 ⊆ h' ∧ h ∖ h0 ⊆ h' ∖ h0 ∧
    ∀ key, (key ∉ l.*1 ∧ out' !! key = out !! key) ∨
      ∃ y v, key ∈ l.*1 ∧ out' !! key = Some y ∧ vs !! key = Some v ∧ rd (h' ∖ h0) y = Some v).
Proof.
  intros Hr Hc. revert out h. induction l as [|[key x] l IH]; intros out h Hsub Hnd Hl.
  { split; [done|]. split; [done|]. intros key. left. by split; [apply not_elem_of_nil|]. }
  simpl in Hnd. apply NoDup_cons in Hnd as [Hkey Hnd].
  destruct (Hl key x) as (v & Hv & Hx); [by left|].
  apply (mwp_deep rd copy _ h0 h x v); [done..|]. intros y h1 Hs1 Hd1 Hy.
  eapply mwp_mono; [apply IH; [done|done|intros; apply Hl; by right]|].
  intros out' h2 (Hs2 & Hd2 & Hout). split; [done|]. split; [by etrans|]. intros key'.
  destruct (Hout key') as [[Hin Heq]|(y' & v' & Hin & Hn1 & Hn2 & Hn3)].
  - destruct (decide (key' = key)) as [->|Hne].
    + right. exists y, v. rewrite Heq, lookup_insert_eq. split; [by left|]. split; [done|].
      split; [done|]. by eapply Hr.
    + left. rewrite Heq, lookup_insert_ne by done. split; [|done]. simpl. rewrite elem_of_cons. by intros [->|?].
  - right. exists y', v'. split; [by right|done].
Qed.

#[global] Instance deep_map t {V} (rd : Heap → denote t → option V) copy :
  Readable rd → Deep rd copy → Deep (readMap t rd) (copyMap t copy).
Proof.
  intros Hr Hc h [l|] v; [|by intros [= <-]]. simpl.
  intros (m & Hm & (vs & Hvs & [= <-])%bind_Some)%bind_Some.
  apply mwp_bind, (mwp_reading _ _ m); [done|]. apply readEntries_sound in Hvs.
  assert (Hin : ∀ key x, (key, x) ∈ range m ↔ m !! key = Some x).
  { intros key x. rewrite (range_perm _ m). apply elem_of_map_to_list. }
  assert (Hkeys : ∀ key, key ∈ (range m).*1 ↔ is_Some (m !! key)).
  { intros key. rewrite list_elem_of_fmap. split.
    - intros ([key' x] & -> & Hx%Hin). by eexists.
    - intros [x Hx%Hin]. by exists (key, x). }
  apply mwp_bind. eapply mwp_mono; [apply (mwp_copyEntries rd copy h vs); [done|done|done| |]|].
  - rewrite (range_perm _ m). apply NoDup_fst_map_to_list.
  - intros key x Hx%Hin. specialize (Hvs key). rewrite Hx in Hvs. inversion Hvs as [? w Hw|]; subst.
    by exists w.
  - intros out h1 (Hsub & _ & Hout). apply mwp_alloc. intros l' h2 Hl' ->.
    destruct (alloc_new h h1 l' (CMap t out) Hsub Hl') as (Hn1 & Hn2 & Hn3).
    split; [done|]. simpl. unfold mapAt. rewrite Hn3, retype_same. simpl.
    rewrite (readEntries_complete rd _ out vs); [done|].
    eapply map_Forall2_impl; [|intros ? x w; by apply (Hr (h1 ∖ h) _ x w Hn2)].
    intros key. specialize (Hvs key). destruct (Hout key) as [[Hno Heq]|(y & w & Hk & -> & -> & Hy)]; [|by constructor].
    rewrite Heq, lookup_empty. rewrite Hkeys in Hno. apply eq_None_not_Some in Hno. rewrite Hno in Hvs.
    inversion Hvs. constructor.
Qed.
End deep.
End memory.

Abbreviation Heap := (gmap loc Cell).

(** Follow a reader of a struct, which reads its fields one by one. *)
Ltac read_fields H :=
  repeat match type of H with
  | (_ ≫= _) = Some _ => apply bind_Some in H as (? & ? & H); simpl in H
  end.

(** [Readable] of a struct's reader [rd], from its fields. *)
Ltac readable_struct rd :=
  let h := fresh "h" in let g := fresh "g" in let Hsub := fresh "Hsub" in let Hrd := fresh "Hrd" in
  intros h g ? ? Hsub Hrd; unfold rd in Hrd |- *; read_fields Hrd;
  repeat match goal with
  | F : ?r h ?x = Some ?y |- context [?r g ?x] =>
      rewrite (readable_mono (rd := r) h g x y Hsub F); simpl
  end;
  exact Hrd.

(** [Deep] of the pair of a struct's reader [rd] and its copy function [cp],
    from its fields: each copied field is read back in the new cells, and stays
    so while the rest is copied. *)
Ltac deep_field h :=
  lazymatch goal with
  | |- mwp (?c ?x ≫= _) ?hc _ =>
      match goal with
      | F : ?r h x = Some ?v |- _ =>
          apply (mwp_deep r c _ h hc x v); [apply _|apply _|first [assumption | reflexivity]|exact F|];
          let y := fresh "y" in let h' := fresh "h'" in
          let Hs := fresh "Hs" in let Hd := fresh "Hd" in let Hy := fresh "Hy" in
          intros y h' Hs Hd Hy;
          repeat match goal with
          | G : ?r' (hc ∖ h) ?y' = Some ?v' |- _ => apply (readable_mono (rd := r') _ _ _ _ Hd) in G
          end
      end
  end.

Ltac deep_struct rd cp :=
  let h := fresh "h" in let Hrd := fresh "Hrd" in
  intros h ? ? Hrd; unfold rd in Hrd; read_fields Hrd; unfold cp;
  repeat deep_field h;
  split; [first [assumption | reflexivity]|];
  unfold rd; simpl;
  repeat match goal with G : ?r _ ?y = Some ?v |- context [?r _ ?y] => rewrite G; simpl end;
  first [exact Hrd | reflexivity].
