(* ===== verification/K8s.v ===== *)
(** * Kubernetes API data the operator reads and writes

    The shapes of the [k8s.io/api] and [k8s.io/apimachinery] objects the
    operator builds, compares and stores: only the fields its code names,
    with a field for the rest where the API server may add to it.  A leaf
    that the operator only copies (a toleration, an affinity, a volume, ...)
    is kept as its JSON text, [RawJSON]. *)

From S2P Require Import Prelude GoLib.
Local Open Scope Z_scope.

Record RawJSON := mkRawJSON { raw : string }.
#[global] Instance RawJSON_eq_dec : EqDecision RawJSON.
Proof. solve_decision. Defined.

(** [types.NamespacedName]. *)
Record NamespacedName := mkKey { nn_Namespace : string; nn_Name : string }.
#[global] Instance NamespacedName_eq_dec : EqDecision NamespacedName.
Proof. solve_decision. Defined.
#[global] Instance NamespacedName_countable : Countable NamespacedName.
Proof.
  refine (inj_countable' (λ k, (nn_Namespace k, nn_Name k)) (λ p, mkKey p.1 p.2) _).
  abstract (by intros []).
Defined.

(** [metav1.OwnerReference]. *)
Record OwnerReference := mkOwnerRef {
  or_Kind : string;
  or_Name : string;
  or_UID : string;
  or_Controller : bool;
}.
#[global] Instance OwnerReference_eq_dec : EqDecision OwnerReference.
Proof. solve_decision. Defined.

(** [metav1.ObjectMeta]; timestamps are seconds. *)
Record ObjectMeta := mkMeta {
  om_Name : string;
  om_Namespace : string;
  om_Labels : gomap;
  om_Annotations : gomap;
  om_OwnerReferences : list OwnerReference;
  om_Generation : Z;
  om_ResourceVersion : string;
  om_UID : string;
  om_CreationTimestamp : Z;
}.
#[global] Instance ObjectMeta_eq_dec : EqDecision ObjectMeta.
Proof. solve_decision. Defined.

Definition om_key (m : ObjectMeta) : NamespacedName := mkKey (om_Namespace m) (om_Name m).

(** An object's metadata as a Go composite literal leaves it: the named
    fields set, every other field at its zero value. *)
Definition newMeta (name ns : string) (labels annotations : gomap) : ObjectMeta :=
  mkMeta name ns labels annotations [] 0 "" "" 0.

Definition set_om_ResourceVersion (rv : string) (m : ObjectMeta) : ObjectMeta :=
  mkMeta (om_Name m) (om_Namespace m) (om_Labels m) (om_Annotations m)
    (om_OwnerReferences m) (om_Generation m) rv (om_UID m) (om_CreationTimestamp m).

(** [m.Labels = l; m.Annotations = a]. *)
Definition set_om_LabelsAnnotations (l a : gomap) (m : ObjectMeta) : ObjectMeta :=
  mkMeta (om_Name m) (om_Namespace m) l a (om_OwnerReferences m) (om_Generation m)
    (om_ResourceVersion m) (om_UID m) (om_CreationTimestamp m).

(** [metav1.Condition]; statuses are ["True"], ["False"], ["Unknown"]. *)
Record Condition := mkCondition {
  c_Type : string;
  c_Status : string;
  c_ObservedGeneration : Z;
  c_LastTransitionTime : Z;
  c_Reason : string;
  c_Message : string;
}.
#[global] Instance Condition_eq_dec : EqDecision Condition.
Proof. solve_decision. Defined.

Definition ConditionTrue := "True".
Definition ConditionFalse := "False".
Definition ConditionUnknown := "Unknown".

(** The composite literal [metav1.Condition{Type: t, Status: s, Reason: r, Message: m}]. *)
Definition newCondition (t s r m : string) : Condition := mkCondition t s 0 0 r m.

(** ** Core types *)

(** [corev1.ResourceRequirements]; [None] is a nil resource list. *)
Record ResourceRequirements := mkResources {
  rr_Limits : option RawJSON;
  rr_Requests : option RawJSON;
  rr_Claims : list RawJSON;
}.
#[global] Instance ResourceRequirements_eq_dec : EqDecision ResourceRequirements.
Proof. solve_decision. Defined.

Definition noResources : ResourceRequirements := mkResources None None [].

(** [corev1.EnvVar]. *)
Record EnvVar := mkEnv { ev_Name : string; ev_Value : string; ev_ValueFrom : option RawJSON }.
#[global] Instance EnvVar_eq_dec : EqDecision EnvVar.
Proof. solve_decision. Defined.

(** [corev1.ContainerPort]. *)
Record ContainerPort := mkPort { cp_Name : string; cp_ContainerPort : Z; cp_Protocol : string }.
#[global] Instance ContainerPort_eq_dec : EqDecision ContainerPort.
Proof. solve_decision. Defined.

(** [corev1.Container]; [ct_Rest] holds the fields the operator never names
    (image pull policy, termination message path, ...). *)
Record Container := mkContainer {
  ct_Name : string;
  ct_Image : string;
  ct_Args : list string;
  ct_Env : list EnvVar;
  ct_EnvFrom : list RawJSON;
  ct_Ports : list ContainerPort;
  ct_Resources : ResourceRequirements;
  ct_VolumeMounts : list RawJSON;
  ct_SecurityContext : option RawJSON;
  ct_Rest : gmap string string;
}.
#[global] Instance Container_eq_dec : EqDecision Container.
Proof. solve_decision. Defined.

(** [corev1.PodSpec]; [ps_Rest] as for containers. *)
Record PodSpec := mkPodSpec {
  ps_ServiceAccountName : string;
  ps_Containers : list Container;
  ps_NodeSelector : gomap;
  ps_Tolerations : list RawJSON;
  ps_Affinity : option RawJSON;
  ps_SecurityContext : option RawJSON;
  ps_ImagePullSecrets : list RawJSON;
  ps_PriorityClassName : string;
  ps_TopologySpreadConstraints : list RawJSON;
  ps_Volumes : list RawJSON;
  ps_Rest : gmap string string;
}.
#[global] Instance PodSpec_eq_dec : EqDecision PodSpec.
Proof. solve_decision. Defined.

(** [corev1.PodTemplateSpec]. *)
Record PodTemplateSpec := mkTemplate {
  pt_Labels : gomap;
  pt_Annotations : gomap;
  pt_Spec : PodSpec;
}.
#[global] Instance PodTemplateSpec_eq_dec : EqDecision PodTemplateSpec.
Proof. solve_decision. Defined.

(** [appsv1.Deployment]; [dp_Replicas] is a pointer, nil when unset. *)
Record Deployment := mkDeployment {
  dp_Meta : ObjectMeta;
  dp_Replicas : option Z;
  dp_Selector : gmap string string;
  dp_Template : PodTemplateSpec;
}.
#[global] Instance Deployment_eq_dec : EqDecision Deployment.
Proof. solve_decision. Defined.

(** [corev1.ServiceAccount]. *)
Record ServiceAccount := mkServiceAccount { sa_Meta : ObjectMeta }.
#[global] Instance ServiceAccount_eq_dec : EqDecision ServiceAccount.
Proof. solve_decision. Defined.

(** [rbacv1.PolicyRule]. *)
Record PolicyRule := mkRule {
  pr_APIGroups : list string;
  pr_Resources : list string;
  pr_Verbs : list string;
}.
#[global] Instance PolicyRule_eq_dec : EqDecision PolicyRule.
Proof. solve_decision. Defined.

(** [rbacv1.Role]. *)
Record Role := mkRole { ro_Meta : ObjectMeta; ro_Rules : list PolicyRule }.
#[global] Instance Role_eq_dec : EqDecision Role.
Proof. solve_decision. Defined.

(** [rbacv1.Subject]. *)
Record Subject := mkSubject { su_Kind : string; su_Name : string; su_Namespace : string }.
#[global] Instance Subject_eq_dec : EqDecision Subject.
Proof. solve_decision. Defined.

(** [rbacv1.RoleRef]. *)
Record RoleRef := mkRoleRef { rf_APIGroup : string; rf_Kind : string; rf_Name : string }.
#[global] Instance RoleRef_eq_dec : EqDecision RoleRef.
Proof. solve_decision. Defined.

(** [rbacv1.RoleBinding]. *)
Record RoleBinding := mkRoleBinding {
  rb_Meta : ObjectMeta;
  rb_Subjects : list Subject;
  rb_RoleRef : RoleRef;
}.
#[global] Instance RoleBinding_eq_dec : EqDecision RoleBinding.
Proof. solve_decision. Defined.
