(* ===== verification/Types.v ===== *)
(** * The custom resources (api/v1beta1)

    [Redkey], the user-facing resource, and [RedkeyConfig], the sequenced
    desired-state snapshot the operator hands to Robin: their spec and status
    records with the Go field names (prefixed per record), the phase, status
    and condition constants, the methods on the types, and the validation
    rules the markers put into the CRD schema.  Pointers are [option]s. *)

From S2P Require Import Prelude GoLib K8s.
Local Open Scope Z_scope.

(** ** Constants *)

(** Deployment modes. *)
Definition ModeCluster := "cluster".
Definition ModeStandalone := "standalone".

(** Redkey phases. *)
Definition PhaseReady := "Ready".
Definition PhaseConfiguring := "Configuring".
Definition PhaseError := "Error".

(** RedkeyConfig lifecycle phases. *)
Definition ConfigPhasePending := "Pending".
Definition ConfigPhaseInProgress := "InProgress".
Definition ConfigPhaseSuperseded := "Superseded".
Definition ConfigPhaseApplied := "Applied".

(** Operational statuses Robin reports. *)
Definition ClusterStatusInitializing := "Initializing".
Definition ClusterStatusConfiguring := "Configuring".
Definition ClusterStatusReady := "Ready".
Definition ClusterStatusScalingUp := "ScalingUp".
Definition ClusterStatusScalingDown := "ScalingDown".
Definition ClusterStatusScalingToZero := "ScalingToZero".
Definition ClusterStatusUpgrading := "Upgrading".
Definition ClusterStatusMaintenance := "Maintenance".
Definition ClusterPhaseRebalancing := "Rebalancing".
Definition ClusterPhaseError := "Error".

(** Substatus values: information only, the operator does not read them. *)
Definition SubstatusWaitingForPods := "WaitingForPods".
Definition SubstatusRebalancing := "Rebalancing".
Definition SubstatusAttachingReplicas := "AttachingReplicas".
Definition SubstatusVerifying := "Verifying".
Definition SubstatusInitializingNodes := "InitializingNodes".
Definition SubstatusDrainingPrimaries := "DrainingPrimaries".
Definition SubstatusRemovingNodes := "RemovingNodes".
Definition SubstatusShrinkingStatefulSet := "ShrinkingStatefulSet".
Definition SubstatusDeletingStatefulSet := "DeletingStatefulSet".
Definition SubstatusRecreatingCluster := "RecreatingCluster".
Definition SubstatusFormingCluster := "FormingCluster".
Definition SubstatusDeletingResources := "DeletingResources".
Definition SubstatusDeletingPVCs := "DeletingPVCs".
Definition SubstatusUpgradeScalingUp := "AddingExtraNode".
Definition SubstatusUpgradeResharding := "DrainingNode".
Definition SubstatusUpgradeRollingUpdate := "RollingUpdate".
Definition SubstatusUpgradeEnding := "MovingLastSlots".
Definition SubstatusUpgradeScalingDown := "RemovingExtraNode".
Definition SubstatusFastUpgrading := "FastUpgrading".
Definition SubstatusEndingFastUpgrade := "FormingCluster".
Definition SubstatusRemediating := "Remediating".

(** Health condition types. *)
Definition ConditionHealthy := "Healthy".
Definition ConditionMembershipHealthy := "MembershipHealthy".
Definition ConditionSlotsCovered := "SlotsCovered".
Definition ConditionSlotsBalanced := "SlotsBalanced".
Definition ConditionReplicasBalanced := "ReplicasBalanced".
Definition ConditionClusterCheckPassing := "ClusterCheckPassing".

(** ** Robin settings *)

Record RobinConfigProfiling := mkRobinConfigProfiling { rcp_Enabled : option bool }.

Record RobinConfigReconciler := mkRobinConfigReconciler {
  rcr_IntervalSeconds : option Z;
  rcr_IntervalOnErrorSeconds : option Z;
  rcr_IntervalOnWaitSeconds : option Z;
}.

Record RobinConfigCluster := mkRobinConfigCluster {
  rcc_ConnectionMaxRetries : option Z;
  rcc_ConnectionBackOffSeconds : option Z;
  rcc_ClusterCommandTimeoutSeconds : option Z;
  rcc_ClusterMeetWaitSeconds : option Z;
  rcc_RebalanceTimeoutSeconds : option Z;
}.

Record RobinConfigMetrics := mkRobinConfigMetrics {
  rcm_CollectionIntervalSeconds : option Z;
  rcm_RedisInfoKeys : list string;
  rcm_MetricsLabels : gomap;
}.

Record RobinConfig := mkRobinConfig {
  rc_Reconciler : option RobinConfigReconciler;
  rc_Cluster : option RobinConfigCluster;
  rc_Metrics : option RobinConfigMetrics;
  rc_Profiling : option RobinConfigProfiling;
}.

(** ** Overrides *)

Record PartialPodSpec := mkPartialPodSpec {
  pps_Containers : list Container;
  pps_InitContainers : list Container;
  pps_EphemeralContainers : list RawJSON;
  pps_RestartPolicy : string;
  pps_TerminationGracePeriodSeconds : option Z;
  pps_DNSPolicy : string;
  pps_NodeSelector : gomap;
  pps_ServiceAccountName : string;
  pps_SecurityContext : option RawJSON;
  pps_ImagePullSecrets : list RawJSON;
  pps_Affinity : option RawJSON;
  pps_Tolerations : list RawJSON;
  pps_PriorityClassName : string;
  pps_TopologySpreadConstraints : list RawJSON;
  pps_Volumes : list RawJSON;
}.

Record PartialPodTemplateSpec := mkPartialPodTemplateSpec {
  ppt_Metadata : ObjectMeta;
  ppt_Spec : PartialPodSpec;
}.

Record PartialStatefulSetSpec := mkPartialStatefulSetSpec {
  pss_MinReadySeconds : option Z;
  pss_Replicas : option Z;
  pss_Selector : option RawJSON;
  pss_ServiceName : string;
  pss_Template : option PartialPodTemplateSpec;
  pss_UpdateStrategy : option RawJSON;
  pss_RevisionHistoryLimit : option Z;
  pss_PodManagementPolicy : string;
  pss_VolumeClaimTemplates : list RawJSON;
  pss_PersistentVolumeClaimRetentionPolicy : option RawJSON;
  pss_Ordinals : option RawJSON;
}.

Record PartialStatefulSet := mkPartialStatefulSet {
  pst_APIVersion : string;
  pst_Kind : string;
  pst_Metadata : ObjectMeta;
  pst_Spec : option PartialStatefulSetSpec;
}.

Record PartialServiceSpec := mkPartialServiceSpec {
  pvs_Ports : list RawJSON;
  pvs_Selector : gomap;
  pvs_ClusterIP : string;
  pvs_Type : string;
  pvs_PublishNotReadyAddresses : bool;
}.

Record PartialService := mkPartialService {
  psv_APIVersion : string;
  psv_Kind : string;
  psv_Metadata : ObjectMeta;
  psv_Spec : option PartialServiceSpec;
}.

Record RedkeyOverrideSpec := mkRedkeyOverrideSpec {
  ro_StatefulSet : option PartialStatefulSet;
  ro_Service : option PartialService;
}.

Record RobinSpec := mkRobinSpec {
  rbs_Image : string;
  rbs_Resources : option ResourceRequirements;
  rbs_Template : option PartialPodTemplateSpec;
  rbs_Config : option RobinConfig;
}.

Record RedisAuth := mkRedisAuth { ra_SecretName : string }.

(** [intstr.IntOrString]. *)
Inductive IntOrString := IntVal (z : Z) | StrVal (s : string).

Record Pdb := mkPdb {
  pdb_Enabled : bool;
  pdb_SizeUnavailable : IntOrString;
  pdb_SizeAvailable : IntOrString;
}.

(** ** Redkey *)

Record RedkeySpec := mkRedkeySpec {
  rs_Auth : RedisAuth;
  rs_Version : string;
  rs_Mode : string;
  rs_Primaries : Z;
  rs_ReplicasPerPrimary : Z;
  rs_Image : string;
  rs_DeletePVC : option bool;
  rs_Backup : bool;
  rs_Robin : RobinSpec;
  rs_SkipIfSuperseded : bool;
  rs_PurgeKeysOnRebalance : option bool;
  rs_Config : string;
  rs_Resources : option ResourceRequirements;
  rs_Labels : option gomap;
  rs_Annotations : option gomap;
  rs_Pdb : Pdb;
  rs_Override : option RedkeyOverrideSpec;
  rs_Ephemeral : bool;
  rs_Storage : string;
  rs_StorageClassName : string;
  rs_AccessModes : list string;
}.

Record RedkeySubstatus := mkRedkeySubstatus {
  rss_Status : string;
  rss_UpgradingPartition : Z;
}.

Record RedisNode := mkRedisNode {
  rn_Role : string;
  rn_IP : string;
  rn_ReplicationStatus : string;
}.

(** [map[string]*RedisNode]: [None] is the nil map, a [None] entry a nil pointer. *)
Abbreviation NodeMap := (option (gmap string (option RedisNode))).

Record RedkeyStatus := mkRedkeyStatus {
  rst_Replicas : Z;
  rst_Phase : string;
  rst_Status : string;
  rst_Substatus : RedkeySubstatus;
  rst_Nodes : NodeMap;
  rst_Conditions : list Condition;
  rst_LastUpdatedAt : option Z;
  rst_ObservedGeneration : Z;
  rst_LastAppliedPrimaries : Z;
  rst_LastAppliedReplicasPerPrimary : Z;
}.

Record Redkey := mkRedkey {
  rk_Meta : ObjectMeta;
  rk_Spec : RedkeySpec;
  rk_Status : RedkeyStatus;
}.

(** ** RedkeyConfig *)

Record RedkeyConfigSpec := mkRedkeyConfigSpec {
  rcs_Sequence : Z;
  rcs_SkipIfSuperseded : bool;
  rcs_Mode : string;
  rcs_Primaries : Z;
  rcs_ReplicasPerPrimary : Z;
  rcs_Ephemeral : bool;
  rcs_Storage : string;
  rcs_StorageClassName : string;
  rcs_Image : string;
  rcs_Version : string;
  rcs_RedisConfig : string;
  rcs_Resources : option ResourceRequirements;
  rcs_Auth : RedisAuth;
  rcs_Labels : option gomap;
  rcs_Annotations : option gomap;
  rcs_DeletePVC : option bool;
  rcs_PurgeKeysOnRebalance : option bool;
  rcs_Override : option RedkeyOverrideSpec;
  rcs_Pdb : Pdb;
  rcs_RobinConfig : option RobinConfig;
}.

Record RedkeyConfigStatus := mkRedkeyConfigStatus {
  rct_ConfigPhase : string;
  rct_Status : string;
  rct_Substatus : RedkeySubstatus;
  rct_Nodes : NodeMap;
  rct_Conditions : list Condition;
  rct_LastUpdatedAt : option Z;
  rct_ObservedGeneration : Z;
}.

Record RedkeyConfig := mkRedkeyConfig {
  cf_Meta : ObjectMeta;
  cf_Spec : RedkeyConfigSpec;
  cf_Status : RedkeyConfigStatus;
}.

(** The zero value of [RedkeyConfigStatus], which a new config carries. *)
Definition zeroConfigStatus : RedkeyConfigStatus :=
  mkRedkeyConfigStatus "" "" (mkRedkeySubstatus "" 0) None [] None 0.

Definition cf_key (c : RedkeyConfig) : NamespacedName := om_key (cf_Meta c).
Definition cf_Name (c : RedkeyConfig) : string := om_Name (cf_Meta c).
Definition rk_Name (r : Redkey) : string := om_Name (rk_Meta r).
Definition rk_Namespace (r : Redkey) : string := om_Namespace (rk_Meta r).
Definition rk_Generation (r : Redkey) : Z := om_Generation (rk_Meta r).

Definition set_rk_Status (st : RedkeyStatus) (r : Redkey) : Redkey :=
  mkRedkey (rk_Meta r) (rk_Spec r) st.

(** ** Methods *)

(** [func (s RedkeySpec) NodesNeeded() int]: the arithmetic is on [int32]. *)
Definition NodesNeeded (s : RedkeySpec) : Z :=
  int32 (rs_Primaries s + int32 (rs_Primaries s * rs_ReplicasPerPrimary s)).

Definition IsStandalone (s : RedkeySpec) : bool := bool_decide (rs_Mode s = ModeStandalone).

Definition ConfigIsStandalone (s : RedkeyConfigSpec) : bool :=
  bool_decide (rcs_Mode s = ModeStandalone).

(** [func (r Redkey) NamespacedName()]. *)
Definition RedkeyNamespacedName (r : Redkey) : NamespacedName :=
  mkKey (rk_Namespace r) (rk_Name r).

(** [func (r Redkey) GetLabels()]: the labels of the spec, an empty map when unset. *)
Definition GetLabels (r : Redkey) : gomap :=
  match rs_Labels (rk_Spec r) with Some m => m | None => Some ∅ end.
