(* ===== verification/DeepCopy.v ===== *)
(** * The deepcopy functions (api/v1beta1/zz_generated.deepcopy.go)

    The API types as they lie in memory, and their [DeepCopyInto], [DeepCopy]
    and [DeepCopyObject] methods.  A struct is named after its Go type with a
    [g] in front; pointer, slice and map fields hold addresses.  A method that
    fills the variable [out] returns what it stores there; [out := new(T);
    in.DeepCopyInto(out)] computes that value and allocates a variable for it.
    Types of the Kubernetes libraries, and their own copy methods, are
    parameters. *)

From S2P Require Import Prelude GoLib K8s Types Memory.
Local Open Scope Z_scope.

(** ** Types of variables *)

(** The library types the API types embed. *)
Inductive Lib :=
| LObjectMeta | LListMeta | LTime | LCondition | LLabelSelector
| LContainer | LEphemeralContainer | LPodSecurityContext | LLocalObjectReference | LAffinity
| LToleration | LTopologySpreadConstraint | LVolume | LServicePort | LPersistentVolumeClaim
| LResourceRequirements
| LStatefulSetUpdateStrategy | LStatefulSetPersistentVolumeClaimRetentionPolicy | LStatefulSetOrdinals.
#[global] Instance Lib_eq_dec : EqDecision Lib.
Proof. solve_decision. Defined.

(** The types of the variables that pointers, slices and maps of the API types
    refer to; [TMapRef] is a variable that holds a map. *)
Inductive GoTy :=
| TBool | TInt | TInt32 | TInt64 | TString | TMapRef
| TLib (l : Lib)
| TRedisNode | TPtrRedisNode
| TRobinConfigReconciler | TRobinConfigCluster | TRobinConfigMetrics | TRobinConfigProfiling | TRobinConfig
| TPartialPodTemplateSpec | TPartialStatefulSetSpec | TPartialStatefulSet
| TPartialServiceSpec | TPartialService | TRedkeyOverrideSpec
| TPartialPodSpec | TPdb | TRedisAuth | TRobinSpec
| TRedkeySubstatus | TRedkeySpec | TRedkeyStatus | TRedkey | TRedkeyList
| TRedkeyConfigSpec | TRedkeyConfigStatus | TRedkeyConfig | TRedkeyConfigList.
#[global] Instance GoTy_eq_dec : EqDecision GoTy.
Proof. solve_decision. Defined.

(** Fields that refer to memory, marked with the type they refer to. *)
Abbreviation Ptr t := (option loc).
Abbreviation SliceOf t := (option Slice).
Abbreviation MapOf t := (option loc).

(** ** The structs *)

Record TypeMeta := mkTypeMeta { tm_Kind : string; tm_APIVersion : string }.

Record gRobinConfigProfiling := mkgRobinConfigProfiling { grcp_Enabled : Ptr TBool }.

Record gRobinConfigReconciler := mkgRobinConfigReconciler {
  grcr_IntervalSeconds : Ptr TInt;
  grcr_IntervalOnErrorSeconds : Ptr TInt;
  grcr_IntervalOnWaitSeconds : Ptr TInt;
}.

Record gRobinConfigCluster := mkgRobinConfigCluster {
  grcc_ConnectionMaxRetries : Ptr TInt;
  grcc_ConnectionBackOffSeconds : Ptr TInt;
  grcc_ClusterCommandTimeoutSeconds : Ptr TInt;
  grcc_ClusterMeetWaitSeconds : Ptr TInt;
  grcc_RebalanceTimeoutSeconds : Ptr TInt;
}.

Record gRobinConfigMetrics := mkgRobinConfigMetrics {
  grcm_CollectionIntervalSeconds : Ptr TInt;
  grcm_RedisInfoKeys : SliceOf TString;
  grcm_MetricsLabels : MapOf TString;
}.

Record gRobinConfig := mkgRobinConfig {
  grc_Reconciler : Ptr TRobinConfigReconciler;
  grc_Cluster : Ptr TRobinConfigCluster;
  grc_Metrics : Ptr TRobinConfigMetrics;
  grc_Profiling : Ptr TRobinConfigProfiling;
}.

Record gPartialPodSpec := mkgPartialPodSpec {
  gpps_Containers : SliceOf (TLib LContainer);
  gpps_InitContainers : SliceOf (TLib LContainer);
  gpps_EphemeralContainers : SliceOf (TLib LEphemeralContainer);
  gpps_RestartPolicy : string;
  gpps_TerminationGracePeriodSeconds : Ptr TInt64;
  gpps_DNSPolicy : string;
  gpps_NodeSelector : MapOf TString;
  gpps_ServiceAccountName : string;
  gpps_SecurityContext : Ptr (TLib LPodSecurityContext);
  gpps_ImagePullSecrets : SliceOf (TLib LLocalObjectReference);
  gpps_Affinity : Ptr (TLib LAffinity);
  gpps_Tolerations : SliceOf (TLib LToleration);
  gpps_PriorityClassName : string;
  gpps_TopologySpreadConstraints : SliceOf (TLib LTopologySpreadConstraint);
  gpps_Volumes : SliceOf (TLib LVolume);
}.

Record gPartialStatefulSetSpec := mkgPartialStatefulSetSpec {
  gpss_MinReadySeconds : Ptr TInt32;
  gpss_Replicas : Ptr TInt32;
  gpss_Selector : Ptr (TLib LLabelSelector);
  gpss_ServiceName : string;
  gpss_Template : Ptr TPartialPodTemplateSpec;
  gpss_UpdateStrategy : Ptr (TLib LStatefulSetUpdateStrategy);
  gpss_RevisionHistoryLimit : Ptr TInt32;
  gpss_PodManagementPolicy : string;
  gpss_VolumeClaimTemplates : SliceOf (TLib LPersistentVolumeClaim);
  gpss_PersistentVolumeClaimRetentionPolicy : Ptr (TLib LStatefulSetPersistentVolumeClaimRetentionPolicy);
  gpss_Ordinals : Ptr (TLib LStatefulSetOrdinals);
}.

Record gPartialServiceSpec := mkgPartialServiceSpec {
  gpvs_Ports : SliceOf (TLib LServicePort);
  gpvs_Selector : MapOf TString;
  gpvs_ClusterIP : string;
  gpvs_Type : string;
  gpvs_PublishNotReadyAddresses : bool;
}.

Record gRedkeyOverrideSpec := mkgRedkeyOverrideSpec {
  gro_StatefulSet : Ptr TPartialStatefulSet;
  gro_Service : Ptr TPartialService;
}.

Record gRobinSpec := mkgRobinSpec {
  grbs_Image : string;
  grbs_Resources : Ptr (TLib LResourceRequirements);
  grbs_Template : Ptr TPartialPodTemplateSpec;
  grbs_Config : Ptr TRobinConfig;
}.

Record gRedkeySpec := mkgRedkeySpec {
  grs_Auth : RedisAuth;
  grs_Version : string;
  grs_Mode : string;
  grs_Primaries : Z;
  grs_ReplicasPerPrimary : Z;
  grs_Image : string;
  grs_DeletePVC : Ptr TBool;
  grs_Backup : bool;
  grs_Robin : gRobinSpec;
  grs_SkipIfSuperseded : bool;
  grs_PurgeKeysOnRebalance : Ptr TBool;
  grs_Config : string;
  grs_Resources : Ptr (TLib LResourceRequirements);
  grs_Labels : Ptr TMapRef;
  grs_Annotations : Ptr TMapRef;
  grs_Pdb : Pdb;
  grs_Override : Ptr TRedkeyOverrideSpec;
  grs_Ephemeral : bool;
  grs_Storage : string;
  grs_StorageClassName : string;
  grs_AccessModes : SliceOf TString;
}.

Record gRedkeyStatus := mkgRedkeyStatus {
  grst_Replicas : Z;
  grst_Phase : string;
  grst_Status : string;
  grst_Substatus : RedkeySubstatus;
  grst_Nodes : MapOf TPtrRedisNode;
  grst_Conditions : SliceOf (TLib LCondition);
  grst_LastUpdatedAt : Ptr (TLib LTime);
  grst_ObservedGeneration : Z;
  grst_LastAppliedPrimaries : Z;
  grst_LastAppliedReplicasPerPrimary : Z;
}.

Record gRedkeyConfigSpec := mkgRedkeyConfigSpec {
  grcs_Sequence : Z;
  grcs_SkipIfSuperseded : bool;
  grcs_Mode : string;
  grcs_Primaries : Z;
  grcs_ReplicasPerPrimary : Z;
  grcs_Ephemeral : bool;
  grcs_Storage : string;
  grcs_StorageClassName : string;
  grcs_Image : string;
  grcs_Version : string;
  grcs_RedisConfig : string;
  grcs_Resources : Ptr (TLib LResourceRequirements);
  grcs_Auth : RedisAuth;
  grcs_Labels : Ptr TMapRef;
  grcs_Annotations : Ptr TMapRef;
  grcs_DeletePVC : Ptr TBool;
  grcs_PurgeKeysOnRebalance : Ptr TBool;
  grcs_Override : Ptr TRedkeyOverrideSpec;
  grcs_Pdb : Pdb;
  grcs_RobinConfig : Ptr TRobinConfig;
}.

Record gRedkeyConfigStatus := mkgRedkeyConfigStatus {
  grct_ConfigPhase : string;
  grct_Status : string;
  grct_Substatus : RedkeySubstatus;
  grct_Nodes : MapOf TPtrRedisNode;
  grct_Conditions : SliceOf (TLib LCondition);
  grct_LastUpdatedAt : Ptr (TLib LTime);
  grct_ObservedGeneration : Z;
}.

(** The library types in memory: parameters. *)
Class LibMem := LibH : Lib → Type.

Section structs.
Context `{LibMem}.

Record gPartialPodTemplateSpec := mkgPartialPodTemplateSpec {
  gppt_Metadata : LibH LObjectMeta;
  gppt_Spec : gPartialPodSpec;
}.

Record gPartialStatefulSet := mkgPartialStatefulSet {
  gpst_APIVersion : string;
  gpst_Kind : string;
  gpst_Metadata : LibH LObjectMeta;
  gpst_Spec : Ptr TPartialStatefulSetSpec;
}.

Record gPartialService := mkgPartialService {
  gpsv_APIVersion : string;
  gpsv_Kind : string;
  gpsv_Metadata : LibH LObjectMeta;
  gpsv_Spec : Ptr TPartialServiceSpec;
}.

Record gRedkey := mkgRedkey {
  grk_TypeMeta : TypeMeta;
  grk_ObjectMeta : LibH LObjectMeta;
  grk_Spec : gRedkeySpec;
  grk_Status : gRedkeyStatus;
}.

Record gRedkeyConfig := mkgRedkeyConfig {
  gcf_TypeMeta : TypeMeta;
  gcf_ObjectMeta : LibH LObjectMeta;
  gcf_Spec : gRedkeyConfigSpec;
  gcf_Status : gRedkeyConfigStatus;
}.

Record gRedkeyList := mkgRedkeyList {
  grl_TypeMeta : TypeMeta;
  grl_ListMeta : LibH LListMeta;
  grl_Items : SliceOf TRedkey;
}.

Record gRedkeyConfigList := mkgRedkeyConfigList {
  gcl_TypeMeta : TypeMeta;
  gcl_ListMeta : LibH LListMeta;
  gcl_Items : SliceOf TRedkeyConfig;
}.

Definition goDenote (t : GoTy) : Type :=
  match t with
  | TBool => bool
  | TInt | TInt32 | TInt64 => Z
  | TString => string
  | TMapRef => MapOf TString
  | TLib l => LibH l
  | TRedisNode => RedisNode
  | TPtrRedisNode => Ptr TRedisNode
  | TRobinConfigReconciler => gRobinConfigReconciler
  | TRobinConfigCluster => gRobinConfigCluster
  | TRobinConfigMetrics => gRobinConfigMetrics
  | TRobinConfigProfiling => gRobinConfigProfiling
  | TRobinConfig => gRobinConfig
  | TPartialPodTemplateSpec => gPartialPodTemplateSpec
  | TPartialStatefulSetSpec => gPartialStatefulSetSpec
  | TPartialStatefulSet => gPartialStatefulSet
  | TPartialServiceSpec => gPartialServiceSpec
  | TPartialService => gPartialService
  | TRedkeyOverrideSpec => gRedkeyOverrideSpec
  | TPartialPodSpec => gPartialPodSpec
  | TPdb => Pdb
  | TRedisAuth => RedisAuth
  | TRobinSpec => gRobinSpec
  | TRedkeySubstatus => RedkeySubstatus
  | TRedkeySpec => gRedkeySpec
  | TRedkeyStatus => gRedkeyStatus
  | TRedkey => gRedkey
  | TRedkeyList => gRedkeyList
  | TRedkeyConfigSpec => gRedkeyConfigSpec
  | TRedkeyConfigStatus => gRedkeyConfigStatus
  | TRedkeyConfig => gRedkeyConfig
  | TRedkeyConfigList => gRedkeyConfigList
  end.
End structs.

#[global] Instance goUniverse `{LibMem} : Universe := {| Ty := GoTy; denote := goDenote |}.

(** The copy methods of the library types. *)
Class LibCopy `{LibMem} := lib_DeepCopyInto : ∀ l, LibH l → M (LibH l).

(** ** DeepCopyInto *)

Section copies.
Context `{LibCopy, !GoRuntime}.

(** [**out = **in] of a type without pointers. *)
Definition copyVar (t : GoTy) : Ptr t → M (Ptr t) := copyPtr t mret.

(** The loop over a [map[string]string]. *)
Definition copyStringMap : MapOf TString → M (MapOf TString) := copyMap TString mret.

(** The block for a [*map[string]string]. *)
Definition copyStringMapPtr : Ptr TMapRef → M (Ptr TMapRef) := copyPtr TMapRef copyStringMap.

(** The loop over a [map[string]*RedisNode]. *)
Definition copyNodes : MapOf TPtrRedisNode → M (MapOf TPtrRedisNode) :=
  copyMap TPtrRedisNode (copyVar TRedisNode).

Definition PartialPodSpec_DeepCopyInto (i : gPartialPodSpec) : M gPartialPodSpec :=
  containers ← copySlice (TLib LContainer) (lib_DeepCopyInto LContainer) (gpps_Containers i);
  initContainers ← copySlice (TLib LContainer) (lib_DeepCopyInto LContainer) (gpps_InitContainers i);
  ephemeral ← copySlice (TLib LEphemeralContainer) (lib_DeepCopyInto LEphemeralContainer)
    (gpps_EphemeralContainers i);
  grace ← copyVar TInt64 (gpps_TerminationGracePeriodSeconds i);
  nodeSelector ← copyStringMap (gpps_NodeSelector i);
  securityContext ← copyPtr (TLib LPodSecurityContext) (lib_DeepCopyInto LPodSecurityContext)
    (gpps_SecurityContext i);
  pullSecrets ← copySlice (TLib LLocalObjectReference) mret (gpps_ImagePullSecrets i);
  affinity ← copyPtr (TLib LAffinity) (lib_DeepCopyInto LAffinity) (gpps_Affinity i);
  tolerations ← copySlice (TLib LToleration) (lib_DeepCopyInto LToleration) (gpps_Tolerations i);
  spread ← copySlice (TLib LTopologySpreadConstraint) (lib_DeepCopyInto LTopologySpreadConstraint)
    (gpps_TopologySpreadConstraints i);
  volumes ← copySlice (TLib LVolume) (lib_DeepCopyInto LVolume) (gpps_Volumes i);
  mret {|
    gpps_Containers := containers;
    gpps_InitContainers := initContainers;
    gpps_EphemeralContainers := ephemeral;
    gpps_RestartPolicy := gpps_RestartPolicy i;
    gpps_TerminationGracePeriodSeconds := grace;
    gpps_DNSPolicy := gpps_DNSPolicy i;
    gpps_NodeSelector := nodeSelector;
    gpps_ServiceAccountName := gpps_ServiceAccountName i;
    gpps_SecurityContext := securityContext;
    gpps_ImagePullSecrets := pullSecrets;
    gpps_Affinity := affinity;
    gpps_Tolerations := tolerations;
    gpps_PriorityClassName := gpps_PriorityClassName i;
    gpps_TopologySpreadConstraints := spread;
    gpps_Volumes := volumes |}.

Definition PartialPodTemplateSpec_DeepCopyInto (i : gPartialPodTemplateSpec) : M gPartialPodTemplateSpec :=
  metadata ← lib_DeepCopyInto LObjectMeta (gppt_Metadata i);
  spec ← PartialPodSpec_DeepCopyInto (gppt_Spec i);
  mret (mkgPartialPodTemplateSpec metadata spec).

Definition PartialServiceSpec_DeepCopyInto (i : gPartialServiceSpec) : M gPartialServiceSpec :=
  ports ← copySlice (TLib LServicePort) (lib_DeepCopyInto LServicePort) (gpvs_Ports i);
  selector ← copyStringMap (gpvs_Selector i);
  mret (mkgPartialServiceSpec ports selector (gpvs_ClusterIP i) (gpvs_Type i) (gpvs_PublishNotReadyAddresses i)).

Definition PartialService_DeepCopyInto (i : gPartialService) : M gPartialService :=
  metadata ← lib_DeepCopyInto LObjectMeta (gpsv_Metadata i);
  spec ← copyPtr TPartialServiceSpec PartialServiceSpec_DeepCopyInto (gpsv_Spec i);
  mret (mkgPartialService (gpsv_APIVersion i) (gpsv_Kind i) metadata spec).

Definition PartialStatefulSetSpec_DeepCopyInto (i : gPartialStatefulSetSpec) : M gPartialStatefulSetSpec :=
  minReady ← copyVar TInt32 (gpss_MinReadySeconds i);
  replicas ← copyVar TInt32 (gpss_Replicas i);
  selector ← copyPtr (TLib LLabelSelector) (lib_DeepCopyInto LLabelSelector) (gpss_Selector i);
  template ← copyPtr TPartialPodTemplateSpec PartialPodTemplateSpec_DeepCopyInto (gpss_Template i);
  strategy ← copyPtr (TLib LStatefulSetUpdateStrategy) (lib_DeepCopyInto LStatefulSetUpdateStrategy)
    (gpss_UpdateStrategy i);
  history ← copyVar TInt32 (gpss_RevisionHistoryLimit i);
  claims ← copySlice (TLib LPersistentVolumeClaim) (lib_DeepCopyInto LPersistentVolumeClaim)
    (gpss_VolumeClaimTemplates i);
  retention ← copyVar (TLib LStatefulSetPersistentVolumeClaimRetentionPolicy)
    (gpss_PersistentVolumeClaimRetentionPolicy i);
  ordinals ← copyVar (TLib LStatefulSetOrdinals) (gpss_Ordinals i);
  mret {|
    gpss_MinReadySeconds := minReady;
    gpss_Replicas := replicas;
    gpss_Selector := selector;
    gpss_ServiceName := gpss_ServiceName i;
    gpss_Template := template;
    gpss_UpdateStrategy := strategy;
    gpss_RevisionHistoryLimit := history;
    gpss_PodManagementPolicy := gpss_PodManagementPolicy i;
    gpss_VolumeClaimTemplates := claims;
    gpss_PersistentVolumeClaimRetentionPolicy := retention;
    gpss_Ordinals := ordinals |}.

Definition PartialStatefulSet_DeepCopyInto (i : gPartialStatefulSet) : M gPartialStatefulSet :=
  metadata ← lib_DeepCopyInto LObjectMeta (gpst_Metadata i);
  spec ← copyPtr TPartialStatefulSetSpec PartialStatefulSetSpec_DeepCopyInto (gpst_Spec i);
  mret (mkgPartialStatefulSet (gpst_APIVersion i) (gpst_Kind i) metadata spec).

Definition Pdb_DeepCopyInto (i : Pdb) : M Pdb :=
  mret (mkPdb (pdb_Enabled i) (pdb_SizeUnavailable i) (pdb_SizeAvailable i)).

Definition RedisAuth_DeepCopyInto (i : RedisAuth) : M RedisAuth := mret i.
Definition RedisNode_DeepCopyInto (i : RedisNode) : M RedisNode := mret i.
Definition RedkeySubstatus_DeepCopyInto (i : RedkeySubstatus) : M RedkeySubstatus := mret i.

Definition RedkeyOverrideSpec_DeepCopyInto (i : gRedkeyOverrideSpec) : M gRedkeyOverrideSpec :=
  statefulSet ← copyPtr TPartialStatefulSet PartialStatefulSet_DeepCopyInto (gro_StatefulSet i);
  service ← copyPtr TPartialService PartialService_DeepCopyInto (gro_Service i);
  mret (mkgRedkeyOverrideSpec statefulSet service).

Definition RobinConfigProfiling_DeepCopyInto (i : gRobinConfigProfiling) : M gRobinConfigProfiling :=
  enabled ← copyVar TBool (grcp_Enabled i);
  mret (mkgRobinConfigProfiling enabled).

Definition RobinConfigReconciler_DeepCopyInto (i : gRobinConfigReconciler) : M gRobinConfigReconciler :=
  interval ← copyVar TInt (grcr_IntervalSeconds i);
  onError ← copyVar TInt (grcr_IntervalOnErrorSeconds i);
  onWait ← copyVar TInt (grcr_IntervalOnWaitSeconds i);
  mret (mkgRobinConfigReconciler interval onError onWait).

Definition RobinConfigCluster_DeepCopyInto (i : gRobinConfigCluster) : M gRobinConfigCluster :=
  retries ← copyVar TInt (grcc_ConnectionMaxRetries i);
  backOff ← copyVar TInt (grcc_ConnectionBackOffSeconds i);
  timeout ← copyVar TInt (grcc_ClusterCommandTimeoutSeconds i);
  meet ← copyVar TInt (grcc_ClusterMeetWaitSeconds i);
  rebalance ← copyVar TInt (grcc_RebalanceTimeoutSeconds i);
  mret (mkgRobinConfigCluster retries backOff timeout meet rebalance).

Definition RobinConfigMetrics_DeepCopyInto (i : gRobinConfigMetrics) : M gRobinConfigMetrics :=
  interval ← copyVar TInt (grcm_CollectionIntervalSeconds i);
  keys ← copySlice TString mret (grcm_RedisInfoKeys i);
  labels ← copyStringMap (grcm_MetricsLabels i);
  mret (mkgRobinConfigMetrics interval keys labels).

Definition RobinConfig_DeepCopyInto (i : gRobinConfig) : M gRobinConfig :=
  reconciler ← copyPtr TRobinConfigReconciler RobinConfigReconciler_DeepCopyInto (grc_Reconciler i);
  cluster ← copyPtr TRobinConfigCluster RobinConfigCluster_DeepCopyInto (grc_Cluster i);
  metrics ← copyPtr TRobinConfigMetrics RobinConfigMetrics_DeepCopyInto (grc_Metrics i);
  profiling ← copyPtr TRobinConfigProfiling RobinConfigProfiling_DeepCopyInto (grc_Profiling i);
  mret (mkgRobinConfig reconciler cluster metrics profiling).

Definition copyResources : Ptr (TLib LResourceRequirements) → M (Ptr (TLib LResourceRequirements)) :=
  copyPtr (TLib LResourceRequirements) (lib_DeepCopyInto LResourceRequirements).

Definition RobinSpec_DeepCopyInto (i : gRobinSpec) : M gRobinSpec :=
  resources ← copyResources (grbs_Resources i);
  template ← copyPtr TPartialPodTemplateSpec PartialPodTemplateSpec_DeepCopyInto (grbs_Template i);
  config ← copyPtr TRobinConfig RobinConfig_DeepCopyInto (grbs_Config i);
  mret (mkgRobinSpec (grbs_Image i) resources template config).

Definition RedkeySpec_DeepCopyInto (i : gRedkeySpec) : M gRedkeySpec :=
  deletePVC ← copyVar TBool (grs_DeletePVC i);
  robin ← RobinSpec_DeepCopyInto (grs_Robin i);
  purge ← copyVar TBool (grs_PurgeKeysOnRebalance i);
  resources ← copyResources (grs_Resources i);
  labels ← copyStringMapPtr (grs_Labels i);
  annotations ← copyStringMapPtr (grs_Annotations i);
  override ← copyPtr TRedkeyOverrideSpec RedkeyOverrideSpec_DeepCopyInto (grs_Override i);
  accessModes ← copySlice TString mret (grs_AccessModes i);
  mret {|
    grs_Auth := grs_Auth i;
    grs_Version := grs_Version i;
    grs_Mode := grs_Mode i;
    grs_Primaries := grs_Primaries i;
    grs_ReplicasPerPrimary := grs_ReplicasPerPrimary i;
    grs_Image := grs_Image i;
    grs_DeletePVC := deletePVC;
    grs_Backup := grs_Backup i;
    grs_Robin := robin;
    grs_SkipIfSuperseded := grs_SkipIfSuperseded i;
    grs_PurgeKeysOnRebalance := purge;
    grs_Config := grs_Config i;
    grs_Resources := resources;
    grs_Labels := labels;
    grs_Annotations := annotations;
    grs_Pdb := grs_Pdb i;
    grs_Override := override;
    grs_Ephemeral := grs_Ephemeral i;
    grs_Storage := grs_Storage i;
    grs_StorageClassName := grs_StorageClassName i;
    grs_AccessModes := accessModes |}.

(** [Nodes], [Conditions] and [LastUpdatedAt]; the last through [Time.DeepCopy]. *)
Definition copyConditions : SliceOf (TLib LCondition) → M (SliceOf (TLib LCondition)) :=
  copySlice (TLib LCondition) (lib_DeepCopyInto LCondition).
Definition copyTime : Ptr (TLib LTime) → M (Ptr (TLib LTime)) :=
  DeepCopyOf (TLib LTime) (lib_DeepCopyInto LTime).

Definition RedkeyStatus_DeepCopyInto (i : gRedkeyStatus) : M gRedkeyStatus :=
  nodes ← copyNodes (grst_Nodes i);
  conditions ← copyConditions (grst_Conditions i);
  lastUpdatedAt ← copyTime (grst_LastUpdatedAt i);
  mret {|
    grst_Replicas := grst_Replicas i;
    grst_Phase := grst_Phase i;
    grst_Status := grst_Status i;
    grst_Substatus := grst_Substatus i;
    grst_Nodes := nodes;
    grst_Conditions := conditions;
    grst_LastUpdatedAt := lastUpdatedAt;
    grst_ObservedGeneration := grst_ObservedGeneration i;
    grst_LastAppliedPrimaries := grst_LastAppliedPrimaries i;
    grst_LastAppliedReplicasPerPrimary := grst_LastAppliedReplicasPerPrimary i |}.

Definition RedkeyConfigSpec_DeepCopyInto (i : gRedkeyConfigSpec) : M gRedkeyConfigSpec :=
  resources ← copyResources (grcs_Resources i);
  labels ← copyStringMapPtr (grcs_Labels i);
  annotations ← copyStringMapPtr (grcs_Annotations i);
  deletePVC ← copyVar TBool (grcs_DeletePVC i);
  purge ← copyVar TBool (grcs_PurgeKeysOnRebalance i);
  override ← copyPtr TRedkeyOverrideSpec RedkeyOverrideSpec_DeepCopyInto (grcs_Override i);
  robinConfig ← copyPtr TRobinConfig RobinConfig_DeepCopyInto (grcs_RobinConfig i);
  mret {|
    grcs_Sequence := grcs_Sequence i;
    grcs_SkipIfSuperseded := grcs_SkipIfSuperseded i;
    grcs_Mode := grcs_Mode i;
    grcs_Primaries := grcs_Primaries i;
    grcs_ReplicasPerPrimary := grcs_ReplicasPerPrimary i;
    grcs_Ephemeral := grcs_Ephemeral i;
    grcs_Storage := grcs_Storage i;
    grcs_StorageClassName := grcs_StorageClassName i;
    grcs_Image := grcs_Image i;
    grcs_Version := grcs_Version i;
    grcs_RedisConfig := grcs_RedisConfig i;
    grcs_Resources := resources;
    grcs_Auth := grcs_Auth i;
    grcs_Labels := labels;
    grcs_Annotations := annotations;
    grcs_DeletePVC := deletePVC;
    grcs_PurgeKeysOnRebalance := purge;
    grcs_Override := override;
    grcs_Pdb := grcs_Pdb i;
    grcs_RobinConfig := robinConfig |}.

Definition RedkeyConfigStatus_DeepCopyInto (i : gRedkeyConfigStatus) : M gRedkeyConfigStatus :=
  nodes ← copyNodes (grct_Nodes i);
  conditions ← copyConditions (grct_Conditions i);
  lastUpdatedAt ← copyTime (grct_LastUpdatedAt i);
  mret (mkgRedkeyConfigStatus (grct_ConfigPhase i) (grct_Status i) (grct_Substatus i) nodes conditions
    lastUpdatedAt (grct_ObservedGeneration i)).

Definition Redkey_DeepCopyInto (i : gRedkey) : M gRedkey :=
  meta ← lib_DeepCopyInto LObjectMeta (grk_ObjectMeta i);
  spec ← RedkeySpec_DeepCopyInto (grk_Spec i);
  status ← RedkeyStatus_DeepCopyInto (grk_Status i);
  mret (mkgRedkey (grk_TypeMeta i) meta spec status).

Definition RedkeyConfig_DeepCopyInto (i : gRedkeyConfig) : M gRedkeyConfig :=
  meta ← lib_DeepCopyInto LObjectMeta (gcf_ObjectMeta i);
  spec ← RedkeyConfigSpec_DeepCopyInto (gcf_Spec i);
  status ← RedkeyConfigStatus_DeepCopyInto (gcf_Status i);
  mret (mkgRedkeyConfig (gcf_TypeMeta i) meta spec status).

Definition RedkeyList_DeepCopyInto (i : gRedkeyList) : M gRedkeyList :=
  meta ← lib_DeepCopyInto LListMeta (grl_ListMeta i);
  items ← copySlice TRedkey Redkey_DeepCopyInto (grl_Items i);
  mret (mkgRedkeyList (grl_TypeMeta i) meta items).

Definition RedkeyConfigList_DeepCopyInto (i : gRedkeyConfigList) : M gRedkeyConfigList :=
  meta ← lib_DeepCopyInto LListMeta (gcl_ListMeta i);
  items ← copySlice TRedkeyConfig RedkeyConfig_DeepCopyInto (gcl_Items i);
  mret (mkgRedkeyConfigList (gcl_TypeMeta i) meta items).

(** ** DeepCopy *)

Definition PartialPodSpec_DeepCopy : Ptr TPartialPodSpec → M (Ptr TPartialPodSpec) :=
  DeepCopyOf TPartialPodSpec PartialPodSpec_DeepCopyInto.
Definition PartialPodTemplateSpec_DeepCopy : Ptr TPartialPodTemplateSpec → M (Ptr TPartialPodTemplateSpec) :=
  DeepCopyOf TPartialPodTemplateSpec PartialPodTemplateSpec_DeepCopyInto.
Definition PartialService_DeepCopy : Ptr TPartialService → M (Ptr TPartialService) :=
  DeepCopyOf TPartialService PartialService_DeepCopyInto.
Definition PartialServiceSpec_DeepCopy : Ptr TPartialServiceSpec → M (Ptr TPartialServiceSpec) :=
  DeepCopyOf TPartialServiceSpec PartialServiceSpec_DeepCopyInto.
Definition PartialStatefulSet_DeepCopy : Ptr TPartialStatefulSet → M (Ptr TPartialStatefulSet) :=
  DeepCopyOf TPartialStatefulSet PartialStatefulSet_DeepCopyInto.
Definition PartialStatefulSetSpec_DeepCopy : Ptr TPartialStatefulSetSpec → M (Ptr TPartialStatefulSetSpec) :=
  DeepCopyOf TPartialStatefulSetSpec PartialStatefulSetSpec_DeepCopyInto.
Definition Pdb_DeepCopy : Ptr TPdb → M (Ptr TPdb) :=
  DeepCopyOf TPdb Pdb_DeepCopyInto.
Definition RedisAuth_DeepCopy : Ptr TRedisAuth → M (Ptr TRedisAuth) :=
  DeepCopyOf TRedisAuth RedisAuth_DeepCopyInto.
Definition RedisNode_DeepCopy : Ptr TRedisNode → M (Ptr TRedisNode) :=
  DeepCopyOf TRedisNode RedisNode_DeepCopyInto.
Definition Redkey_DeepCopy : Ptr TRedkey → M (Ptr TRedkey) :=
  DeepCopyOf TRedkey Redkey_DeepCopyInto.
Definition RedkeyConfig_DeepCopy : Ptr TRedkeyConfig → M (Ptr TRedkeyConfig) :=
  DeepCopyOf TRedkeyConfig RedkeyConfig_DeepCopyInto.
Definition RedkeyConfigList_DeepCopy : Ptr TRedkeyConfigList → M (Ptr TRedkeyConfigList) :=
  DeepCopyOf TRedkeyConfigList RedkeyConfigList_DeepCopyInto.
Definition RedkeyConfigSpec_DeepCopy : Ptr TRedkeyConfigSpec → M (Ptr TRedkeyConfigSpec) :=
  DeepCopyOf TRedkeyConfigSpec RedkeyConfigSpec_DeepCopyInto.
Definition RedkeyConfigStatus_DeepCopy : Ptr TRedkeyConfigStatus → M (Ptr TRedkeyConfigStatus) :=
  DeepCopyOf TRedkeyConfigStatus RedkeyConfigStatus_DeepCopyInto.
Definition RedkeyList_DeepCopy : Ptr TRedkeyList → M (Ptr TRedkeyList) :=
  DeepCopyOf TRedkeyList RedkeyList_DeepCopyInto.
Definition RedkeyOverrideSpec_DeepCopy : Ptr TRedkeyOverrideSpec → M (Ptr TRedkeyOverrideSpec) :=
  DeepCopyOf TRedkeyOverrideSpec RedkeyOverrideSpec_DeepCopyInto.
Definition RedkeySpec_DeepCopy : Ptr TRedkeySpec → M (Ptr TRedkeySpec) :=
  DeepCopyOf TRedkeySpec RedkeySpec_DeepCopyInto.
Definition RedkeyStatus_DeepCopy : Ptr TRedkeyStatus → M (Ptr TRedkeyStatus) :=
  DeepCopyOf TRedkeyStatus RedkeyStatus_DeepCopyInto.
Definition RedkeySubstatus_DeepCopy : Ptr TRedkeySubstatus → M (Ptr TRedkeySubstatus) :=
  DeepCopyOf TRedkeySubstatus RedkeySubstatus_DeepCopyInto.
Definition RobinConfig_DeepCopy : Ptr TRobinConfig → M (Ptr TRobinConfig) :=
  DeepCopyOf TRobinConfig RobinConfig_DeepCopyInto.
Definition RobinConfigCluster_DeepCopy : Ptr TRobinConfigCluster → M (Ptr TRobinConfigCluster) :=
  DeepCopyOf TRobinConfigCluster RobinConfigCluster_DeepCopyInto.
Definition RobinConfigMetrics_DeepCopy : Ptr TRobinConfigMetrics → M (Ptr TRobinConfigMetrics) :=
  DeepCopyOf TRobinConfigMetrics RobinConfigMetrics_DeepCopyInto.
Definition RobinConfigProfiling_DeepCopy : Ptr TRobinConfigProfiling → M (Ptr TRobinConfigProfiling) :=
  DeepCopyOf TRobinConfigProfiling RobinConfigProfiling_DeepCopyInto.
Definition RobinConfigReconciler_DeepCopy : Ptr TRobinConfigReconciler → M (Ptr TRobinConfigReconciler) :=
  DeepCopyOf TRobinConfigReconciler RobinConfigReconciler_DeepCopyInto.
Definition RobinSpec_DeepCopy : Ptr TRobinSpec → M (Ptr TRobinSpec) :=
  DeepCopyOf TRobinSpec RobinSpec_DeepCopyInto.

(** ** DeepCopyObject *)

(** A [runtime.Object]: nil, or a non-nil pointer with its dynamic type.  A
    typed nil pointer would be a third possibility; the methods avoid it. *)
Inductive Object :=
| NilObject
| RedkeyObject (l : loc)
| RedkeyConfigObject (l : loc)
| RedkeyListObject (l : loc)
| RedkeyConfigListObject (l : loc).

(** [if c := in.DeepCopy(); c != nil { return c }; return nil]. *)
Definition objectOf (wrap : loc → Object) (c : M (option loc)) : M Object :=
  p ← c; mret (match p with Some l => wrap l | None => NilObject end).

Definition Redkey_DeepCopyObject (p : Ptr TRedkey) : M Object := objectOf RedkeyObject (Redkey_DeepCopy p).
Definition RedkeyConfig_DeepCopyObject (p : Ptr TRedkeyConfig) : M Object :=
  objectOf RedkeyConfigObject (RedkeyConfig_DeepCopy p).
Definition RedkeyConfigList_DeepCopyObject (p : Ptr TRedkeyConfigList) : M Object :=
  objectOf RedkeyConfigListObject (RedkeyConfigList_DeepCopy p).
Definition RedkeyList_DeepCopyObject (p : Ptr TRedkeyList) : M Object :=
  objectOf RedkeyListObject (RedkeyList_DeepCopy p).

(** The call [o.DeepCopyObject()] of the [runtime.Object] interface. *)
Definition DeepCopyObject (o : Object) : M Object :=
  match o with
  | NilObject => λ _, None
  | RedkeyObject l => Redkey_DeepCopyObject (Some l)
  | RedkeyConfigObject l => RedkeyConfig_DeepCopyObject (Some l)
  | RedkeyListObject l => RedkeyList_DeepCopyObject (Some l)
  | RedkeyConfigListObject l => RedkeyConfigList_DeepCopyObject (Some l)
  end.

(** [latest.Status.DeepCopyInto(&cluster.Status)], the end of [aggregateStatus].  Go
    writes the fields of the target one after the other, which is the same as long as
    the two Redkeys are not one object; at the call [latest] is a local variable. *)
Definition copyStatus (latest cluster : loc) : M unit :=
  from ← load TRedkey latest;
  status ← RedkeyStatus_DeepCopyInto (grk_Status from);
  to ← load TRedkey cluster;
  store TRedkey cluster (mkgRedkey (grk_TypeMeta to) (grk_ObjectMeta to) (grk_Spec to) status).
End copies.

(** ** The scheme (api/v1beta1/groupversion_info.go) *)

(** [schema.GroupVersion]. *)
Record schema_GroupVersion := mkGroupVersion { gv_Group : string; gv_Version : string }.
Definition GroupVersion : schema_GroupVersion := mkGroupVersion "redkey.inditex.dev" "v1beta1".

(** [scheme.Builder]: the types registered under a group version. *)
Record Builder := mkBuilder { sb_GroupVersion : schema_GroupVersion; sb_types : list GoTy }.
Definition Register (b : Builder) (types : list GoTy) : Builder :=
  mkBuilder (sb_GroupVersion b) (sb_types b ++ types).

(** The [init] functions of redkey_types.go and redkeyconfig_types.go; Go runs those
    of one package in the order of the file names. *)
Definition init_redkey_types (b : Builder) : Builder := Register b [TRedkey; TRedkeyList].
Definition init_redkeyconfig_types (b : Builder) : Builder := Register b [TRedkeyConfig; TRedkeyConfigList].

(** [SchemeBuilder], once the package is initialised. *)
Definition SchemeBuilder : Builder := init_redkeyconfig_types (init_redkey_types (mkBuilder GroupVersion [])).

(** The dynamic type of a non-nil object. *)
Definition typeOf (o : Object) : option GoTy :=
  match o with
  | NilObject => None
  | RedkeyObject _ => Some TRedkey
  | RedkeyConfigObject _ => Some TRedkeyConfig
  | RedkeyListObject _ => Some TRedkeyList
  | RedkeyConfigListObject _ => Some TRedkeyConfigList
  end.

(** The registered types are exactly those with a [DeepCopyObject]. *)
Lemma registered_objects t : t ∈ sb_types SchemeBuilder ↔ ∃ o, typeOf o = Some t.
Proof.
  split.
  - simpl. rewrite !elem_of_cons. intros [->|[->|[->|[->|H]]]]; [..|inversion H];
      [by exists (RedkeyObject 1)|by exists (RedkeyListObject 1)|by exists (RedkeyConfigObject 1)
      |by exists (RedkeyConfigListObject 1)].
  - intros ([]&[= <-]); simpl; set_solver.
Qed.
