(* ===== verification/DeepCopyProofs.v ===== *)
(** * Deep copies are deep

    Which value of Types.v a datum in memory stands for, and the correctness of
    every deepcopy function: the copy stands for the same value, in cells of its
    own.  This is what lets the rest of the development treat API objects as
    values. *)

From S2P Require Import Prelude GoLib K8s Types Memory DeepCopy.
Local Open Scope Z_scope.

(** ** Library types *)

(** The values of the library types. *)
Definition LibV (l : Lib) : Type :=
  match l with
  | LObjectMeta => ObjectMeta
  | LTime => Z
  | LCondition => Condition
  | LContainer => Container
  | LResourceRequirements => ResourceRequirements
  | _ => RawJSON
  end.

Class LibRead `{LibMem} := lib_read : ∀ l, Heap → LibH l → option (LibV l).

(** Types without pointers, which are copied by assignment. *)
Definition flatLib (l : Lib) : bool :=
  match l with
  | LLocalObjectReference | LStatefulSetPersistentVolumeClaimRetentionPolicy | LStatefulSetOrdinals => true
  | _ => false
  end.

(** What the generated code relies on: the library's copy methods are deep. *)
Class LibLaws `{LibCopy, !LibRead} : Prop := {
  #[global] lib_readable :: ∀ l, Readable (lib_read l);
  #[global] lib_deep :: ∀ l, Deep (lib_read l) (lib_DeepCopyInto l);
  lib_flat : ∀ l h g x, flatLib l = true → lib_read l h x = lib_read l g x;
}.

(** ** Reading the API types *)

Section reading.
Context `{LibMem, !LibRead}.

Definition readVar (t : GoTy) (h : Heap) (p : Ptr t) : option (option (denote t)) := readPtr t readFlat h p.
Definition readStringMap (h : Heap) (m : MapOf TString) : option gomap := readMap TString readFlat h m.
Definition readStringMapPtr (h : Heap) (p : Ptr TMapRef) : option (option gomap) :=
  readPtr TMapRef readStringMap h p.
Definition readStrings (h : Heap) (s : SliceOf TString) : option (list string) := readSlice TString readFlat h s.
Definition readNodes (h : Heap) (m : MapOf TPtrRedisNode) : option NodeMap :=
  readMap TPtrRedisNode (readVar TRedisNode) h m.
Definition readLibs (l : Lib) (h : Heap) (s : SliceOf (TLib l)) : option (list (LibV l)) :=
  readSlice (TLib l) (lib_read l) h s.
Definition readLib (l : Lib) (h : Heap) (p : Ptr (TLib l)) : option (option (LibV l)) :=
  readPtr (TLib l) (lib_read l) h p.

Definition readPartialPodSpec (h : Heap) (i : gPartialPodSpec) : option PartialPodSpec :=
  containers ← readLibs LContainer h (gpps_Containers i);
  initContainers ← readLibs LContainer h (gpps_InitContainers i);
  ephemeral ← readLibs LEphemeralContainer h (gpps_EphemeralContainers i);
  grace ← readVar TInt64 h (gpps_TerminationGracePeriodSeconds i);
  nodeSelector ← readStringMap h (gpps_NodeSelector i);
  securityContext ← readLib LPodSecurityContext h (gpps_SecurityContext i);
  pullSecrets ← readLibs LLocalObjectReference h (gpps_ImagePullSecrets i);
  affinity ← readLib LAffinity h (gpps_Affinity i);
  tolerations ← readLibs LToleration h (gpps_Tolerations i);
  spread ← readLibs LTopologySpreadConstraint h (gpps_TopologySpreadConstraints i);
  volumes ← readLibs LVolume h (gpps_Volumes i);
  Some (mkPartialPodSpec containers initContainers ephemeral (gpps_RestartPolicy i) grace
    (gpps_DNSPolicy i) nodeSelector (gpps_ServiceAccountName i) securityContext pullSecrets affinity
    tolerations (gpps_PriorityClassName i) spread volumes).

Definition readPartialPodTemplateSpec (h : Heap) (i : gPartialPodTemplateSpec) : option PartialPodTemplateSpec :=
  metadata ← lib_read LObjectMeta h (gppt_Metadata i);
  spec ← readPartialPodSpec h (gppt_Spec i);
  Some (mkPartialPodTemplateSpec metadata spec).

Definition readPartialServiceSpec (h : Heap) (i : gPartialServiceSpec) : option PartialServiceSpec :=
  ports ← readLibs LServicePort h (gpvs_Ports i);
  selector ← readStringMap h (gpvs_Selector i);
  Some (mkPartialServiceSpec ports selector (gpvs_ClusterIP i) (gpvs_Type i) (gpvs_PublishNotReadyAddresses i)).

Definition readPartialService (h : Heap) (i : gPartialService) : option PartialService :=
  metadata ← lib_read LObjectMeta h (gpsv_Metadata i);
  spec ← readPtr TPartialServiceSpec readPartialServiceSpec h (gpsv_Spec i);
  Some (mkPartialService (gpsv_APIVersion i) (gpsv_Kind i) metadata spec).

Definition readPartialStatefulSetSpec (h : Heap) (i : gPartialStatefulSetSpec) : option PartialStatefulSetSpec :=
  minReady ← readVar TInt32 h (gpss_MinReadySeconds i);
  replicas ← readVar TInt32 h (gpss_Replicas i);
  selector ← readLib LLabelSelector h (gpss_Selector i);
  template ← readPtr TPartialPodTemplateSpec readPartialPodTemplateSpec h (gpss_Template i);
  strategy ← readLib LStatefulSetUpdateStrategy h (gpss_UpdateStrategy i);
  history ← readVar TInt32 h (gpss_RevisionHistoryLimit i);
  claims ← readLibs LPersistentVolumeClaim h (gpss_VolumeClaimTemplates i);
  retention ← readLib LStatefulSetPersistentVolumeClaimRetentionPolicy h
    (gpss_PersistentVolumeClaimRetentionPolicy i);
  ordinals ← readLib LStatefulSetOrdinals h (gpss_Ordinals i);
  Some (mkPartialStatefulSetSpec minReady replicas selector (gpss_ServiceName i) template strategy history
    (gpss_PodManagementPolicy i) claims retention ordinals).

Definition readPartialStatefulSet (h : Heap) (i : gPartialStatefulSet) : option PartialStatefulSet :=
  metadata ← lib_read LObjectMeta h (gpst_Metadata i);
  spec ← readPtr TPartialStatefulSetSpec readPartialStatefulSetSpec h (gpst_Spec i);
  Some (mkPartialStatefulSet (gpst_APIVersion i) (gpst_Kind i) metadata spec).

Definition readRedkeyOverrideSpec (h : Heap) (i : gRedkeyOverrideSpec) : option RedkeyOverrideSpec :=
  statefulSet ← readPtr TPartialStatefulSet readPartialStatefulSet h (gro_StatefulSet i);
  service ← readPtr TPartialService readPartialService h (gro_Service i);
  Some (mkRedkeyOverrideSpec statefulSet service).

Definition readRobinConfigProfiling (h : Heap) (i : gRobinConfigProfiling) : option RobinConfigProfiling :=
  enabled ← readVar TBool h (grcp_Enabled i);
  Some (mkRobinConfigProfiling enabled).

Definition readRobinConfigReconciler (h : Heap) (i : gRobinConfigReconciler) : option RobinConfigReconciler :=
  interval ← readVar TInt h (grcr_IntervalSeconds i);
  onError ← readVar TInt h (grcr_IntervalOnErrorSeconds i);
  onWait ← readVar TInt h (grcr_IntervalOnWaitSeconds i);
  Some (mkRobinConfigReconciler interval onError onWait).

Definition readRobinConfigCluster (h : Heap) (i : gRobinConfigCluster) : option RobinConfigCluster :=
  retries ← readVar TInt h (grcc_ConnectionMaxRetries i);
  backOff ← readVar TInt h (grcc_ConnectionBackOffSeconds i);
  timeout ← readVar TInt h (grcc_ClusterCommandTimeoutSeconds i);
  meet ← readVar TInt h (grcc_ClusterMeetWaitSeconds i);
  rebalance ← readVar TInt h (grcc_RebalanceTimeoutSeconds i);
  Some (mkRobinConfigCluster retries backOff timeout meet rebalance).

Definition readRobinConfigMetrics (h : Heap) (i : gRobinConfigMetrics) : option RobinConfigMetrics :=
  interval ← readVar TInt h (grcm_CollectionIntervalSeconds i);
  keys ← readStrings h (grcm_RedisInfoKeys i);
  labels ← readStringMap h (grcm_MetricsLabels i);
  Some (mkRobinConfigMetrics interval keys labels).

Definition readRobinConfig (h : Heap) (i : gRobinConfig) : option RobinConfig :=
  reconciler ← readPtr TRobinConfigReconciler readRobinConfigReconciler h (grc_Reconciler i);
  cluster ← readPtr TRobinConfigCluster readRobinConfigCluster h (grc_Cluster i);
  metrics ← readPtr TRobinConfigMetrics readRobinConfigMetrics h (grc_Metrics i);
  profiling ← readPtr TRobinConfigProfiling readRobinConfigProfiling h (grc_Profiling i);
  Some (mkRobinConfig reconciler cluster metrics profiling).

Definition readRobinSpec (h : Heap) (i : gRobinSpec) : option RobinSpec :=
  resources ← readLib LResourceRequirements h (grbs_Resources i);
  template ← readPtr TPartialPodTemplateSpec readPartialPodTemplateSpec h (grbs_Template i);
  config ← readPtr TRobinConfig readRobinConfig h (grbs_Config i);
  Some (mkRobinSpec (grbs_Image i) resources template config).

Definition readRedkeySpec (h : Heap) (i : gRedkeySpec) : option RedkeySpec :=
  deletePVC ← readVar TBool h (grs_DeletePVC i);
  robin ← readRobinSpec h (grs_Robin i);
  purge ← readVar TBool h (grs_PurgeKeysOnRebalance i);
  resources ← readLib LResourceRequirements h (grs_Resources i);
  labels ← readStringMapPtr h (grs_Labels i);
  annotations ← readStringMapPtr h (grs_Annotations i);
  override ← readPtr TRedkeyOverrideSpec readRedkeyOverrideSpec h (grs_Override i);
  accessModes ← readStrings h (grs_AccessModes i);
  Some (mkRedkeySpec (grs_Auth i) (grs_Version i) (grs_Mode i) (grs_Primaries i) (grs_ReplicasPerPrimary i)
    (grs_Image i) deletePVC (grs_Backup i) robin (grs_SkipIfSuperseded i) purge (grs_Config i) resources
    labels annotations (grs_Pdb i) override (grs_Ephemeral i) (grs_Storage i) (grs_StorageClassName i)
    accessModes).

Definition readRedkeyStatus (h : Heap) (i : gRedkeyStatus) : option RedkeyStatus :=
  nodes ← readNodes h (grst_Nodes i);
  conditions ← readLibs LCondition h (grst_Conditions i);
  lastUpdatedAt ← readLib LTime h (grst_LastUpdatedAt i);
  Some (mkRedkeyStatus (grst_Replicas i) (grst_Phase i) (grst_Status i) (grst_Substatus i) nodes conditions
    lastUpdatedAt (grst_ObservedGeneration i) (grst_LastAppliedPrimaries i)
    (grst_LastAppliedReplicasPerPrimary i)).

Definition readRedkeyConfigSpec (h : Heap) (i : gRedkeyConfigSpec) : option RedkeyConfigSpec :=
  resources ← readLib LResourceRequirements h (grcs_Resources i);
  labels ← readStringMapPtr h (grcs_Labels i);
  annotations ← readStringMapPtr h (grcs_Annotations i);
  deletePVC ← readVar TBool h (grcs_DeletePVC i);
  purge ← readVar TBool h (grcs_PurgeKeysOnRebalance i);
  override ← readPtr TRedkeyOverrideSpec readRedkeyOverrideSpec h (grcs_Override i);
  robinConfig ← readPtr TRobinConfig readRobinConfig h (grcs_RobinConfig i);
  Some (mkRedkeyConfigSpec (grcs_Sequence i) (grcs_SkipIfSuperseded i) (grcs_Mode i) (grcs_Primaries i)
    (grcs_ReplicasPerPrimary i) (grcs_Ephemeral i) (grcs_Storage i) (grcs_StorageClassName i) (grcs_Image i)
    (grcs_Version i) (grcs_RedisConfig i) resources (grcs_Auth i) labels annotations deletePVC purge override
    (grcs_Pdb i) robinConfig).

Definition readRedkeyConfigStatus (h : Heap) (i : gRedkeyConfigStatus) : option RedkeyConfigStatus :=
  nodes ← readNodes h (grct_Nodes i);
  conditions ← readLibs LCondition h (grct_Conditions i);
  lastUpdatedAt ← readLib LTime h (grct_LastUpdatedAt i);
  Some (mkRedkeyConfigStatus (grct_ConfigPhase i) (grct_Status i) (grct_Substatus i) nodes conditions
    lastUpdatedAt (grct_ObservedGeneration i)).

Definition readRedkey (h : Heap) (i : gRedkey) : option (TypeMeta * Redkey) :=
  meta ← lib_read LObjectMeta h (grk_ObjectMeta i);
  spec ← readRedkeySpec h (grk_Spec i);
  status ← readRedkeyStatus h (grk_Status i);
  Some (grk_TypeMeta i, mkRedkey meta spec status).

Definition readRedkeyConfig (h : Heap) (i : gRedkeyConfig) : option (TypeMeta * RedkeyConfig) :=
  meta ← lib_read LObjectMeta h (gcf_ObjectMeta i);
  spec ← readRedkeyConfigSpec h (gcf_Spec i);
  status ← readRedkeyConfigStatus h (gcf_Status i);
  Some (gcf_TypeMeta i, mkRedkeyConfig meta spec status).

Definition readRedkeyList (h : Heap) (i : gRedkeyList) : option (TypeMeta * RawJSON * list (TypeMeta * Redkey)) :=
  meta ← lib_read LListMeta h (grl_ListMeta i);
  items ← readSlice TRedkey readRedkey h (grl_Items i);
  Some (grl_TypeMeta i, meta, items).

Definition readRedkeyConfigList (h : Heap) (i : gRedkeyConfigList)
    : option (TypeMeta * RawJSON * list (TypeMeta * RedkeyConfig)) :=
  meta ← lib_read LListMeta h (gcl_ListMeta i);
  items ← readSlice TRedkeyConfig readRedkeyConfig h (gcl_Items i);
  Some (gcl_TypeMeta i, meta, items).

(** The value of a [runtime.Object]. *)
Inductive ObjectV :=
| RedkeyV (v : TypeMeta * Redkey)
| RedkeyConfigV (v : TypeMeta * RedkeyConfig)
| RedkeyListV (v : TypeMeta * RawJSON * list (TypeMeta * Redkey))
| RedkeyConfigListV (v : TypeMeta * RawJSON * list (TypeMeta * RedkeyConfig)).

Definition readAt {V} (t : GoTy) (rd : Heap → denote t → option V) (h : Heap) (l : loc) : option V :=
  x ← varAt h t l; rd h x.

Definition readObject (h : Heap) (o : Object) : option ObjectV :=
  match o with
  | NilObject => None
  | RedkeyObject l => RedkeyV <$> readAt TRedkey readRedkey h l
  | RedkeyConfigObject l => RedkeyConfigV <$> readAt TRedkeyConfig readRedkeyConfig h l
  | RedkeyListObject l => RedkeyListV <$> readAt TRedkeyList readRedkeyList h l
  | RedkeyConfigListObject l => RedkeyConfigListV <$> readAt TRedkeyConfigList readRedkeyConfigList h l
  end.
End reading.

(** ** Every reader is monotone, every copy function deep *)

Section correct.
Context `{LibLaws, !GoRuntime, !GoRuntimeLaws}.

#[local] Instance readable_var t : Readable (readVar t).
Proof. apply _. Qed.
#[local] Instance readable_stringMap : Readable readStringMap.
Proof. apply _. Qed.
#[local] Instance readable_stringMapPtr : Readable readStringMapPtr.
Proof. unfold readStringMapPtr. apply _. Qed.
#[local] Instance readable_strings : Readable readStrings.
Proof. apply _. Qed.
#[local] Instance readable_nodes : Readable readNodes.
Proof. unfold readNodes. apply _. Qed.
#[local] Instance readable_libs l : Readable (readLibs l).
Proof. exact (readable_slice (H := goUniverse) (TLib l) (lib_read l) (lib_readable l)). Qed.
#[local] Instance readable_lib l : Readable (readLib l).
Proof. exact (readable_ptr (H := goUniverse) (TLib l) (lib_read l) (lib_readable l)). Qed.

#[local] Instance readable_PartialPodSpec : Readable readPartialPodSpec.
Proof. readable_struct @readPartialPodSpec. Qed.
#[local] Instance readable_PartialPodTemplateSpec : Readable readPartialPodTemplateSpec.
Proof. readable_struct @readPartialPodTemplateSpec. Qed.
#[local] Instance readable_PartialServiceSpec : Readable readPartialServiceSpec.
Proof. readable_struct @readPartialServiceSpec. Qed.
#[local] Instance readable_PartialService : Readable readPartialService.
Proof. readable_struct @readPartialService. Qed.
#[local] Instance readable_PartialStatefulSetSpec : Readable readPartialStatefulSetSpec.
Proof. readable_struct @readPartialStatefulSetSpec. Qed.
#[local] Instance readable_PartialStatefulSet : Readable readPartialStatefulSet.
Proof. readable_struct @readPartialStatefulSet. Qed.
#[local] Instance readable_RedkeyOverrideSpec : Readable readRedkeyOverrideSpec.
Proof. readable_struct @readRedkeyOverrideSpec. Qed.
#[local] Instance readable_RobinConfigProfiling : Readable readRobinConfigProfiling.
Proof. readable_struct @readRobinConfigProfiling. Qed.
#[local] Instance readable_RobinConfigReconciler : Readable readRobinConfigReconciler.
Proof. readable_struct @readRobinConfigReconciler. Qed.
#[local] Instance readable_RobinConfigCluster : Readable readRobinConfigCluster.
Proof. readable_struct @readRobinConfigCluster. Qed.
#[local] Instance readable_RobinConfigMetrics : Readable readRobinConfigMetrics.
Proof. readable_struct @readRobinConfigMetrics. Qed.
#[local] Instance readable_RobinConfig : Readable readRobinConfig.
Proof. readable_struct @readRobinConfig. Qed.
#[local] Instance readable_RobinSpec : Readable readRobinSpec.
Proof. readable_struct @readRobinSpec. Qed.
#[local] Instance readable_RedkeySpec : Readable readRedkeySpec.
Proof. readable_struct @readRedkeySpec. Qed.
#[local] Instance readable_RedkeyStatus : Readable readRedkeyStatus.
Proof. readable_struct @readRedkeyStatus. Qed.
#[local] Instance readable_RedkeyConfigSpec : Readable readRedkeyConfigSpec.
Proof. readable_struct @readRedkeyConfigSpec. Qed.
#[local] Instance readable_RedkeyConfigStatus : Readable readRedkeyConfigStatus.
Proof. readable_struct @readRedkeyConfigStatus. Qed.
#[local] Instance readable_Redkey : Readable readRedkey.
Proof. readable_struct @readRedkey. Qed.
#[local] Instance readable_RedkeyConfig : Readable readRedkeyConfig.
Proof. readable_struct @readRedkeyConfig. Qed.
#[local] Instance readable_RedkeyList : Readable readRedkeyList.
Proof. readable_struct @readRedkeyList. Qed.
#[local] Instance readable_RedkeyConfigList : Readable readRedkeyConfigList.
Proof. readable_struct @readRedkeyConfigList. Qed.

#[local] Instance deep_var t : Deep (readVar t) (copyVar t).
Proof. apply deep_ptr; apply _. Qed.
#[local] Instance deep_stringMap : Deep readStringMap copyStringMap.
Proof. apply deep_map; apply _. Qed.
#[local] Instance deep_stringMapPtr : Deep readStringMapPtr copyStringMapPtr.
Proof. apply deep_ptr; [exact readable_stringMap|exact deep_stringMap]. Qed.
#[local] Instance deep_strings : Deep readStrings (copySlice TString mret).
Proof. apply deep_slice; apply _. Qed.
#[local] Instance deep_nodes : Deep readNodes copyNodes.
Proof. apply deep_map; [exact (readable_var TRedisNode)|exact (deep_var TRedisNode)]. Qed.
#[local] Instance deep_libs l : Deep (readLibs l) (copySlice (TLib l) (lib_DeepCopyInto l)).
Proof. apply deep_slice; [exact (lib_readable l)|exact (lib_deep l)]. Qed.
#[local] Instance deep_lib l : Deep (readLib l) (copyPtr (TLib l) (lib_DeepCopyInto l)).
Proof. apply deep_ptr; [exact (lib_readable l)|exact (lib_deep l)]. Qed.
#[local] Instance deep_resources : Deep (readLib LResourceRequirements) copyResources.
Proof. apply deep_lib. Qed.
#[local] Instance deep_conditions : Deep (readLibs LCondition) copyConditions.
Proof. apply deep_libs. Qed.
#[local] Instance deep_time : Deep (readLib LTime) copyTime.
Proof. apply deep_lib. Qed.

(** Assignment copies a type without pointers. *)
Lemma deep_assign l : flatLib l = true → Deep (lib_read l) mret.
Proof. intros Hl h a v Hv. split; [done|]. by rewrite (lib_flat l _ h). Qed.
#[local] Instance deep_pullSecrets :
  Deep (readLibs LLocalObjectReference) (copySlice (TLib LLocalObjectReference) mret).
Proof. apply deep_slice; [exact (lib_readable _)|by apply deep_assign]. Qed.
#[local] Instance deep_retention :
  Deep (readLib LStatefulSetPersistentVolumeClaimRetentionPolicy)
    (copyVar (TLib LStatefulSetPersistentVolumeClaimRetentionPolicy)).
Proof. apply deep_ptr; [exact (lib_readable _)|by apply deep_assign]. Qed.
#[local] Instance deep_ordinals : Deep (readLib LStatefulSetOrdinals) (copyVar (TLib LStatefulSetOrdinals)).
Proof. apply deep_ptr; [exact (lib_readable _)|by apply deep_assign]. Qed.

#[local] Instance deep_PartialPodSpec : Deep readPartialPodSpec PartialPodSpec_DeepCopyInto.
Proof. deep_struct @readPartialPodSpec @PartialPodSpec_DeepCopyInto. Qed.
#[local] Instance deep_PartialPodTemplateSpec : Deep readPartialPodTemplateSpec PartialPodTemplateSpec_DeepCopyInto.
Proof. deep_struct @readPartialPodTemplateSpec @PartialPodTemplateSpec_DeepCopyInto. Qed.
#[local] Instance deep_PartialServiceSpec : Deep readPartialServiceSpec PartialServiceSpec_DeepCopyInto.
Proof. deep_struct @readPartialServiceSpec @PartialServiceSpec_DeepCopyInto. Qed.
#[local] Instance deep_PartialService : Deep readPartialService PartialService_DeepCopyInto.
Proof. deep_struct @readPartialService @PartialService_DeepCopyInto. Qed.
#[local] Instance deep_PartialStatefulSetSpec : Deep readPartialStatefulSetSpec PartialStatefulSetSpec_DeepCopyInto.
Proof. deep_struct @readPartialStatefulSetSpec @PartialStatefulSetSpec_DeepCopyInto. Qed.
#[local] Instance deep_PartialStatefulSet : Deep readPartialStatefulSet PartialStatefulSet_DeepCopyInto.
Proof. deep_struct @readPartialStatefulSet @PartialStatefulSet_DeepCopyInto. Qed.
#[local] Instance deep_RedkeyOverrideSpec : Deep readRedkeyOverrideSpec RedkeyOverrideSpec_DeepCopyInto.
Proof. deep_struct @readRedkeyOverrideSpec @RedkeyOverrideSpec_DeepCopyInto. Qed.
#[local] Instance deep_RobinConfigProfiling : Deep readRobinConfigProfiling RobinConfigProfiling_DeepCopyInto.
Proof. deep_struct @readRobinConfigProfiling @RobinConfigProfiling_DeepCopyInto. Qed.
#[local] Instance deep_RobinConfigReconciler : Deep readRobinConfigReconciler RobinConfigReconciler_DeepCopyInto.
Proof. deep_struct @readRobinConfigReconciler @RobinConfigReconciler_DeepCopyInto. Qed.
#[local] Instance deep_RobinConfigCluster : Deep readRobinConfigCluster RobinConfigCluster_DeepCopyInto.
Proof. deep_struct @readRobinConfigCluster @RobinConfigCluster_DeepCopyInto. Qed.
#[local] Instance deep_RobinConfigMetrics : Deep readRobinConfigMetrics RobinConfigMetrics_DeepCopyInto.
Proof. deep_struct @readRobinConfigMetrics @RobinConfigMetrics_DeepCopyInto. Qed.
#[local] Instance deep_RobinConfig : Deep readRobinConfig RobinConfig_DeepCopyInto.
Proof. deep_struct @readRobinConfig @RobinConfig_DeepCopyInto. Qed.
#[local] Instance deep_RobinSpec : Deep readRobinSpec RobinSpec_DeepCopyInto.
Proof. deep_struct @readRobinSpec @RobinSpec_DeepCopyInto. Qed.
#[local] Instance deep_RedkeySpec : Deep readRedkeySpec RedkeySpec_DeepCopyInto.
Proof. deep_struct @readRedkeySpec @RedkeySpec_DeepCopyInto. Qed.
#[local] Instance deep_RedkeyStatus : Deep readRedkeyStatus RedkeyStatus_DeepCopyInto.
Proof. deep_struct @readRedkeyStatus @RedkeyStatus_DeepCopyInto. Qed.
#[local] Instance deep_RedkeyConfigSpec : Deep readRedkeyConfigSpec RedkeyConfigSpec_DeepCopyInto.
Proof. deep_struct @readRedkeyConfigSpec @RedkeyConfigSpec_DeepCopyInto. Qed.
#[local] Instance deep_RedkeyConfigStatus : Deep readRedkeyConfigStatus RedkeyConfigStatus_DeepCopyInto.
Proof. deep_struct @readRedkeyConfigStatus @RedkeyConfigStatus_DeepCopyInto. Qed.
#[local] Instance deep_Redkey : Deep readRedkey Redkey_DeepCopyInto.
Proof. deep_struct @readRedkey @Redkey_DeepCopyInto. Qed.
#[local] Instance deep_RedkeyConfig : Deep readRedkeyConfig RedkeyConfig_DeepCopyInto.
Proof. deep_struct @readRedkeyConfig @RedkeyConfig_DeepCopyInto. Qed.
#[local] Instance deep_RedkeyList : Deep readRedkeyList RedkeyList_DeepCopyInto.
Proof. deep_struct @readRedkeyList @RedkeyList_DeepCopyInto. Qed.
#[local] Instance deep_RedkeyConfigList : Deep readRedkeyConfigList RedkeyConfigList_DeepCopyInto.
Proof. deep_struct @readRedkeyConfigList @RedkeyConfigList_DeepCopyInto. Qed.

(** ** DeepCopy and DeepCopyObject *)

Lemma readAt_mono {V} (t : GoTy) (rd : Heap → denote t → option V) h g l v :
  Readable rd → h ⊆ g → readAt t rd h l = Some v → readAt t rd g l = Some v.
Proof.
  unfold readAt. intros Hr Hsub (x & Hx & Hv)%bind_Some.
  rewrite (varAt_mono h g t l x Hsub Hx). simpl. by eapply Hr.
Qed.

(** [DeepCopy] of a non-nil pointer: a new variable, in new cells. *)
Lemma mwp_DeepCopyOf {V} (t : GoTy) (rd : Heap → denote t → option V) copy h l v :
  Readable rd → Deep rd copy → readAt t rd h l = Some v →
  mwp (DeepCopyOf t copy (Some l)) h (λ p h',
    h ⊆ h' ∧ ∃ l', p = Some l' ∧ readAt t rd (h' ∖ h) l' = Some v).
Proof.
  intros Hr Hc Hv. eapply mwp_mono.
  - apply (deep_ptr (H := goUniverse) t rd copy Hr Hc h (Some l) (Some v)). unfold readAt in Hv. simpl.
    destruct (varAt h t l) as [x|]; [|done]. simpl in *. by rewrite Hv.
  - intros p h' [Hsub Hp]. split; [done|]. destruct p as [l'|]; [|done]. exists l'. split; [done|].
    unfold readAt. simpl in Hp. destruct (varAt (h' ∖ h) t l') as [y|]; [|done]. simpl in *.
    destruct (rd (h' ∖ h) y); [|done]. by injection Hp as ->.
Qed.

#[local] Instance readable_object : Readable readObject.
Proof.
  intros h g o v Hsub. destruct o; simpl; [done|..]; rewrite !fmap_Some; intros (x & Hx & ->);
    exists x; (split; [|done]); (eapply readAt_mono; [apply _|exact Hsub|exact Hx]).
Qed.

Lemma mwp_objectOf {V} (t : GoTy) (rd : Heap → denote t → option V) copy wrap (inj : V → ObjectV) h l v :
  Readable rd → Deep rd copy → (∀ g l', readObject g (wrap l') = inj <$> readAt t rd g l') →
  readObject h (wrap l) = Some v →
  mwp (objectOf wrap (DeepCopyOf t copy (Some l))) h (λ o' h', h ⊆ h' ∧ readObject (h' ∖ h) o' = Some v).
Proof.
  intros Hr Hc Hinj Hv. rewrite Hinj in Hv. apply fmap_Some in Hv as (x & Hx & ->).
  apply mwp_bind. eapply mwp_mono; [exact (mwp_DeepCopyOf t rd copy h l x Hr Hc Hx)|]. intros p h' (Hsub & l' & -> & Hl').
  split; [done|]. simpl. by rewrite Hinj, Hl'.
Qed.

Lemma mwp_DeepCopyObject h o v :
  readObject h o = Some v → mwp (DeepCopyObject o) h (λ o' h', h ⊆ h' ∧ readObject (h' ∖ h) o' = Some v).
Proof.
  destruct o as [|l|l|l|l]; [done|..]; intros Hv.
  - by apply (mwp_objectOf TRedkey readRedkey Redkey_DeepCopyInto RedkeyObject RedkeyV);
      [exact readable_Redkey|exact deep_Redkey|..].
  - by apply (mwp_objectOf TRedkeyConfig readRedkeyConfig RedkeyConfig_DeepCopyInto RedkeyConfigObject RedkeyConfigV);
      [exact readable_RedkeyConfig|exact deep_RedkeyConfig|..].
  - by apply (mwp_objectOf TRedkeyList readRedkeyList RedkeyList_DeepCopyInto RedkeyListObject RedkeyListV);
      [exact readable_RedkeyList|exact deep_RedkeyList|..].
  - by apply (mwp_objectOf TRedkeyConfigList readRedkeyConfigList RedkeyConfigList_DeepCopyInto
      RedkeyConfigListObject RedkeyConfigListV); [exact readable_RedkeyConfigList|exact deep_RedkeyConfigList|..].
Qed.

(** C20: deep copies of API objects.  [DeepCopyObject] of any object that stands
    for a value never panics, changes no memory that existed, and returns an
    object that stands for the same value.  The two share nothing: whatever is
    written to the memory that existed before leaves the copy as it is, and
    whatever is written to any other memory leaves the original as it is. *)
Theorem DeepCopyObject_independent (h : Heap) (o : Object) (v : ObjectV) :
  readObject h o = Some v →
  ∃ o' h', DeepCopyObject o h = Some (o', h') ∧
    h ⊆ h' ∧ readObject h' o' = Some v ∧
    (∀ g, (∀ l, h !! l = None → g !! l = h' !! l) → readObject g o' = Some v) ∧
    (∀ g, (∀ l, is_Some (h !! l) → g !! l = h !! l) → readObject g o = Some v).
Proof.
  intros Hv. pose proof (mwp_DeepCopyObject h o v Hv) as Hwp. unfold mwp in Hwp.
  destruct (DeepCopyObject o h) as [[o' h']|]; [|done]. destruct Hwp as [Hsub Hnew].
  assert (Hcopy : ∀ g, (∀ l, h !! l = None → g !! l = h' !! l) → readObject g o' = Some v).
  { intros g Hg. eapply readable_object; [|exact Hnew]. apply map_subseteq_spec. intros l c.
    rewrite lookup_difference_Some. intros [Hl Hh]. by rewrite Hg. }
  exists o', h'. repeat split; [done|by apply Hcopy|done|].
  intros g Hg. eapply readable_object; [|exact Hv]. apply map_subseteq_spec. intros l c Hl.
  rewrite Hg; [done|by eexists].
Qed.

(** A nil receiver gives the nil object, not a nil pointer in disguise. *)
Lemma DeepCopyObject_nil h :
  Redkey_DeepCopyObject None h = Some (NilObject, h) ∧ RedkeyConfig_DeepCopyObject None h = Some (NilObject, h) ∧
  RedkeyList_DeepCopyObject None h = Some (NilObject, h) ∧ RedkeyConfigList_DeepCopyObject None h = Some (NilObject, h).
Proof. done. Qed.

(** C30: the end of [aggregateStatus] in memory.  Copying [latest.Status] over
    [cluster.Status] makes the caller's Redkey stand for itself with the
    persisted status (what [aggregateStatus] of the value model returns),
    changes no other variable, and leaves the new status in memory of its own. *)
Theorem copyStatus_refines (h : Heap) (latest cluster : loc) (tm tm' : TypeMeta) (L C : Redkey) (x : gRedkey) :
  readAt TRedkey readRedkey h latest = Some (tm', L) →
  varAt h TRedkey cluster = Some x → readRedkey (delete cluster h) x = Some (tm, C) →
  ∃ h' x', copyStatus latest cluster h = Some (tt, h') ∧
    readAt TRedkey readRedkey h' cluster = Some (tm, set_rk_Status (rk_Status L) C) ∧
    varAt h' TRedkey cluster = Some x' ∧
    readRedkeyStatus (h' ∖ h) (grk_Status x') = Some (rk_Status L) ∧
    ∀ l, l ≠ cluster → is_Some (h !! l) → h' !! l = h !! l.
Proof.
  intros (y & Hy & HL)%bind_Some Hx HC. unfold readRedkey in HL, HC. read_fields HL. read_fields HC.
  injection HL as _ <-. injection HC as <- <-.
  match goal with G : readRedkeyStatus h (grk_Status y) = Some ?st |- _ =>
    pose proof (deep_RedkeyStatus h (grk_Status y) st G) as Hwp end.
  unfold mwp in Hwp. unfold copyStatus, load, reading, store, mbind, M_bind.
  simpl denote in *. rewrite Hy.
  destruct (RedkeyStatus_DeepCopyInto (grk_Status y) h) as [[st h1]|]; [|done]. destruct Hwp as [Hsub Hst].
  assert (Hx1 : varAt h1 TRedkey cluster = Some x)
    by exact (varAt_mono (H := goUniverse) h h1 TRedkey cluster x Hsub Hx).
  rewrite Hx1, Hx1. set (x' := mkgRedkey _ _ _ _). exists (<[cluster := CVar (H := goUniverse) TRedkey x']> h1), x'.
  assert (Hvar : varAt (<[cluster := CVar (H := goUniverse) TRedkey x']> h1) TRedkey cluster = Some x').
  { unfold varAt. by rewrite lookup_insert_eq, retype_same. }
  assert (Hdom : is_Some (h !! cluster)) by (unfold varAt in Hx; destruct (h !! cluster); [by eexists|done]).
  assert (Hnew : h1 ∖ h ⊆ <[cluster := CVar (H := goUniverse) TRedkey x']> h1 ∖ h).
  { apply map_subseteq_spec. intros l c. rewrite !lookup_difference_Some. intros [Hl Hh]. split; [|done].
    rewrite lookup_insert_ne; [done|]. intros <-. rewrite Hh in Hdom. by destruct Hdom. }
  assert (Hold : delete cluster h ⊆ <[cluster := CVar (H := goUniverse) TRedkey x']> h1).
  { apply map_subseteq_spec. intros l c. rewrite lookup_delete_Some. intros [Hne Hl].
    rewrite lookup_insert_ne by done. by eapply lookup_weaken. }
  split; [done|]. split; [|split; [done|split]].
  - unfold readAt. simpl denote. rewrite Hvar. simpl. unfold readRedkey. simpl.
    repeat match goal with F : ?r (delete cluster h) ?z = Some ?v |- context [?r ?g ?z] =>
      rewrite (readable_mono (rd := r) _ g z v Hold F); simpl end.
    assert (Hall : h1 ∖ h ⊆ <[cluster := CVar (H := goUniverse) TRedkey x']> h1).
    { etrans; [exact Hnew|]. apply map_subseteq_spec. intros l c. by intros [? _]%lookup_difference_Some. }
    by rewrite (readable_RedkeyStatus _ _ _ _ Hall Hst).
  - by eapply readable_RedkeyStatus.
  - intros l Hne [c Hl]. rewrite lookup_insert_ne by done. rewrite Hl. by eapply lookup_weaken.
Qed.
End correct.

(** ** An instance *)

(** Object metadata with its two maps in memory; every other library type kept
    as its value. *)
Definition sampleLibH (l : Lib) : Type :=
  match l with
  | LObjectMeta => ObjectMeta * MapOf TString * MapOf TString
  | l => LibV l
  end.
#[global] Instance sampleLib : LibMem := sampleLibH.

#[global] Instance sampleRuntime : GoRuntime := {|
  new_addr h := fresh (dom h : gset loc);
  range A m := map_to_list m |}.
#[global] Instance sampleRuntime_laws : GoRuntimeLaws.
Proof. split; [|done]. intros h. apply (not_elem_of_dom (D := gset loc)). simpl. apply is_fresh. Qed.

Definition copySampleMeta (x : LibH LObjectMeta) : M (LibH LObjectMeta) :=
  labels ← copyStringMap x.1.2;
  annotations ← copyStringMap x.2;
  mret (x.1.1, labels, annotations).
Definition readSampleMeta (h : Heap) (x : LibH LObjectMeta) : option ObjectMeta :=
  labels ← readStringMap h x.1.2;
  annotations ← readStringMap h x.2;
  Some (set_om_LabelsAnnotations labels annotations x.1.1).

#[global] Instance sampleLibCopy : LibCopy := λ l,
  match l return LibH l → M (LibH l) with LObjectMeta => copySampleMeta | _ => mret end.
#[global] Instance sampleLibRead : LibRead := λ l,
  match l return Heap → LibH l → option (LibV l) with LObjectMeta => readSampleMeta | _ => λ _ x, Some x end.

#[global] Instance sampleLib_laws : LibLaws.
Proof.
  assert (Hs : Readable readStringMap) by (apply readable_map; apply readable_flat).
  assert (Hc : Deep readStringMap copyStringMap) by (apply deep_map; [apply readable_flat|apply deep_flat]).
  assert (Hr : Readable readSampleMeta) by readable_struct readSampleMeta.
  assert (Hd : Deep readSampleMeta copySampleMeta) by deep_struct readSampleMeta copySampleMeta.
  split; [|..|by intros []].
  - intros []; try exact Hr; by intros h g a v _.
  - intros []; try exact Hd; exact deep_flat.
Qed.

(** A Redkey at address 1 whose metadata and spec share one label map (at 2),
    with a node and a nil node; and another Redkey at 10. *)
Definition sampleVar (t : GoTy) (x : denote t) : Cell := CVar (H := goUniverse) t x.
Definition emptyRobin : gRobinSpec := mkgRobinSpec "redkey-robin:1" None None None.
Definition memSpec (labels : Ptr TMapRef) : gRedkeySpec :=
  mkgRedkeySpec (mkRedisAuth "") "" ModeCluster 3 0 "redis:8" (Some 4%positive) false emptyRobin true None ""
    None labels None (mkPdb false (IntVal 0) (IntVal 0)) None true "" "" (Some (mkSlice 8 1 1)).
Definition memStatus (nodes : MapOf TPtrRedisNode) (status : string) : gRedkeyStatus :=
  mkgRedkeyStatus 3 PhaseReady status (mkRedkeySubstatus "" 0) nodes None None 1 3 0.
Definition memMeta (name : string) (labels : MapOf TString) : LibH LObjectMeta :=
  (mkMeta name "ns" None None [] 1 "v1" "uid" 0, labels, None).

Definition sampleHeap : Heap := list_to_map [
  (1%positive, sampleVar TRedkey (mkgRedkey (mkTypeMeta "Redkey" "v1beta1") (memMeta "rk" (Some 2%positive))
    (memSpec (Some 3%positive)) (memStatus (Some 5%positive) ClusterStatusReady)));
  (2%positive, CMap (H := goUniverse) TString {["team" := "a"]});
  (3%positive, sampleVar TMapRef (Some 2%positive));
  (4%positive, sampleVar TBool true);
  (5%positive, CMap (H := goUniverse) TPtrRedisNode {["n1" := Some 6%positive; "n2" := None]});
  (6%positive, sampleVar TRedisNode (mkRedisNode "primary" "10.0.0.1" ""));
  (8%positive, CArray (H := goUniverse) TString ["x"; "ReadWriteOnce"]);
  (10%positive, sampleVar TRedkey (mkgRedkey (mkTypeMeta "Redkey" "v1beta1") (memMeta "rk" None)
    (memSpec None) (memStatus None ClusterStatusScalingUp)))].

(** The labels a Redkey object shows. *)
Definition labelsOf (v : option ObjectV) : option (gomap * option gomap) :=
  match v with Some (RedkeyV (_, r)) => Some (om_Labels (rk_Meta r), rs_Labels (rk_Spec r)) | _ => None end.

Lemma DeepCopyObject_independent_witness :
  labelsOf (readObject sampleHeap (RedkeyObject 1)) = Some (Some {["team" := "a"]}, Some (Some {["team" := "a"]})) ∧
  ∃ v o' h', readObject sampleHeap (RedkeyObject 1) = Some v ∧
    DeepCopyObject (RedkeyObject 1) sampleHeap = Some (o', h') ∧
    readObject (<[2%positive := CMap (H := goUniverse) TString ∅]> h') o' = Some v.
Proof.
  split; [vm_compute; reflexivity|].
  assert (Hv : is_Some (readObject sampleHeap (RedkeyObject 1))) by (vm_compute; eexists; reflexivity).
  destruct Hv as [v Hv].
  destruct (DeepCopyObject_independent sampleHeap (RedkeyObject 1) v Hv) as (o' & h' & Hc & _ & _ & Hg & _).
  exists v, o', h'. split; [exact Hv|]. split; [exact Hc|]. apply Hg. intros l Hl.
  apply lookup_insert_ne. intros <-. vm_compute in Hl. discriminate Hl.
Defined.

Lemma copyStatus_refines_witness :
  ∃ h' tm r, copyStatus 1 10 sampleHeap = Some (tt, h') ∧
    readAt TRedkey readRedkey h' 10 = Some (tm, r) ∧ rst_Status (rk_Status r) = ClusterStatusReady.
Proof.
  assert (HL : is_Some (readAt TRedkey readRedkey sampleHeap 1)) by (vm_compute; eexists; reflexivity).
  assert (Hs : ∀ tm L, readAt TRedkey readRedkey sampleHeap 1 = Some (tm, L) →
    rst_Status (rk_Status L) = ClusterStatusReady).
  { intros tm L HLs. vm_compute in HLs. injection HLs as <- <-. reflexivity. }
  destruct HL as [[tm' L] HL].
  assert (Hx : ∃ x tm C, varAt sampleHeap TRedkey 10 = Some x ∧
    readRedkey (delete 10%positive sampleHeap) x = Some (tm, C)).
  { do 3 eexists. split; [vm_compute; reflexivity|vm_compute; reflexivity]. }
  destruct Hx as (x & tm & C & Hx & HC').
  destruct (copyStatus_refines sampleHeap 1 10 tm tm' L C x HL Hx HC') as (h' & x' & H1 & H2 & _).
  exists h', tm, (set_rk_Status (rk_Status L) C). split; [exact H1|]. split; [exact H2|].
  exact (Hs tm' L HL).
Defined.
