(* ===== verification/Effects.v ===== *)
(** * Effects of the operator

    The operator's code is translated into values of [prog]: finite trees of
    the requests it issues (API calls through controller-runtime's client,
    clock reads, metric updates, accesses to its own in-memory trackers), each
    continued by every possible response.  Nothing about the API server or the
    client library is fixed here: a tree can be followed along an arbitrary
    sequence of responses ([runs]) or executed against a client ([exec]). *)

From S2P Require Import Prelude GoLib K8s Types.
Local Open Scope Z_scope.

(** ** Errors *)

(** An [error] value: the API status reasons the code tests for, any other
    error, and [fmt.Errorf("...: %w", err)]. *)
Inductive error :=
| NotFound
| AlreadyExists
| Conflict
| OtherError (msg : string)
| Errorf (msg : string) (wrapped : error).
#[global] Instance error_eq_dec : EqDecision error.
Proof. solve_decision. Defined.

(** [errors.IsNotFound], [errors.IsAlreadyExists], [errors.IsConflict]: they
    look through wrapping. *)
Fixpoint IsNotFound (e : error) : bool :=
  match e with NotFound => true | Errorf _ e' => IsNotFound e' | _ => false end.
Fixpoint IsAlreadyExists (e : error) : bool :=
  match e with AlreadyExists => true | Errorf _ e' => IsAlreadyExists e' | _ => false end.
Fixpoint IsConflict (e : error) : bool :=
  match e with Conflict => true | Errorf _ e' => IsConflict e' | _ => false end.

(** ** Kinds of API objects *)

Inductive Kind := KRedkey | KRedkeyConfig | KDeployment | KServiceAccount | KRole | KRoleBinding.
#[global] Instance Kind_eq_dec : EqDecision Kind.
Proof. solve_decision. Defined.

(** The Go type behind a [client.Object] of each kind. *)
Definition obj (k : Kind) : Type :=
  match k with
  | KRedkey => Redkey
  | KRedkeyConfig => RedkeyConfig
  | KDeployment => Deployment
  | KServiceAccount => ServiceAccount
  | KRole => Role
  | KRoleBinding => RoleBinding
  end.

Definition meta_of (k : Kind) : obj k → ObjectMeta :=
  match k with
  | KRedkey => rk_Meta
  | KRedkeyConfig => cf_Meta
  | KDeployment => dp_Meta
  | KServiceAccount => sa_Meta
  | KRole => ro_Meta
  | KRoleBinding => rb_Meta
  end.

Definition key_of (k : Kind) (o : obj k) : NamespacedName := om_key (meta_of k o).

(** ** In-memory trackers (metrics.go) *)

(** [type activeOperation struct]. *)
Record activeOperation := mkActiveOperation { ao_operation : string; ao_startedAt : Z }.

(** The mutexes [opTracker.mu] and [readyTracker.mu]. *)
Inductive Mutex := OpTrackerMu | ReadyTrackerMu.
#[global] Instance Mutex_eq_dec : EqDecision Mutex.
Proof. solve_decision. Defined.

(** The metric vectors declared in metrics.go. *)
Inductive MetricName :=
| redkeyPhase | redkeyConfigPhase | redkeyOperationDuration | redkeyOperationTotal
| redkeyOperationInProgress | redkeyReconcileStageErrors | redkeyConfigCreations
| redkeyCleanupDeletedConfigs | redkeyRobinDeploymentChanges | redkeyTimeToReady.
#[global] Instance MetricName_eq_dec : EqDecision MetricName.
Proof. solve_decision. Defined.

(** A call on a Prometheus vector: label values in declaration order. *)
Inductive MetricCall :=
| GaugeSet (m : MetricName) (labels : list string) (v : Z)
| DeletePartialMatch (m : MetricName) (ns name : string)
| CounterInc (m : MetricName) (labels : list string)
| Observe (m : MetricName) (labels : list string) (elapsed : Z).

(** ** Requests *)

Inductive Req : Type → Type :=
| Get (k : Kind) (key : NamespacedName) : Req (res error (obj k))
| ListConfigs (ns clusterLabel : string) : Req (res error (list RedkeyConfig))
| Create (k : Kind) (o : obj k) : Req (res error unit)
| Delete (k : Kind) (key : NamespacedName) : Req (res error unit)
| Patch (k : Kind) (base new : obj k) : Req (res error unit)
| StatusUpdate (o : Redkey) : Req (res error Redkey)
| Now : Req Z
| Emit (m : MetricCall) : Req unit
| Lock (m : Mutex) : Req unit
| Unlock (m : Mutex) : Req unit
| OpLookup (key : NamespacedName) : Req (option activeOperation)
| OpStore (key : NamespacedName) (v : activeOperation) : Req unit
| OpDelete (key : NamespacedName) : Req unit
| PhaseLookup (key : NamespacedName) : Req (option string)
| PhaseStore (key : NamespacedName) (v : string) : Req unit
| PhaseDelete (key : NamespacedName) : Req unit.

(** ** Programs *)

Inductive prog (A : Type) : Type :=
| Ret (a : A)
| Call {T : Type} (q : Req T) (k : T → prog A).
Arguments Ret {A} a.
Arguments Call {A T} q k.

Fixpoint prog_bind {A B} (f : A → prog B) (p : prog A) : prog B :=
  match p with
  | Ret a => f a
  | Call q k => Call q (λ r, prog_bind f (k r))
  end.

#[global] Instance prog_mret : MRet prog := @Ret.
#[global] Instance prog_mbind : MBind prog := @prog_bind.

(** Issue one request. *)
Definition call {T} (q : Req T) : prog T := Call q Ret.

(** Code returning [(A, error)]. *)
Abbreviation go A := (prog (res error A)).

(** [x, err := p; if err != nil { return err }; k]. *)
Definition go_bind {A B} (p : go A) (k : A → go B) : go B :=
  r ← p; match r with Ok a => k a | Err e => mret (Err e) end.

Notation "x ⇐ p ; k" := (go_bind p (λ x, k))
  (at level 20, p at level 100, k at level 200, only parsing) : stdpp_scope.
Notation "p ;;; k" := (go_bind p (λ _, k))
  (at level 100, right associativity, only parsing) : stdpp_scope.

Definition go_return {A} (a : A) : go A := mret (Ok a).
Definition go_fail {A} (e : error) : go A := mret (Err e).

(** [fmt.Errorf("msg: %w", err)] around a fallible call. *)
Definition wrap_err {A} (msg : string) (p : go A) : go A :=
  r ← p; match r with Ok a => mret (Ok a) | Err e => mret (Err (Errorf msg e)) end.

(** [for _, x := range l { f(x) }]. *)
Fixpoint for_each {A} (l : list A) (f : A → prog unit) : prog unit :=
  match l with
  | [] => mret tt
  | x :: l' => f x ≫= λ _, for_each l' f
  end.

(** ** Following a program along a sequence of responses *)

Inductive event :=
| Ev {T : Type} (q : Req T) (r : T).

(** [runs p tr a]: some responses lead [p] through the calls [tr] to [a]. *)
Fixpoint runs {A} (p : prog A) (tr : list event) (a : A) : Prop :=
  match p with
  | Ret b => tr = [] ∧ a = b
  | Call q k => ∃ r tr', tr = Ev q r :: tr' ∧ runs (k r) tr' a
  end.

(** Every request [p] can issue satisfies [P], whatever the responses. *)
Fixpoint all_calls (P : ∀ T, Req T → Prop) {A} (p : prog A) : Prop :=
  match p with
  | Ret _ => True
  | Call q k => P _ q ∧ ∀ r, all_calls P (k r)
  end.

(** As [all_calls], for responses that satisfy [R] and with a condition on
    the result. *)
Fixpoint obeys (R : ∀ T, Req T → T → Prop) (P : ∀ T, Req T → Prop) {A}
    (p : prog A) (Q : A → Prop) : Prop :=
  match p with
  | Ret a => Q a
  | Call q k => P _ q ∧ ∀ r, R _ q r → obeys R P (k r) Q
  end.

(** ** Lemmas on programs *)

Lemma prog_bind_ret {A B} (f : A → prog B) a : (mret a ≫= f) = f a.
Proof. done. Qed.

Lemma runs_bind {A B} (p : prog A) (f : A → prog B) tr b :
  runs (p ≫= f) tr b ↔ ∃ tr1 tr2 a, tr = tr1 ++ tr2 ∧ runs p tr1 a ∧ runs (f a) tr2 b.
Proof.
  revert tr. induction p as [a|T q k IH]; intros tr; simpl.
  - split.
    + intros H. by exists [], tr, a.
    + by intros (tr1 & tr2 & a' & -> & [-> ->] & H).
  - split.
    + intros (r & tr' & -> & H). apply IH in H as (tr1 & tr2 & a & -> & H1 & H2).
      exists (Ev q r :: tr1), tr2, a. split; [done|]. split; [|done]. by exists r, tr1.
    + intros (tr1 & tr2 & a & -> & (r & tr' & -> & H1) & H2).
      exists r, (tr' ++ tr2). split; [done|]. apply IH. by exists tr', tr2, a.
Qed.

Lemma runs_call {T} (q : Req T) tr r : runs (call q) tr r ↔ tr = [Ev q r].
Proof.
  simpl. split.
  - by intros (r' & tr' & -> & -> & ->).
  - intros ->. by exists r, [].
Qed.

Lemma obeys_bind R P {A B} (p : prog A) (f : A → prog B) Q :
  obeys R P (p ≫= f) Q ↔ obeys R P p (λ a, obeys R P (f a) Q).
Proof.
  induction p as [a|T q k IH]; [done|]. simpl. split; intros [Hq H]; split; auto;
    intros r Hr; apply IH; auto.
Qed.

Lemma obeys_mono (R R' : ∀ T, Req T → T → Prop) (P P' : ∀ T, Req T → Prop) {A} (p : prog A)
    (Q Q' : A → Prop) :
  (∀ T q r, R' T q r → R T q r) → (∀ T q, P T q → P' T q) → (∀ a, Q a → Q' a) →
  obeys R P p Q → obeys R' P' p Q'.
Proof.
  intros HR HP HQ. induction p as [a|T q k IH]; simpl; [auto|]. intros [H1 H2]. auto.
Qed.

Lemma obeys_call (R : ∀ T, Req T → T → Prop) (P : ∀ T, Req T → Prop) {T} (q : Req T) (Q : T → Prop) :
  P T q → (∀ r, R T q r → Q r) → obeys R P (call q) Q.
Proof. by intros HP HQ. Qed.

Lemma obeys_ret R P {A} (a : A) (Q : A → Prop) : Q a → obeys R P (mret a) Q.
Proof. done. Qed.

Lemma obeys_conseq R P {A} (p : prog A) (Q Q' : A → Prop) :
  obeys R P p Q → (∀ a, Q a → Q' a) → obeys R P p Q'.
Proof. intros Hp HQ. eapply obeys_mono; [..|done]; auto. Qed.

Lemma obeys_go_bind R P {A B} (p : go A) (k : A → go B) Q :
  obeys R P p (λ r, match r with Ok a => obeys R P (k a) Q | Err e => Q (Err e) end) →
  obeys R P (go_bind p k) Q.
Proof.
  intros Hp. apply obeys_bind. eapply obeys_conseq; [done|]. by intros [a|e].
Qed.

Lemma obeys_wrap_err R P {A} msg (p : go A) Q :
  obeys R P p (λ r, match r with Ok a => Q (Ok a) | Err e => Q (Err (Errorf msg e)) end) →
  obeys R P (wrap_err msg p) Q.
Proof.
  intros Hp. apply obeys_bind. eapply obeys_conseq; [done|]. by intros [a|e].
Qed.

Lemma obeys_runs R P {A} (p : prog A) Q tr a :
  obeys R P p Q → runs p tr a → Forall (λ e, match e with @Ev T q r => R T q r end) tr →
  Forall (λ e, match e with @Ev T q _ => P T q end) tr ∧ Q a.
Proof.
  revert tr. induction p as [b|T q k IH]; intros tr; simpl.
  - by intros HQ [-> ->] _.
  - intros [HP Hk] (r & tr' & -> & Hr) HR. apply Forall_cons in HR as [Hr1 Hr2].
    destruct (IH r tr' (Hk r Hr1) Hr Hr2) as [H1 H2]. by split; [constructor|].
Qed.

Lemma all_calls_bind P {A B} (p : prog A) (f : A → prog B) :
  all_calls P p → (∀ a, all_calls P (f a)) → all_calls P (p ≫= f).
Proof.
  intros Hp Hf. induction p as [a|T q k IH]; simpl in *; [apply Hf|].
  destruct Hp as [Hq Hk]. split; auto.
Qed.

Lemma all_calls_mono (P P' : ∀ T, Req T → Prop) {A} (p : prog A) :
  (∀ T q, P T q → P' T q) → all_calls P p → all_calls P' p.
Proof. intros HP. induction p as [a|T q k IH]; [done|]. intros [Hq Hk]. split; auto. Qed.

Lemma all_calls_runs P {A} (p : prog A) tr a :
  all_calls P p → runs p tr a → Forall (λ e, match e with @Ev T q _ => P T q end) tr.
Proof.
  revert tr. induction p as [b|T q k IH]; intros tr; simpl.
  - intros _ [-> _]. constructor.
  - intros [Hq Hk] (r & tr' & -> & Hr). constructor; [done|]. by eapply IH.
Qed.

Lemma runs_go_bind {A B} (p : go A) (k : A → go B) tr b :
  runs (go_bind p k) tr b →
  (∃ tr1 tr2 a, tr = tr1 ++ tr2 ∧ runs p tr1 (Ok a) ∧ runs (k a) tr2 b) ∨
  (∃ e, runs p tr (Err e) ∧ b = Err e).
Proof.
  intros (tr1 & tr2 & [a|e] & -> & H1 & H2)%runs_bind; [left; by exists tr1, tr2, a|].
  right. destruct H2 as [-> ->]. exists e. by rewrite app_nil_r.
Qed.

Lemma all_calls_go_bind P {A B} (p : go A) (k : A → go B) :
  all_calls P p → (∀ a, all_calls P (k a)) → all_calls P (go_bind p k).
Proof. intros Hp Hk. apply all_calls_bind; [done|]. intros [a|e]; [apply Hk|done]. Qed.

(** Follow a program through every response. *)
Ltac follow_calls :=
  repeat (simpl; match goal with
  | |- True => exact I
  | |- _ ∧ _ => split
  | |- ∀ _, _ => intros ?
  | |- _ = _ => reflexivity
  | |- context [match ?x with _ => _ end] => destruct x
  end).
