(* ===== verification/Client.v ===== *)
(** * The libraries the operator calls, as interfaces

    controller-runtime's client and the Kubernetes API behind it, and the
    helper packages of apimachinery, client-go and controller-runtime, are not
    part of this repository.  They are parameters here: [K8sLib] and
    [KubeClient] hold the operations, and the propositional classes next to
    them ([K8sLaws], [KubeLaws], [KubeIdeal]) the documented behaviour the
    operator relies on.  The operator's definitions use the operations only;
    theorems name the laws they need.  FakeCluster.v implements the classes. *)

From S2P Require Import Prelude GoLib K8s Types Effects.
Local Open Scope Z_scope.

(** ** Helper libraries *)

(** Whether [ref] says that [owner] controls the object carrying it. *)
Definition controls (owner : Redkey) (ref : OwnerReference) : Prop :=
  or_Controller ref = true ∧ or_Kind ref = "Redkey" ∧
  or_Name ref = rk_Name owner ∧ or_UID ref = om_UID (rk_Meta owner).

Definition set_om_OwnerReferences (refs : list OwnerReference) (m : ObjectMeta) : ObjectMeta :=
  mkMeta (om_Name m) (om_Namespace m) (om_Labels m) (om_Annotations m) refs
    (om_Generation m) (om_ResourceVersion m) (om_UID m) (om_CreationTimestamp m).

(** Running [p] again, up to [n] more times, while it fails with a conflict. *)
Fixpoint retry_conflict (n : nat) {A} (p : go A) : go A :=
  match n with
  | O => p
  | S n' =>
      r ← p;
      match r with
      | Ok a => mret (Ok a)
      | Err e => if IsConflict e then retry_conflict n' p else mret (Err e)
      end
  end.

(** [meta.SetStatusCondition], [meta.FindStatusCondition],
    [equality.Semantic.DeepEqual] at the types the code compares,
    [equality.Semantic.DeepDerivative] on pod specs,
    [controllerutil.SetControllerReference] (on the metadata of the controlled
    object) and [retry.RetryOnConflict]. *)
Class K8sLib := {
  SetStatusCondition : list Condition → Condition → list Condition;
  FindStatusCondition : list Condition → string → option Condition;
  DeepEqual_map : gomap → gomap → bool;
  DeepEqual_rules : list PolicyRule → list PolicyRule → bool;
  DeepEqual_subjects : list Subject → list Subject → bool;
  DeepDerivative : PodSpec → PodSpec → bool;
  SetControllerReference : Redkey → ObjectMeta → res error ObjectMeta;
  RetryOnConflict : ∀ {A}, go A → go A;
}.

(** Documented behaviour of these helpers.  The timestamps
    [SetStatusCondition] stamps are left open; a condition that is there as given
    keeps its own. *)
Class K8sLaws `{K8sLib} : Prop := {
  Find_nil : ∀ t, FindStatusCondition [] t = None;
  Find_Type : ∀ cs t c, FindStatusCondition cs t = Some c → c ∈ cs ∧ c_Type c = t;
  Find_Set_eq : ∀ cs c, ∃ c',
    FindStatusCondition (SetStatusCondition cs c) (c_Type c) = Some c' ∧
    c_Status c' = c_Status c ∧ c_Reason c' = c_Reason c ∧ c_Message c' = c_Message c;
  Find_Set_ne : ∀ cs c t, t ≠ c_Type c →
    FindStatusCondition (SetStatusCondition cs c) t = FindStatusCondition cs t;
  Find_Set_generation : ∀ cs c c', FindStatusCondition (SetStatusCondition cs c) (c_Type c) = Some c' →
    c_ObservedGeneration c' = c_ObservedGeneration c;
  Set_idle : ∀ cs c old, FindStatusCondition cs (c_Type c) = Some old →
    c_Status old = c_Status c → c_Reason old = c_Reason c → c_Message old = c_Message c →
    c_ObservedGeneration old = c_ObservedGeneration c → SetStatusCondition cs c = cs;
  Set_types : ∀ cs c, c_Type <$> SetStatusCondition cs c =
    if bool_decide (c_Type c ∈ c_Type <$> cs) then c_Type <$> cs
    else (c_Type <$> cs) ++ [c_Type c];
  DeepEqual_map_spec : ∀ m1 m2, DeepEqual_map m1 m2 = bool_decide (entries m1 = entries m2);
  DeepEqual_rules_spec : ∀ r1 r2, DeepEqual_rules r1 r2 = bool_decide (r1 = r2);
  DeepEqual_subjects_spec : ∀ r1 r2, DeepEqual_subjects r1 r2 = bool_decide (r1 = r2);
  DeepDerivative_refl : ∀ p, DeepDerivative p p = true;
  SetControllerReference_Ok : ∀ owner m m', SetControllerReference owner m = Ok m' →
    ∃ refs ref, m' = set_om_OwnerReferences refs m ∧ ref ∈ refs ∧ controls owner ref;
  SetControllerReference_total : ∀ owner m,
    om_Namespace m = rk_Namespace owner → om_OwnerReferences m = [] →
    is_ok (SetControllerReference owner m) = true;
  RetryOnConflict_spec : ∃ n, ∀ A (p : go A), RetryOnConflict p = retry_conflict n p;
}.

(** ** The state behind the API *)

Record Store := mkStore {
  st_redkeys : gmap NamespacedName Redkey;
  st_configs : gmap NamespacedName RedkeyConfig;
  st_deployments : gmap NamespacedName Deployment;
  st_serviceaccounts : gmap NamespacedName ServiceAccount;
  st_roles : gmap NamespacedName Role;
  st_rolebindings : gmap NamespacedName RoleBinding;
}.

Definition sget (k : Kind) (s : Store) : gmap NamespacedName (obj k) :=
  match k with
  | KRedkey => st_redkeys s
  | KRedkeyConfig => st_configs s
  | KDeployment => st_deployments s
  | KServiceAccount => st_serviceaccounts s
  | KRole => st_roles s
  | KRoleBinding => st_rolebindings s
  end.

Definition sset (k : Kind) : gmap NamespacedName (obj k) → Store → Store :=
  match k with
  | KRedkey => λ m s, mkStore m (st_configs s) (st_deployments s) (st_serviceaccounts s)
      (st_roles s) (st_rolebindings s)
  | KRedkeyConfig => λ m s, mkStore (st_redkeys s) m (st_deployments s) (st_serviceaccounts s)
      (st_roles s) (st_rolebindings s)
  | KDeployment => λ m s, mkStore (st_redkeys s) (st_configs s) m (st_serviceaccounts s)
      (st_roles s) (st_rolebindings s)
  | KServiceAccount => λ m s, mkStore (st_redkeys s) (st_configs s) (st_deployments s) m
      (st_roles s) (st_rolebindings s)
  | KRole => λ m s, mkStore (st_redkeys s) (st_configs s) (st_deployments s)
      (st_serviceaccounts s) m (st_rolebindings s)
  | KRoleBinding => λ m s, mkStore (st_redkeys s) (st_configs s) (st_deployments s)
      (st_serviceaccounts s) (st_roles s) m
  end.

Lemma sget_sset_eq k m s : sget k (sset k m s) = m.
Proof. by destruct k. Qed.

Lemma sget_sset_ne k k' m s : k ≠ k' → sget k (sset k' m s) = sget k s.
Proof. by destruct k, k'. Qed.

Lemma sset_sget k s : sset k (sget k s) s = s.
Proof. by destruct k, s. Qed.

(** Write, or remove, one object. *)
Definition sput (k : Kind) (key : NamespacedName) (o : obj k) (s : Store) : Store :=
  sset k (<[key := o]> (sget k s)) s.
Definition sdel (k : Kind) (key : NamespacedName) (s : Store) : Store :=
  sset k (delete key (sget k s)) s.

Lemma sget_sput_eq k key o s : sget k (sput k key o s) !! key = Some o.
Proof. unfold sput. rewrite sget_sset_eq. apply lookup_insert_eq. Qed.

Lemma sget_sput_key_ne k key key' o s :
  key ≠ key' → sget k (sput k key o s) !! key' = sget k s !! key'.
Proof. intros H. unfold sput. rewrite sget_sset_eq. by apply lookup_insert_ne. Qed.

Lemma sget_sput_ne k k' key o s : k ≠ k' → sget k (sput k' key o s) = sget k s.
Proof. intros H. by apply sget_sset_ne. Qed.

Lemma sget_sdel_eq k key s : sget k (sdel k key s) !! key = None.
Proof. unfold sdel. rewrite sget_sset_eq. apply lookup_delete_eq. Qed.

Lemma sget_sdel_key_ne k key key' s :
  key ≠ key' → sget k (sdel k key s) !! key' = sget k s !! key'.
Proof. intros H. unfold sdel. rewrite sget_sset_eq. by apply lookup_delete_ne. Qed.

Lemma sget_sdel_ne k k' key s : k ≠ k' → sget k (sdel k' key s) = sget k s.
Proof. intros H. by apply sget_sset_ne. Qed.

(** The label under which configs are listed. *)
Definition ClusterLabel := "redkey.inditex.dev/cluster".

(** Whether [client.InNamespace(ns)] and [client.MatchingLabels{ClusterLabel: cluster}]
    select a config. *)
Definition selected (ns cluster : string) (c : RedkeyConfig) : bool :=
  bool_decide (om_Namespace (cf_Meta c) = ns) &&
  bool_decide (entries (om_Labels (cf_Meta c)) !! ClusterLabel = Some cluster).

Definition selected_configs (ns cluster : string) (s : Store) : list RedkeyConfig :=
  filter (λ c, selected ns cluster c = true) ((map_to_list (st_configs s)).*2).

(** The CRD default of [RedkeyConfigSpec.Mode]. *)
Definition defaultConfigSpec (s : RedkeyConfigSpec) : RedkeyConfigSpec :=
  if bool_decide (rcs_Mode s = "") then
    mkRedkeyConfigSpec (rcs_Sequence s) (rcs_SkipIfSuperseded s) ModeCluster (rcs_Primaries s)
      (rcs_ReplicasPerPrimary s) (rcs_Ephemeral s) (rcs_Storage s) (rcs_StorageClassName s)
      (rcs_Image s) (rcs_Version s) (rcs_RedisConfig s) (rcs_Resources s) (rcs_Auth s)
      (rcs_Labels s) (rcs_Annotations s) (rcs_DeletePVC s) (rcs_PurgeKeysOnRebalance s)
      (rcs_Override s) (rcs_Pdb s) (rcs_RobinConfig s)
  else s.

Section contract.
Context `{K8sLib}.

(** Metadata a write leaves as the client sent it. *)
Definition meta_stored (m m' : ObjectMeta) : Prop :=
  om_Name m' = om_Name m ∧ om_Namespace m' = om_Namespace m ∧
  entries (om_Labels m') = entries (om_Labels m) ∧
  entries (om_Annotations m') = entries (om_Annotations m) ∧
  om_OwnerReferences m' = om_OwnerReferences m.

(** What the API server stores for an object the operator writes: the object
    itself up to server-managed metadata and defaulting. *)
Definition stored_as (k : Kind) : obj k → obj k → Prop :=
  match k with
  | KRedkey => λ o o', meta_stored (rk_Meta o) (rk_Meta o') ∧ rk_Spec o' = rk_Spec o
  | KRedkeyConfig => λ o o', meta_stored (cf_Meta o) (cf_Meta o') ∧
      cf_Spec o' = defaultConfigSpec (cf_Spec o) ∧ cf_Status o' = zeroConfigStatus
  | KDeployment => λ o o', meta_stored (dp_Meta o) (dp_Meta o') ∧
      dp_Replicas o' = dp_Replicas o ∧ dp_Selector o' = dp_Selector o ∧
      entries (pt_Labels (dp_Template o')) = entries (pt_Labels (dp_Template o)) ∧
      entries (pt_Annotations (dp_Template o')) = entries (pt_Annotations (dp_Template o)) ∧
      DeepDerivative (pt_Spec (dp_Template o)) (pt_Spec (dp_Template o')) = true
  | KServiceAccount => λ o o', meta_stored (sa_Meta o) (sa_Meta o')
  | KRole => λ o o', meta_stored (ro_Meta o) (ro_Meta o') ∧ ro_Rules o' = ro_Rules o
  | KRoleBinding => λ o o', meta_stored (rb_Meta o) (rb_Meta o') ∧
      rb_Subjects o' = rb_Subjects o ∧ rb_RoleRef o' = rb_RoleRef o
  end.

(** The contract of one request: [c] is what the client's cache shows, [s] the
    store when the server handles the request, [s'] the store afterwards.
    Reads are answered from the cache.  A failed write leaves the store as it
    was.  A merge patch whose base is the live object stores the new object.  A
    status update goes through only on the live resource version, and writes
    nothing but the status (and a new resource version). *)
Definition contract {T} (q : Req T) (c s : Store) : T → Store → Prop :=
  match q in Req T return T → Store → Prop with
  | Get k key => λ r s', s' = s ∧
      match r with
      | Ok o => sget k c !! key = Some o
      | Err e => IsNotFound e = true → sget k c !! key = None
      end
  | ListConfigs ns cluster => λ r s', s' = s ∧
      match r with
      | Ok l => l ≡ₚ selected_configs ns cluster c
      | Err _ => True
      end
  | Create k o => λ r s',
      match r with
      | Ok _ => sget k s !! key_of k o = None ∧
          ∃ o', stored_as k o o' ∧ s' = sput k (key_of k o) o' s
      | Err e => s' = s ∧ (IsAlreadyExists e = true → is_Some (sget k s !! key_of k o))
      end
  | Delete k key => λ r s',
      match r with
      | Ok _ => is_Some (sget k s !! key) ∧ s' = sdel k key s
      | Err e => s' = s ∧ (IsNotFound e = true → sget k s !! key = None)
      end
  | Patch k base new => λ r s',
      match r with
      | Ok _ => ∃ cur o', sget k s !! key_of k base = Some cur ∧
          key_of k o' = key_of k base ∧ (cur = base → stored_as k new o') ∧
          s' = sput k (key_of k base) o' s
      | Err _ => s' = s
      end
  | StatusUpdate o => λ r s',
      match r with
      | Ok o' => ∃ cur rv, sget KRedkey s !! key_of KRedkey o = Some cur ∧
          om_ResourceVersion (rk_Meta cur) = om_ResourceVersion (rk_Meta o) ∧
          o' = mkRedkey (set_om_ResourceVersion rv (rk_Meta cur)) (rk_Spec cur) (rk_Status o) ∧
          s' = sput KRedkey (key_of KRedkey o) o' s
      | Err _ => s' = s
      end
  | _ => λ _ s', s' = s
  end.
End contract.

(** ** The operator's own memory *)

Record Memory := mkMemory {
  mm_active : gmap NamespacedName activeOperation;
  mm_lastPhase : gmap NamespacedName string;
  mm_held : gset nat;
  mm_emitted : list MetricCall;
}.

Definition mutex_id (m : Mutex) : nat := match m with OpTrackerMu => 0%nat | ReadyTrackerMu => 1%nat end.

(** How a request changes the memory, and what it answers from it. *)
Definition mem_contract {T} (q : Req T) (m : Memory) : T → Memory → Prop :=
  match q in Req T return T → Memory → Prop with
  | Emit c => λ _ m', m' = mkMemory (mm_active m) (mm_lastPhase m) (mm_held m) (mm_emitted m ++ [c])
  | Lock mu => λ _ m', m' = mkMemory (mm_active m) (mm_lastPhase m) ({[mutex_id mu]} ∪ mm_held m) (mm_emitted m)
  | Unlock mu => λ _ m', m' = mkMemory (mm_active m) (mm_lastPhase m) (mm_held m ∖ {[mutex_id mu]}) (mm_emitted m)
  | OpLookup key => λ r m', r = mm_active m !! key ∧ m' = m
  | OpStore key v => λ _ m', m' = mkMemory (<[key := v]> (mm_active m)) (mm_lastPhase m) (mm_held m) (mm_emitted m)
  | OpDelete key => λ _ m', m' = mkMemory (delete key (mm_active m)) (mm_lastPhase m) (mm_held m) (mm_emitted m)
  | PhaseLookup key => λ r m', r = mm_lastPhase m !! key ∧ m' = m
  | PhaseStore key v => λ _ m', m' = mkMemory (mm_active m) (<[key := v]> (mm_lastPhase m)) (mm_held m) (mm_emitted m)
  | PhaseDelete key => λ _ m', m' = mkMemory (mm_active m) (delete key (mm_lastPhase m)) (mm_held m) (mm_emitted m)
  | _ => λ _ m', m' = m
  end.

(** ** A client *)

(** [handle] answers a request; [server] and [cache] are the API server's
    store and the informer cache the client reads from; [past] the content each
    resource version of a Redkey has stood for; [rely] what other actors (the
    user, Robin, the built-in controllers) may do to the store between two
    requests. *)
Class KubeClient (W : Type) := {
  handle : ∀ {T}, Req T → W → W * T;
  server : W → Store;
  cache : W → Store;
  past : W → NamespacedName → string → option Redkey;
  memory : W → Memory;
  rely : Store → Store → Prop;
}.

Class KubeLaws (W : Type) `{K8sLib, KubeClient W} : Prop := {
  handle_contract : ∀ T (q : Req T) (w w' : W) r, handle q w = (w', r) →
    ∃ s, rtc rely (server w) s ∧
      (∀ key o, st_redkeys s !! key = Some o → past w' key (om_ResourceVersion (rk_Meta o)) = Some o) ∧
      contract q (cache w') s r (server w');
  handle_memory : ∀ T (q : Req T) (w w' : W) r, handle q w = (w', r) →
    mem_contract q (memory w) r (memory w');
  server_key : ∀ (w : W) k key o, sget k (server w) !! key = Some o → key_of k o = key;
  cache_key : ∀ (w : W) k key o, sget k (cache w) !! key = Some o → key_of k o = key;
  past_mono : ∀ T (q : Req T) (w w' : W) r key rv o, handle q w = (w', r) →
    past w key rv = Some o → past w' key rv = Some o;
  past_server : ∀ (w : W) key o, st_redkeys (server w) !! key = Some o →
    past w key (om_ResourceVersion (rk_Meta o)) = Some o;
  past_cache : ∀ (w : W) key o, st_redkeys (cache w) !! key = Some o →
    past w key (om_ResourceVersion (rk_Meta o)) = Some o;
}.

(** The answer of a client that never fails without a reason. *)
Definition responsive {T} (q : Req T) (s : Store) : T → Prop :=
  match q in Req T return T → Prop with
  | Get k key => λ r, r = match sget k s !! key with Some o => Ok o | None => Err NotFound end
  | ListConfigs _ _ => λ r, is_ok r = true
  | Create k o => λ r, r = match sget k s !! key_of k o with
      | Some _ => Err AlreadyExists | None => Ok tt end
  | Delete k key => λ r, r = match sget k s !! key with Some _ => Ok tt | None => Err NotFound end
  | Patch k base new => λ r, is_Some (sget k s !! key_of k base) →
      key_of k new = key_of k base → r = Ok tt
  | StatusUpdate o => λ r, ∀ cur, sget KRedkey s !! key_of KRedkey o = Some cur →
      om_ResourceVersion (rk_Meta cur) = om_ResourceVersion (rk_Meta o) → is_ok r = true
  | _ => λ _, True
  end.

(** A client with an up-to-date cache and no interference from other actors,
    whose requests may fail at any time. *)
Class KubeQuiet (W : Type) `{K8sLib, KubeClient W} : Prop := {
  quiet_laws :: KubeLaws W;
  quiet_fresh : ∀ w : W, cache w = server w;
  quiet_rely : ∀ s s', rely s s' → s' = s;
}.

(** A client with an up-to-date cache, no interference from other actors and
    no spurious failures. *)
Class KubeIdeal (W : Type) `{K8sLib, KubeClient W} : Prop := {
  ideal_laws :: KubeLaws W;
  ideal_fresh : ∀ w : W, cache w = server w;
  ideal_quiet : ∀ s s', rely s s' → s' = s;
  ideal_responsive : ∀ T (q : Req T) (w w' : W) r, handle q w = (w', r) → responsive q (server w) r;
}.

#[global] Instance ideal_is_quiet `{KubeIdeal W} : KubeQuiet W.
Proof. split; [apply _|exact ideal_fresh|exact ideal_quiet]. Qed.
