(* ===== verification/Logic.v ===== *)
(** * Executing programs against a client

    [exec] threads a client through a program; [wp] is the weakest
    precondition of an execution, with the usual rules.  The rules for a single
    request hand the proof the request's contract, so that a proof about the
    operator follows its code call by call. *)

From S2P Require Import Prelude GoLib K8s Types Effects Client.
Local Open Scope Z_scope.

Lemma all_calls_retry P {A} n (p : go A) : all_calls P p → all_calls P (retry_conflict n p).
Proof.
  intros Hp. induction n as [|n IH]; [done|]. apply all_calls_bind; [done|].
  intros [a|e]; [done|]. by case_match.
Qed.

Section exec.
Context `{KubeClient W}.

Fixpoint exec {A} (p : prog A) (w : W) : W * A :=
  match p with
  | Ret a => (w, a)
  | Call q k => let '(w1, r) := handle q w in exec (k r) w1
  end.

Definition wp {A} (p : prog A) (w : W) (Q : A → W → Prop) : Prop :=
  let '(w', a) := exec p w in Q a w'.

Lemma exec_bind {A B} (p : prog A) (f : A → prog B) w :
  exec (p ≫= f) w = let '(w1, a) := exec p w in exec (f a) w1.
Proof.
  revert w. induction p as [a|T q k IH]; intros w; simpl; [done|].
  destruct (handle q w) as [w1 r]. apply IH.
Qed.

Lemma wp_ret {A} (a : A) w Q : Q a w → wp (mret a) w Q.
Proof. done. Qed.

Lemma wp_bind {A B} (p : prog A) (f : A → prog B) w Q :
  wp p w (λ a w1, wp (f a) w1 Q) → wp (p ≫= f) w Q.
Proof. unfold wp. rewrite exec_bind. by destruct (exec p w). Qed.

Lemma wp_mono {A} (p : prog A) w (Q Q' : A → W → Prop) :
  wp p w Q → (∀ a w', Q a w' → Q' a w') → wp p w Q'.
Proof. unfold wp. destruct (exec p w). auto. Qed.

Lemma wp_and {A} (p : prog A) w (Q Q' : A → W → Prop) :
  wp p w Q → wp p w Q' → wp p w (λ a w', Q a w' ∧ Q' a w').
Proof. unfold wp. by destruct (exec p w). Qed.

Lemma wp_exec {A} (p : prog A) w Q w' a : wp p w Q → exec p w = (w', a) → Q a w'.
Proof. unfold wp. intros Hwp E. by rewrite E in Hwp. Qed.

Lemma wp_go_bind {A B} (p : go A) (k : A → go B) w Q :
  wp p w (λ r w1, match r with Ok a => wp (k a) w1 Q | Err e => Q (Err e) w1 end) →
  wp (go_bind p k) w Q.
Proof.
  intros Hp. apply wp_bind. eapply wp_mono; [done|]. by intros [a|e] w1 Hw1.
Qed.

Lemma wp_wrap_err {A} msg (p : go A) w Q :
  wp p w (λ r w1, match r with Ok a => Q (Ok a) w1 | Err e => Q (Err (Errorf msg e)) w1 end) →
  wp (wrap_err msg p) w Q.
Proof.
  intros Hp. apply wp_bind. eapply wp_mono; [done|]. by intros [a|e] w1 Hw1.
Qed.

Lemma wp_call_handle {T} (q : Req T) w Q :
  (∀ w' r, handle q w = (w', r) → Q r w') → wp (call q) w Q.
Proof. intros HQ. unfold wp, call. simpl. destruct (handle q w) eqn:E. by apply HQ. Qed.

(** The requests and responses of an execution. *)
Fixpoint trace {A} (p : prog A) (w : W) : list event :=
  match p with
  | Ret _ => []
  | Call q k => let '(w1, r) := handle q w in Ev q r :: trace (k r) w1
  end.

Lemma exec_call {T} (q : Req T) w : exec (call q) w = handle q w.
Proof. simpl. by destruct (handle q w). Qed.

Lemma trace_call {T} (q : Req T) w : trace (call q) w = [Ev q (handle q w).2].
Proof. simpl. by destruct (handle q w). Qed.

Lemma trace_bind {A B} (p : prog A) (f : A → prog B) w :
  trace (p ≫= f) w = trace p w ++ let '(w1, a) := exec p w in trace (f a) w1.
Proof.
  revert w. induction p as [a|T q k IH]; intros w; simpl; [done|].
  destruct (handle q w) as [w1 r]. simpl. f_equal. apply IH.
Qed.

Lemma exec_runs {A} (p : prog A) w : runs p (trace p w) (exec p w).2.
Proof.
  revert w. induction p as [a|T q k IH]; intros w; simpl; [done|].
  destruct (handle q w) as [w1 r]. exists r, (trace (k r) w1). split; [done|]. apply IH.
Qed.
End exec.

Section laws.
Context `{K8sLib, !KubeClient W, !KubeLaws W}.

Lemma wp_call {T} (q : Req T) (w : W) Q :
  (∀ w' r s, handle q w = (w', r) → rtc rely (server w) s →
    contract q (cache w') s r (server w') → Q r w') →
  wp (call q) w Q.
Proof.
  intros HQ. apply wp_call_handle. intros w' r Hh.
  destruct (handle_contract _ q w w' r Hh) as (s & Hs & _ & Hc). eauto.
Qed.

(** A store property kept by other actors and by every request a program may
    issue holds throughout. *)
Lemma wp_store_invariant (I : Store → Prop) (P : ∀ T, Req T → Prop) {A} (p : prog A) (w : W) :
  (∀ s s', rely s s' → I s → I s') →
  (∀ T (q : Req T) c s r s', P T q → contract q c s r s' → I s → I s') →
  all_calls P p → I (server w) → wp p w (λ _ w', I (server w')).
Proof.
  intros Hrely Hcall. revert w. induction p as [a|T q k IH]; intros w; [done|].
  intros [Hq Hk] HI. unfold wp. simpl. destruct (handle q w) as [w1 r] eqn:Hh.
  destruct (handle_contract _ q w w1 r Hh) as (s & Hs & _ & Hc).
  apply (IH r w1); [done|]. eapply Hcall; [done|done|].
  clear -Hs Hrely HI. induction Hs; eauto.
Qed.
End laws.

Section quiet.
Context `{K8sLib, !KubeClient W, !KubeQuiet W}.

Lemma quiet_rtc s s' : rtc rely s s' → s' = s.
Proof. induction 1 as [|s1 s2 s3 H12 _ ->]; [done|]. by apply quiet_rely. Qed.

(** A quiet client's contract relates the stores before and after. *)
Lemma wp_call_quiet {T} (q : Req T) (w : W) Q :
  (∀ w' r, contract q (server w') (server w) r (server w') → Q r w') → wp (call q) w Q.
Proof.
  intros HQ. apply wp_call. intros w' r s Hh ->%quiet_rtc Hc. rewrite quiet_fresh in Hc. by apply HQ.
Qed.
End quiet.

Section ideal.
Context `{K8sLib, !KubeClient W, !KubeIdeal W}.

Lemma ideal_rtc s s' : rtc rely s s' → s' = s.
Proof. induction 1 as [|s1 s2 s3 H12 _ ->]; [done|]. by apply ideal_quiet. Qed.

(** With an ideal client the contract relates the stores before and after. *)
Lemma wp_call_ideal {T} (q : Req T) (w : W) Q :
  (∀ w' r, contract q (server w') (server w) r (server w') → responsive q (server w) r →
    mem_contract q (memory w) r (memory w') → Q r w') →
  wp (call q) w Q.
Proof.
  intros HQ. apply wp_call_handle. intros w' r Hh.
  destruct (handle_contract _ q w w' r Hh) as (s & Hs%ideal_rtc & _ & Hc). subst s.
  rewrite ideal_fresh in Hc. apply HQ; [done| |].
  - by eapply ideal_responsive.
  - by eapply handle_memory.
Qed.

Lemma wp_get_ideal k key (w : W) Q :
  (∀ w', server w' = server w → memory w' = memory w →
    Q (match sget k (server w) !! key with Some o => Ok o | None => Err NotFound end) w') →
  wp (call (Get k key)) w Q.
Proof. intros HQ. apply wp_call_ideal. intros w' r [Hs _] -> Hm. by apply HQ. Qed.

Lemma wp_create_ideal k o (w : W) Q :
  (sget k (server w) !! key_of k o = None → ∀ w' o', stored_as k o o' →
    server w' = sput k (key_of k o) o' (server w) → memory w' = memory w → Q (Ok tt) w') →
  (is_Some (sget k (server w) !! key_of k o) → ∀ w', server w' = server w →
    memory w' = memory w → Q (Err AlreadyExists) w') →
  wp (call (Create k o)) w Q.
Proof.
  intros HQ1 HQ2. apply wp_call_ideal. intros w' r Hc -> Hm. simpl in Hc.
  destruct (sget k (server w) !! key_of k o) eqn:E.
  - destruct Hc as [Hs _]. by apply HQ2.
  - destruct Hc as (_ & o' & Ho & Hs). by eapply HQ1.
Qed.

Lemma wp_delete_ideal k key (w : W) Q :
  (∀ w', server w' = sdel k key (server w) → is_Some (sget k (server w) !! key) →
    memory w' = memory w → Q (Ok tt) w') →
  (∀ w', server w' = server w → sget k (server w) !! key = None →
    memory w' = memory w → Q (Err NotFound) w') →
  wp (call (Delete k key)) w Q.
Proof.
  intros HQ1 HQ2. apply wp_call_ideal. intros w' r Hc -> Hm. simpl in Hc.
  destruct (sget k (server w) !! key) eqn:E.
  - destruct Hc as [_ Hs]. by apply HQ1.
  - destruct Hc as [Hs _]. by apply HQ2.
Qed.

Lemma wp_patch_ideal k base new (w : W) Q :
  sget k (server w) !! key_of k base = Some base → key_of k new = key_of k base →
  (∀ w' o', stored_as k new o' → server w' = sput k (key_of k base) o' (server w) →
    memory w' = memory w → Q (Ok tt) w') →
  wp (call (Patch k base new)) w Q.
Proof.
  intros Hbase Hkey HQ. apply wp_call_ideal. intros w' r Hc Hr Hm. simpl in Hc, Hr.
  rewrite (Hr ltac:(by eexists) Hkey) in *. destruct Hc as (cur & o' & Hcur & _ & Hst & Hs).
  simplify_eq. by eapply HQ; auto.
Qed.

Lemma wp_list_ideal ns cluster (w : W) Q :
  (∀ w' l, l ≡ₚ selected_configs ns cluster (server w) → server w' = server w →
    memory w' = memory w → Q (Ok l) w') →
  wp (call (ListConfigs ns cluster)) w Q.
Proof.
  intros HQ. apply wp_call_ideal. intros w' [l|e] [Hs Hc] Hr Hm; [|done].
  apply HQ; [|done|done]. by rewrite Hc, Hs.
Qed.

Lemma wp_status_ideal o cur (w : W) Q :
  st_redkeys (server w) !! key_of KRedkey o = Some cur →
  om_ResourceVersion (rk_Meta cur) = om_ResourceVersion (rk_Meta o) →
  (∀ w' rv o', o' = mkRedkey (set_om_ResourceVersion rv (rk_Meta cur)) (rk_Spec cur) (rk_Status o) →
    server w' = sput KRedkey (key_of KRedkey o) o' (server w) → memory w' = memory w →
    Q (Ok o') w') →
  wp (call (StatusUpdate o)) w Q.
Proof.
  intros Hcur Hrv HQ. apply wp_call_ideal. intros w' r Hc Hr Hm. simpl in Hc, Hr, Hm.
  specialize (Hr cur Hcur Hrv). destruct r as [o'|e]; [|done].
  destruct Hc as (cur' & rv & Hcur' & _ & Ho' & Hs). simplify_eq. by eapply HQ.
Qed.

(** Requests that do not reach the API. *)
Lemma wp_now_ideal (w : W) Q :
  (∀ w' t, server w' = server w → memory w' = memory w → Q t w') → wp (call Now) w Q.
Proof. intros HQ. apply wp_call_ideal. intros w' r Hc _ Hm. by apply HQ. Qed.

Lemma wp_emit_ideal c (w : W) Q :
  (∀ w', server w' = server w →
    memory w' = mkMemory (mm_active (memory w)) (mm_lastPhase (memory w)) (mm_held (memory w))
      (mm_emitted (memory w) ++ [c]) → Q tt w') →
  wp (call (Emit c)) w Q.
Proof. intros HQ. apply wp_call_ideal. intros w' [] Hc _ Hm. by apply HQ. Qed.
End ideal.
