(* ===== verification/Robin.v ===== *)
(** * Robin's Deployment and RBAC (internal/controller/redkey_robin.go)

    The metadata merge rules, the desired Robin Deployment and its drift
    detection, and the two reconcilers [ensureRBAC] and
    [ensureRobinDeployment] that create or repair Robin's objects. *)

From S2P Require Import Prelude GoLib K8s Types Effects Client.
Local Open Scope Z_scope.

(** ** Metadata *)

(** [derefMap]: the map behind an optional pointer, nil when the pointer is. *)
Definition derefMap (m : option gomap) : gomap :=
  match m with None => None | Some m' => m' end.

(** [mergeMeta]: the override replaces the spec entries as a block when it has
    any entry; the base entries win over both; an empty result is nil. *)
Definition mergeMeta (spec override base : gomap) : gomap :=
  let out :=
    if bool_decide (0 < go_len override)%nat then maps_Copy ∅ override
    else maps_Copy ∅ spec in
  let out := maps_Copy out base in
  if bool_decide (size out = 0%nat) then None else Some out.

Definition ComponentLabel := "redkey.inditex.dev/component".

(** [fmt.Sprintf("%s-robin", cluster.Name)]. *)
Definition robinName (cluster : Redkey) : string := rk_Name cluster +:+ "-robin".

(** The internal labels of every Robin object (rbacBaseLabels, baseLabels). *)
Definition robinBaseLabels (cluster : Redkey) : gmap string string :=
  <[ClusterLabel := rk_Name cluster]> {[ComponentLabel := "robin"]}.

(** ** Environment variables *)

Definition robinDefaultEnvVars (cluster : Redkey) : list EnvVar :=
  [mkEnv "CLUSTER_NAME" (rk_Name cluster) None;
   mkEnv "NAMESPACE" (rk_Namespace cluster) None].

(** The state of the loop over [overrides]: [merged] and [indexByName]. *)
Abbreviation EnvState := (list EnvVar * gmap string nat)%type.

(** [for index, envVar := range merged { indexByName[envVar.Name] = index }]. *)
Fixpoint indexEnv (i : nat) (l : list EnvVar) (index : gmap string nat) : gmap string nat :=
  match l with
  | [] => index
  | e :: l' => indexEnv (S i) l' (<[ev_Name e := i]> index)
  end.

(** One round of the loop over [overrides]. *)
Definition mergeEnvStep (st : EnvState) (e : EnvVar) : EnvState :=
  let '(merged, index) := st in
  match index !! ev_Name e with
  | Some i => (<[i := e]> merged, index)
  | None => (merged ++ [e], <[ev_Name e := length merged]> index)
  end.

Definition mergeEnvVars (base overrides : list EnvVar) : list EnvVar :=
  (foldl mergeEnvStep (base, indexEnv 0 base ∅) overrides).1.

(** ** RBAC rules *)

Definition allVerbs : list string :=
  ["get"; "list"; "watch"; "create"; "update"; "patch"; "delete"].

(** [DesiredRobinRules]. *)
Definition DesiredRobinRules : list PolicyRule :=
  [mkRule ["apps"] ["statefulsets"] allVerbs;
   mkRule [""] ["services"; "configmaps"] allVerbs;
   mkRule [""] ["pods"] ["get"; "list"; "watch"; "delete"];
   mkRule [""] ["persistentvolumeclaims"] ["list"; "delete"];
   mkRule ["policy"] ["poddisruptionbudgets"] allVerbs;
   mkRule [""] ["secrets"] ["get"];
   mkRule ["redkey.inditex.dev"] ["redkeys"] ["get"];
   mkRule ["redkey.inditex.dev"] ["redkeyconfigs"] ["get"; "list"; "watch"];
   mkRule ["redkey.inditex.dev"] ["redkeyconfigs/status"] ["update"; "patch"]].

(** ** The desired Deployment *)

(** The container before any template override. *)
Definition robinBaseContainer (cluster : Redkey) : Container :=
  let robin := rs_Robin (rk_Spec cluster) in
  {| ct_Name := "robin";
     ct_Image := rbs_Image robin;
     ct_Args := ["--cluster-name=$(CLUSTER_NAME)"; "--namespace=$(NAMESPACE)"];
     ct_Env := robinDefaultEnvVars cluster;
     ct_EnvFrom := [];
     ct_Ports := [mkPort "metrics" 8080 "TCP"];
     ct_Resources := match rbs_Resources robin with Some r => r | None => noResources end;
     ct_VolumeMounts := [];
     ct_SecurityContext := None;
     ct_Rest := ∅ |}.

Definition set_ct_Env (env : list EnvVar) (c : Container) : Container :=
  mkContainer (ct_Name c) (ct_Image c) (ct_Args c) env (ct_EnvFrom c) (ct_Ports c)
    (ct_Resources c) (ct_VolumeMounts c) (ct_SecurityContext c) (ct_Rest c).

(** [len(l) > 0]: take the override when it has elements. *)
Definition list_or {A} (override dflt : list A) : list A :=
  match override with [] => dflt | _ => override end.

(** [p != nil]: take the override when it is set. *)
Definition option_or {A} (override dflt : option A) : option A :=
  match override with None => dflt | Some _ => override end.

(** The overrides taken from the first container of the template. *)
Definition overrideContainer (src c : Container) : Container :=
  {| ct_Name := ct_Name c;
     ct_Image := if bool_decide (ct_Image src = "") then ct_Image c else ct_Image src;
     ct_Args := ct_Args c;
     ct_Env :=
       match ct_Env src with
       | [] => ct_Env c
       | _ => mergeEnvVars (ct_Env c) (ct_Env src)
       end;
     ct_EnvFrom := list_or (ct_EnvFrom src) (ct_EnvFrom c);
     ct_Ports := ct_Ports c;
     ct_Resources :=
       match rr_Limits (ct_Resources src), rr_Requests (ct_Resources src) with
       | None, None => ct_Resources c
       | _, _ => ct_Resources src
       end;
     ct_VolumeMounts := list_or (ct_VolumeMounts src) (ct_VolumeMounts c);
     ct_SecurityContext := option_or (ct_SecurityContext src) (ct_SecurityContext c);
     ct_Rest := ct_Rest c |}.

(** The container with every override applied; with a template the default
    environment is merged in again, so the template cannot replace it. *)
Definition robinContainer (cluster : Redkey) : Container :=
  let c := robinBaseContainer cluster in
  match rbs_Template (rs_Robin (rk_Spec cluster)) with
  | None => c
  | Some tpl =>
      let c :=
        match pps_Containers (ppt_Spec tpl) with
        | [] => c
        | src :: _ => overrideContainer src c
        end in
      set_ct_Env (mergeEnvVars (ct_Env c) (robinDefaultEnvVars cluster)) c
  end.

Definition robinPodSpec (cluster : Redkey) : PodSpec :=
  let base := {|
    ps_ServiceAccountName := robinName cluster;
    ps_Containers := [robinContainer cluster];
    ps_NodeSelector := None; ps_Tolerations := []; ps_Affinity := None;
    ps_SecurityContext := None; ps_ImagePullSecrets := []; ps_PriorityClassName := "";
    ps_TopologySpreadConstraints := []; ps_Volumes := []; ps_Rest := ∅ |} in
  match rbs_Template (rs_Robin (rk_Spec cluster)) with
  | None => base
  | Some tpl =>
      let t := ppt_Spec tpl in
      {| ps_ServiceAccountName := ps_ServiceAccountName base;
         ps_Containers := ps_Containers base;
         ps_NodeSelector :=
           if bool_decide (0 < go_len (pps_NodeSelector t))%nat then pps_NodeSelector t
           else ps_NodeSelector base;
         ps_Tolerations := list_or (pps_Tolerations t) (ps_Tolerations base);
         ps_Affinity := option_or (pps_Affinity t) (ps_Affinity base);
         ps_SecurityContext := option_or (pps_SecurityContext t) (ps_SecurityContext base);
         ps_ImagePullSecrets := list_or (pps_ImagePullSecrets t) (ps_ImagePullSecrets base);
         ps_PriorityClassName :=
           if bool_decide (pps_PriorityClassName t = "") then ps_PriorityClassName base
           else pps_PriorityClassName t;
         ps_TopologySpreadConstraints :=
           list_or (pps_TopologySpreadConstraints t) (ps_TopologySpreadConstraints base);
         ps_Volumes := list_or (pps_Volumes t) (ps_Volumes base);
         ps_Rest := ps_Rest base |}
  end.

(** [buildDesiredRobinDeployment]. *)
Definition buildDesiredRobinDeployment (cluster : Redkey) : Deployment :=
  let baseLabels := Some (robinBaseLabels cluster) in
  let specLabels := derefMap (rs_Labels (rk_Spec cluster)) in
  let specAnnotations := derefMap (rs_Annotations (rk_Spec cluster)) in
  let '(tplLabels, tplAnnotations) :=
    match rbs_Template (rs_Robin (rk_Spec cluster)) with
    | None => (None, None)
    | Some tpl => (om_Labels (ppt_Metadata tpl), om_Annotations (ppt_Metadata tpl))
    end in
  {| dp_Meta := newMeta (robinName cluster) (rk_Namespace cluster)
       (mergeMeta specLabels None baseLabels) (mergeMeta specAnnotations None None);
     dp_Replicas := Some 1;
     dp_Selector := robinBaseLabels cluster;
     dp_Template := {|
       pt_Labels := mergeMeta specLabels tplLabels baseLabels;
       pt_Annotations := mergeMeta specAnnotations tplAnnotations None;
       pt_Spec := robinPodSpec cluster |} |}.

(** ** Annotations owned by the Deployment controller *)

Definition deploymentRevisionAnnotation := "deployment.kubernetes.io/revision".

(** [stripManagedAnnotations]. *)
Definition stripManagedAnnotations (annotations : gomap) : gomap :=
  match go_lookup annotations deploymentRevisionAnnotation with
  | None => annotations
  | Some _ =>
      let out := delete deploymentRevisionAnnotation (entries annotations) in
      if bool_decide (size out = 0%nat) then None else Some out
  end.

(** [preserveManagedAnnotations]. *)
Definition preserveManagedAnnotations (existing desired : gomap) : gomap :=
  match go_lookup existing deploymentRevisionAnnotation with
  | None => desired
  | Some rev => Some (<[deploymentRevisionAnnotation := rev]> (maps_Copy ∅ desired))
  end.

Section robin.
Context `{K8sLib}.

(** [robinDeploymentNeedsUpdate].  [*desired.Spec.Replicas] is never nil: the
    desired Deployment always sets it. *)
Definition robinDeploymentNeedsUpdate (existing desired : Deployment) : bool :=
  match dp_Replicas existing with
  | None => true
  | Some n =>
      if negb (bool_decide (Some n = dp_Replicas desired)) then true
      else if negb (DeepEqual_map (om_Labels (dp_Meta existing)) (om_Labels (dp_Meta desired)))
      then true
      else if negb (DeepEqual_map (stripManagedAnnotations (om_Annotations (dp_Meta existing)))
                 (om_Annotations (dp_Meta desired))) then true
      else if negb (DeepEqual_map (pt_Labels (dp_Template existing)) (pt_Labels (dp_Template desired)))
      then true
      else if negb (DeepEqual_map (pt_Annotations (dp_Template existing))
                 (pt_Annotations (dp_Template desired))) then true
      else negb (DeepDerivative (pt_Spec (dp_Template desired)) (pt_Spec (dp_Template existing)))
  end.

(** [existing] as the patch path rewrites it. *)
Definition patchedRobinDeployment (existing desired : Deployment) : Deployment :=
  mkDeployment
    (set_om_LabelsAnnotations (om_Labels (dp_Meta desired))
       (preserveManagedAnnotations (om_Annotations (dp_Meta existing)) (om_Annotations (dp_Meta desired)))
       (dp_Meta existing))
    (dp_Replicas desired) (dp_Selector existing) (dp_Template desired).

Definition set_dp_Meta (m : ObjectMeta) (d : Deployment) : Deployment :=
  mkDeployment m (dp_Replicas d) (dp_Selector d) (dp_Template d).

(** [ensureRobinDeployment]. *)
Definition ensureRobinDeployment (cluster : Redkey) : go unit :=
  let desired := buildDesiredRobinDeployment cluster in
  match SetControllerReference cluster (dp_Meta desired) with
  | Err e => mret (Err e)
  | Ok m =>
      let desired := set_dp_Meta m desired in
      r ← call (Get KDeployment (om_key (dp_Meta desired)));
      match r with
      | Err e =>
          if IsNotFound e then
            call (Create KDeployment desired) ;;;
            call (Emit (CounterInc redkeyRobinDeploymentChanges ["create"])) ≫= λ _, mret (Ok tt)
          else mret (Err e)
      | Ok existing =>
          if robinDeploymentNeedsUpdate existing desired then
            call (Patch KDeployment existing (patchedRobinDeployment existing desired)) ;;;
            call (Emit (CounterInc redkeyRobinDeploymentChanges ["patch"])) ≫= λ _, mret (Ok tt)
          else mret (Ok tt)
      end
  end.

(** ** RBAC *)

Definition rbacLabels (cluster : Redkey) : gomap :=
  mergeMeta (derefMap (rs_Labels (rk_Spec cluster))) None (Some (robinBaseLabels cluster)).
Definition rbacAnnotations (cluster : Redkey) : gomap :=
  mergeMeta (derefMap (rs_Annotations (rk_Spec cluster))) None None.

(** The metadata of the three RBAC objects. *)
Definition rbacMeta (cluster : Redkey) : ObjectMeta :=
  newMeta (robinName cluster) (rk_Namespace cluster) (rbacLabels cluster) (rbacAnnotations cluster).

Definition robinKey (cluster : Redkey) : NamespacedName :=
  mkKey (rk_Namespace cluster) (robinName cluster).

(** Labels or annotations differ from the desired ones. *)
Definition metaDrift (existing desired : ObjectMeta) : bool :=
  negb (DeepEqual_map (om_Labels existing) (om_Labels desired)) ||
  negb (DeepEqual_map (om_Annotations existing) (om_Annotations desired)).

Definition copyMeta (desired existing : ObjectMeta) : ObjectMeta :=
  set_om_LabelsAnnotations (om_Labels desired) (om_Annotations desired) existing.

(** The ServiceAccount part of [ensureRBAC]. *)
Definition ensureServiceAccount (cluster : Redkey) : go unit :=
  match SetControllerReference cluster (rbacMeta cluster) with
  | Err e => mret (Err e)
  | Ok m =>
      let desired := mkServiceAccount m in
      r ← call (Get KServiceAccount (robinKey cluster));
      match r with
      | Err e =>
          if IsNotFound e then call (Create KServiceAccount desired) else mret (Err e)
      | Ok existing =>
          if metaDrift (sa_Meta existing) (sa_Meta desired) then
            call (Patch KServiceAccount existing
                    (mkServiceAccount (copyMeta (sa_Meta desired) (sa_Meta existing))))
          else mret (Ok tt)
      end
  end.

(** The Role part. *)
Definition ensureRole (cluster : Redkey) : go unit :=
  match SetControllerReference cluster (rbacMeta cluster) with
  | Err e => mret (Err e)
  | Ok m =>
      let desired := mkRole m DesiredRobinRules in
      r ← call (Get KRole (robinKey cluster));
      match r with
      | Err e => if IsNotFound e then call (Create KRole desired) else mret (Err e)
      | Ok existing =>
          if negb (DeepEqual_rules (ro_Rules existing) (ro_Rules desired)) ||
             metaDrift (ro_Meta existing) (ro_Meta desired)
          then call (Patch KRole existing
                       (mkRole (copyMeta (ro_Meta desired) (ro_Meta existing)) (ro_Rules desired)))
          else mret (Ok tt)
      end
  end.

Definition desiredSubjects (cluster : Redkey) : list Subject :=
  [mkSubject "ServiceAccount" (robinName cluster) (rk_Namespace cluster)].

Definition desiredRoleRef (cluster : Redkey) : RoleRef :=
  mkRoleRef "rbac.authorization.k8s.io" "Role" (robinName cluster).

(** The RoleBinding part: a RoleRef cannot be changed, so a binding to another
    role is deleted and created again. *)
Definition ensureRoleBinding (cluster : Redkey) : go unit :=
  match SetControllerReference cluster (rbacMeta cluster) with
  | Err e => mret (Err e)
  | Ok m =>
      let desired := mkRoleBinding m (desiredSubjects cluster) (desiredRoleRef cluster) in
      r ← call (Get KRoleBinding (robinKey cluster));
      match r with
      | Err e => if IsNotFound e then call (Create KRoleBinding desired) else mret (Err e)
      | Ok existing =>
          let needsRecreate := negb (bool_decide (rb_RoleRef existing = rb_RoleRef desired)) in
          let needsPatch :=
            negb (DeepEqual_subjects (rb_Subjects existing) (rb_Subjects desired)) ||
            metaDrift (rb_Meta existing) (rb_Meta desired) in
          if needsRecreate then
            call (Delete KRoleBinding (key_of KRoleBinding existing)) ;;;
            call (Create KRoleBinding desired)
          else if needsPatch then
            call (Patch KRoleBinding existing
                    (mkRoleBinding (copyMeta (rb_Meta desired) (rb_Meta existing))
                       (rb_Subjects desired) (rb_RoleRef existing)))
          else mret (Ok tt)
      end
  end.

(** [ensureRBAC]. *)
Definition ensureRBAC (cluster : Redkey) : go unit :=
  ensureServiceAccount cluster ;;;
  ensureRole cluster ;;;
  ensureRoleBinding cluster.
End robin.
