(* ===== verification/Config.v ===== *)
(** * RedkeyConfigs and status aggregation (internal/controller/redkey_config.go)

    Listing and creating the sequenced configs, deciding when a new one is
    due, deleting the superseded ones, and mirroring the active config's
    status onto the Redkey. *)

From S2P Require Import Prelude GoLib K8s Types Effects Client Robin.
Local Open Scope Z_scope.

Definition GenerationAnnotation := "redkey.inditex.dev/cluster-generation".

(** ** Conditions and phase *)

Definition conditionStatus (b : bool) : string :=
  if b then ConditionTrue else ConditionFalse.

Definition isTerminalConfigPhase (phase : string) : bool :=
  bool_decide (phase = ConfigPhaseApplied) || bool_decide (phase = ConfigPhaseSuperseded).

Definition isConfigReady (config : RedkeyConfig) : bool :=
  isTerminalConfigPhase (rct_ConfigPhase (cf_Status config)) &&
  negb (bool_decide (rct_Status (cf_Status config) = ClusterPhaseError)).

Definition hasConfigError (config : RedkeyConfig) : bool :=
  isTerminalConfigPhase (rct_ConfigPhase (cf_Status config)) &&
  bool_decide (rct_Status (cf_Status config) = ClusterPhaseError).

Definition emptyNodesIfNil (nodes : NodeMap) : NodeMap :=
  match nodes with None => Some ∅ | Some _ => nodes end.

Definition healthConditionTypes : list string :=
  [ConditionHealthy; ConditionMembershipHealthy; ConditionSlotsCovered;
   ConditionSlotsBalanced; ConditionReplicasBalanced; ConditionClusterCheckPassing].

(** [selectActiveConfig]: the only config, else the first one in progress,
    else the first one.  The Go code indexes [configs[0]], so the empty slice
    (which its callers exclude) has no result. *)
Definition selectActiveConfig (configs : list RedkeyConfig) : option RedkeyConfig :=
  match configs with
  | [c] => Some c
  | _ =>
      match find_first (λ c, bool_decide (rct_ConfigPhase (cf_Status c) = ConfigPhaseInProgress))
              configs with
      | Some c => Some c
      | None => head configs
      end
  end.

Section conditions.
Context `{K8sLib}.

(** Whether Robin's health conditions on the config are current. *)
Definition healthSettled (activeConfig : RedkeyConfig) : bool :=
  isTerminalConfigPhase (rct_ConfigPhase (cf_Status activeConfig)) &&
  bool_decide (rct_Status (cf_Status activeConfig) = ClusterStatusReady).

(** The condition [aggregateHealthConditions] writes for one type. *)
Definition healthCondition (activeConfig : RedkeyConfig) (condType : string) : Condition :=
  let unknown := newCondition condType ConditionUnknown "Reconciling" "" in
  if healthSettled activeConfig then
    match FindStatusCondition (rct_Conditions (cf_Status activeConfig)) condType with
    | Some src => newCondition condType (c_Status src) (c_Reason src) (c_Message src)
    | None => unknown
    end
  else unknown.

Definition aggregateHealthConditions (conditions : list Condition) (activeConfig : RedkeyConfig)
    : list Condition :=
  foldl (λ cs condType, SetStatusCondition cs (healthCondition activeConfig condType))
    conditions healthConditionTypes.

Definition aggregateConditions (existing : list Condition) (config : RedkeyConfig)
    : list Condition :=
  let cs := SetStatusCondition existing
    (newCondition "Ready" (conditionStatus (isConfigReady config)) "StatusAggregated" "") in
  let cs := SetStatusCondition cs
    (newCondition "ConfigPending"
       (conditionStatus (negb (isTerminalConfigPhase (rct_ConfigPhase (cf_Status config)))))
       "StatusAggregated" "") in
  let cs := SetStatusCondition cs
    (newCondition "Error" (conditionStatus (hasConfigError config)) "StatusAggregated" "") in
  aggregateHealthConditions cs config.

(** Whether a condition exists and is True. *)
Definition conditionIsTrue (conditions : list Condition) (t : string) : bool :=
  match FindStatusCondition conditions t with
  | Some c => bool_decide (c_Status c = ConditionTrue)
  | None => false
  end.

Definition computePhaseFromConditions (conditions : list Condition) : string :=
  if conditionIsTrue conditions "Error" then PhaseError
  else if conditionIsTrue conditions "Ready" then PhaseReady
  else PhaseConfiguring.

(** Whether the config is an applied, non-zero topology of a storage cluster. *)
Definition recordsTopology (latest : Redkey) (activeConfig : RedkeyConfig) : bool :=
  negb (rs_Ephemeral (rk_Spec latest)) &&
  bool_decide (rct_ConfigPhase (cf_Status activeConfig) = ConfigPhaseApplied) &&
  (0 <? rcs_Primaries (cf_Spec activeConfig)).

(** The status [aggregateStatus] computes from a freshly read Redkey. *)
Definition aggregatedStatus (latest : Redkey) (activeConfig : RedkeyConfig)
    (observedGeneration now : Z) : RedkeyStatus :=
  let st := rk_Status latest in
  let ast := cf_Status activeConfig in
  let conditions := aggregateConditions (rst_Conditions st) activeConfig in
  let record := recordsTopology latest activeConfig in
  {| rst_Replicas := rs_Primaries (rk_Spec latest);
     rst_Phase := computePhaseFromConditions conditions;
     rst_Status := rct_Status ast;
     rst_Substatus := rct_Substatus ast;
     rst_Nodes := emptyNodesIfNil (rct_Nodes ast);
     rst_Conditions := conditions;
     rst_LastUpdatedAt := Some now;
     rst_ObservedGeneration := observedGeneration;
     rst_LastAppliedPrimaries :=
       if record then rcs_Primaries (cf_Spec activeConfig) else rst_LastAppliedPrimaries st;
     rst_LastAppliedReplicasPerPrimary :=
       if record then rcs_ReplicasPerPrimary (cf_Spec activeConfig)
       else rst_LastAppliedReplicasPerPrimary st |}.

(** One attempt of the closure [aggregateStatus] retries on conflict. *)
Definition aggregateAttempt (cluster : Redkey) (activeConfig : RedkeyConfig)
    (observedGeneration : Z) : go RedkeyStatus :=
  latest ⇐ call (Get KRedkey (mkKey (rk_Namespace cluster) (rk_Name cluster)));
  now ← call Now;
  updated ⇐ call (StatusUpdate
    (set_rk_Status (aggregatedStatus latest activeConfig observedGeneration now) latest));
  mret (Ok (rk_Status updated)).

(** [aggregateStatus]: returns the caller's copy with the persisted status. *)
Definition aggregateStatus (cluster : Redkey) (configs : list RedkeyConfig) : go Redkey :=
  match selectActiveConfig configs with
  | None => mret (Ok cluster)
  | Some activeConfig =>
      let observedGeneration := rk_Generation cluster in
      status ⇐ RetryOnConflict (aggregateAttempt cluster activeConfig observedGeneration);
      mret (Ok (set_rk_Status status cluster))
  end.
End conditions.

(** ** Listing and creating configs *)

(** [listConfigs]: every config of the cluster, by ascending sequence. *)
Definition sortConfigs (l : list RedkeyConfig) : list RedkeyConfig :=
  sort_slice (λ c, rcs_Sequence (cf_Spec c)) l.

Definition listConfigs (cluster : Redkey) : go (list RedkeyConfig) :=
  items ⇐ call (ListConfigs (rk_Namespace cluster) (rk_Name cluster));
  mret (Ok (sortConfigs items)).

(** [needsNewConfig]. *)
Definition needsNewConfig (cluster : Redkey) (latestConfig : option RedkeyConfig) : bool :=
  let fallback := rst_ObservedGeneration (rk_Status cluster) <? rk_Generation cluster in
  match latestConfig with
  | None => fallback
  | Some c =>
      let genStr := go_index (om_Annotations (cf_Meta c)) GenerationAnnotation in
      if bool_decide (genStr = "") then fallback
      else
        match ParseInt genStr with
        | Ok parsedGen => if rk_Generation cluster <=? parsedGen then false else fallback
        | Err _ => fallback
        end
  end.

(** The sequence of the next config. *)
Definition nextSequence (highestSeq : option RedkeyConfig) : Z :=
  match highestSeq with
  | None => 1
  | Some c => int64 (rcs_Sequence (cf_Spec c) + 1)
  end.

(** [fmt.Sprintf("%s-%d", cluster.Name, seq)]. *)
Definition configName (cluster : string) (seq : Z) : string :=
  cluster +:+ "-" +:+ FormatInt seq.

(** The spec a new config carries. *)
Definition newConfigSpec (s : RedkeySpec) (seq : Z) : RedkeyConfigSpec :=
  {| rcs_Sequence := seq;
     rcs_SkipIfSuperseded := rs_SkipIfSuperseded s;
     rcs_Mode := rs_Mode s;
     rcs_Primaries := rs_Primaries s;
     rcs_ReplicasPerPrimary := rs_ReplicasPerPrimary s;
     rcs_Ephemeral := rs_Ephemeral s;
     rcs_Storage := rs_Storage s;
     rcs_StorageClassName := rs_StorageClassName s;
     rcs_Image := rs_Image s;
     rcs_Version := rs_Version s;
     rcs_RedisConfig := rs_Config s;
     rcs_Resources := rs_Resources s;
     rcs_Auth := rs_Auth s;
     rcs_Labels := rs_Labels s;
     rcs_Annotations := rs_Annotations s;
     rcs_DeletePVC := rs_DeletePVC s;
     rcs_PurgeKeysOnRebalance := rs_PurgeKeysOnRebalance s;
     rcs_Override := rs_Override s;
     rcs_Pdb := rs_Pdb s;
     rcs_RobinConfig := rbs_Config (rs_Robin s) |}.

(** The config [createNewConfig] builds, before the owner reference is set. *)
Definition newConfig (cluster : Redkey) (seq : Z) : RedkeyConfig :=
  {| cf_Meta := newMeta (configName (rk_Name cluster) seq) (rk_Namespace cluster)
       (mergeMeta (derefMap (rs_Labels (rk_Spec cluster))) None
          (Some {[ClusterLabel := rk_Name cluster]}))
       (mergeMeta (derefMap (rs_Annotations (rk_Spec cluster))) None
          (Some {[GenerationAnnotation := FormatInt (rk_Generation cluster)]}));
     cf_Spec := newConfigSpec (rk_Spec cluster) seq;
     cf_Status := zeroConfigStatus |}.

Definition set_cf_Meta (m : ObjectMeta) (c : RedkeyConfig) : RedkeyConfig :=
  mkRedkeyConfig m (cf_Spec c) (cf_Status c).

Section configs.
Context `{K8sLib}.

(** [createNewConfig].  An [AlreadyExists] answer counts as success: the cache
    had not seen a config created before. *)
Definition createNewConfig (cluster : Redkey) (highestSeq : option RedkeyConfig) : go unit :=
  let config := newConfig cluster (nextSequence highestSeq) in
  match SetControllerReference cluster (cf_Meta config) with
  | Err e => mret (Err e)
  | Ok m =>
      let config := set_cf_Meta m config in
      r ← call (Create KRedkeyConfig config);
      match r with
      | Err e => if IsAlreadyExists e then mret (Ok tt) else mret (Err e)
      | Ok _ =>
          let reason := match highestSeq with None => "initial" | Some _ => "generation_change" end in
          call (Emit (CounterInc redkeyConfigCreations [reason])) ≫= λ _, mret (Ok tt)
      end
  end.

(** ** Cleanup *)

(** The deletion loop of [cleanupSupersededConfigs] over the configs older
    than the last applied one: [Some e] is the error that stopped it, with the
    configs from the failed one on. *)
Fixpoint deleteConfigs (l : list RedkeyConfig) : prog (option (list RedkeyConfig * error)) :=
  match l with
  | [] => mret None
  | c :: l' =>
      r ← call (Delete KRedkeyConfig (cf_key c));
      match r with
      | Err e => if IsNotFound e then deleteConfigs l' else mret (Some (l, e))
      | Ok _ => call (Emit (CounterInc redkeyCleanupDeletedConfigs [])) ≫= λ _, deleteConfigs l'
      end
  end.

Definition isApplied (c : RedkeyConfig) : bool :=
  bool_decide (rct_ConfigPhase (cf_Status c) = ConfigPhaseApplied).

(** [cleanupSupersededConfigs]: the remaining configs and the error, if any. *)
Definition cleanupSupersededConfigs (configs : list RedkeyConfig)
    : prog (list RedkeyConfig * option error) :=
  if bool_decide (length configs ≤ 1)%nat then mret (configs, None)
  else
    match find_last_index isApplied configs with
    | None | Some O => mret (configs, None)
    | Some lastApplied =>
        r ← deleteConfigs (take lastApplied configs);
        match r with
        | Some (rest, e) => mret (rest ++ drop lastApplied configs, Some e)
        | None => mret (drop lastApplied configs, None)
        end
    end.
End configs.
