(* ===== verification/Metrics.v ===== *)
(** * Fleet metrics (internal/controller/metrics.go)

    The metric vectors, the operation and readiness trackers, which turn the sequence of observed
    statuses and phases of each Redkey into operation counts, durations and
    time-to-ready samples, and the functions that refresh or drop the series
    of one Redkey.  Calls on the Prometheus vectors are requests ([Emit]). *)

From S2P Require Import Prelude GoLib K8s Types Effects Client.
Local Open Scope Z_scope.

(** ** The vectors *)

Inductive MetricType := Gauge | Counter | Histogram (buckets : list Z).
#[global] Instance MetricType_eq_dec : EqDecision MetricType.
Proof. solve_decision. Defined.

(** [GaugeOpts], [CounterOpts] or [HistogramOpts], and the label names (none for
    a metric that is not a vector). *)
Record MetricOpts := mkMetricOpts { mv_Type : MetricType; mv_Name : string; mv_Labels : list string }.

Definition metricOpts (m : MetricName) : MetricOpts :=
  match m with
  | redkeyPhase => mkMetricOpts Gauge "redkey_phase" ["namespace"; "name"; "phase"]
  | redkeyConfigPhase => mkMetricOpts Gauge "redkey_config_phase" ["namespace"; "name"; "config_phase"]
  | redkeyOperationDuration =>
      mkMetricOpts (Histogram [5; 15; 30; 60; 120; 300; 600; 1200; 1800; 3600])
        "redkey_operation_duration_seconds" ["operation"]
  | redkeyOperationTotal => mkMetricOpts Counter "redkey_operation_total" ["operation"; "result"]
  | redkeyOperationInProgress =>
      mkMetricOpts Gauge "redkey_operation_in_progress" ["namespace"; "name"; "operation"]
  | redkeyReconcileStageErrors => mkMetricOpts Counter "redkey_reconcile_stage_errors_total" ["stage"]
  | redkeyConfigCreations => mkMetricOpts Counter "redkey_config_creations_total" ["reason"]
  | redkeyCleanupDeletedConfigs => mkMetricOpts Counter "redkey_cleanup_deleted_configs_total" []
  | redkeyRobinDeploymentChanges => mkMetricOpts Counter "redkey_robin_deployment_changes_total" ["action"]
  | redkeyTimeToReady =>
      mkMetricOpts (Histogram [5; 10; 20; 30; 60; 120; 300; 600; 900; 1800]) "redkey_time_to_ready_seconds" []
  end.

(** What [init] passes to [MustRegister]. *)
Definition registered : list MetricName :=
  [redkeyPhase; redkeyConfigPhase; redkeyOperationDuration; redkeyOperationTotal; redkeyOperationInProgress;
   redkeyReconcileStageErrors; redkeyConfigCreations; redkeyCleanupDeletedConfigs; redkeyRobinDeploymentChanges;
   redkeyTimeToReady].

Definition redkeyPhaseValues : list string := [PhaseReady; PhaseConfiguring; PhaseError].

Definition redkeyConfigPhaseValues : list string :=
  [ConfigPhasePending; ConfigPhaseInProgress; ConfigPhaseSuperseded; ConfigPhaseApplied].

(** A status that is neither empty nor terminal. *)
Definition inOperation (status : string) : bool :=
  negb (bool_decide (status = "")) && negb (bool_decide (status = ClusterStatusReady)) &&
  negb (bool_decide (status = ClusterPhaseError)).

(** The [result] label of an operation that settled. *)
Definition settledResult (status phase : string) : string :=
  if bool_decide (phase = PhaseError) || bool_decide (status = ClusterPhaseError)
  then "error" else "success".

(** Record the end of [current] with [result]. *)
Definition finishOperation (current : activeOperation) (result : string) : prog unit :=
  now ← call Now;
  call (Emit (Observe redkeyOperationDuration [ao_operation current] (now - ao_startedAt current))) ≫= λ _,
  call (Emit (CounterInc redkeyOperationTotal [ao_operation current; result])).

(** Start tracking [status]. *)
Definition startOperation (key : NamespacedName) (status : string) : prog unit :=
  now ← call Now;
  call (OpStore key (mkActiveOperation status now)).

(** The [switch] of [opTracker.observe], under the lock. *)
Definition observeSwitch (key : NamespacedName) (status phase : string)
    (tracking : option activeOperation) : prog unit :=
  match inOperation status, tracking with
  | true, None => startOperation key status
  | true, Some current =>
      if bool_decide (ao_operation current = status) then mret tt
      else
        finishOperation current "superseded" ≫= λ _,
        startOperation key status
  | false, Some current =>
      finishOperation current (settledResult status phase) ≫= λ _,
      call (OpDelete key)
  | false, None => mret tt
  end.

(** [func (t *opTracker) observe]. *)
Definition opTracker_observe (key : NamespacedName) (status phase : string) : prog unit :=
  call (Lock OpTrackerMu) ≫= λ _,
  tracking ← call (OpLookup key);
  observeSwitch key status phase tracking ≫= λ _,
  call (Unlock OpTrackerMu).

(** [func (t *opTracker) forget]. *)
Definition opTracker_forget (key : NamespacedName) : prog unit :=
  call (Lock OpTrackerMu) ≫= λ _,
  call (OpDelete key) ≫= λ _,
  call (Unlock OpTrackerMu).

(** [func (t *readyTracker) enteredReady]. *)
Definition readyTracker_enteredReady (key : NamespacedName) (phase : string) : prog bool :=
  call (Lock ReadyTrackerMu) ≫= λ _,
  previous ← call (PhaseLookup key);
  call (PhaseStore key phase) ≫= λ _,
  call (Unlock ReadyTrackerMu) ≫= λ _,
  mret (bool_decide (phase = PhaseReady) && negb (bool_decide (default "" previous = PhaseReady))).

(** [func (t *readyTracker) forget]. *)
Definition readyTracker_forget (key : NamespacedName) : prog unit :=
  call (Lock ReadyTrackerMu) ≫= λ _,
  call (PhaseDelete key) ≫= λ _,
  call (Unlock ReadyTrackerMu).

(** One state-set series per possible value: 1 on the active one, 0 elsewhere. *)
Definition setStateSet (m : MetricName) (ns name active : string) (values : list string) : prog unit :=
  for_each values (λ v,
    call (Emit (GaugeSet m [ns; name; v] (if bool_decide (v = active) then 1 else 0)))).

(** [recordRedkeyMetrics]. *)
Definition recordRedkeyMetrics (cluster : Redkey) (activeConfig : option RedkeyConfig) : prog unit :=
  let ns := rk_Namespace cluster in
  let name := rk_Name cluster in
  let status := rst_Status (rk_Status cluster) in
  let phase := rst_Phase (rk_Status cluster) in
  opTracker_observe (mkKey ns name) status phase ≫= λ _,
  call (Emit (DeletePartialMatch redkeyOperationInProgress ns name)) ≫= λ _,
  (if inOperation status
   then call (Emit (GaugeSet redkeyOperationInProgress [ns; name; status] 1))
   else mret tt) ≫= λ _,
  setStateSet redkeyPhase ns name phase redkeyPhaseValues ≫= λ _,
  match activeConfig with
  | None => call (Emit (DeletePartialMatch redkeyConfigPhase ns name))
  | Some c =>
      setStateSet redkeyConfigPhase ns name (rct_ConfigPhase (cf_Status c)) redkeyConfigPhaseValues ≫= λ _,
      entered ← readyTracker_enteredReady (mkKey ns name) phase;
      if (entered : bool) then
        now ← call Now;
        call (Emit (Observe redkeyTimeToReady [] (now - om_CreationTimestamp (cf_Meta c))))
      else mret tt
  end.

(** [deleteRedkeyMetrics]. *)
Definition deleteRedkeyMetrics (key : NamespacedName) : prog unit :=
  call (Emit (DeletePartialMatch redkeyPhase (nn_Namespace key) (nn_Name key))) ≫= λ _,
  call (Emit (DeletePartialMatch redkeyConfigPhase (nn_Namespace key) (nn_Name key))) ≫= λ _,
  call (Emit (DeletePartialMatch redkeyOperationInProgress (nn_Namespace key) (nn_Name key))) ≫= λ _,
  opTracker_forget key ≫= λ _,
  readyTracker_forget key.
