(* ===== verification/ScaleZero.v ===== *)
(** * Scale to zero (internal/controller/redkey_scale_zero.go)

    Reconciliation of a Redkey with [spec.primaries = 0]: hand Robin a config
    with zero primaries, wait until it is applied, then delete Robin, its RBAC
    and every config, and report the cluster as scaled to zero. *)

From S2P Require Import Prelude GoLib K8s Types Effects Client Robin Config.
Local Open Scope Z_scope.

(** [ctrl.Result]: the only field used is [RequeueAfter]. *)
Record Result := mkResult { RequeueAfter : Z }.

(** [r.Delete] treating [NotFound] as success and wrapping other errors. *)
Definition deleteIgnoreNotFound (msg : string) (k : Kind) (key : NamespacedName) : go unit :=
  r ← call (Delete k key);
  match r with
  | Ok _ => mret (Ok tt)
  | Err e => if IsNotFound e then mret (Ok tt) else mret (Err (Errorf msg e))
  end.

(** [deleteRobinDeployment]. *)
Definition deleteRobinDeployment (cluster : Redkey) : go unit :=
  deleteIgnoreNotFound ("deleting Robin Deployment " +:+ robinName cluster)
    KDeployment (robinKey cluster).

(** [deleteRBAC]: the binding first, then the role and the account. *)
Definition deleteRBAC (cluster : Redkey) : go unit :=
  let msg := "deleting RBAC resource /" +:+ robinName cluster in
  deleteIgnoreNotFound msg KRoleBinding (robinKey cluster) ;;;
  deleteIgnoreNotFound msg KRole (robinKey cluster) ;;;
  deleteIgnoreNotFound msg KServiceAccount (robinKey cluster).

(** The loop of [deleteAllConfigs]. *)
Fixpoint deleteEach (l : list RedkeyConfig) : go unit :=
  match l with
  | [] => mret (Ok tt)
  | c :: l' =>
      deleteIgnoreNotFound ("deleting config " +:+ cf_Name c) KRedkeyConfig (cf_key c) ;;;
      deleteEach l'
  end.

(** [deleteAllConfigs]: in the order the list call returns them. *)
Definition deleteAllConfigs (cluster : Redkey) : go unit :=
  items ⇐ wrap_err "listing configs for deletion"
    (call (ListConfigs (rk_Namespace cluster) (rk_Name cluster)));
  deleteEach items.

Section scale_zero.
Context `{K8sLib}.

(** The status of a cluster scaled to zero. *)
Definition scaledToZeroStatus (cluster : Redkey) (now : Z) : RedkeyStatus :=
  let st := rk_Status cluster in
  let cs := SetStatusCondition (rst_Conditions st)
    (newCondition "Ready" ConditionTrue "ScaledToZero" "") in
  let cs := SetStatusCondition cs (newCondition "ConfigPending" ConditionFalse "ScaledToZero" "") in
  let cs := SetStatusCondition cs (newCondition "Error" ConditionFalse "ScaledToZero" "") in
  {| rst_Replicas := 0;
     rst_Phase := PhaseReady;
     rst_Status := "";
     rst_Substatus := mkRedkeySubstatus "" 0;
     rst_Nodes := Some ∅;
     rst_Conditions := cs;
     rst_LastUpdatedAt := Some now;
     rst_ObservedGeneration := rk_Generation cluster;
     rst_LastAppliedPrimaries := rst_LastAppliedPrimaries st;
     rst_LastAppliedReplicasPerPrimary := rst_LastAppliedReplicasPerPrimary st |}.

(** [updateStatusScaledToZero]: returns the caller's object after the update. *)
Definition updateStatusScaledToZero (cluster : Redkey) : go Redkey :=
  now ← call Now;
  call (StatusUpdate (set_rk_Status (scaledToZeroStatus cluster now) cluster)).

(** [reconcileScaleToZero], with the caller's Redkey as it stands afterwards. *)
Definition reconcileScaleToZero (resync : Z) (cluster : Redkey) : go (Result * Redkey) :=
  configs ⇐ listConfigs cluster;
  match last configs with
  | None =>
      (* Case A: nothing left to tear down. *)
      cluster' ⇐ updateStatusScaledToZero cluster;
      mret (Ok (mkResult resync, cluster'))
  | Some latestConfig =>
      if negb (bool_decide (rcs_Primaries (cf_Spec latestConfig) = 0)) then
        (* Case B: hand Robin a config with zero primaries. *)
        ensureRBAC cluster ;;;
        ensureRobinDeployment cluster ;;;
        createNewConfig cluster (Some latestConfig) ;;;
        mret (Ok (mkResult resync, cluster))
      else if bool_decide (rct_ConfigPhase (cf_Status latestConfig) = ConfigPhaseApplied) then
        (* Case C: Robin is done. *)
        deleteRobinDeployment cluster ;;;
        deleteRBAC cluster ;;;
        deleteAllConfigs cluster ;;;
        cluster' ⇐ updateStatusScaledToZero cluster;
        mret (Ok (mkResult resync, cluster'))
      else
        (* Case D: Robin is working. *)
        ensureRBAC cluster ;;;
        ensureRobinDeployment cluster ;;;
        cluster' ⇐ aggregateStatus cluster configs;
        mret (Ok (mkResult resync, cluster'))
  end.
End scale_zero.
