(* ===== verification/Controller.v ===== *)
(** * The reconciler (internal/controller/redkey_controller.go) *)

From S2P Require Import Prelude GoLib K8s Types Effects Client Robin Config ScaleZero Metrics.
Local Open Scope Z_scope.

(** [RedkeyReconciler], less the client and the scheme. *)
Record RedkeyReconciler := mkReconciler {
  ResyncInterval : Z;
  MaxConcurrentReconciles : Z;
}.

(** [controllerOptions]: the [MaxConcurrentReconciles] of the options, 0 (the
    library's default) unless the setting is positive. *)
Definition controllerOptions (r : RedkeyReconciler) : Z :=
  if 0 <? MaxConcurrentReconciles r then MaxConcurrentReconciles r else 0.

(** The annotation key kept for a sequence counter on the Redkey; no code uses it. *)
Definition SequenceAnnotation := "redkey.inditex.dev/config-sequence".

(** The calls on the controller builder. *)
Inductive BuilderCall :=
| For (k : Kind)
| Owns (k : Kind)
| Named (name : string)
| WithOptions (maxConcurrentReconciles : Z).
#[global] Instance BuilderCall_eq_dec : EqDecision BuilderCall.
Proof. solve_decision. Defined.

(** [SetupWithManager], up to [Complete]. *)
Definition RedkeyReconciler_SetupWithManager (r : RedkeyReconciler) : list BuilderCall :=
  [For KRedkey; Owns KRedkeyConfig; Owns KDeployment; Owns KServiceAccount; Owns KRole; Owns KRoleBinding;
   Named "redkey"; WithOptions (controllerOptions r)].

(** [redkeyReconcileStageErrors.WithLabelValues(stage).Inc(); return ctrl.Result{}, err]. *)
Definition stageError (stage : string) (e : error) : prog (Result * option error) :=
  call (Emit (CounterInc redkeyReconcileStageErrors [stage])) ≫= λ _,
  mret (mkResult 0, Some e).

(** [x, err := p; if err != nil { count stage; return err }; k]. *)
Definition at_stage {A} (stage : string) (p : go A) (k : A → prog (Result * option error))
    : prog (Result * option error) :=
  r ← p; match r with Ok a => k a | Err e => stageError stage e end.

Section controller.
Context `{K8sLib}.

(** The end of [Reconcile]: cleanup and status aggregation over the configs,
    then the metrics. *)
Definition finishReconcile (r : RedkeyReconciler) (cluster : Redkey) (configs : list RedkeyConfig)
    : prog (Result * option error) :=
  match configs with
  | [] =>
      recordRedkeyMetrics cluster None ≫= λ _,
      mret (mkResult (ResyncInterval r), None)
  | _ =>
      cleaned ← cleanupSupersededConfigs configs;
      let '(configs, cerr) := cleaned in
      match cerr with
      | Some e => stageError "cleanup_superseded_configs" e
      | None =>
          at_stage "aggregate_status" (aggregateStatus cluster configs) (λ cluster,
            recordRedkeyMetrics cluster (selectActiveConfig configs) ≫= λ _,
            mret (mkResult (ResyncInterval r), None))
      end
  end.

(** [Reconcile]. *)
Definition Reconcile (r : RedkeyReconciler) (req : NamespacedName) : prog (Result * option error) :=
  got ← call (Get KRedkey req);
  match got with
  | Err e =>
      if IsNotFound e then
        deleteRedkeyMetrics req ≫= λ _, mret (mkResult 0, None)
      else stageError "get_cluster" e
  | Ok cluster =>
      if bool_decide (rs_Primaries (rk_Spec cluster) = 0) then
        at_stage "scale_to_zero" (reconcileScaleToZero (ResyncInterval r) cluster) (λ resClu,
          recordRedkeyMetrics resClu.2 None ≫= λ _, mret (resClu.1, None))
      else
        at_stage "ensure_rbac" (ensureRBAC cluster) (λ _,
        at_stage "ensure_robin_deployment" (ensureRobinDeployment cluster) (λ _,
        at_stage "list_configs" (listConfigs cluster) (λ configs,
          let highestSeq := last configs in
          if bool_decide (length configs = 0%nat) || needsNewConfig cluster highestSeq then
            at_stage "create_new_config" (createNewConfig cluster highestSeq) (λ _,
            at_stage "list_configs" (listConfigs cluster) (λ configs,
              finishReconcile r cluster configs))
          else finishReconcile r cluster configs)))
  end.
End controller.
