(* ===== verification/Main.v ===== *)
(** * Start-up of the operator (cmd/main.go)

    The command line, the TLS options of the two servers (a shared Go slice,
    modelled with its backing array), the namespaces the cache is restricted
    to, and the sequence of start-up steps with its exits, after package
    initialisation. *)

From Stdlib Require Import Ascii.
From S2P Require Import Prelude GoLib K8s Types Effects Client Robin Config ScaleZero Controller.
Local Open Scope Z_scope.

Definition USER_AGENT_NAME := "redkey-operator".

(** ** Flags *)

(** The variables [main] binds flags to (less the logger's). *)
Record Flags := mkFlags {
  metricsAddr : string;
  metricsCertPath : string; metricsCertName : string; metricsCertKey : string;
  webhookCertPath : string; webhookCertName : string; webhookCertKey : string;
  enableLeaderElection : bool;
  probeAddr : string;
  secureMetrics : bool;
  enableHTTP2 : bool;
  watchNamespaces : string;
  resyncInterval : Z;
  maxConcurrentReconciles : Z;
  enablePprof : bool;
  pprofAddr : string;
  showVersion : bool;
}.

(** [5*time.Minute], a [time.Duration] in nanoseconds. *)
Definition fiveMinutes : Z := 5 * 60 * 1000000000.

(** The values without any argument. *)
Definition defaultFlags : Flags := {|
  metricsAddr := ":8080";
  metricsCertPath := ""; metricsCertName := "tls.crt"; metricsCertKey := "tls.key";
  webhookCertPath := ""; webhookCertName := "tls.crt"; webhookCertKey := "tls.key";
  enableLeaderElection := false; probeAddr := ":8081"; secureMetrics := false; enableHTTP2 := false;
  watchNamespaces := ""; resyncInterval := fiveMinutes; maxConcurrentReconciles := 10;
  enablePprof := false; pprofAddr := ":6060"; showVersion := false |}.

(** ** The logger *)

(** [opts.NewEncoder]: a console encoder for the development configuration, changed
    by the options in turn, whatever mode the flags ask for.  The configurations and
    encoders are those of the zap library. *)
Definition NewEncoder {EncoderConfig Encoder : Type} (NewDevelopmentEncoderConfig : EncoderConfig)
    (NewConsoleEncoder : EncoderConfig → Encoder) (encoderOpts : list (EncoderConfig → EncoderConfig)) : Encoder :=
  NewConsoleEncoder (foldl (λ encoderConfig opt, opt encoderConfig) NewDevelopmentEncoderConfig encoderOpts).

(** ** Watched namespaces *)

(** [cacheOpts.DefaultNamespaces]: the nil map for an empty flag. *)
Definition defaultNamespaces (flag : string) : option (gset string) :=
  if bool_decide (flag = "") then None
  else Some (list_to_set (filter (λ ns, ns ≠ "") (TrimSpace <$> splitOn ","%char flag))).

(** ** TLS options *)

(** The functions on a TLS configuration that the option slices hold. *)
Inductive TLSOpt := DisableHTTP2 | WebhookGetCertificate | MetricsGetCertificate.
#[global] Instance TLSOpt_eq_dec : EqDecision TLSOpt.
Proof. solve_decision. Defined.

(** Go slices: a length and the number of the backing array, of which the heap
    holds the contents; a nil slice has no array.  Cells beyond the length of
    every slice are [None]. *)
Abbreviation heap := (list (list (option TLSOpt))).
Record slice := mkSlice { sl_array : option nat; sl_len : nat }.
Definition nilSlice : slice := mkSlice None 0.

Definition arrayOf (h : heap) (s : slice) : list (option TLSOpt) :=
  match sl_array s with Some i => default [] (h !! i) | None => [] end.

(** The elements of a slice. *)
Definition readSlice (h : heap) (s : slice) : list (option TLSOpt) := take (sl_len s) (arrayOf h s).

(** [append(s, x)]: in place when the capacity allows it, else into a new array
    of the capacity [grow] gives for the new length. *)
Definition append (grow : nat → nat) (h : heap) (s : slice) (x : TLSOpt) : heap * slice :=
  let a := arrayOf h s in
  let n := sl_len s in
  match sl_array s with
  | Some i =>
      if bool_decide (n < length a)%nat
      then (<[i := <[n := Some x]> a]> h, mkSlice (Some i) (S n))
      else (h ++ [take n a ++ [Some x] ++ replicate (grow (S n) - S n) None], mkSlice (Some (length h)) (S n))
  | None => (h ++ [[Some x] ++ replicate (grow 1%nat - 1) None], mkSlice (Some (length h)) 1)
  end.

(** The slices of the webhook server and of the metrics server, in the order in
    which [main] appends to them. *)
Definition tlsOptions (grow : nat → nat) (f : Flags) : heap * slice * slice :=
  let '(h, tlsOpts) :=
    if negb (enableHTTP2 f) then append grow [] nilSlice DisableHTTP2 else ([], nilSlice) in
  let '(h, webhookTLSOpts) :=
    if bool_decide (webhookCertPath f = "") then (h, tlsOpts)
    else append grow h tlsOpts WebhookGetCertificate in
  let '(h, metricsTLSOpts) :=
    if bool_decide (metricsCertPath f = "") then (h, tlsOpts)
    else append grow h tlsOpts MetricsGetCertificate in
  (h, webhookTLSOpts, metricsTLSOpts).

(** ** Start-up *)

(** [filepath.Join(dir, name)]. *)
Inductive Path := Join (dir name : string).

(** The options of [ctrl.NewManager] that depend on the flags. *)
Record ManagerOptions := mkManagerOptions {
  mo_UserAgent : string;
  mo_MetricsBindAddress : string;
  mo_MetricsSecureServing : bool;
  mo_MetricsAuthFilter : bool;
  mo_HealthProbeBindAddress : string;
  mo_LeaderElection : bool;
  mo_LeaderElectionID : string;
  mo_DefaultNamespaces : option (gset string);
}.

Definition managerOptions (version : string) (f : Flags) : ManagerOptions := {|
  mo_UserAgent := USER_AGENT_NAME +:+ "/" +:+ version;
  mo_MetricsBindAddress := metricsAddr f;
  mo_MetricsSecureServing := secureMetrics f;
  mo_MetricsAuthFilter := secureMetrics f;
  mo_HealthProbeBindAddress := probeAddr f;
  mo_LeaderElection := enableLeaderElection f;
  mo_LeaderElectionID := "ad09f20a.inditex.dev";
  mo_DefaultNamespaces := defaultNamespaces (watchNamespaces f) |}.

Definition reconcilerOf (f : Flags) : RedkeyReconciler :=
  mkReconciler (resyncInterval f) (maxConcurrentReconciles f).

(** The profiling server: a handler of net/http/pprof for each path, and the
    timeouts, in nanoseconds. *)
Inductive PprofHandler := Index | Cmdline | Profile | Symbol | Trace.
Record HTTPServer := mkHTTPServer {
  Addr : string;
  Handler : list (string * PprofHandler);
  ReadHeaderTimeout : Z;
  ShutdownTimeout : Z;
}.

Definition pprofSrv (f : Flags) : HTTPServer := {|
  Addr := pprofAddr f;
  Handler := [("/debug/pprof/", Index); ("/debug/pprof/cmdline", Cmdline); ("/debug/pprof/profile", Profile);
    ("/debug/pprof/symbol", Symbol); ("/debug/pprof/trace", Trace)];
  ReadHeaderTimeout := 10 * 1000000000;
  ShutdownTimeout := 5 * 1000000000 |}.

(** What [main] does, in calls of the libraries it sets up.  [StartManager]
    returns when the process is told to stop. *)
Inductive StartStep :=
| PrintVersion
| NewWebhookCertWatcher (cert key : Path)
| NewMetricsCertWatcher (cert key : Path)
| GetConfigOrDie
| NewManager (o : ManagerOptions)
| SetupWithManager (r : RedkeyReconciler)
| AddMetricsCertWatcher
| AddWebhookCertWatcher
| AddHealthzCheck
| AddReadyzCheck
| StartPprof (srv : HTTPServer)
| StartManager.

(** A call behind a condition. *)
Definition when (b : bool) (s : StartStep) : list StartStep := if b then [s] else [].

Definition set_path (s : string) : bool := negb (bool_decide (s = "")).

(** The steps of [main] in order, as long as none fails. *)
Definition mainSteps (version : string) (f : Flags) : list StartStep :=
  if showVersion f then [PrintVersion]
  else
    when (set_path (webhookCertPath f))
      (NewWebhookCertWatcher (Join (webhookCertPath f) (webhookCertName f))
        (Join (webhookCertPath f) (webhookCertKey f))) ++
    when (set_path (metricsCertPath f))
      (NewMetricsCertWatcher (Join (metricsCertPath f) (metricsCertName f))
        (Join (metricsCertPath f) (metricsCertKey f))) ++
    [GetConfigOrDie; NewManager (managerOptions version f); SetupWithManager (reconcilerOf f)] ++
    when (set_path (metricsCertPath f)) AddMetricsCertWatcher ++
    when (set_path (webhookCertPath f)) AddWebhookCertWatcher ++
    [AddHealthzCheck; AddReadyzCheck] ++
    when (enablePprof f) (StartPprof (pprofSrv f)) ++
    [StartManager].

(** Steps that can fail, on which the process exits with code 1. *)
Definition fallible (s : StartStep) : bool :=
  match s with PrintVersion | StartPprof _ => false | _ => true end.

(** Running the steps when [succeeds] says which succeed: those performed and
    the exit code. *)
Fixpoint runSteps (succeeds : StartStep → bool) (l : list StartStep) : list StartStep * Z :=
  match l with
  | [] => ([], 0)
  | s :: l' =>
      if fallible s && negb (succeeds s) then ([s], 1)
      else let '(done, code) := runSteps succeeds l' in (s :: done, code)
  end.

Definition main (version : string) (f : Flags) (succeeds : StartStep → bool) : list StartStep * Z :=
  runSteps succeeds (mainSteps version f).

(** ** Package initialisation *)

(** The steps of [init]; each panics when it fails, on which the process exits
    with code 2 before [main] runs. *)
Inductive InitStep :=
| AddClientGoScheme
| AddRedkeyScheme
| RegisterBuildInfo (name : string) (constLabels : gmap string string) (value : Z).

(** [registerBuildInfo]. *)
Definition registerBuildInfo (version goVersion : string) : InitStep :=
  RegisterBuildInfo "redkey_operator_build_info" {["version" := version; "go_version" := goVersion]} 1.

(** [init]. *)
Definition init (version goVersion : string) : list InitStep :=
  [AddClientGoScheme; AddRedkeyScheme; registerBuildInfo version goVersion].

(** The whole process: the start-up steps performed and the exit code. *)
Definition process (version goVersion : string) (f : Flags) (initialises : InitStep → bool)
    (succeeds : StartStep → bool) : list StartStep * Z :=
  if forallb initialises (init version goVersion) then main version f succeeds else ([], 2).
