(* ===== verification/FakeCluster.v ===== *)
(** * An in-memory cluster

    A concrete implementation of the interfaces of Client.v, in the style of
    controller-runtime's fake client: it shows that the laws the theorems
    assume can hold, and runs the operator on concrete inputs.  Reads are
    answered from a snapshot that either follows the store ([lag = false]) or
    stays where it is ([lag = true]), like an informer cache that has not caught
    up. *)

From S2P Require Import Prelude GoLib K8s Types Effects Client.
Local Open Scope Z_scope.

(** ** Helper libraries *)

(** The new condition, with the old time stamp when the status stays. *)
Definition fake_updated (old c : Condition) : Condition :=
  mkCondition (c_Type c) (c_Status c) (c_ObservedGeneration c)
    (if bool_decide (c_Status old = c_Status c) then c_LastTransitionTime old else c_LastTransitionTime c)
    (c_Reason c) (c_Message c).

Fixpoint fake_Set (cs : list Condition) (c : Condition) : list Condition :=
  match cs with
  | [] => [c]
  | c' :: cs' => if bool_decide (c_Type c' = c_Type c) then fake_updated c' c :: cs' else c' :: fake_Set cs' c
  end.

Definition fake_Find (cs : list Condition) (t : string) : option Condition :=
  find_first (λ c, bool_decide (c_Type c = t)) cs.

(** Empty in the desired object, or equal in both. *)
Definition dd_list {A} `{EqDecision A} (d e : list A) : bool :=
  bool_decide (d = take (length d) e).
Definition dd_opt {A} `{EqDecision A} (d e : option A) : bool :=
  match d with None => true | Some _ => bool_decide (d = e) end.
Definition dd_str (d e : string) : bool := bool_decide (d = "") || bool_decide (d = e).
Definition dd_map (d e : gmap string string) : bool := bool_decide (d ⊆ e).

Definition dd_container (d e : Container) : bool :=
  dd_str (ct_Name d) (ct_Name e) && dd_str (ct_Image d) (ct_Image e) &&
  dd_list (ct_Args d) (ct_Args e) && dd_list (ct_Env d) (ct_Env e) &&
  dd_list (ct_EnvFrom d) (ct_EnvFrom e) && dd_list (ct_Ports d) (ct_Ports e) &&
  dd_opt (rr_Limits (ct_Resources d)) (rr_Limits (ct_Resources e)) &&
  dd_opt (rr_Requests (ct_Resources d)) (rr_Requests (ct_Resources e)) &&
  dd_list (rr_Claims (ct_Resources d)) (rr_Claims (ct_Resources e)) &&
  dd_list (ct_VolumeMounts d) (ct_VolumeMounts e) &&
  dd_opt (ct_SecurityContext d) (ct_SecurityContext e) && dd_map (ct_Rest d) (ct_Rest e).

Fixpoint dd_containers (d e : list Container) : bool :=
  match d, e with
  | [], _ => true
  | c :: d', c' :: e' => dd_container c c' && dd_containers d' e'
  | _ :: _, [] => false
  end.

Definition fake_Derivative (d e : PodSpec) : bool :=
  dd_str (ps_ServiceAccountName d) (ps_ServiceAccountName e) &&
  dd_containers (ps_Containers d) (ps_Containers e) &&
  dd_map (entries (ps_NodeSelector d)) (entries (ps_NodeSelector e)) &&
  dd_list (ps_Tolerations d) (ps_Tolerations e) && dd_opt (ps_Affinity d) (ps_Affinity e) &&
  dd_opt (ps_SecurityContext d) (ps_SecurityContext e) &&
  dd_list (ps_ImagePullSecrets d) (ps_ImagePullSecrets e) &&
  dd_str (ps_PriorityClassName d) (ps_PriorityClassName e) &&
  dd_list (ps_TopologySpreadConstraints d) (ps_TopologySpreadConstraints e) &&
  dd_list (ps_Volumes d) (ps_Volumes e) && dd_map (ps_Rest d) (ps_Rest e).

Definition fake_SetOwner (owner : Redkey) (m : ObjectMeta) : res error ObjectMeta :=
  if negb (bool_decide (om_Namespace m = rk_Namespace owner)) then
    Err (OtherError "cross-namespace owner references are disallowed")
  else
    match om_OwnerReferences m with
    | [] => Ok (set_om_OwnerReferences
        [mkOwnerRef "Redkey" (rk_Name owner) (om_UID (rk_Meta owner)) true] m)
    | _ => Err (OtherError "object is already owned")
    end.

#[global] Instance fake_lib : K8sLib := {
  SetStatusCondition := fake_Set;
  FindStatusCondition := fake_Find;
  DeepEqual_map := λ m1 m2, bool_decide (entries m1 = entries m2);
  DeepEqual_rules := λ r1 r2, bool_decide (r1 = r2);
  DeepEqual_subjects := λ r1 r2, bool_decide (r1 = r2);
  DeepDerivative := fake_Derivative;
  SetControllerReference := fake_SetOwner;
  RetryOnConflict := λ A p, retry_conflict 4 p;
}.

(** ** The world *)

Record FakeWorld := mkWorld {
  fw_server : Store;
  fw_cache : Store;
  fw_log : gmap (NamespacedName * string) Redkey;
  fw_memory : Memory;
  fw_clock : Z;
}.

(** Every object sits under its own key. *)
Definition keyed (s : Store) : Prop :=
  ∀ k key o, sget k s !! key = Some o → key_of k o = key.

(** Every version of a Redkey is in the log. *)
Definition logged (log : gmap (NamespacedName * string) Redkey) (s : Store) : Prop :=
  ∀ key o, st_redkeys s !! key = Some o → log !! (key, om_ResourceVersion (rk_Meta o)) = Some o.

Definition world_ok (w : FakeWorld) : Prop :=
  keyed (fw_server w) ∧ keyed (fw_cache w) ∧
  logged (fw_log w) (fw_server w) ∧ logged (fw_log w) (fw_cache w).

(** A resource version no Redkey has had. *)
Definition next_rv (w : FakeWorld) : string := fresh (set_map (C := gset _) (D := gset string) snd (dom (fw_log w))).

Definition with_server (s : Store) (w : FakeWorld) : FakeWorld :=
  mkWorld s (fw_cache w) (fw_log w) (fw_memory w) (fw_clock w).
Definition with_memory (m : Memory) (w : FakeWorld) : FakeWorld :=
  mkWorld (fw_server w) (fw_cache w) (fw_log w) m (fw_clock w).

Definition set_rk_rv (rv : string) (o : Redkey) : Redkey :=
  mkRedkey (set_om_ResourceVersion rv (rk_Meta o)) (rk_Spec o) (rk_Status o).

(** Store an object; a Redkey gets a new resource version. *)
Definition fake_put (k : Kind) : obj k → FakeWorld → FakeWorld :=
  match k with
  | KRedkey => λ o w,
      let o' := set_rk_rv (next_rv w) o in
      mkWorld (sput KRedkey (key_of KRedkey o') o' (fw_server w)) (fw_cache w)
        (<[(key_of KRedkey o', next_rv w) := o']> (fw_log w)) (fw_memory w) (fw_clock w)
  | k => λ o w, with_server (sput k (key_of k o) o (fw_server w)) w
  end.

Arguments fake_put : simpl never.

(** What a create stores: configs get the CRD defaults and an empty status. *)
Definition fake_admit (k : Kind) : obj k → obj k :=
  match k with
  | KRedkeyConfig => λ o, mkRedkeyConfig (cf_Meta o) (defaultConfigSpec (cf_Spec o)) zeroConfigStatus
  | _ => λ o, o
  end.

Definition fake_handle (lag : bool) {T} (q : Req T) (w : FakeWorld) : FakeWorld * T :=
  let seen := if lag then fw_cache w else fw_server w in
  let m := fw_memory w in
  match q in Req T return FakeWorld * T with
  | Get k key =>
      (w, match sget k seen !! key with Some o => Ok o | None => Err NotFound end)
  | ListConfigs ns cluster => (w, Ok (selected_configs ns cluster seen))
  | Create k o =>
      match sget k (fw_server w) !! key_of k o with
      | Some _ => (w, Err AlreadyExists)
      | None => (fake_put k (fake_admit k o) w, Ok tt)
      end
  | Delete k key =>
      match sget k (fw_server w) !! key with
      | Some _ => (with_server (sdel k key (fw_server w)) w, Ok tt)
      | None => (w, Err NotFound)
      end
  | Patch k base new =>
      match sget k (fw_server w) !! key_of k base with
      | Some _ =>
          if bool_decide (key_of k new = key_of k base) then (fake_put k (fake_admit k new) w, Ok tt)
          else (w, Err (OtherError "metadata.name is immutable"))
      | None => (w, Err NotFound)
      end
  | StatusUpdate o =>
      match st_redkeys (fw_server w) !! key_of KRedkey o with
      | None => (w, Err NotFound)
      | Some cur =>
          if bool_decide (om_ResourceVersion (rk_Meta cur) = om_ResourceVersion (rk_Meta o)) then
            let o' := set_rk_rv (next_rv w) (set_rk_Status (rk_Status o) cur) in
            (fake_put KRedkey o' w, Ok o')
          else (w, Err Conflict)
      end
  | Now => (mkWorld (fw_server w) (fw_cache w) (fw_log w) m (fw_clock w + 1), fw_clock w)
  | Emit c => (with_memory (mkMemory (mm_active m) (mm_lastPhase m) (mm_held m) (mm_emitted m ++ [c])) w, tt)
  | Lock mu => (with_memory (mkMemory (mm_active m) (mm_lastPhase m) ({[mutex_id mu]} ∪ mm_held m) (mm_emitted m)) w, tt)
  | Unlock mu => (with_memory (mkMemory (mm_active m) (mm_lastPhase m) (mm_held m ∖ {[mutex_id mu]}) (mm_emitted m)) w, tt)
  | OpLookup key => (w, mm_active m !! key)
  | OpStore key v => (with_memory (mkMemory (<[key := v]> (mm_active m)) (mm_lastPhase m) (mm_held m) (mm_emitted m)) w, tt)
  | OpDelete key => (with_memory (mkMemory (delete key (mm_active m)) (mm_lastPhase m) (mm_held m) (mm_emitted m)) w, tt)
  | PhaseLookup key => (w, mm_lastPhase m !! key)
  | PhaseStore key v => (with_memory (mkMemory (mm_active m) (<[key := v]> (mm_lastPhase m)) (mm_held m) (mm_emitted m)) w, tt)
  | PhaseDelete key => (with_memory (mkMemory (mm_active m) (delete key (mm_lastPhase m)) (mm_held m) (mm_emitted m)) w, tt)
  end.

(** ** The laws hold *)

Lemma fake_Find_Set_eq cs c : ∃ stamp, fake_Find (fake_Set cs c) (c_Type c) =
  Some (mkCondition (c_Type c) (c_Status c) (c_ObservedGeneration c) stamp (c_Reason c) (c_Message c)).
Proof.
  unfold fake_Find. induction cs as [|c' cs [stamp IH]]; simpl.
  - rewrite bool_decide_eq_true_2 by done. exists (c_LastTransitionTime c). by destruct c.
  - destruct (bool_decide_reflect (c_Type c' = c_Type c)) as [He|Hne]; simpl.
    + rewrite bool_decide_eq_true_2 by done. by eexists.
    + rewrite (bool_decide_eq_false_2 (c_Type c' = c_Type c)) by done. by exists stamp.
Qed.

Lemma fake_Set_idle cs c old :
  fake_Find cs (c_Type c) = Some old → c_Status old = c_Status c → c_Reason old = c_Reason c →
  c_Message old = c_Message c → c_ObservedGeneration old = c_ObservedGeneration c → fake_Set cs c = cs.
Proof.
  unfold fake_Find. intros Hf Hs Hr Hm Hg. induction cs as [|c' cs IH]; [done|]. simpl in *.
  destruct (bool_decide_reflect (c_Type c' = c_Type c)) as [He|Hne]; [|by rewrite IH]. injection Hf as ->.
  f_equal. unfold fake_updated. rewrite bool_decide_eq_true_2 by done. destruct old, c. simpl in *. by subst.
Qed.

Lemma fake_Find_Set_ne cs c t : t ≠ c_Type c → fake_Find (fake_Set cs c) t = fake_Find cs t.
Proof.
  unfold fake_Find. intros Ht. induction cs as [|c' cs IH]; simpl.
  - by rewrite bool_decide_eq_false_2.
  - destruct (bool_decide_reflect (c_Type c' = c_Type c)) as [He|Hne]; simpl.
    + rewrite He. by rewrite !(bool_decide_eq_false_2 (c_Type c = t)).
    + by rewrite IH.
Qed.

Lemma fake_Set_types cs c :
  c_Type <$> fake_Set cs c =
    if bool_decide (c_Type c ∈ c_Type <$> cs) then c_Type <$> cs
    else (c_Type <$> cs) ++ [c_Type c].
Proof.
  induction cs as [|c' cs IH]; [done|]. simpl fake_Set.
  destruct (bool_decide_reflect (c_Type c' = c_Type c)) as [He|Hne]; rewrite !fmap_cons.
  - rewrite He, bool_decide_eq_true_2; [done|]. left.
  - rewrite IH. case_bool_decide as H1; case_bool_decide as H2; try done.
    + destruct H2. by right.
    + apply elem_of_cons in H2 as [H2|H2]; [by rewrite H2 in Hne|done].
Qed.

Lemma dd_list_refl {A} `{EqDecision A} (l : list A) : dd_list l l = true.
Proof. unfold dd_list. rewrite firstn_all. by apply bool_decide_eq_true_2. Qed.
Lemma dd_opt_refl {A} `{EqDecision A} (o : option A) : dd_opt o o = true.
Proof. destruct o; simpl; [by apply bool_decide_eq_true_2|done]. Qed.
Lemma dd_str_refl s : dd_str s s = true.
Proof. unfold dd_str. by rewrite (bool_decide_eq_true_2 (s = s)), orb_true_r. Qed.
Lemma dd_map_refl m : dd_map m m = true.
Proof. unfold dd_map. by apply bool_decide_eq_true_2. Qed.

Lemma dd_container_refl c : dd_container c c = true.
Proof.
  unfold dd_container. by rewrite !dd_str_refl, !dd_list_refl, !dd_opt_refl, !dd_map_refl.
Qed.

Lemma fake_Derivative_refl p : fake_Derivative p p = true.
Proof.
  assert (∀ l, dd_containers l l = true) as Hc.
  { induction l as [|c l IH]; simpl; [done|]. by rewrite dd_container_refl, IH. }
  unfold fake_Derivative. by rewrite !dd_str_refl, Hc, !dd_list_refl, !dd_opt_refl, !dd_map_refl.
Qed.

#[global] Instance fake_lib_laws : K8sLaws.
Proof.
  split; simpl; try done.
  - intros cs t c (l1 & l2 & -> & Ht%bool_decide_eq_true & _)%find_first_Some. set_solver.
  - intros cs c. destruct (fake_Find_Set_eq cs c) as [stamp ->]. by eexists.
  - apply fake_Find_Set_ne.
  - intros cs c c'. destruct (fake_Find_Set_eq cs c) as [stamp ->]. by intros [= <-].
  - apply fake_Set_idle.
  - apply fake_Set_types.
  - apply fake_Derivative_refl.
  - intros owner m m'. unfold fake_SetOwner. case_match; [done|].
    destruct (om_OwnerReferences m); [|done]. intros ?; simplify_eq.
    eexists _, _. split; [done|]. split; [by left|done].
  - intros owner m Hns Hrefs. unfold fake_SetOwner. rewrite bool_decide_eq_true_2 by done.
    by rewrite Hrefs.
  - by exists 4%nat.
Qed.

(** ** The client *)

Lemma next_rv_fresh w key o : fw_log w !! (key, next_rv w) ≠ Some o.
Proof.
  intros Hl. apply (is_fresh (set_map (C := gset _) (D := gset string) snd (dom (fw_log w)))).
  apply elem_of_map. exists (key, next_rv w). split; [done|]. by apply elem_of_dom_2 in Hl.
Qed.

Lemma sput_keyed k o s : keyed s → keyed (sput k (key_of k o) o s).
Proof.
  intros Hs k' key' o'. destruct (decide (k' = k)) as [->|Hk].
  - destruct (decide (key_of k o = key')) as [<-|Hne].
    + rewrite sget_sput_eq. by intros [= ->].
    + rewrite sget_sput_key_ne by done. apply Hs.
  - rewrite sget_sput_ne by done. apply Hs.
Qed.

Lemma sdel_keyed k key s : keyed s → keyed (sdel k key s).
Proof.
  intros Hs k' key' o'. destruct (decide (k' = k)) as [->|Hk].
  - destruct (decide (key = key')) as [<-|Hne].
    + by rewrite sget_sdel_eq.
    + rewrite sget_sdel_key_ne by done. apply Hs.
  - rewrite sget_sdel_ne by done. apply Hs.
Qed.

Lemma logged_other k m log s : k ≠ KRedkey → logged log s → logged log (sset k m s).
Proof.
  intros Hk Hl key o. change (st_redkeys (sset k m s)) with (sget KRedkey (sset k m s)).
  rewrite sget_sset_ne by done. apply Hl.
Qed.

Lemma logged_sdel k key log s : logged log s → logged log (sdel k key s).
Proof.
  intros Hl. destruct (decide (k = KRedkey)) as [->|Hk]; [|by apply logged_other].
  intros key' o Ho. simpl in Ho. apply lookup_delete_Some in Ho as [_ Ho]. by apply Hl.
Qed.

Lemma fake_put_ok k o w : world_ok w → world_ok (fake_put k o w).
Proof.
  intros (Hk1 & Hk2 & Hl1 & Hl2). destruct (decide (k = KRedkey)) as [->|Hk].
  - unfold fake_put. split; [by apply (sput_keyed KRedkey)|]. split; [done|]. split.
    + intros key o' Ho'. simpl in Ho'. apply lookup_insert_Some in Ho' as [[<- <-]|[Hne Ho']].
      * apply lookup_insert_eq.
      * simpl. rewrite lookup_insert_ne; [by apply Hl1|]. intros [=Hk _]. by apply Hne.
    + intros key o' Ho'. simpl. rewrite lookup_insert_ne; [by apply Hl2|].
      intros [= <- Hrv]. apply Hl2 in Ho'. rewrite <- Hrv in Ho'. by apply next_rv_fresh in Ho'.
  - assert (fake_put k o w = with_server (sput k (key_of k o) o (fw_server w)) w) as ->
      by by destruct k.
    split; [by apply sput_keyed|]. split; [done|]. split; [|done]. by apply logged_other.
Qed.

Lemma fake_handle_ok lag {T} (q : Req T) w : world_ok w → world_ok (fake_handle lag q w).1.
Proof.
  intros Hok. destruct q; simpl; try done; repeat case_match; simpl; try done;
    try by apply fake_put_ok.
  destruct Hok as (Hk1 & Hk2 & Hl1 & Hl2).
  split; [by apply sdel_keyed|]. split; [done|]. split; [|done]. by apply logged_sdel.
Qed.

(** Worlds satisfying the invariant; [lag] says whether reads are stale. *)
Record World (lag : bool) := { w_raw : FakeWorld; w_ok : world_ok w_raw }.
Arguments w_raw {lag} _.
Arguments w_ok {lag} _.

#[global] Instance fake_client lag : KubeClient (World lag) := {
  handle := λ T q w,
    ({| w_raw := (fake_handle lag q (w_raw w)).1; w_ok := fake_handle_ok lag q (w_raw w) (w_ok w) |},
     (fake_handle lag q (w_raw w)).2);
  server := λ w, fw_server (w_raw w);
  cache := λ w, if lag then fw_cache (w_raw w) else fw_server (w_raw w);
  past := λ w key rv, fw_log (w_raw w) !! (key, rv);
  memory := λ w, fw_memory (w_raw w);
  rely := λ s s', s' = s;
}.

Lemma fake_admit_key k o : key_of k (fake_admit k o) = key_of k o.
Proof. by destruct k. Qed.

Lemma meta_stored_refl m : meta_stored m m.
Proof. by repeat split. Qed.

Lemma fake_put_stored k o w :
  ∃ o', stored_as k o o' ∧ key_of k o' = key_of k o ∧
    fw_server (fake_put k (fake_admit k o) w) = sput k (key_of k o) o' (fw_server w).
Proof.
  destruct k; unfold fake_put; simpl.
  - by exists (set_rk_rv (next_rv w) o).
  - by exists (mkRedkeyConfig (cf_Meta o) (defaultConfigSpec (cf_Spec o)) zeroConfigStatus).
  - exists o. split; [|done]. split; [apply meta_stored_refl|]. by rewrite fake_Derivative_refl.
  - by exists o.
  - by exists o.
  - by exists o.
Qed.

Lemma fake_put_log k o w key rv o' :
  fw_log w !! (key, rv) = Some o' → fw_log (fake_put k o w) !! (key, rv) = Some o'.
Proof.
  destruct k; try done. unfold fake_put. simpl. intros Hl. rewrite lookup_insert_ne; [done|].
  intros [= <- <-]. by apply next_rv_fresh in Hl.
Qed.

Lemma fake_handle_contract lag {T} (q : Req T) w w' r :
  world_ok w → fake_handle lag q w = (w', r) →
  contract q (if lag then fw_cache w' else fw_server w') (fw_server w) r (fw_server w').
Proof.
  intros Hok. destruct q; simpl; try by intros [= <- <-]; destruct lag.
  - intros [= <- <-]. split; [done|].
    destruct lag; [destruct (sget k (fw_cache w) !! key) eqn:E|destruct (sget k (fw_server w) !! key) eqn:E];
      done.
  - destruct (sget k (fw_server w) !! key_of k o) eqn:E; intros [= <- <-]; [done|].
    split; [done|]. destruct (fake_put_stored k o w) as (o' & Ho & _ & Hs). eauto.
  - destruct (sget k (fw_server w) !! key) eqn:E; intros [= <- <-]; [|done]. by split; [eexists|].
  - destruct (sget k (fw_server w) !! key_of k base) eqn:E; [|by intros [= <- <-]].
    case_bool_decide as Hk; intros [= <- <-]; [|done].
    destruct (fake_put_stored k new w) as (o' & Ho & Hk' & Hs).
    eexists _, o'. split; [done|]. split; [by rewrite Hk'|]. split; [done|]. by rewrite Hs, Hk.
  - destruct (st_redkeys (fw_server w) !! key_of KRedkey o) as [cur|] eqn:E; [|by intros [= <- <-]].
    case_bool_decide as Hrv; intros [= <- <-]; [|done].
    assert (Hkey : key_of KRedkey cur = key_of KRedkey o) by exact (proj1 Hok KRedkey _ _ E).
    eexists cur, (next_rv w). split; [done|]. split; [done|]. split; [done|].
    unfold fake_put, key_of in *. simpl in *. by rewrite <- Hkey.
Qed.

Lemma fake_handle_memory lag {T} (q : Req T) w w' r :
  fake_handle lag q w = (w', r) → mem_contract q (fw_memory w) r (fw_memory w').
Proof.
  destruct q; simpl; try by intros [= <- <-].
  all: repeat case_match; intros [= <- <-]; try done; by destruct k.
Qed.

Lemma fake_handle_past lag {T} (q : Req T) w w' r key rv o :
  fake_handle lag q w = (w', r) → fw_log w !! (key, rv) = Some o → fw_log w' !! (key, rv) = Some o.
Proof.
  destruct q; simpl; repeat case_match; intros [= <- <-]; try done; apply fake_put_log.
Qed.

#[global] Instance fake_laws lag : KubeLaws (World lag).
Proof.
  split.
  - intros T q w w' r [= <- <-]. exists (fw_server (w_raw w)). split; [done|]. split.
    { intros key o Ho. eapply (fake_handle_past lag q); [apply surjective_pairing|].
      destruct (w_ok w) as (_ & _ & Hl & _). by apply Hl. }
    simpl. apply (fake_handle_contract lag q (w_raw w)); [apply w_ok|]. apply surjective_pairing.
  - intros T q w w' r [= <- <-]. apply (fake_handle_memory lag). apply surjective_pairing.
  - intros w. apply w_ok.
  - intros w. simpl. destruct lag; apply w_ok.
  - intros T q w w' r key rv o [= <- <-]. simpl. eapply (fake_handle_past lag q). apply surjective_pairing.
  - intros w. apply w_ok.
  - intros w. simpl. destruct lag; apply w_ok.
Qed.

#[global] Instance fake_ideal : KubeIdeal (World false).
Proof.
  split; try done; [apply _|].
  intros T q w w' r [= <- <-]. destruct q; simpl; try done.
  - by destruct (sget k (fw_server (w_raw w)) !! key_of k o).
  - by destruct (sget k (fw_server (w_raw w)) !! key).
  - intros [cur ->] Hkey. by rewrite bool_decide_eq_true_2.
  - intros cur -> Hrv. by rewrite bool_decide_eq_true_2.
Qed.
