(* ===== verification/Samples.v ===== *)
(** * Sample objects and worlds

    Concrete inputs on which the witnesses of the other files evaluate the
    operator: a cluster of three primaries, its configs, and in-memory worlds
    holding them. *)

From S2P Require Import Prelude GoLib K8s Types Effects Client Logic FakeCluster Robin Config.
Local Open Scope Z_scope.

Definition sampleRobin : RobinSpec := mkRobinSpec "redkey-robin:1" None None None.

(** A spec with the given primaries, ephemeral flag, labels and annotations. *)
Definition sampleSpec (primaries : Z) (ephemeral : bool) (labels annotations : option gomap)
    : RedkeySpec :=
  mkRedkeySpec (mkRedisAuth "") "" ModeCluster primaries 0 "redis:8" (Some false) false sampleRobin
    true (Some ephemeral) "" None labels annotations (mkPdb false (IntVal 0) (IntVal 0)) None
    ephemeral (if ephemeral then "" else "1Gi") "" ["ReadWriteOnce"].

Definition zeroStatus : RedkeyStatus :=
  mkRedkeyStatus 0 "" "" (mkRedkeySubstatus "" 0) None [] None 0 0 0.

Definition statusObserved (observed lastPrimaries : Z) : RedkeyStatus :=
  mkRedkeyStatus 3 PhaseReady ClusterStatusReady (mkRedkeySubstatus "" 0) (Some ∅) [] (Some 5)
    observed lastPrimaries 0.

Definition sampleMeta (generation : Z) : ObjectMeta :=
  mkMeta "rk" "ns" None None [] generation "v1" "uid-1" 0.

Definition sampleKey : NamespacedName := mkKey "ns" "rk".

(** The cluster "ns/rk" at a generation. *)
Definition sampleRedkey (generation primaries : Z) (ephemeral : bool) (st : RedkeyStatus) : Redkey :=
  mkRedkey (sampleMeta generation) (sampleSpec primaries ephemeral None None) st.

(** Config [seq] of the cluster, created for [generation], in a given phase. *)
Definition sampleConfig (seq generation primaries : Z) (phase status : string) : RedkeyConfig :=
  let c := newConfig (sampleRedkey generation primaries false zeroStatus) seq in
  mkRedkeyConfig (cf_Meta c) (cf_Spec c)
    (mkRedkeyConfigStatus phase status (mkRedkeySubstatus "" 0) None [] None 0).

Definition emptyMemory : Memory := mkMemory ∅ ∅ ∅ [].

(** A store holding one Redkey and some configs. *)
Definition sampleStore (r : Redkey) (configs : list RedkeyConfig) : Store :=
  mkStore {[key_of KRedkey r := r]} (list_to_map ((λ c, (cf_key c, c)) <$> configs)) ∅ ∅ ∅ ∅.

Lemma sampleStore_ok r configs cached :
  logged {[(key_of KRedkey r, om_ResourceVersion (rk_Meta r)) := r]} (sampleStore r cached) →
  keyed (sampleStore r configs) ∧
  logged {[(key_of KRedkey r, om_ResourceVersion (rk_Meta r)) := r]} (sampleStore r configs).
Proof.
  intros _. split.
  - intros [] key o; simpl; try by rewrite ?lookup_empty.
    + rewrite lookup_singleton_Some. by intros [<- <-].
    + intros Ho%elem_of_list_to_map_2. apply list_elem_of_fmap in Ho as (c & [= -> ->] & _). done.
  - intros key o. simpl. rewrite lookup_singleton_Some. intros [<- <-]. by rewrite lookup_singleton_eq.
Qed.

Definition rawWorld (r : Redkey) (configs cached : list RedkeyConfig) : FakeWorld :=
  mkWorld (sampleStore r configs) (sampleStore r cached)
    {[(key_of KRedkey r, om_ResourceVersion (rk_Meta r)) := r]} emptyMemory 100.

Lemma rawWorld_ok r configs cached : world_ok (rawWorld r configs cached).
Proof.
  assert (Hl : ∀ l, logged {[(key_of KRedkey r, om_ResourceVersion (rk_Meta r)) := r]} (sampleStore r l)).
  { intros l key o. simpl. rewrite lookup_singleton_Some. intros [<- <-]. by rewrite lookup_singleton_eq. }
  destruct (sampleStore_ok r configs configs (Hl _)), (sampleStore_ok r cached cached (Hl _)).
  by repeat split.
Qed.

(** The world holding [r] and [configs], with an up-to-date cache. *)
Definition sampleWorld (r : Redkey) (configs : list RedkeyConfig) : World false :=
  {| w_raw := rawWorld r configs configs; w_ok := rawWorld_ok r configs configs |}.

(** The same store, with a cache that still shows [cached]. *)
Definition staleWorld (r : Redkey) (configs cached : list RedkeyConfig) : World true :=
  {| w_raw := rawWorld r configs cached; w_ok := rawWorld_ok r configs cached |}.
