(* ===== verification/RobinProofs.v ===== *)
(** * Correctness of Robin's Deployment and RBAC

    Metadata and environment merging, the shape of the desired Deployment, the
    privileges Robin receives, and convergence of [ensureRBAC] and
    [ensureRobinDeployment] against an ideal client. *)

From S2P Require Import Prelude GoLib K8s Types Effects Client Logic FakeCluster Robin Samples.
Local Open Scope Z_scope.

(** ** [mergeMeta] *)

Lemma go_len_pos m : (0 < go_len m)%nat ↔ entries m ≠ ∅.
Proof.
  unfold go_len. rewrite <- map_size_non_empty_iff. lia.
Qed.

Lemma entries_mergeMeta spec override base :
  entries (mergeMeta spec override base) =
    entries base ∪ (if bool_decide (entries override = ∅) then entries spec else entries override).
Proof.
  unfold mergeMeta. cbv zeta.
  assert (Hc : ∀ m, maps_Copy ∅ m = entries m) by (intros m; apply map_union_empty).
  assert (Hout : (if bool_decide (0 < go_len override)%nat then maps_Copy ∅ override
     else maps_Copy ∅ spec) = if bool_decide (entries override = ∅) then entries spec else entries override).
  { rewrite !Hc. case_bool_decide as H1; rewrite go_len_pos in H1; case_bool_decide; naive_solver. }
  rewrite Hout.
  change (entries base ∪ (if bool_decide (entries override = ∅) then entries spec else entries override))
    with (maps_Copy (if bool_decide (entries override = ∅) then entries spec else entries override) base).
  generalize (maps_Copy (if bool_decide (entries override = ∅) then entries spec else entries override) base).
  intros out. destruct (bool_decide_reflect (size out = 0%nat)) as [Hsz|Hsz]; [|done].
  by apply map_size_empty_inv in Hsz as ->.
Qed.

(** Precedence of [mergeMeta].  A key of the internal base map always has
    the base value; another key has the override's value when the override
    has any entry (the spec entries are then discarded), and the spec's value
    otherwise; the result is the nil map exactly when it would be empty. *)
Lemma mergeMeta_precedence (spec override base : gomap) :
  (∀ k, entries (mergeMeta spec override base) !! k =
    match entries base !! k with
    | Some v => Some v
    | None => if bool_decide (go_len override = 0%nat) then entries spec !! k
              else entries override !! k
    end) ∧
  (mergeMeta spec override base = None ↔ entries (mergeMeta spec override base) = ∅).
Proof.
  assert (Hov : bool_decide (go_len override = 0%nat) = bool_decide (entries override = ∅)).
  { apply bool_decide_ext. unfold go_len. apply map_size_empty_iff. }
  split.
  - intros k. rewrite Hov, entries_mergeMeta, lookup_union. clear Hov.
    case_bool_decide; [destruct (entries spec !! k)|destruct (entries override !! k)];
      by destruct (entries base !! k).
  - clear Hov. split; [by intros ->|]. unfold mergeMeta. case_bool_decide as Hsz; [done|].
    simpl. intros Hout. by rewrite Hout in Hsz.
Qed.

(** ** Environment variables *)

(** The entry a container sees for a variable name. *)
Definition envNamed (n : string) (l : list EnvVar) : option EnvVar :=
  find_first (λ e, bool_decide (ev_Name e = n)) l.

Definition envLastNamed (n : string) (l : list EnvVar) : option EnvVar :=
  envNamed n (reverse l).

(** Invariant of the merge loop: names are distinct and [indexByName] is the
    inverse of the name projection. *)
Definition envInv (st : EnvState) : Prop :=
  ∀ n i, st.2 !! n = Some i ↔ (ev_Name <$> st.1) !! i = Some n.

Lemma envInv_NoDup st : envInv st → NoDup (ev_Name <$> st.1).
Proof.
  intros Hinv. apply NoDup_alt. intros i j n Hi Hj.
  apply Hinv in Hi, Hj. congruence.
Qed.

Lemma indexEnv_lookup l i index n :
  NoDup (ev_Name <$> l) →
  indexEnv i l index !! n =
    match list_find (λ m, m = n) (ev_Name <$> l) with
    | Some (j, _) => Some (i + j)%nat
    | None => index !! n
    end.
Proof.
  revert i index. induction l as [|e l IH]; intros i index; [done|].
  rewrite fmap_cons. intros [Hnin Hnd]%NoDup_cons. simpl.
  rewrite IH by done. destruct (decide (ev_Name e = n)) as [<-|Hne].
  - destruct (list_find _ _) as [[j m]|] eqn:Hf.
    + apply list_find_Some in Hf as (Hj & -> & _). destruct Hnin. by eapply list_elem_of_lookup_2.
    + rewrite lookup_insert_eq. simpl. f_equal. lia.
  - destruct (list_find _ _) as [[j m]|]; simpl; [f_equal; lia|]. by rewrite lookup_insert_ne.
Qed.

Lemma envInv_init base : NoDup (ev_Name <$> base) → envInv (base, indexEnv 0 base ∅).
Proof.
  intros Hnd n i. simpl. rewrite indexEnv_lookup by done.
  destruct (list_find _ _) as [[j m]|] eqn:Hf.
  - apply list_find_Some in Hf as (Hj & -> & _). split.
    + by intros [= <-].
    + intros Hi. f_equal. by eapply NoDup_lookup.
  - rewrite lookup_empty. split; [done|]. intros Hi.
    rewrite list_find_None, Forall_forall in Hf. destruct (Hf n); [|done].
    by eapply list_elem_of_lookup_2.
Qed.

Lemma envInv_step st e : envInv st → envInv (mergeEnvStep st e).
Proof.
  destruct st as [merged index]. intros Hinv. unfold mergeEnvStep.
  destruct (index !! ev_Name e) as [i|] eqn:Hi.
  - intros n j. simpl. assert (Hn := proj1 (Hinv _ _) Hi). simpl in Hn.
    rewrite list_fmap_insert, list_insert_id by done. apply Hinv.
  - intros n j. simpl. rewrite fmap_app, lookup_app. simpl.
    assert (Hlen : (ev_Name <$> merged) !! length merged = None).
    { apply lookup_ge_None. by rewrite length_fmap. }
    destruct (decide (ev_Name e = n)) as [<-|Hne].
    + rewrite lookup_insert_eq. split.
      * intros [= <-]. by rewrite Hlen, length_fmap, Nat.sub_diag.
      * destruct ((ev_Name <$> merged) !! j) as [m|] eqn:Hj.
        { intros [= ->]. apply Hinv in Hj. simpl in Hj. congruence. }
        rewrite length_fmap. intros Hj'. apply list_lookup_singleton_Some in Hj' as [Hz _].
        apply lookup_ge_None in Hj. rewrite length_fmap in Hj. f_equal. lia.
    + rewrite lookup_insert_ne by done. rewrite (Hinv n j). simpl.
      destruct ((ev_Name <$> merged) !! j) as [m|] eqn:Hj; [done|].
      split; [done|]. intros Hj'. by apply list_lookup_singleton_Some in Hj' as [_ ?].
Qed.

Lemma envNamed_Some n l e :
  NoDup (ev_Name <$> l) → envNamed n l = Some e ↔ e ∈ l ∧ ev_Name e = n.
Proof.
  intros Hnd. split.
  - intros (l1 & l2 & -> & Hn%bool_decide_eq_true & _)%find_first_Some. set_solver.
  - intros [He Hn]. destruct (envNamed n l) as [e'|] eqn:Hf.
    + pose proof Hf as (l1 & l2 & Hl & Hn'%bool_decide_eq_true & _)%find_first_Some.
      f_equal. assert (He' : e' ∈ l) by (rewrite Hl; set_solver).
      apply list_elem_of_lookup in He as [i Hi]. apply list_elem_of_lookup in He' as [j Hj].
      assert (i = j) as ->; [|congruence].
      apply (NoDup_lookup _ i j n Hnd); rewrite list_lookup_fmap; [by rewrite Hi; simpl; rewrite Hn|].
      rewrite Hj. simpl. by rewrite Hn'.
    + apply find_first_None with (x := e) in Hf; [|done]. by rewrite bool_decide_eq_true_2 in Hf.
Qed.

Lemma envNamed_step st e n :
  envInv st →
  envNamed n (mergeEnvStep st e).1 = if bool_decide (ev_Name e = n) then Some e else envNamed n st.1.
Proof.
  intros Hinv. pose proof (envInv_NoDup _ Hinv) as Hnd.
  pose proof (envInv_NoDup _ (envInv_step st e Hinv)) as Hnd'.
  apply option_eq. intros x. rewrite envNamed_Some by done.
  destruct st as [merged index]. unfold mergeEnvStep in *. simpl in *.
  destruct (index !! ev_Name e) as [i|] eqn:Hi; simpl in *.
  - assert (Hn := proj1 (Hinv _ _) Hi). simpl in Hn.
    apply list_lookup_fmap_Some in Hn as (e0 & Hn & He0).
    assert (Hlt : (i < length merged)%nat) by (by eapply lookup_lt_Some).
    assert (Hx : x ∈ <[i:=e]> merged ↔ x = e ∨ (x ∈ merged ∧ ev_Name x ≠ ev_Name e)).
    { rewrite !list_elem_of_lookup. split.
      - intros [j Hj]. destruct (decide (i = j)) as [<-|Hij].
        + rewrite list_lookup_insert_eq in Hj by done. left. congruence.
        + rewrite list_lookup_insert_ne in Hj by done. right. split; [by eexists|].
          intros Hxe. apply Hij. eapply (NoDup_lookup _ i j (ev_Name e) Hnd);
            rewrite list_lookup_fmap; [by rewrite Hn, He0|by rewrite Hj; simpl; rewrite Hxe].
      - intros [->|[[j Hj] Hne]]; [exists i; by rewrite list_lookup_insert_eq|].
        exists j. rewrite list_lookup_insert_ne; [done|]. intros <-. congruence. }
    rewrite Hx. case_bool_decide as Hc; [naive_solver|]. rewrite envNamed_Some by done. naive_solver.
  - assert (Hfresh : ∀ y, y ∈ merged → ev_Name y ≠ ev_Name e).
    { intros y Hy Hye. apply list_elem_of_lookup in Hy as [j Hj].
      assert (index !! ev_Name e = Some j); [|congruence].
      apply Hinv. simpl. rewrite list_lookup_fmap, Hj. simpl. by rewrite Hye. }
    rewrite elem_of_app, list_elem_of_singleton.
    case_bool_decide as Hc; [naive_solver|]. rewrite envNamed_Some by done. naive_solver.
Qed.

Lemma mergeEnvStep_prefix st e :
  envInv st → ev_Name <$> st.1 `prefix_of` ev_Name <$> (mergeEnvStep st e).1.
Proof.
  destruct st as [merged index]. intros Hinv. unfold mergeEnvStep. simpl.
  destruct (index !! ev_Name e) as [i|] eqn:Hi; simpl.
  - assert (Hn := proj1 (Hinv _ _) Hi). simpl in Hn. by rewrite list_fmap_insert, list_insert_id.
  - rewrite fmap_app. by apply prefix_app_r.
Qed.

Lemma foldl_mergeEnv st overrides :
  envInv st →
  let st' := foldl mergeEnvStep st overrides in
  envInv st' ∧ ev_Name <$> st.1 `prefix_of` ev_Name <$> st'.1 ∧
  ∀ n, envNamed n st'.1 =
    match envLastNamed n overrides with Some e => Some e | None => envNamed n st.1 end.
Proof.
  intros Hinv. induction overrides as [|e l IH] using rev_ind; [done|].
  destruct IH as (IH1 & IH2 & IH3). cbv zeta. rewrite foldl_snoc.
  split; [by apply envInv_step|]. split; [by etrans; [|apply mergeEnvStep_prefix]|].
  intros n. rewrite envNamed_step by done. unfold envLastNamed. rewrite reverse_snoc. simpl.
  unfold envNamed at 2. simpl. case_bool_decide; [done|]. apply IH3.
Qed.

(** [mergeEnvVars] on a base list with distinct names: the merged list has
    distinct names, keeps the base names in place at its front, and gives each
    name the last override carrying it, or the base entry if there is none. *)
Lemma mergeEnvVars_correct (base overrides : list EnvVar) :
  NoDup (ev_Name <$> base) →
  NoDup (ev_Name <$> mergeEnvVars base overrides) ∧
  ev_Name <$> base `prefix_of` ev_Name <$> mergeEnvVars base overrides ∧
  ∀ n, envNamed n (mergeEnvVars base overrides) =
    match envLastNamed n overrides with Some e => Some e | None => envNamed n base end.
Proof.
  intros Hnd. destruct (foldl_mergeEnv _ overrides (envInv_init base Hnd)) as (H1 & H2 & H3).
  split; [|done]. by apply envInv_NoDup in H1.
Qed.

Example mergeEnvVars_correct_example :
  NoDup (ev_Name <$> robinDefaultEnvVars (sampleRedkey 1 3 true zeroStatus)) ∧
  envNamed "NAMESPACE" (mergeEnvVars (robinDefaultEnvVars (sampleRedkey 1 3 true zeroStatus))
    [mkEnv "NAMESPACE" "a" None; mkEnv "X" "y" None; mkEnv "NAMESPACE" "b" None]) =
    Some (mkEnv "NAMESPACE" "b" None).
Proof.
  assert (Hnd : NoDup (ev_Name <$> robinDefaultEnvVars (sampleRedkey 1 3 true zeroStatus))).
  { apply (bool_decide_unpack _). vm_compute. exact I. }
  split; [exact Hnd|].
  destruct (mergeEnvVars_correct _ [mkEnv "NAMESPACE" "a" None; mkEnv "X" "y" None;
    mkEnv "NAMESPACE" "b" None] Hnd) as (_ & _ & H3).
  rewrite (H3 "NAMESPACE"). reflexivity.
Defined.

Lemma robinDefaultEnvVars_NoDup cluster : NoDup (ev_Name <$> robinDefaultEnvVars cluster).
Proof. simpl. apply NoDup_cons. split; [set_solver|]. apply NoDup_singleton. Qed.

Lemma mergeEnvVars_NoDup base overrides :
  NoDup (ev_Name <$> base) → NoDup (ev_Name <$> mergeEnvVars base overrides).
Proof.
  intros Hnd. destruct (foldl_mergeEnv _ overrides (envInv_init base Hnd)) as [H1 _].
  by apply envInv_NoDup in H1.
Qed.

Lemma mergeEnvVars_last base overrides n e :
  NoDup (ev_Name <$> base) → envLastNamed n overrides = Some e →
  envNamed n (mergeEnvVars base overrides) = Some e.
Proof.
  intros Hnd He. destruct (foldl_mergeEnv _ overrides (envInv_init base Hnd)) as (_ & _ & H3).
  unfold mergeEnvVars. by rewrite H3, He.
Qed.

(** Whatever the pod template of the spec says, Robin's container has
    distinct environment names, and [CLUSTER_NAME] and [NAMESPACE], which its
    arguments refer to, have the cluster's name and namespace. *)
Theorem robinContainer_env (cluster : Redkey) :
  let env := ct_Env (robinContainer cluster) in
  NoDup (ev_Name <$> env) ∧
  envNamed "CLUSTER_NAME" env = Some (mkEnv "CLUSTER_NAME" (rk_Name cluster) None) ∧
  envNamed "NAMESPACE" env = Some (mkEnv "NAMESPACE" (rk_Namespace cluster) None).
Proof.
  cbv zeta. unfold robinContainer.
  destruct (rbs_Template _) as [tpl|]; [|by split; [apply robinDefaultEnvVars_NoDup|]].
  assert (Hbase : NoDup (ev_Name <$> ct_Env (match pps_Containers (ppt_Spec tpl) with
     | [] => robinBaseContainer cluster
     | src :: _ => overrideContainer src (robinBaseContainer cluster) end))).
  { destruct (pps_Containers _) as [|src l]; [apply robinDefaultEnvVars_NoDup|].
    simpl. destruct (ct_Env src); [apply robinDefaultEnvVars_NoDup|].
    apply mergeEnvVars_NoDup, robinDefaultEnvVars_NoDup. }
  unfold set_ct_Env. simpl. split; [by apply mergeEnvVars_NoDup|].
  split; by apply mergeEnvVars_last.
Qed.

(** ** The desired Deployment *)

Lemma mergeMeta_base spec override base : entries base ⊆ entries (mergeMeta spec override base).
Proof. rewrite entries_mergeMeta. apply map_union_subseteq_l. Qed.

(** The desired Deployment is acceptable to the API server and matches the
    RBAC objects: its selector is contained in the pod labels whatever labels
    the user sets, it runs one replica of a single container under the service
    account [ensureRBAC] creates, and it carries the internal cluster label. *)
Lemma buildDesired_wellformed (cluster : Redkey) :
  let d := buildDesiredRobinDeployment cluster in
  dp_Selector d ⊆ entries (pt_Labels (dp_Template d)) ∧
  entries (om_Labels (dp_Meta d)) !! ClusterLabel = Some (rk_Name cluster) ∧
  om_key (dp_Meta d) = robinKey cluster ∧
  ps_ServiceAccountName (pt_Spec (dp_Template d)) = om_Name (rbacMeta cluster) ∧
  ps_Containers (pt_Spec (dp_Template d)) = [robinContainer cluster] ∧
  dp_Replicas d = Some 1.
Proof.
  unfold buildDesiredRobinDeployment. cbv zeta.
  destruct (match rbs_Template _ with Some _ => _ | None => _ end) as [tl ta]. simpl.
  split; [apply (mergeMeta_base _ _ (Some (robinBaseLabels cluster)))|].
  split. { eapply lookup_weaken; [|apply (mergeMeta_base _ _ (Some (robinBaseLabels cluster)))]. done. }
  split; [done|]. unfold robinPodSpec. by destruct (rbs_Template _).
Qed.

(** ** Annotations of the Deployment controller *)

Lemma entries_strip m :
  entries (stripManagedAnnotations m) = delete deploymentRevisionAnnotation (entries m).
Proof.
  unfold stripManagedAnnotations, go_lookup.
  destruct (entries m !! deploymentRevisionAnnotation) eqn:E.
  - case_bool_decide as Hsz; [|done]. by apply map_size_empty_inv in Hsz as ->.
  - by rewrite delete_id.
Qed.

Lemma entries_preserve existing desired :
  entries (preserveManagedAnnotations existing desired) =
    match entries existing !! deploymentRevisionAnnotation with
    | Some rev => <[deploymentRevisionAnnotation := rev]> (entries desired)
    | None => entries desired
    end.
Proof.
  unfold preserveManagedAnnotations, go_lookup. destruct (entries existing !! _); [|done].
  simpl. f_equal. apply map_union_empty.
Qed.

(** The spec asks for an annotation that belongs to the Deployment controller. *)
Definition claimsRevision (annotations : gomap) : Prop :=
  is_Some (entries annotations !! deploymentRevisionAnnotation).

Lemma strip_preserve existing desired :
  ¬ claimsRevision desired →
  entries (stripManagedAnnotations (preserveManagedAnnotations existing desired)) = entries desired.
Proof.
  intros Hn%eq_None_not_Some. rewrite entries_strip, entries_preserve.
  destruct (entries existing !! deploymentRevisionAnnotation).
  - by rewrite delete_insert_eq, delete_id.
  - by rewrite delete_id.
Qed.

Section drift.
Context `{K8sLib, !K8sLaws}.

Lemma needsUpdate_false existing desired :
  robinDeploymentNeedsUpdate existing desired = false ↔
  is_Some (dp_Replicas existing) ∧ dp_Replicas existing = dp_Replicas desired ∧
  entries (om_Labels (dp_Meta existing)) = entries (om_Labels (dp_Meta desired)) ∧
  delete deploymentRevisionAnnotation (entries (om_Annotations (dp_Meta existing))) =
    entries (om_Annotations (dp_Meta desired)) ∧
  entries (pt_Labels (dp_Template existing)) = entries (pt_Labels (dp_Template desired)) ∧
  entries (pt_Annotations (dp_Template existing)) = entries (pt_Annotations (dp_Template desired)) ∧
  DeepDerivative (pt_Spec (dp_Template desired)) (pt_Spec (dp_Template existing)) = true.
Proof.
  unfold robinDeploymentNeedsUpdate. rewrite !DeepEqual_map_spec, entries_strip.
  destruct (dp_Replicas existing) as [n|]; [|split; [done|by intros [[] _]]].
  repeat case_bool_decide; simpl; rewrite ?negb_false_iff; naive_solver.
Qed.

(** A patched Robin Deployment shows no drift, so the operator does not
    patch it again; this needs the user not to claim the revision annotation. *)
Lemma patched_no_drift (existing desired : Deployment) :
  is_Some (dp_Replicas desired) → ¬ claimsRevision (om_Annotations (dp_Meta desired)) →
  robinDeploymentNeedsUpdate (patchedRobinDeployment existing desired) desired = false.
Proof.
  intros Hr Hn. apply needsUpdate_false. simpl. split; [done|]. split; [done|]. split; [done|].
  rewrite <- entries_strip, strip_preserve by done. by rewrite DeepDerivative_refl.
Qed.

(** When the desired annotations claim the revision, every state of the live
    Deployment counts as drift. *)
Lemma claimed_revision_drifts (existing desired : Deployment) :
  claimsRevision (om_Annotations (dp_Meta desired)) →
  robinDeploymentNeedsUpdate existing desired = true.
Proof.
  intros [rev Hrev]. apply not_false_is_true.
  intros (_ & _ & _ & Hann & _)%needsUpdate_false.
  rewrite <- Hann, lookup_delete_eq in Hrev. done.
Qed.
End drift.

Definition revisionClaimant : Redkey :=
  mkRedkey (sampleMeta 1)
    (sampleSpec 3 true None (Some (Some {[deploymentRevisionAnnotation := "7"]}))) zeroStatus.

Example patched_no_drift_example :
  let d := buildDesiredRobinDeployment (sampleRedkey 1 3 true zeroStatus) in
  robinDeploymentNeedsUpdate
    (patchedRobinDeployment (buildDesiredRobinDeployment revisionClaimant) d) d = false.
Proof.
  cbv zeta. apply (patched_no_drift (H := fake_lib)).
  - eexists. reflexivity.
  - intros [v Hv]. vm_compute in Hv. discriminate Hv.
Defined.

(** ** Convergence *)

(** An object of kind [k] under [key] satisfying [good]. *)
Definition holds_at (k : Kind) (key : NamespacedName) (good : obj k → Prop) (s : Store) : Prop :=
  ∃ o, sget k s !! key = Some o ∧ good o.

(** What a step that owns the objects of kind [k] guarantees: it succeeds, the
    object is [good] afterwards, other kinds are untouched, and nothing is
    written when the object was good before. *)
Definition settles {W} `{KubeClient W} (k : Kind) (key : NamespacedName) (good : obj k → Prop)
    (w : W) (r : res error unit) (w' : W) : Prop :=
  r = Ok tt ∧ holds_at k key good (server w') ∧
  (∀ k', k' ≠ k → sget k' (server w') = sget k' (server w)) ∧
  (holds_at k key good (server w) → server w' = server w ∧ memory w' = memory w).

Section converge.
Context `{K8sLib, !K8sLaws, !KubeClient W, !KubeIdeal W}.

(** The shape shared by the reconcilers of single objects. *)
Lemma wp_ensure_object (k : Kind) (key : NamespacedName) (good : obj k → Prop)
    (onMissing : error → go unit) (onFound : obj k → go unit) (w : W) :
  (∀ w1, server w1 = server w → memory w1 = memory w → sget k (server w1) !! key = None →
    wp (onMissing NotFound) w1 (settles k key good w1)) →
  (∀ w1 o, server w1 = server w → memory w1 = memory w → sget k (server w1) !! key = Some o →
    key_of k o = key → wp (onFound o) w1 (settles k key good w1)) →
  wp (r ← call (Get k key); match r with Err e => onMissing e | Ok o => onFound o end) w
    (settles k key good w).
Proof.
  intros Hmiss Hfound. apply wp_bind, wp_get_ideal. intros w1 Hs Hm.
  assert (Hmono : ∀ r w', settles k key good w1 r w' → settles k key good w r w').
  { intros r w' (H1 & H2 & H3 & H4). unfold settles. by rewrite <- Hs, <- Hm. }
  destruct (sget k (server w) !! key) as [o|] eqn:Hget.
  - eapply wp_mono; [|apply Hmono]. apply Hfound; [done|done|by rewrite Hs|].
    by eapply (server_key w).
  - eapply wp_mono; [|apply Hmono]. apply Hmiss; [done|done|by rewrite Hs].
Qed.

Lemma wp_settle_create k key good desired (w : W) :
  key_of k desired = key → sget k (server w) !! key = None →
  (∀ o', stored_as k desired o' → good o') →
  wp (call (Create k desired)) w (settles k key good w).
Proof.
  intros <- Hnone Hgood. apply wp_create_ideal; [|rewrite Hnone; by intros []].
  intros _ w' o' Ho Hs Hm. split; [done|]. rewrite Hs. split; [|split].
  - exists o'. rewrite sget_sput_eq. auto.
  - intros k' Hk. by apply sget_sput_ne.
  - intros (o & Ho' & _). by rewrite Hnone in Ho'.
Qed.

Lemma wp_settle_patch k key good base new (w : W) :
  sget k (server w) !! key = Some base → key_of k base = key → key_of k new = key →
  ¬ good base → (∀ o', stored_as k new o' → good o') →
  wp (call (Patch k base new)) w (settles k key good w).
Proof.
  intros Hget <- Hnew Hbad Hgood. apply wp_patch_ideal; [done|done|].
  intros w' o' Ho Hs Hm. split; [done|]. rewrite Hs. split; [|split].
  - exists o'. rewrite sget_sput_eq. auto.
  - intros k' Hk. by apply sget_sput_ne.
  - intros (o & Ho' & Hg). rewrite Hget in Ho'. by simplify_eq.
Qed.

Lemma wp_settle_done k key good o (w : W) :
  sget k (server w) !! key = Some o → good o → wp (mret (Ok tt)) w (settles k key good w).
Proof. intros Hget Hgood. apply wp_ret. split; [done|]. split; [by eexists|]. done. Qed.

(** Labels and annotations are the ones [ensureRBAC] wants. *)
Definition rbacMetaOk (cluster : Redkey) (m : ObjectMeta) : Prop :=
  entries (om_Labels m) = entries (rbacLabels cluster) ∧
  entries (om_Annotations m) = entries (rbacAnnotations cluster).

Definition saOk (cluster : Redkey) (o : obj KServiceAccount) : Prop := rbacMetaOk cluster (sa_Meta o).
Definition roleOk (cluster : Redkey) (o : obj KRole) : Prop :=
  rbacMetaOk cluster (ro_Meta o) ∧ ro_Rules o = DesiredRobinRules.
Definition bindingOk (cluster : Redkey) (o : obj KRoleBinding) : Prop :=
  rbacMetaOk cluster (rb_Meta o) ∧ rb_Subjects o = desiredSubjects cluster ∧
  rb_RoleRef o = desiredRoleRef cluster.

Lemma rbac_owner cluster : ∃ refs, SetControllerReference cluster (rbacMeta cluster) =
  Ok (set_om_OwnerReferences refs (rbacMeta cluster)).
Proof.
  assert (Hok : is_ok (SetControllerReference cluster (rbacMeta cluster)) = true)
    by by apply SetControllerReference_total.
  destruct (SetControllerReference cluster (rbacMeta cluster)) as [m|e] eqn:E; [|done].
  apply SetControllerReference_Ok in E as (refs & ref & -> & _). by exists refs.
Qed.

Lemma metaDrift_spec cluster refs m :
  metaDrift m (set_om_OwnerReferences refs (rbacMeta cluster)) = false ↔ rbacMetaOk cluster m.
Proof.
  unfold metaDrift, rbacMetaOk. rewrite !DeepEqual_map_spec. simpl.
  rewrite orb_false_iff, !negb_false_iff, !bool_decide_eq_true. done.
Qed.

Lemma meta_stored_rbac cluster refs m' :
  meta_stored (set_om_OwnerReferences refs (rbacMeta cluster)) m' → rbacMetaOk cluster m'.
Proof. by intros (_ & _ & Hl & Ha & _). Qed.

Lemma meta_stored_copy cluster refs m m' :
  meta_stored (copyMeta (set_om_OwnerReferences refs (rbacMeta cluster)) m) m' → rbacMetaOk cluster m'.
Proof. by intros (_ & _ & Hl & Ha & _). Qed.

Lemma ensureServiceAccount_settles cluster (w : W) :
  wp (ensureServiceAccount cluster) w (settles KServiceAccount (robinKey cluster) (saOk cluster) w).
Proof.
  unfold ensureServiceAccount. destruct (rbac_owner cluster) as [refs ->].
  apply (wp_ensure_object KServiceAccount).
  - intros w1 _ _ Hnone. apply wp_settle_create; [done|done|]. intros o'. apply meta_stored_rbac.
  - intros w1 o _ _ Hget Hkey. destruct (metaDrift _ _) eqn:Hd.
    + apply wp_settle_patch; [done|done|done| |intros o'; apply meta_stored_copy].
      intros Hg. apply (metaDrift_spec _ refs) in Hg. simpl in Hd. by rewrite Hg in Hd.
    + apply metaDrift_spec in Hd. by eapply wp_settle_done.
Qed.

Lemma ensureRole_settles cluster (w : W) :
  wp (ensureRole cluster) w (settles KRole (robinKey cluster) (roleOk cluster) w).
Proof.
  unfold ensureRole. destruct (rbac_owner cluster) as [refs ->].
  apply (wp_ensure_object KRole).
  - intros w1 _ _ Hnone. apply wp_settle_create; [done|done|].
    intros o' [Hm Hr]. split; [by eapply meta_stored_rbac|done].
  - intros w1 o _ _ Hget Hkey. rewrite DeepEqual_rules_spec. simpl. destruct (_ || _) eqn:Hd.
    + apply wp_settle_patch; [done|done|done| |].
      * intros [Hm%(metaDrift_spec _ refs) Hr]. rewrite Hm in Hd. by rewrite bool_decide_eq_true_2 in Hd.
      * intros o' [Hm Hr]. split; [by eapply meta_stored_copy|done].
    + apply orb_false_iff in Hd as [Hr%negb_false_iff%bool_decide_eq_true Hm%metaDrift_spec].
      by eapply wp_settle_done.
Qed.

Lemma ensureRoleBinding_settles cluster (w : W) :
  wp (ensureRoleBinding cluster) w (settles KRoleBinding (robinKey cluster) (bindingOk cluster) w).
Proof.
  unfold ensureRoleBinding. destruct (rbac_owner cluster) as [refs ->].
  apply (wp_ensure_object KRoleBinding).
  - intros w1 _ _ Hnone. apply wp_settle_create; [done|done|].
    intros o' (Hm & Hs & Hr). split; [by eapply meta_stored_rbac|done].
  - intros w1 o _ _ Hget Hkey. simpl. case_bool_decide as Href; simpl; [|].
    + rewrite DeepEqual_subjects_spec. destruct (_ || _) eqn:Hd.
      * apply wp_settle_patch; [done|done|done| |].
        { intros (Hm%(metaDrift_spec _ refs) & Hs & _). rewrite Hm in Hd.
          by rewrite bool_decide_eq_true_2 in Hd. }
        intros o' (Hm & Hs & Hr). split; [by eapply meta_stored_copy|].
        simpl in Hr. by rewrite Hr, Href.
      * apply orb_false_iff in Hd as [Hs%negb_false_iff%bool_decide_eq_true Hm%metaDrift_spec].
        by eapply wp_settle_done.
    + apply wp_go_bind. apply wp_delete_ideal.
      * intros w2 Hs2 _ Hm2. rewrite Hkey in Hs2.
        eapply wp_mono; [apply (wp_settle_create KRoleBinding (robinKey cluster) (bindingOk cluster))|].
        { done. } { rewrite Hs2. apply sget_sdel_eq. }
        { intros o' (Hm & Hs & Hr). split; [by eapply meta_stored_rbac|done]. }
        intros r w3 (-> & Hg & Hfr & _). split; [done|]. split; [done|]. split.
        { intros k' Hk. rewrite Hfr, Hs2 by done. by apply sget_sdel_ne. }
        intros (o2 & Ho2 & _ & _ & Hr2). simplify_eq.
      * intros w2 _ Hnone. by rewrite Hkey, Hget in Hnone.
Qed.

Definition rbacInPlace (cluster : Redkey) (s : Store) : Prop :=
  holds_at KServiceAccount (robinKey cluster) (saOk cluster) s ∧
  holds_at KRole (robinKey cluster) (roleOk cluster) s ∧
  holds_at KRoleBinding (robinKey cluster) (bindingOk cluster) s.

Lemma holds_at_frame k key good s s' :
  sget k s' = sget k s → holds_at k key good s → holds_at k key good s'.
Proof. unfold holds_at. by intros ->. Qed.

Lemma wp_ensureRBAC cluster (w : W) :
  wp (ensureRBAC cluster) w (λ r w', r = Ok tt ∧ rbacInPlace cluster (server w') ∧
    (∀ k, k ≠ KServiceAccount → k ≠ KRole → k ≠ KRoleBinding →
      sget k (server w') = sget k (server w)) ∧
    (rbacInPlace cluster (server w) → server w' = server w ∧ memory w' = memory w)).
Proof.
  unfold ensureRBAC.
  apply wp_go_bind. eapply wp_mono; [apply ensureServiceAccount_settles|].
  intros r1 w1 (-> & Hsa & Hf1 & Hi1). simpl.
  apply wp_go_bind. eapply wp_mono; [apply ensureRole_settles|].
  intros r2 w2 (-> & Hro & Hf2 & Hi2). simpl.
  eapply wp_mono; [apply ensureRoleBinding_settles|].
  intros r3 w3 (-> & Hrb & Hf3 & Hi3). split; [done|]. split; [|split].
  - split; [|split; [|done]].
    + eapply holds_at_frame; [by apply Hf3|]. eapply holds_at_frame; [by apply Hf2|]. done.
    + eapply holds_at_frame; [by apply Hf3|]. done.
  - intros k H1 H2 H3. by rewrite Hf3, Hf2, Hf1.
  - intros (G1 & G2 & G3). destruct (Hi1 G1) as [E1 M1]. rewrite E1 in *.
    destruct (Hi2 G2) as [E2 M2]. rewrite E2 in *. destruct (Hi3 G3) as [E3 M3].
    by rewrite E3, M3, M2, M1.
Qed.

(** C38: against an ideal client [ensureRBAC] always succeeds and leaves the
    ServiceAccount, Role and RoleBinding as desired, whatever was there
    before, and every object of another kind as it was; run again it changes
    nothing. *)
Theorem ensureRBAC_converges (cluster : Redkey) (w w' : W) (r : res error unit) :
  exec (ensureRBAC cluster) w = (w', r) →
  r = Ok tt ∧ rbacInPlace cluster (server w') ∧
  (∀ k, k ≠ KServiceAccount → k ≠ KRole → k ≠ KRoleBinding → sget k (server w') = sget k (server w)) ∧
  server (exec (ensureRBAC cluster) w').1 = server w'.
Proof.
  intros He. destruct (wp_exec _ _ _ _ _ (wp_ensureRBAC cluster w) He) as (-> & Hok & Hf & _).
  split; [done|]. split; [done|]. split; [done|]. pose proof (wp_ensureRBAC cluster w') as Hwp. unfold wp in Hwp.
  destruct (exec (ensureRBAC cluster) w') as [w2 r2]. destruct Hwp as (_ & _ & _ & Hid).
  simpl. by apply Hid.
Qed.

(** The live Deployment shows no drift from the one the spec asks for. *)
Definition deploymentOk (cluster : Redkey) (o : obj KDeployment) : Prop :=
  robinDeploymentNeedsUpdate o (buildDesiredRobinDeployment cluster) = false.

(** The user's annotations leave the Deployment controller's key alone. *)
Definition revisionUnclaimed (cluster : Redkey) : Prop :=
  ¬ claimsRevision (derefMap (rs_Annotations (rk_Spec cluster))).

Lemma desired_annotations cluster :
  entries (om_Annotations (dp_Meta (buildDesiredRobinDeployment cluster))) =
    entries (derefMap (rs_Annotations (rk_Spec cluster))).
Proof.
  unfold buildDesiredRobinDeployment. destruct (match rbs_Template _ with Some _ => _ | None => _ end).
  simpl. rewrite entries_mergeMeta. simpl. apply (left_id_L ∅ (∪)).
Qed.

Lemma desired_key_replicas cluster :
  om_key (dp_Meta (buildDesiredRobinDeployment cluster)) = robinKey cluster ∧
  dp_Replicas (buildDesiredRobinDeployment cluster) = Some 1.
Proof.
  unfold buildDesiredRobinDeployment.
  by destruct (match rbs_Template _ with Some _ => _ | None => _ end).
Qed.

Lemma deployment_owner cluster : ∃ refs,
  SetControllerReference cluster (dp_Meta (buildDesiredRobinDeployment cluster)) =
    Ok (set_om_OwnerReferences refs (dp_Meta (buildDesiredRobinDeployment cluster))).
Proof.
  set (m := dp_Meta _).
  assert (Hok : is_ok (SetControllerReference cluster m) = true).
  { apply SetControllerReference_total; unfold m, buildDesiredRobinDeployment;
      by destruct (match rbs_Template _ with Some _ => _ | None => _ end). }
  destruct (SetControllerReference cluster m) as [m'|e] eqn:E; [|done].
  apply SetControllerReference_Ok in E as (refs & ref & -> & _). by exists refs.
Qed.

(** C40: when spec.annotations claims [deployment.kubernetes.io/revision],
    reconciles never settle: whatever the API answers, [ensureRobinDeployment]
    cannot succeed without writing the Deployment once more. *)
Theorem claimed_revision_never_settles (cluster : Redkey) (tr : list event) :
  claimsRevision (derefMap (rs_Annotations (rk_Spec cluster))) →
  runs (ensureRobinDeployment cluster) tr (Ok tt) →
  (∃ d, Ev (Create KDeployment d) (Ok tt) ∈ tr) ∨
  ∃ existing d, Ev (Get KDeployment (robinKey cluster)) (Ok existing) ∈ tr ∧
    Ev (Patch KDeployment existing d) (Ok tt) ∈ tr.
Proof.
  intros Hclaim. unfold ensureRobinDeployment. destruct (deployment_owner cluster) as [refs ->].
  set (d := buildDesiredRobinDeployment cluster) in *.
  set (d' := set_dp_Meta (set_om_OwnerReferences refs (dp_Meta d)) d).
  assert (Hkey : om_key (dp_Meta d') = robinKey cluster) by apply desired_key_replicas.
  assert (Hd : claimsRevision (om_Annotations (dp_Meta d'))).
  { unfold claimsRevision, d', d. simpl. by rewrite desired_annotations. }
  rewrite Hkey. intros (? & tr' & got & -> & ->%runs_call & Hr)%runs_bind.
  destruct got as [existing|e]; cbv beta iota in Hr.
  - rewrite claimed_revision_drifts in Hr by done. destruct Hr as ([[]|e'] & tr'' & -> & Hr); [|by destruct Hr].
    right. exists existing, (patchedRobinDeployment existing d'). set_solver.
  - case_match; [|by destruct Hr]. destruct Hr as ([[]|e'] & tr'' & -> & Hr); [|by destruct Hr].
    left. exists d'. set_solver.
Qed.

Lemma wp_settle_emit k key good (p : go unit) c (w : W) :
  ¬ holds_at k key good (server w) → wp p w (settles k key good w) →
  wp (p ;;; call (Emit c) ≫= λ _, mret (Ok tt)) w (settles k key good w).
Proof.
  intros Hbad Hp. apply wp_go_bind. eapply wp_mono; [done|]. intros r w1 (-> & Hg & Hf & _).
  apply wp_bind, wp_emit_ideal. intros w2 Hs _. apply wp_ret. unfold settles. by rewrite Hs.
Qed.

Lemma ensureRobinDeployment_settles cluster (w : W) :
  revisionUnclaimed cluster →
  wp (ensureRobinDeployment cluster) w
    (settles KDeployment (robinKey cluster) (deploymentOk cluster) w).
Proof.
  intros Hrev. unfold ensureRobinDeployment. destruct (deployment_owner cluster) as [refs ->].
  destruct (desired_key_replicas cluster) as [Hkey Hrep].
  pose proof (desired_annotations cluster) as Hann.
  unfold deploymentOk. set (d := buildDesiredRobinDeployment cluster) in *.
  set (d' := set_dp_Meta (set_om_OwnerReferences refs (dp_Meta d)) d).
  assert (Hun : ¬ claimsRevision (om_Annotations (dp_Meta d))).
  { unfold claimsRevision. by rewrite Hann. }
  change (om_key (dp_Meta d')) with (om_key (dp_Meta d)). rewrite Hkey.
  apply (wp_ensure_object KDeployment).
  - intros w1 _ _ Hnone. simpl. apply wp_settle_emit.
    { intros (o & Ho & _). by rewrite Hnone in Ho. }
    apply wp_settle_create; [done|done|].
    intros o' ((_ & _ & Hl & Ha & _) & Hr & _ & Htl & Hta & Hd). simpl in *.
    apply needsUpdate_false. rewrite Hr, Hl, Ha, Htl, Hta, Hrep.
    rewrite delete_id by by apply eq_None_not_Some. repeat (split; [done|]). done.
  - intros w1 o _ _ Hget Ho.
    assert (Hsame : robinDeploymentNeedsUpdate o d' = robinDeploymentNeedsUpdate o d) by done.
    rewrite Hsame. destruct (robinDeploymentNeedsUpdate o d) eqn:Hd; [|by eapply wp_settle_done].
    apply wp_settle_emit. { intros (o1 & Ho1 & Hg). rewrite Hget in Ho1. simplify_eq. congruence. }
    apply wp_settle_patch; [done|done|done|by rewrite Hd|].
    intros o' ((_ & _ & Hl & Ha & _) & Hr & _ & Htl & Hta & Hdd). simpl in *.
    apply needsUpdate_false. rewrite Hr, Hl, Ha, Htl, Hta, Hrep.
    rewrite <- entries_strip, strip_preserve by done. repeat (split; [done|]). done.
Qed.

(** C23: for a cluster whose spec leaves the revision annotation alone, and against
    an ideal client, [ensureRobinDeployment] always succeeds and leaves a Deployment
    without drift, touching no other kind of object; run again it writes nothing
    (and counts no change).  When the spec claims the annotation it never settles
    ([claimed_revision_never_settles]). *)
Theorem ensureRobinDeployment_converges (cluster : Redkey) (w w' : W) (r : res error unit) :
  revisionUnclaimed cluster → exec (ensureRobinDeployment cluster) w = (w', r) →
  r = Ok tt ∧ holds_at KDeployment (robinKey cluster) (deploymentOk cluster) (server w') ∧
  (∀ k, k ≠ KDeployment → sget k (server w') = sget k (server w)) ∧
  server (exec (ensureRobinDeployment cluster) w').1 = server w' ∧
  memory (exec (ensureRobinDeployment cluster) w').1 = memory w'.
Proof.
  intros Hrev He.
  destruct (wp_exec _ _ _ _ _ (ensureRobinDeployment_settles cluster w Hrev) He) as (-> & Hok & Hf & _).
  split; [done|]. split; [done|]. split; [done|].
  pose proof (ensureRobinDeployment_settles cluster w' Hrev) as Hwp. unfold wp in Hwp.
  destruct (exec (ensureRobinDeployment cluster) w') as [w2 r2]. destruct Hwp as (_ & _ & _ & Hid).
  simpl. by apply Hid.
Qed.
End converge.

Lemma ensureRBAC_converges_witness :
  let w0 := sampleWorld (sampleRedkey 1 3 true zeroStatus) [] in
  rbacInPlace (sampleRedkey 1 3 true zeroStatus)
    (server (exec (ensureRBAC (sampleRedkey 1 3 true zeroStatus)) w0).1).
Proof.
  cbv zeta.
  destruct (ensureRBAC_converges (W := World false) (sampleRedkey 1 3 true zeroStatus)
    (sampleWorld (sampleRedkey 1 3 true zeroStatus) []) _ _
    (surjective_pairing (exec (ensureRBAC (sampleRedkey 1 3 true zeroStatus))
      (sampleWorld (sampleRedkey 1 3 true zeroStatus) [])))) as (_ & Hok & _).
  exact Hok.
Defined.

Lemma ensureRobinDeployment_converges_witness :
  let w0 := sampleWorld (sampleRedkey 1 3 true zeroStatus) [] in
  holds_at KDeployment (robinKey (sampleRedkey 1 3 true zeroStatus))
    (deploymentOk (sampleRedkey 1 3 true zeroStatus))
    (server (exec (ensureRobinDeployment (sampleRedkey 1 3 true zeroStatus)) w0).1).
Proof.
  cbv zeta.
  assert (Hrev : revisionUnclaimed (sampleRedkey 1 3 true zeroStatus)).
  { intros [v Hv]. vm_compute in Hv. discriminate Hv. }
  destruct (ensureRobinDeployment_converges (W := World false) (sampleRedkey 1 3 true zeroStatus)
    (sampleWorld (sampleRedkey 1 3 true zeroStatus) []) _ _ Hrev
    (surjective_pairing (exec (ensureRobinDeployment (sampleRedkey 1 3 true zeroStatus))
      (sampleWorld (sampleRedkey 1 3 true zeroStatus) [])))) as (_ & Hok & _).
  exact Hok.
Defined.

Lemma claimed_revision_never_settles_witness :
  let w0 := sampleWorld revisionClaimant [] in
  let w1 := (exec (ensureRobinDeployment revisionClaimant) w0).1 in
  let tr := trace (ensureRobinDeployment revisionClaimant) w1 in
  length tr = 3%nat ∧
  ((∃ d, Ev (Create KDeployment d) (Ok tt) ∈ tr) ∨
   ∃ existing d, Ev (Get KDeployment (robinKey revisionClaimant)) (Ok existing) ∈ tr ∧
    Ev (Patch KDeployment existing d) (Ok tt) ∈ tr).
Proof.
  intros w0 w1 tr. split; [vm_compute; reflexivity|].
  apply (claimed_revision_never_settles (H := fake_lib) revisionClaimant tr).
  - eexists. vm_compute. reflexivity.
  - assert (Hok : (exec (ensureRobinDeployment revisionClaimant) w1).2 = Ok tt) by (vm_compute; reflexivity).
    rewrite <- Hok. apply exec_runs.
Defined.
