(* ===== verification/ConfigProofs.v ===== *)
(** * Correctness of config management and status aggregation *)

From S2P Require Import Prelude GoLib K8s Types Effects Client Logic FakeCluster Robin Config Samples.
From S2P Require Import RobinProofs.
From Stdlib Require Import Ascii.
Local Open Scope Z_scope.

(** ** When a new config is due *)

(** The generation a config was created for, as its annotation records it. *)
Definition configGeneration (c : RedkeyConfig) : res NumError Z :=
  ParseInt (go_index (om_Annotations (cf_Meta c)) GenerationAnnotation).

(** A new config is due exactly when the observed generation lags behind
    and the latest config, if any, does not carry a parseable annotation for
    the current generation or a later one. *)
Lemma needsNewConfig_iff (cluster : Redkey) (latest : option RedkeyConfig) :
  needsNewConfig cluster latest = true ↔
  rst_ObservedGeneration (rk_Status cluster) < rk_Generation cluster ∧
  ∀ c g, latest = Some c → configGeneration c = Ok g → g < rk_Generation cluster.
Proof.
  unfold needsNewConfig, configGeneration.
  destruct latest as [c|]; [|rewrite Z.ltb_lt; naive_solver].
  case_bool_decide as Hemp.
  - rewrite Z.ltb_lt. split; [|tauto]. intros Hlt. split; [done|].
    intros c' g [= <-]. by rewrite Hemp.
  - destruct (ParseInt _) as [g|e] eqn:Hp.
    + destruct (Z.leb_spec (rk_Generation cluster) g); rewrite ?Z.ltb_lt.
      * split; [done|]. intros [_ Hg]. specialize (Hg c g eq_refl Hp). lia.
      * split; [|tauto]. intros Hlt. split; [done|]. intros c' g' [= <-]. rewrite Hp. by intros [= <-].
    + rewrite Z.ltb_lt. split; [|tauto]. intros Hlt. split; [done|].
      intros c' g' [= <-]. by rewrite Hp.
Qed.

Lemma newConfig_generation cluster seq c :
  in_int64 (rk_Generation cluster) →
  entries (om_Annotations (cf_Meta c)) = entries (om_Annotations (cf_Meta (newConfig cluster seq))) →
  configGeneration c = Ok (rk_Generation cluster).
Proof.
  intros Hg Hann. unfold configGeneration, go_index. rewrite Hann. simpl.
  rewrite entries_mergeMeta, lookup_union_l' by (simpl; by rewrite lookup_singleton_eq).
  simpl. rewrite lookup_singleton_eq. simpl. by apply ParseInt_FormatInt.
Qed.

(** The annotation round trip.  A config stored for a cluster is
    recognised as being for its generation, whatever annotations the user
    adds, so no second config is created for that generation even before the
    status catches up. *)
Theorem created_config_settles_generation (cluster : Redkey) (seq : Z) (c : RedkeyConfig) :
  in_int64 (rk_Generation cluster) →
  meta_stored (cf_Meta (newConfig cluster seq)) (cf_Meta c) →
  configGeneration c = Ok (rk_Generation cluster) ∧ needsNewConfig cluster (Some c) = false.
Proof.
  intros Hg (_ & _ & _ & Ha & _).
  assert (Hc := newConfig_generation cluster seq c Hg Ha). split; [done|].
  unfold needsNewConfig. unfold configGeneration in Hc.
  case_bool_decide as Hemp; [by rewrite Hemp in Hc|]. rewrite Hc. by rewrite Z.leb_refl.
Qed.

Lemma created_config_settles_generation_witness :
  needsNewConfig (sampleRedkey 4 3 true zeroStatus)
    (Some (newConfig (sampleRedkey 4 3 true zeroStatus) 2)) = false.
Proof.
  destruct (created_config_settles_generation (sampleRedkey 4 3 true zeroStatus) 2
    (newConfig (sampleRedkey 4 3 true zeroStatus) 2)) as [_ Hn].
  - split; vm_compute; intros; congruence.
  - repeat split.
  - exact Hn.
Defined.

(** ** Names *)

Lemma configName_inj a b s t :
  0 ≤ s → 0 ≤ t → configName a s = configName b t → a = b ∧ s = t.
Proof.
  unfold configName. intros Hs Ht Heq.
  apply (string_split_last "-"%char) in Heq as [-> Hf]; [|by apply string_mem_FormatInt..].
  split; [done|]. by apply FormatInt_inj.
Qed.

(** ** Order *)

(** [listConfigs] returns the configs ascending by sequence with the
    highest one last; when sequences are distinct the result does not depend
    on the order in which the API lists them or on how the sort treats ties. *)
Lemma sortConfigs_spec (items : list RedkeyConfig) :
  sortConfigs items ≡ₚ items ∧
  (∀ c, last (sortConfigs items) = Some c →
    ∀ c', c' ∈ items → rcs_Sequence (cf_Spec c') ≤ rcs_Sequence (cf_Spec c)) ∧
  (NoDup ((λ c, rcs_Sequence (cf_Spec c)) <$> items) → ∀ l,
    l ≡ₚ items → StronglySorted (λ a b, rcs_Sequence (cf_Spec a) ≤ rcs_Sequence (cf_Spec b)) l →
    l = sortConfigs items).
Proof.
  split; [apply sort_slice_perm|]. split.
  - intros c Hlast c' Hc'. eapply (StronglySorted_last (λ c, rcs_Sequence (cf_Spec c)));
      [apply sort_slice_sorted|done|]. by rewrite sort_slice_perm.
  - intros Hnd l Hp Hs. by apply sort_slice_unique.
Qed.

(** ** The active config *)

(** [selectActiveConfig] is defined on every non-empty list and returns
    one of its configs: the first one in progress, if any, and otherwise the
    first of the list. *)
Lemma selectActiveConfig_spec (configs : list RedkeyConfig) :
  let busy c := bool_decide (rct_ConfigPhase (cf_Status c) = ConfigPhaseInProgress) in
  match selectActiveConfig configs with
  | None => configs = []
  | Some c => c ∈ configs ∧
      ((∃ l1 l2, configs = l1 ++ c :: l2 ∧ busy c = true ∧ ∀ x, x ∈ l1 → busy x = false) ∨
       (head configs = Some c ∧ ∀ x, x ∈ configs → busy x = false))
  end.
Proof.
  cbv zeta. set (busy := λ c, bool_decide (rct_ConfigPhase (cf_Status c) = ConfigPhaseInProgress)).
  assert (Hgen : match (match find_first busy configs with Some c => Some c | None => head configs end) with
    | None => configs = []
    | Some c => c ∈ configs ∧
        ((∃ l1 l2, configs = l1 ++ c :: l2 ∧ busy c = true ∧ ∀ x, x ∈ l1 → busy x = false) ∨
         (head configs = Some c ∧ ∀ x, x ∈ configs → busy x = false)) end).
  { destruct (find_first busy configs) as [c|] eqn:Hf.
    - apply find_first_Some in Hf as (l1 & l2 & -> & Hb & Hl). split; [set_solver|]. left. by exists l1, l2.
    - rewrite find_first_None in Hf. destruct configs as [|c l]; [done|].
      split; [left|]. right. by split. }
  unfold selectActiveConfig. destruct configs as [|c [|c' l]]; [done| |done].
  split; [left|]. destruct (busy c) eqn:Hb.
  - left. exists [], []. split; [done|]. split; [done|]. intros x Hx. inversion Hx.
  - right. split; [done|]. intros x Hx. by apply list_elem_of_singleton in Hx as ->.
Qed.

(** A reference for the choice, on configs in no order: the one of least
    sequence among those in progress, or else among all. *)
Definition oldest (l : list RedkeyConfig) : option RedkeyConfig :=
  foldr (λ c best, match best with
    | Some d => if rcs_Sequence (cf_Spec c) <=? rcs_Sequence (cf_Spec d) then Some c else Some d
    | None => Some c end) None l.
Definition inProgress (c : RedkeyConfig) : bool :=
  bool_decide (rct_ConfigPhase (cf_Status c) = ConfigPhaseInProgress).
Definition activeReference (l : list RedkeyConfig) : option RedkeyConfig :=
  match oldest (filter (λ c, inProgress c = true) l) with Some c => Some c | None => oldest l end.

Lemma oldest_spec l :
  match oldest l with
  | None => l = []
  | Some c => c ∈ l ∧ ∀ d, d ∈ l → rcs_Sequence (cf_Spec c) ≤ rcs_Sequence (cf_Spec d)
  end.
Proof.
  induction l as [|x l IH]; [done|]. simpl. destruct (oldest l) as [c|].
  - destruct IH as [Hc Hmin].
    destruct (Z.leb_spec (rcs_Sequence (cf_Spec x)) (rcs_Sequence (cf_Spec c))) as [Hle|Hlt].
    + split; [left|]. intros d [->|Hd]%elem_of_cons; [done|]. specialize (Hmin d Hd). lia.
    + split; [by right|]. intros d [->|Hd]%elem_of_cons; [lia|by apply Hmin].
  - subst l. split; [left|]. by intros d ->%list_elem_of_singleton.
Qed.

(** Distinct sequences leave one candidate. *)
Lemma oldest_unique l c :
  NoDup ((λ c, rcs_Sequence (cf_Spec c)) <$> l) → c ∈ l →
  (∀ d, d ∈ l → rcs_Sequence (cf_Spec c) ≤ rcs_Sequence (cf_Spec d)) → oldest l = Some c.
Proof.
  intros Hnd Hc Hmin. pose proof (oldest_spec l) as Ho. destruct (oldest l) as [d|]; [|by subst; inversion Hc].
  destruct Ho as [Hd Hmin']. f_equal.
  apply (NoDup_key_inj (λ c, rcs_Sequence (cf_Spec c)) l); [done..|].
  specialize (Hmin d Hd). specialize (Hmin' c Hc). simpl. lia.
Qed.

(** C25: the active config is the reference one, however the API orders its
    answer: [listConfigs] sorts, and [selectActiveConfig] then picks, among the
    configs in progress, or all if there are none, the one of least sequence. *)
Theorem activeConfig_reference (items : list RedkeyConfig) :
  NoDup ((λ c, rcs_Sequence (cf_Spec c)) <$> items) →
  selectActiveConfig (sortConfigs items) = activeReference items.
Proof.
  intros Hnd. pose proof (selectActiveConfig_spec (sortConfigs items)) as Hsel. cbv zeta in Hsel.
  destruct (sortConfigs_spec items) as (Hperm & _ & _).
  pose proof (sort_slice_sorted (λ c, rcs_Sequence (cf_Spec c)) items) as Hsort.
  change (sort_slice _ items) with (sortConfigs items) in Hsort. unfold activeReference.
  destruct (selectActiveConfig (sortConfigs items)) as [c|].
  - destruct Hsel as [Hc [(l1 & l2 & Hl & Hb & Hn)|[Hhd Hn]]].
    + rewrite (oldest_unique _ c); [done| | |].
      * eapply sublist_NoDup; [exact Hnd|]. apply fmap_sublist, sublist_filter.
      * apply list_elem_of_filter. split; [exact Hb|]. by rewrite <- Hperm.
      * intros d [Hd Hin]%list_elem_of_filter. rewrite <- Hperm, Hl in Hin. rewrite Hl in Hsort.
        apply elem_of_app in Hin as [Hin|Hin]; [unfold inProgress in Hd; by rewrite Hn in Hd|].
        apply StronglySorted_app_1_r, StronglySorted_inv in Hsort as [_ Hall].
        apply elem_of_cons in Hin as [->|Hin]; [done|]. by apply (proj1 (Forall_forall _ _) Hall).
    + assert (Hnil : filter (λ c, inProgress c = true) items = []).
      { destruct (filter _ items) as [|d l] eqn:Hf; [done|].
        assert (Hd : d ∈ filter (λ c, inProgress c = true) items) by (rewrite Hf; left).
        apply list_elem_of_filter in Hd as [Hd Hin]. rewrite <- Hperm in Hin.
        unfold inProgress in Hd. by rewrite Hn in Hd. }
      rewrite Hnil. simpl. symmetry. apply oldest_unique; [done|by rewrite <- Hperm|].
      intros d Hd. rewrite <- Hperm in Hd. destruct (sortConfigs items) as [|x l]; [done|].
      injection Hhd as ->. apply StronglySorted_inv in Hsort as [_ Hall].
      apply elem_of_cons in Hd as [->|Hd]; [done|]. by apply (proj1 (Forall_forall _ _) Hall).
  - rewrite Hsel in Hperm. by apply Permutation_nil_l in Hperm as <-.
Qed.

Lemma activeConfig_reference_witness :
  let c1 := sampleConfig 1 1 3 ConfigPhaseApplied ClusterStatusReady in
  let c2 := sampleConfig 2 2 4 ConfigPhaseInProgress "" in
  let c3 := sampleConfig 3 3 5 ConfigPhaseInProgress "" in
  activeReference [c3; c1; c2] = Some c2 ∧ selectActiveConfig (sortConfigs [c3; c1; c2]) = activeReference [c3; c1; c2].
Proof.
  intros c1 c2 c3. split; [vm_compute; reflexivity|]. apply (activeConfig_reference [c3; c1; c2]).
  apply (bool_decide_unpack _). vm_compute. exact I.
Defined.


(** ** Status aggregation *)

Section aggregation.
Context `{K8sLaws}.

(** What [meta.SetStatusCondition] keeps of the condition it is given. *)
Definition agrees (c c' : Condition) : Prop :=
  c_Status c' = c_Status c ∧ c_Reason c' = c_Reason c ∧ c_Message c' = c_Message c.

Lemma Find_fold_notin l cs t :
  t ∉ c_Type <$> l →
  FindStatusCondition (foldl SetStatusCondition cs l) t = FindStatusCondition cs t.
Proof.
  revert cs. induction l as [|c l IH]; intros cs Ht; [done|]. csimpl in *.
  apply not_elem_of_cons in Ht as [Hc Hl]. rewrite IH by done. by apply Find_Set_ne.
Qed.

Lemma Find_fold_in l cs c :
  NoDup (c_Type <$> l) → c ∈ l →
  ∃ c', FindStatusCondition (foldl SetStatusCondition cs l) (c_Type c) = Some c' ∧ agrees c c'.
Proof.
  revert cs. induction l as [|d l IH]; intros cs Hnd Hc; csimpl in *; [by apply not_elem_of_nil in Hc|].
  apply NoDup_cons in Hnd as [Hd Hnd]. apply elem_of_cons in Hc as [->|Hc]; [|by apply IH].
  rewrite Find_fold_notin by done. apply Find_Set_eq.
Qed.

Lemma Find_fold_generation l cs c c' :
  NoDup (c_Type <$> l) → c ∈ l → FindStatusCondition (foldl SetStatusCondition cs l) (c_Type c) = Some c' →
  c_ObservedGeneration c' = c_ObservedGeneration c.
Proof.
  revert cs. induction l as [|d l IH]; intros cs Hnd Hc; csimpl in *; [by apply not_elem_of_nil in Hc|].
  apply NoDup_cons in Hnd as [Hd Hnd]. apply elem_of_cons in Hc as [->|Hc]; [|by apply IH].
  rewrite Find_fold_notin by done. apply Find_Set_generation.
Qed.

(** Setting the same conditions once more changes nothing, time stamps included. *)
Lemma fold_again l cs :
  NoDup (c_Type <$> l) →
  foldl SetStatusCondition (foldl SetStatusCondition cs l) l = foldl SetStatusCondition cs l.
Proof.
  intros Hnd. set (out := foldl SetStatusCondition cs l).
  assert (Hall : ∀ k, k ⊆ l → foldl SetStatusCondition out k = out); [|by apply Hall].
  induction k as [|c k IH]; intros Hk; [done|]. simpl.
  assert (Hc : c ∈ l) by (apply Hk; left).
  destruct (Find_fold_in l cs c Hnd Hc) as (c' & Hf & Hs & Hr & Hm). fold out in Hf.
  rewrite (Set_idle out c c' Hf Hs Hr Hm (Find_fold_generation l cs c c' Hnd Hc Hf)). apply IH.
  intros x Hx. apply Hk. by right.
Qed.

Lemma fold_types l cs :
  NoDup (c_Type <$> cs) →
  NoDup (c_Type <$> foldl SetStatusCondition cs l) ∧
  ∀ t, t ∈ c_Type <$> foldl SetStatusCondition cs l ↔ t ∈ c_Type <$> cs ∨ t ∈ c_Type <$> l.
Proof.
  revert cs. induction l as [|c l IH]; intros cs Hnd; csimpl; [set_solver|].
  assert (Hset : NoDup (c_Type <$> SetStatusCondition cs c) ∧
    ∀ t, t ∈ c_Type <$> SetStatusCondition cs c ↔ t ∈ c_Type <$> cs ∨ t = c_Type c).
  { rewrite Set_types. case_bool_decide as Hin; [set_solver|]. split; [|set_solver].
    apply NoDup_app. split; [done|]. split; [set_solver|apply NoDup_singleton]. }
  destruct Hset as [Hnd' Ht]. destruct (IH _ Hnd') as [Hnd'' Ht']. split; [done|].
  intros t. rewrite Ht', Ht, elem_of_cons. tauto.
Qed.

(** The conditions the operator owns, as computed from the active config. *)
Definition ownedConditions (c : RedkeyConfig) : list Condition :=
  [newCondition "Ready" (conditionStatus (isConfigReady c)) "StatusAggregated" "";
   newCondition "ConfigPending"
     (conditionStatus (negb (isTerminalConfigPhase (rct_ConfigPhase (cf_Status c)))))
     "StatusAggregated" "";
   newCondition "Error" (conditionStatus (hasConfigError c)) "StatusAggregated" ""]
  ++ (healthCondition c <$> healthConditionTypes).

Lemma aggregateConditions_fold cs c :
  aggregateConditions cs c = foldl SetStatusCondition cs (ownedConditions c).
Proof. done. Qed.

Lemma healthCondition_Type c t : c_Type (healthCondition c t) = t.
Proof. unfold healthCondition. by repeat case_match. Qed.

Lemma ownedConditions_types c :
  c_Type <$> ownedConditions c = "Ready" :: "ConfigPending" :: "Error" :: healthConditionTypes.
Proof.
  unfold ownedConditions. csimpl. repeat f_equal. all: by rewrite ?healthCondition_Type.
Qed.

Lemma ownedConditions_NoDup c : NoDup (c_Type <$> ownedConditions c).
Proof. rewrite ownedConditions_types. apply (bool_decide_unpack _). by vm_compute. Qed.

Lemma aggregateConditions_again cs c :
  aggregateConditions (aggregateConditions cs c) c = aggregateConditions cs c.
Proof. rewrite !aggregateConditions_fold. apply fold_again, ownedConditions_NoDup. Qed.

Lemma owned_found cs c d :
  d ∈ ownedConditions c →
  ∃ d', FindStatusCondition (aggregateConditions cs c) (c_Type d) = Some d' ∧ agrees d d'.
Proof. intros Hd. rewrite aggregateConditions_fold. apply Find_fold_in; [apply ownedConditions_NoDup|done]. Qed.

Lemma conditionIsTrue_owned cs c t b reason msg :
  newCondition t (conditionStatus b) reason msg ∈ ownedConditions c →
  conditionIsTrue (aggregateConditions cs c) t = b.
Proof.
  intros Hin. destruct (owned_found cs c _ Hin) as (d & Hf & Hs & _). simpl in *.
  unfold conditionIsTrue. rewrite Hf, Hs. by destruct b.
Qed.

(** The phase a cluster is in, read off the active config alone. *)
Definition phaseOf (c : RedkeyConfig) : string :=
  if isTerminalConfigPhase (rct_ConfigPhase (cf_Status c)) then
    if bool_decide (rct_Status (cf_Status c) = ClusterPhaseError) then PhaseError else PhaseReady
  else PhaseConfiguring.

Lemma phaseOf_aggregate cs c :
  computePhaseFromConditions (aggregateConditions cs c) = phaseOf c.
Proof.
  unfold computePhaseFromConditions, phaseOf.
  rewrite (conditionIsTrue_owned cs c "Error" (hasConfigError c) "StatusAggregated" "") by set_solver.
  rewrite (conditionIsTrue_owned cs c "Ready" (isConfigReady c) "StatusAggregated" "") by set_solver.
  unfold hasConfigError, isConfigReady.
  destruct (isTerminalConfigPhase _), (bool_decide (rct_Status (cf_Status c) = ClusterPhaseError)); done.
Qed.
End aggregation.

(** The published phase is a function of the active config alone
    (Configuring until its phase is terminal, then Error or Ready by the
    status Robin reports), whatever conditions the Redkey carried before and
    whatever the health conditions say. *)
Theorem aggregated_phase `{K8sLaws} (existing : list Condition) (c : RedkeyConfig) :
  computePhaseFromConditions (aggregateConditions existing c) =
  (if isTerminalConfigPhase (rct_ConfigPhase (cf_Status c)) then
     if bool_decide (rct_Status (cf_Status c) = ClusterPhaseError) then PhaseError else PhaseReady
   else PhaseConfiguring).
Proof. apply phaseOf_aggregate. Qed.

Lemma aggregated_phase_witness :
  computePhaseFromConditions (H := fake_lib) (aggregateConditions
    [newCondition "Error" ConditionTrue "" ""; newCondition ConditionHealthy ConditionFalse "" ""]
    (sampleConfig 1 1 3 ConfigPhaseApplied ClusterStatusReady)) = PhaseReady.
Proof. rewrite (aggregated_phase (H := fake_lib)). reflexivity. Defined.

(** C24: aggregation publishes, for each of the six health checks, Robin's
    verdict when the active config is settled and Ready, and Unknown otherwise;
    conditions the operator does not own are left exactly as they were, and no
    condition type is ever listed twice. *)
Theorem aggregateConditions_health `{K8sLaws} (existing : list Condition) (c : RedkeyConfig) :
  let out := aggregateConditions existing c in
  (∀ t, t ∈ healthConditionTypes → ∃ d, FindStatusCondition out t = Some d ∧
     match FindStatusCondition (rct_Conditions (cf_Status c)) t with
     | Some src => if healthSettled c then agrees src d else c_Status d = ConditionUnknown
     | None => c_Status d = ConditionUnknown
     end) ∧
  (∀ t, t ∉ "Ready" :: "ConfigPending" :: "Error" :: healthConditionTypes →
     FindStatusCondition out t = FindStatusCondition existing t) ∧
  (NoDup (c_Type <$> existing) → NoDup (c_Type <$> out)).
Proof.
  cbv zeta. split; [|split].
  - intros t Ht. destruct (owned_found existing c (healthCondition c t)) as (d & Hf & Hd).
    { unfold ownedConditions. apply elem_of_app. right. by apply list_elem_of_fmap_2. }
    rewrite healthCondition_Type in Hf. exists d. split; [done|].
    revert Hd. unfold healthCondition, agrees.
    destruct (FindStatusCondition (rct_Conditions _) t), (healthSettled c); simpl; tauto.
  - intros t Ht. rewrite aggregateConditions_fold. apply Find_fold_notin. by rewrite ownedConditions_types.
  - intros Hnd. rewrite aggregateConditions_fold. by apply fold_types.
Qed.

Lemma aggregateConditions_health_witness :
  let c0 := sampleConfig 1 1 3 ConfigPhaseApplied ClusterStatusReady in
  let c := mkRedkeyConfig (cf_Meta c0) (cf_Spec c0) (mkRedkeyConfigStatus ConfigPhaseApplied ClusterStatusReady
    (mkRedkeySubstatus "" 0) None [newCondition ConditionHealthy ConditionFalse "SlotsMissing" "m"] None 0) in
  ∃ d, FindStatusCondition (K8sLib := fake_lib) (aggregateConditions (H := fake_lib) [] c) ConditionHealthy = Some d ∧
    c_Status d = ConditionFalse ∧ c_Reason d = "SlotsMissing".
Proof.
  intros c0 c. destruct (aggregateConditions_health (H := fake_lib) [] c) as (Hh & _).
  destruct (Hh ConditionHealthy) as (d & Hf & Hs & Hr & _); [left|].
  exists d. split; [exact Hf|]. split; [exact Hs|exact Hr].
Defined.

(** ** Cleanup *)

(** The objects a trace asks to delete, in order. *)
Definition deletions (tr : list event) : list (Kind * NamespacedName) :=
  omap (λ e, match e with @Ev T q _ =>
    match q with Delete k key => Some (k, key) | _ => None end end) tr.

Lemma deletions_app tr1 tr2 : deletions (tr1 ++ tr2) = deletions tr1 ++ deletions tr2.
Proof. apply omap_app. Qed.

Definition configRef (c : RedkeyConfig) : Kind * NamespacedName := (KRedkeyConfig, cf_key c).

Lemma deleteConfigs_trace l tr out :
  runs (deleteConfigs l) tr out →
  match out with
  | None => deletions tr = configRef <$> l
  | Some (rest, e) => ∃ gone c rest', l = gone ++ rest ∧ rest = c :: rest' ∧
      deletions tr = (configRef <$> gone) ++ [configRef c] ∧ IsNotFound e = false
  end.
Proof.
  revert tr. induction l as [|c l IH]; intros tr.
  { by intros [-> ->]. }
  intros ([u|e] & tr' & -> & Hr).
  - simpl in Hr. destruct Hr as ([] & tr'' & -> & Hr). specialize (IH _ Hr).
    destruct out as [[rest e]|].
    + destruct IH as (gone & d & rest' & -> & -> & Hd & He).
      exists (c :: gone), d, rest'. repeat split; [|done].
      transitivity (configRef c :: deletions tr''); [done|]. by rewrite Hd.
    + transitivity (configRef c :: deletions tr''); [done|]. by rewrite IH.
  - simpl in Hr. destruct (IsNotFound e) eqn:He.
    + specialize (IH _ Hr). destruct out as [[rest e']|].
      * destruct IH as (gone & d & rest' & -> & -> & Hd & He').
        exists (c :: gone), d, rest'. repeat split; [|done].
        transitivity (configRef c :: deletions tr'); [done|]. by rewrite Hd.
      * transitivity (configRef c :: deletions tr'); [done|]. by rewrite IH.
    + destruct Hr as [-> ->]. by exists [], c, l.
Qed.

(** C17: cleanup, against any client.  It asks to delete a prefix of the
    configs and returns the rest; every deleted config is older than an applied
    one that stays, nothing from the last applied config on is touched, and
    without an error the list left either starts with that config or is
    untouched because nothing was applied.  A failed deletion stops it at once,
    with the failed config at the head of what it returns. *)
Theorem cleanupSupersededConfigs_trace (configs rest : list RedkeyConfig) (err : option error)
    (tr : list event) :
  runs (cleanupSupersededConfigs configs) tr (rest, err) →
  ∃ gone, configs = gone ++ rest ∧
  match err with
  | None => deletions tr = configRef <$> gone ∧
      ((gone = [] ∧ Forall (λ c, isApplied c = false) configs) ∨
       ∃ a new, rest = a :: new ∧ isApplied a = true ∧ Forall (λ c, isApplied c = false) new)
  | Some e => IsNotFound e = false ∧ ∃ c old a new, rest = c :: old ++ a :: new ∧
      isApplied a = true ∧ Forall (λ c, isApplied c = false) new ∧
      deletions tr = (configRef <$> gone) ++ [configRef c]
  end.
Proof.
  unfold cleanupSupersededConfigs. case_bool_decide as Hlen.
  { intros [-> [= -> ->]]. exists []. split; [done|]. split; [done|].
    destruct configs as [|c [|]]; simpl in Hlen; [by left|..|lia].
    destruct (isApplied c) eqn:Hc; [right; by exists c, []|left; split; [done|by repeat constructor]]. }
  destruct (find_last_index isApplied configs) as [i|] eqn:Hi; last first.
  { intros [-> [= -> ->]]. exists []. split; [done|]. split; [done|]. left. split; [done|].
    apply Forall_forall. by apply find_last_index_None. }
  apply find_last_index_split in Hi as (old & a & new & -> & -> & Ha & Hn).
  destruct old as [|o old].
  { intros [-> [= -> ->]]. exists []. split; [done|]. split; [done|]. right. by exists a, new. }
  remember (o :: old) as olds eqn:Ho. rewrite Ho at 1. cbn [length].
  replace (S (length old)) with (length olds) by by rewrite Ho.
  rewrite take_app_length, drop_app_length.
  intros (tr1 & tr2 & out & -> & H1 & H2)%runs_bind. apply deleteConfigs_trace in H1.
  rewrite deletions_app. destruct out as [[r e]|]; destruct H2 as [-> [= -> ->]].
  - destruct H1 as (gone & c & r' & -> & -> & Hd & He). exists gone.
    split; [by rewrite <- app_assoc|]. split; [done|]. exists c, r', a, new. by rewrite app_nil_r.
  - exists olds. split; [done|]. rewrite app_nil_r. split; [done|]. right. by exists a, new.
Qed.

Lemma cleanupSupersededConfigs_trace_witness :
  let c1 := sampleConfig 1 1 3 ConfigPhaseSuperseded ClusterStatusReady in
  let c2 := sampleConfig 2 2 4 ConfigPhaseApplied ClusterStatusReady in
  let c3 := sampleConfig 3 3 5 ConfigPhasePending "" in
  ∃ gone, [c1; c2; c3] = gone ++ [c2; c3] ∧
    deletions [Ev (Delete KRedkeyConfig (cf_key c1)) (Err NotFound)] = configRef <$> gone.
Proof.
  intros c1 c2 c3.
  destruct (cleanupSupersededConfigs_trace [c1; c2; c3] [c2; c3] None
    [Ev (Delete KRedkeyConfig (cf_key c1)) (Err NotFound)]) as (gone & H1 & H2 & _).
  - exists (Err NotFound), []. split; [reflexivity|]. split; reflexivity.
  - exists gone. split; [exact H1|exact H2].
Defined.
