(* ===== verification/ConfigStore.v ===== *)
(** * The configs of a cluster, as stored

    How config creation and cleanup change the ordered list of configs of a
    cluster when the client is ideal, and the naming invariant behind it. *)

From S2P Require Import Prelude GoLib K8s Types Effects Client Logic FakeCluster.
From S2P Require Import Robin Config Samples RobinProofs ConfigProofs.
From Stdlib Require Import Ascii.
Local Open Scope Z_scope.

Abbreviation seqOf c := (rcs_Sequence (cf_Spec c)).

(** The configs [listConfigs] returns for the Redkey [req]. *)
Definition clusterConfigs (req : NamespacedName) (s : Store) : list RedkeyConfig :=
  sortConfigs (selected_configs (nn_Namespace req) (nn_Name req) s).

(** Naming invariant: config [n] of the cluster, and nothing else, is stored
    under the name [configName] gives it. *)
Record configsOk (req : NamespacedName) (s : Store) : Prop := {
  co_keyed : keyed s;
  co_named : ∀ c, c ∈ clusterConfigs req s →
    cf_key c = mkKey (nn_Namespace req) (configName (nn_Name req) (seqOf c)) ∧ 1 ≤ seqOf c;
  co_taken : ∀ n c, 1 ≤ n →
    st_configs s !! mkKey (nn_Namespace req) (configName (nn_Name req) n) = Some c →
    selected (nn_Namespace req) (nn_Name req) c = true ∧ seqOf c = n;
}.

(** ** Status reports *)

(** A config after a write of its status: the API server gives it a new resource
    version and changes nothing else. *)
Definition reportedOn (rv : string) (st : RedkeyConfigStatus) (c : RedkeyConfig) : RedkeyConfig :=
  mkRedkeyConfig (set_om_ResourceVersion rv (cf_Meta c)) (cf_Spec c) st.

(** Two versions of a config: status writes only. *)
Definition sameConfig (c c' : RedkeyConfig) : Prop := ∃ rv st, c' = reportedOn rv st c.

#[global] Instance sameConfig_preorder : PreOrder sameConfig.
Proof.
  split.
  - intros [[] s st]. by eexists _, st.
  - intros c1 c2 c3 (rv & st & ->) (rv' & st' & ->). by exists rv', st'.
Qed.

Lemma sameConfig_reported rv st c : sameConfig c (reportedOn rv st c).
Proof. by exists rv, st. Qed.
#[export] Hint Resolve sameConfig_reported : core.

Lemma sameConfig_key c c' : sameConfig c c' → cf_key c' = cf_key c.
Proof. by intros (rv & st & ->). Qed.

Lemma sameConfig_spec c c' : sameConfig c c' → cf_Spec c' = cf_Spec c.
Proof. by intros (rv & st & ->). Qed.

Lemma sameConfig_selected ns name c c' : sameConfig c c' → selected ns name c' = selected ns name c.
Proof. by intros (rv & st & ->). Qed.

Section store.
Context (req : NamespacedName).

Lemma elem_of_clusterConfigs s c :
  keyed s → c ∈ clusterConfigs req s ↔
  st_configs s !! cf_key c = Some c ∧ selected (nn_Namespace req) (nn_Name req) c = true.
Proof.
  intros Hk. unfold clusterConfigs, sortConfigs. rewrite sort_slice_perm.
  unfold selected_configs. rewrite list_elem_of_filter, list_elem_of_fmap. split.
  - intros [Hsel ([key c'] & -> & Hc%elem_of_map_to_list)]. split; [|done].
    by rewrite <- (Hk KRedkeyConfig key c' Hc) in Hc.
  - intros [Hc Hsel]. split; [done|]. exists (cf_key c, c). split; [done|].
    by apply elem_of_map_to_list.
Qed.

Lemma NoDup_clusterConfigs s : keyed s → NoDup (clusterConfigs req s).
Proof.
  intros Hk. unfold clusterConfigs, sortConfigs. rewrite sort_slice_perm.
  apply NoDup_filter. apply NoDup_fmap_2_strong; [|apply NoDup_map_to_list].
  intros [k1 c1] [k2 c2] H1%elem_of_map_to_list H2%elem_of_map_to_list Heq. simpl in Heq. subst c2.
  f_equal. by rewrite <- (Hk KRedkeyConfig k1 c1 H1), <- (Hk KRedkeyConfig k2 c1 H2).
Qed.

Lemma clusterConfigs_sorted s :
  StronglySorted (key_le (λ c, seqOf c)) (clusterConfigs req s).
Proof. apply sort_slice_sorted. Qed.

Lemma NoDup_sequences s : configsOk req s → NoDup ((λ c, seqOf c) <$> clusterConfigs req s).
Proof.
  intros [Hk Hn _]. apply NoDup_fmap_2_strong; [|by apply NoDup_clusterConfigs].
  intros c1 c2 H1 H2 Heq. destruct (Hn c1 H1) as [E1 _], (Hn c2 H2) as [E2 _].
  apply elem_of_clusterConfigs in H1 as [L1 _]; [|done].
  apply elem_of_clusterConfigs in H2 as [L2 _]; [|done].
  rewrite Heq, <- E2 in E1. rewrite E1 in L1. congruence.
Qed.

(** A sorted list with the right elements is the list of configs. *)
Lemma clusterConfigs_unique s l :
  configsOk req s → NoDup l → StronglySorted (key_le (λ c, seqOf c)) l →
  (∀ c, c ∈ l ↔ c ∈ clusterConfigs req s) → clusterConfigs req s = l.
Proof.
  intros Hok Hnd Hs Hel.
  assert (Hp : l ≡ₚ clusterConfigs req s)
    by (apply NoDup_Permutation; [done|apply NoDup_clusterConfigs, Hok|done]).
  rewrite (sort_slice_unique (λ c, seqOf c) (clusterConfigs req s) l); [|by apply NoDup_sequences|done|done].
  apply sort_slice_unique; [by apply NoDup_sequences|done|apply clusterConfigs_sorted].
Qed.

Lemma selected_perm_sorted s l :
  configsOk req s → l ≡ₚ selected_configs (nn_Namespace req) (nn_Name req) s →
  sortConfigs l = clusterConfigs req s.
Proof.
  intros Hok Hp. symmetry. apply sort_slice_unique.
  - rewrite Hp. pose proof (NoDup_sequences s Hok) as Hnd. unfold clusterConfigs, sortConfigs in Hnd.
    by rewrite sort_slice_perm in Hnd.
  - unfold clusterConfigs, sortConfigs. by rewrite sort_slice_perm, Hp.
  - apply clusterConfigs_sorted.
Qed.

Lemma configsOk_frame s s' :
  keyed s' → st_configs s' = st_configs s → configsOk req s → configsOk req s'.
Proof.
  intros Hk Heq [_ Hn Ht].
  assert (Hc : clusterConfigs req s' = clusterConfigs req s)
    by (unfold clusterConfigs, selected_configs; by rewrite Heq).
  split; [done|by rewrite Hc|by rewrite Heq].
Qed.

(** ** Deletion *)

Lemma configsOk_delete s s' (gone : NamespacedName → Prop) :
  keyed s' → (∀ key c, st_configs s' !! key = Some c ↔ st_configs s !! key = Some c ∧ ¬ gone key) →
  configsOk req s → configsOk req s'.
Proof.
  intros Hk Hdel [Hk0 Hn Ht]. split; [done| |].
  - intros c Hc. apply Hn. apply elem_of_clusterConfigs in Hc as [Hc Hsel]; [|done].
    apply elem_of_clusterConfigs; [done|]. by apply Hdel in Hc as [Hc _].
  - intros n c Hpos Hc. apply Hdel in Hc as [Hc _]. by eapply Ht.
Qed.

Lemma sorted_app_inv {A} (R : A → A → Prop) l1 l2 : StronglySorted R (l1 ++ l2) → StronglySorted R l2.
Proof. induction l1 as [|x l1 IH]; [done|]. intros Hs. inversion Hs; subst. auto. Qed.

Lemma clusterConfigs_delete s s' old rest :
  configsOk req s → keyed s' → clusterConfigs req s = old ++ rest →
  (∀ key c, st_configs s' !! key = Some c ↔
    st_configs s !! key = Some c ∧ ¬ key ∈ cf_key <$> old) →
  clusterConfigs req s' = rest.
Proof.
  intros Hok Hk' Heq Hdel. pose proof (co_keyed _ _ Hok) as Hk.
  pose proof (NoDup_clusterConfigs s Hk) as Hnd. rewrite Heq in Hnd.
  apply NoDup_app in Hnd as (_ & Hdisj & Hnd).
  apply clusterConfigs_unique; [by apply (configsOk_delete s s' (λ key, key ∈ cf_key <$> old))|done| |].
  - eapply sorted_app_inv. rewrite <- Heq. apply clusterConfigs_sorted.
  - intros c. rewrite elem_of_clusterConfigs, Hdel by done. split.
    + intros Hc. assert (Hin : c ∈ clusterConfigs req s) by (rewrite Heq; set_solver).
      apply elem_of_clusterConfigs in Hin as [Hs Hsel]; [|done]. split; [|done]. split; [done|].
      intros (d & Hkey & Hd)%list_elem_of_fmap. assert (d = c) as ->; [|by eapply Hdisj].
      assert (Hin : d ∈ clusterConfigs req s) by (rewrite Heq; set_solver).
      apply elem_of_clusterConfigs in Hin as [Hs' _]; [|done]. rewrite <- Hkey in Hs'. congruence.
    + intros [[Hs Hnot] Hsel]. assert (Hin : c ∈ clusterConfigs req s) by by apply elem_of_clusterConfigs.
      rewrite Heq in Hin. apply elem_of_app in Hin as [Hin|Hin]; [|done].
      destruct Hnot. by apply list_elem_of_fmap_2.
Qed.

(** ** Creation *)

Lemma nextSequence_fresh s :
  configsOk req s → (∀ c, c ∈ clusterConfigs req s → seqOf c < 2 ^ 63 - 1) →
  let n := nextSequence (last (clusterConfigs req s)) in
  1 ≤ n ∧ (∀ c, c ∈ clusterConfigs req s → seqOf c < n) ∧
  st_configs s !! mkKey (nn_Namespace req) (configName (nn_Name req) n) = None.
Proof.
  intros Hok Hmax n.
  assert (Hn : 1 ≤ n ∧ ∀ c, c ∈ clusterConfigs req s → seqOf c < n).
  { unfold n. destruct (last (clusterConfigs req s)) as [m|] eqn:Hlast.
    - assert (Hm : m ∈ clusterConfigs req s) by by apply last_Some_elem_of.
      destruct (co_named _ _ Hok m Hm) as [_ Hpos]. specialize (Hmax m Hm). simpl.
      rewrite int64_id by (unfold in_int64; lia). split; [lia|]. intros c Hc.
      pose proof (StronglySorted_last (λ c, seqOf c) _ m (clusterConfigs_sorted s) Hlast c Hc) as Hle.
      cbv beta in Hle. lia.
    - apply last_None in Hlast. rewrite Hlast. split; [done|]. intros c Hc. inversion Hc. }
  destruct Hn as [Hpos Hlt]. split; [done|]. split; [done|].
  destruct (st_configs s !! _) as [c|] eqn:Hc; [|done]. exfalso.
  destruct (co_taken _ _ Hok n c Hpos Hc) as [Hsel Hseq].
  assert (Hin : c ∈ clusterConfigs req s).
  { apply elem_of_clusterConfigs; [apply Hok|]. split; [|done].
    pose proof (co_keyed _ _ Hok KRedkeyConfig _ _ Hc) as Hkey. unfold key_of in Hkey. simpl in Hkey.
    unfold cf_key. by rewrite Hkey. }
  specialize (Hlt c Hin). lia.
Qed.

(** A config stored as number [n] of the cluster. *)
Definition storedConfig (n : Z) (c : RedkeyConfig) : Prop :=
  cf_key c = mkKey (nn_Namespace req) (configName (nn_Name req) n) ∧
  selected (nn_Namespace req) (nn_Name req) c = true ∧ seqOf c = n.

Lemma lookup_sput_config key c s key' :
  st_configs (sput KRedkeyConfig key c s) !! key' =
    if bool_decide (key = key') then Some c else st_configs s !! key'.
Proof.
  change (st_configs (sput KRedkeyConfig key c s)) with (<[key := c]> (st_configs s)).
  case_bool_decide as Heq; [subst; apply lookup_insert_eq|by apply lookup_insert_ne].
Qed.

Lemma elem_of_created s c n c' :
  keyed s → storedConfig n c → st_configs s !! cf_key c = None →
  c' ∈ clusterConfigs req (sput KRedkeyConfig (cf_key c) c s) ↔ c' ∈ clusterConfigs req s ∨ c' = c.
Proof.
  intros Hk (_ & Hsel & _) Hnone.
  rewrite !elem_of_clusterConfigs; [|done|by apply (sput_keyed KRedkeyConfig c)].
  rewrite lookup_sput_config. case_bool_decide as Hkey.
  - rewrite <- Hkey, Hnone. split; [intros [[= ->] _]; by right|intros [[? _]| ->]; done].
  - split; [by left|intros [?| ->]; done].
Qed.

Lemma configsOk_create s c n :
  configsOk req s → 1 ≤ n → storedConfig n c → st_configs s !! cf_key c = None →
  configsOk req (sput KRedkeyConfig (cf_key c) c s).
Proof.
  intros [Hk Hn Ht] Hpos Hc Hnone. split; [by apply (sput_keyed KRedkeyConfig c)| |].
  - intros c' [Hc'| ->]%(elem_of_created s c n); [by apply Hn| |done..].
    destruct Hc as (Hkey & _ & Hseq). by rewrite Hseq.
  - intros m c' Hm. rewrite lookup_sput_config. destruct Hc as (Hkey & Hsel & Hseq).
    case_bool_decide as Heq; [|by apply Ht]. intros [= <-]. split; [done|].
    rewrite Hkey in Heq. injection Heq as Heq. apply configName_inj in Heq as [_ ?]; lia.
Qed.

Lemma sorted_snoc {A} (key : A → Z) l x :
  StronglySorted (key_le key) l → (∀ y, y ∈ l → key y ≤ key x) →
  StronglySorted (key_le key) (l ++ [x]).
Proof.
  induction 1 as [|z l Hl IH Hz]; intros Hx; simpl; [by repeat constructor|].
  constructor; [apply IH; intros y Hy; apply Hx; by right|].
  apply Forall_app. split; [done|]. constructor; [apply Hx; by left|done].
Qed.

Lemma clusterConfigs_create s c n :
  configsOk req s → 1 ≤ n → storedConfig n c → st_configs s !! cf_key c = None →
  (∀ d, d ∈ clusterConfigs req s → seqOf d < n) →
  clusterConfigs req (sput KRedkeyConfig (cf_key c) c s) = clusterConfigs req s ++ [c].
Proof.
  intros Hok Hpos Hc Hnone Hlt. pose proof (co_keyed _ _ Hok) as Hk.
  assert (Hnot : c ∉ clusterConfigs req s).
  { intros Hin. apply Hlt in Hin. destruct Hc as (_ & _ & Hseq). lia. }
  apply clusterConfigs_unique.
  - by eapply configsOk_create.
  - apply NoDup_app. split; [by apply NoDup_clusterConfigs|].
    split; [intros d Hd ->%list_elem_of_singleton; done|apply NoDup_singleton].
  - apply sorted_snoc; [apply clusterConfigs_sorted|]. intros d Hd. specialize (Hlt d Hd).
    destruct Hc as (_ & _ & Hseq). cbv beta. lia.
  - intros d. rewrite (elem_of_created s c n) by done. rewrite elem_of_app, list_elem_of_singleton. done.
Qed.

(** ** Status reports *)

Lemma sorted_keys {A} (key : A → Z) l :
  StronglySorted (key_le key) l ↔ StronglySorted Z.le (key <$> l).
Proof.
  induction l as [|x l IH]; csimpl; [split; constructor|]. split;
    intros [Hl Hx]%StronglySorted_inv; (constructor; [by apply IH|]).
  - rewrite Forall_fmap. exact Hx.
  - rewrite Forall_fmap in Hx. exact Hx.
Qed.

(** Rewriting the status of one config leaves the list as it was, with the
    config replaced in place. *)
Lemma clusterConfigs_update s c c' l1 l2 :
  configsOk req s → clusterConfigs req s = l1 ++ c :: l2 → sameConfig c c' →
  configsOk req (sput KRedkeyConfig (cf_key c) c' s) ∧
  clusterConfigs req (sput KRedkeyConfig (cf_key c) c' s) = l1 ++ c' :: l2.
Proof.
  intros Hok Heq Hsame. pose proof (co_keyed _ _ Hok) as Hk.
  pose proof (sameConfig_key _ _ Hsame) as Hkey. pose proof (sameConfig_spec _ _ Hsame) as Hspec.
  pose proof (sameConfig_selected (nn_Namespace req) (nn_Name req) _ _ Hsame) as Hsel.
  assert (Hin : c ∈ clusterConfigs req s) by (rewrite Heq; set_solver).
  pose proof Hin as [Hlk Hcs]%elem_of_clusterConfigs; [|done].
  assert (Hk' : keyed (sput KRedkeyConfig (cf_key c) c' s))
    by (rewrite <- Hkey; by apply (sput_keyed KRedkeyConfig c')).
  assert (Hel : ∀ x, x ∈ clusterConfigs req (sput KRedkeyConfig (cf_key c) c' s) ↔
    if bool_decide (cf_key x = cf_key c) then x = c' else x ∈ clusterConfigs req s).
  { intros x. rewrite elem_of_clusterConfigs, lookup_sput_config by done.
    destruct (bool_decide_reflect (cf_key x = cf_key c)) as [Hx|Hx].
    - rewrite bool_decide_eq_true_2 by congruence. split; [by intros [[= ->] _]|].
      intros ->. by rewrite Hsel.
    - rewrite bool_decide_eq_false_2 by congruence. by rewrite elem_of_clusterConfigs. }
  assert (Hok' : configsOk req (sput KRedkeyConfig (cf_key c) c' s)).
  { split; [done| |].
    - intros x Hx%Hel. case_bool_decide; [|by apply (co_named _ _ Hok)]. subst x.
      rewrite Hkey, Hspec. by apply (co_named _ _ Hok).
    - intros n x Hn. rewrite lookup_sput_config. case_bool_decide as Hx; [|by apply (co_taken _ _ Hok)].
      intros [= <-]. rewrite Hsel, Hspec. apply (co_taken _ _ Hok); [done|]. by rewrite <- Hx. }
  split; [done|].
  assert (Hseqs : (λ x, seqOf x) <$> l1 ++ c' :: l2 = (λ x, seqOf x) <$> clusterConfigs req s)
    by (rewrite Heq, !fmap_app; csimpl; by rewrite Hspec).
  pose proof (NoDup_clusterConfigs s Hk) as Hnd. rewrite Heq in Hnd.
  apply clusterConfigs_unique; [done| | |].
  - apply (NoDup_fmap_1 (λ x, seqOf x)). rewrite Hseqs. by apply NoDup_sequences.
  - apply sorted_keys. rewrite Hseqs.
    apply (sorted_keys (λ x, seqOf x)), clusterConfigs_sorted.
  - intros x. rewrite Hel. destruct (bool_decide_reflect (cf_key x = cf_key c)) as [Hx|Hx].
    + split; [|intros ->; set_solver]. intros Hxin.
      assert (x = c' ∨ x ∈ l1 ++ l2) as [|Hx12] by set_solver; [done|]. exfalso.
      assert (Hxs : x ∈ clusterConfigs req s) by (rewrite Heq; set_solver).
      apply elem_of_clusterConfigs in Hxs as [Hxl _]; [|done]. rewrite Hx, Hlk in Hxl.
      injection Hxl as ->. apply NoDup_app in Hnd as (_ & Hd & [Hn _]%NoDup_cons).
      apply elem_of_app in Hx12 as [H1|H2]; [destruct (Hd _ H1); by left|done].
    + rewrite Heq. assert (x ≠ c) by (intros ->; done). assert (x ≠ c') by (intros ->; done). set_solver.
Qed.
End store.

(** ** Operations against an ideal client *)

Lemma defaultConfigSpec_seq s : rcs_Sequence (defaultConfigSpec s) = rcs_Sequence s.
Proof. unfold defaultConfigSpec. by case_bool_decide. Qed.

Lemma defaultConfigSpec_topology s :
  rcs_Primaries (defaultConfigSpec s) = rcs_Primaries s ∧
  rcs_ReplicasPerPrimary (defaultConfigSpec s) = rcs_ReplicasPerPrimary s.
Proof. unfold defaultConfigSpec. by case_bool_decide. Qed.

Lemma newConfig_owner `{K8sLaws} cluster n : ∃ refs,
  SetControllerReference cluster (cf_Meta (newConfig cluster n)) =
    Ok (set_om_OwnerReferences refs (cf_Meta (newConfig cluster n))).
Proof.
  assert (Hok : is_ok (SetControllerReference cluster (cf_Meta (newConfig cluster n))) = true)
    by by apply SetControllerReference_total.
  destruct (SetControllerReference cluster _) as [m'|e] eqn:E; [|done].
  apply SetControllerReference_Ok in E as (refs & ref & -> & _). by exists refs.
Qed.

(** What creating config [n] for [cluster] leaves in the store. *)
Definition createdFor (cluster : Redkey) (n : Z) (c : RedkeyConfig) : Prop :=
  cf_Spec c = defaultConfigSpec (newConfigSpec (rk_Spec cluster) n) ∧ cf_Status c = zeroConfigStatus ∧
  meta_stored (set_om_OwnerReferences (om_OwnerReferences (cf_Meta c)) (cf_Meta (newConfig cluster n)))
    (cf_Meta c).

Lemma createdFor_stored cluster n c :
  createdFor cluster n c → storedConfig (key_of KRedkey cluster) n c.
Proof.
  intros (Hs & _ & (Hname & Hns & Hl & _)). unfold storedConfig, selected, cf_key, om_key.
  rewrite Hname, Hns, Hl, Hs, defaultConfigSpec_seq. simpl. split; [done|]. split; [|done].
  rewrite bool_decide_eq_true_2 by done. rewrite bool_decide_eq_true_2; [done|].
  eapply lookup_weaken; [|apply mergeMeta_base]. apply lookup_singleton_eq.
Qed.

Section ideal.
Context `{K8sLib, !K8sLaws, !KubeClient W, !KubeIdeal W}.

Lemma server_keyed (w : W) : keyed (server w).
Proof. intros k key o. apply server_key. Qed.

Lemma wp_listConfigs cluster (w : W) Q :
  configsOk (key_of KRedkey cluster) (server w) →
  (∀ w', server w' = server w → memory w' = memory w →
    Q (Ok (clusterConfigs (key_of KRedkey cluster) (server w))) w') →
  wp (listConfigs cluster) w Q.
Proof.
  intros Hok HQ. apply wp_go_bind, wp_list_ideal. intros w' l Hl Hs Hm. apply wp_ret.
  rewrite (selected_perm_sorted (key_of KRedkey cluster) (server w) l Hok Hl). by apply HQ.
Qed.

(** Creating the next config succeeds and appends it to the list. *)
Lemma wp_createNewConfig cluster (w : W) Q :
  let req := key_of KRedkey cluster in
  let configs := clusterConfigs req (server w) in
  configsOk req (server w) → (∀ c, c ∈ configs → seqOf c < 2 ^ 63 - 1) →
  (∀ w' c, createdFor cluster (nextSequence (last configs)) c →
    configsOk req (server w') → clusterConfigs req (server w') = configs ++ [c] →
    server w' = sput KRedkeyConfig (cf_key c) c (server w) → Q (Ok tt) w') →
  wp (createNewConfig cluster (last configs)) w Q.
Proof.
  intros req configs Hok Hmax HQ. unfold createNewConfig.
  destruct (nextSequence_fresh req (server w) Hok Hmax) as (Hpos & Hlt & Hnone).
  fold configs in Hpos, Hlt, Hnone. set (n := nextSequence (last configs)) in *.
  destruct (newConfig_owner cluster n) as [refs ->]. apply wp_bind, wp_create_ideal; last first.
  { simpl. change (key_of KRedkeyConfig _) with
      (mkKey (nn_Namespace req) (configName (nn_Name req) n)). rewrite Hnone. by intros []. }
  intros _ w1 c (Hmeta & Hspec & Hst) Hs Hm.
  assert (Hc : createdFor cluster n c).
  { split; [done|]. split; [done|]. destruct Hmeta as (H1 & H2 & H3 & H4 & _).
    exact (conj H1 (conj H2 (conj H3 (conj H4 eq_refl)))). }
  pose proof (createdFor_stored cluster n c Hc) as Hsc. destruct (Hsc) as [Hkey _].
  simpl in Hs. change (key_of KRedkeyConfig _) with
    (mkKey (nn_Namespace req) (configName (nn_Name req) n)) in Hs.
  fold req in Hkey, Hsc. rewrite <- Hkey in Hs, Hnone.
  apply wp_bind, wp_emit_ideal. intros w2 Hs2 _. apply wp_ret. rewrite Hs in Hs2.
  apply (HQ _ c); [done| | |done]; rewrite Hs2.
  - by eapply configsOk_create.
  - by eapply clusterConfigs_create.
Qed.

(** ** Cleanup *)

(** What is left of the configs after cleanup. *)
Definition keepApplied (configs : list RedkeyConfig) : list RedkeyConfig :=
  match find_last_index isApplied configs with Some i => drop i configs | None => configs end.

Lemma wp_deleteConfigs l (w : W) :
  NoDup (cf_key <$> l) → (∀ c, c ∈ l → is_Some (st_configs (server w) !! cf_key c)) →
  wp (deleteConfigs l) w (λ r w', r = None ∧
    (∀ k, k ≠ KRedkeyConfig → sget k (server w') = sget k (server w)) ∧
    ∀ key c, st_configs (server w') !! key = Some c ↔
      st_configs (server w) !! key = Some c ∧ ¬ key ∈ cf_key <$> l).
Proof.
  revert w. induction l as [|c l IH]; intros w Hnd Hin.
  { apply wp_ret. set_solver. }
  csimpl in Hnd. apply NoDup_cons in Hnd as [Hc Hnd].
  change (deleteConfigs (c :: l)) with (r ← call (Delete KRedkeyConfig (cf_key c));
    match r with
    | Err e => if IsNotFound e then deleteConfigs l else mret (Some (c :: l, e))
    | Ok _ => call (Emit (CounterInc redkeyCleanupDeletedConfigs [])) ≫= λ _, deleteConfigs l
    end).
  apply wp_bind, wp_delete_ideal; last first.
  { intros w1 _ Hnone. destruct (Hin c) as [c' Hc']; [by left|]. simpl in Hnone. congruence. }
  intros w1 Hs1 _ _. apply wp_bind, wp_emit_ideal. intros w2 Hs2 _. rewrite Hs1 in Hs2.
  assert (Hlk : ∀ key, st_configs (server w2) !! key =
    if bool_decide (cf_key c = key) then None else st_configs (server w) !! key).
  { intros key. rewrite Hs2. change (st_configs (sdel _ _ _)) with (delete (cf_key c) (st_configs (server w))).
    case_bool_decide as Heq; [subst; apply lookup_delete_eq|by apply lookup_delete_ne]. }
  eapply wp_mono; [apply IH; [done|]|].
  { intros d Hd. rewrite Hlk, bool_decide_eq_false_2; [apply Hin; by right|].
    intros Heq. apply Hc. rewrite Heq. by apply list_elem_of_fmap_2. }
  intros r w' (-> & Hf & Hel). split; [done|]. split.
  - intros k Hk. rewrite Hf, Hs2 by done. by apply sget_sdel_ne.
  - intros key d. rewrite Hel, Hlk. csimpl. rewrite elem_of_cons.
    destruct (bool_decide_reflect (cf_key c = key)) as [->|Hne].
    + split; [by intros [[=] _]|]. intros [_ Hn]. destruct Hn. by left.
    + split; intros [Hd Hn]; (split; [done|]); [by intros [->|?]|auto].
Qed.

Lemma NoDup_config_keys req s l :
  configsOk req s → NoDup l → (∀ c, c ∈ l → c ∈ clusterConfigs req s) → NoDup (cf_key <$> l).
Proof.
  intros Hok Hnd Hl. apply NoDup_fmap_2_strong; [|done]. intros c d Hc Hd Hkey.
  apply Hl, elem_of_clusterConfigs in Hc as [Hc _]; [|apply Hok].
  apply Hl, elem_of_clusterConfigs in Hd as [Hd _]; [|apply Hok]. rewrite Hkey in Hc. congruence.
Qed.

(** Cleanup of the stored configs succeeds and leaves [keepApplied] of them. *)
Lemma wp_cleanup req (w : W) Q :
  let configs := clusterConfigs req (server w) in
  configsOk req (server w) →
  (∀ w', clusterConfigs req (server w') = keepApplied configs → configsOk req (server w') →
    (∀ k, k ≠ KRedkeyConfig → sget k (server w') = sget k (server w)) →
    (keepApplied configs = configs → server w' = server w) → Q (keepApplied configs, None) w') →
  wp (cleanupSupersededConfigs configs) w Q.
Proof.
  intros configs Hok HQ. unfold cleanupSupersededConfigs, keepApplied in *.
  case_bool_decide as Hlen.
  { apply wp_ret. assert (Heq : match find_last_index isApplied configs with Some i => drop i configs
      | None => configs end = configs).
    { destruct configs as [|c [|]]; simpl in *; [done| |lia]. by destruct (isApplied c). }
    rewrite Heq in HQ. by apply HQ. }
  destruct (find_last_index isApplied configs) as [[|i]|] eqn:Hi; [by apply HQ| |by apply HQ].
  pose proof (take_drop (S i) configs) as Htd. pose proof (find_last_index_lt _ _ _ Hi) as Hlt.
  pose proof (NoDup_clusterConfigs req (server w) (co_keyed _ _ Hok)) as Hnd. fold configs in Hnd.
  assert (Hsub : ∀ c, c ∈ take (S i) configs → c ∈ configs)
    by (intros c; apply (subseteq_take (S i) configs)).
  apply wp_bind. eapply wp_mono; [apply wp_deleteConfigs|].
  - apply (NoDup_config_keys req (server w)); [done| |done].
    rewrite <- Htd in Hnd. by apply NoDup_app in Hnd as [Hnd _].
  - intros c Hc%Hsub. apply elem_of_clusterConfigs in Hc as [Hc _]; [by eexists|apply Hok].
  - intros r w' (-> & Hf & Hel). apply wp_ret. apply HQ.
    + apply (clusterConfigs_delete req (server w) _ (take (S i) configs)); [done|apply server_keyed|done|done].
    + apply (configsOk_delete req (server w) _ (λ key, key ∈ cf_key <$> take (S i) configs));
        [apply server_keyed|done|done].
    + done.
    + intros Heq. apply (f_equal length) in Heq. rewrite length_drop in Heq. lia.
Qed.
End ideal.
