(* ===== verification/Footprint.v ===== *)
(** * What one reconcile may touch

    The footprint of the operator: which requests a reconcile of one Redkey
    may issue, given what its reads returned.  It is proved once for every
    operation by following the code ([obeys]); the theorems about traces and
    about executions against an arbitrary lawful client are read off it. *)

From S2P Require Import Prelude GoLib K8s Types Effects Client Logic FakeCluster.
From S2P Require Import Robin Config Metrics ScaleZero Controller Samples RobinProofs ConfigProofs.
Local Open Scope Z_scope.

(** The key of the Robin objects of the Redkey [req]. *)
Definition robinKeyOf (req : NamespacedName) : NamespacedName :=
  mkKey (nn_Namespace req) (nn_Name req +:+ "-robin").

Lemma robinKeyOf_key cluster req : key_of KRedkey cluster = req → robinKeyOf req = robinKey cluster.
Proof. by intros <-. Qed.

(** What the API returns: objects under the key that was asked for, and configs
    the selector matches; [seen] holds of every object a read returned. *)
Definition readsLawful (seen : ∀ k, obj k → Prop) (T : Type) (q : Req T) : T → Prop :=
  match q in Req T return T → Prop with
  | Get k key => λ r, match r with Ok o => seen k o ∧ key_of k o = key | Err _ => True end
  | ListConfigs ns cluster => λ r,
      match r with
      | Ok l => ∀ c, c ∈ l → seen KRedkeyConfig c ∧ selected ns cluster c = true
      | Err _ => True
      end
  | StatusUpdate o => λ r,
      match r with Ok o' => key_of KRedkey o' = key_of KRedkey o | Err _ => True end
  | _ => λ _, True
  end.

(** A status write keeps the recorded topology of the object it was derived
    from, or records the one of a config that was seen applied. *)
Definition keepsTopology (seen : ∀ k, obj k → Prop) (base : Redkey) (st : RedkeyStatus) : Prop :=
  (rst_LastAppliedPrimaries st = rst_LastAppliedPrimaries (rk_Status base) ∧
   rst_LastAppliedReplicasPerPrimary st = rst_LastAppliedReplicasPerPrimary (rk_Status base)) ∨
  ∃ c, seen KRedkeyConfig c ∧ isApplied c = true ∧ 0 < rcs_Primaries (cf_Spec c) ∧
    rs_Ephemeral (rk_Spec base) = false ∧
    rst_LastAppliedPrimaries st = rcs_Primaries (cf_Spec c) ∧
    rst_LastAppliedReplicasPerPrimary st = rcs_ReplicasPerPrimary (cf_Spec c).

(** The requests a reconcile of [req] may issue.  It reads in its own
    namespace; creates only the Robin objects and configs of the cluster, each
    labelled and controlled by a Redkey it read; deletes only the Robin objects
    and configs it listed; patches only Robin objects it read; and writes
    nothing of a Redkey but the status of [req].  Of the operator's own state it
    touches the gauge series and the tracker entries of [req] only. *)
Definition footprint (seen : ∀ k, obj k → Prop) (req : NamespacedName) (T : Type) (q : Req T) : Prop :=
  match q with
  | Get k key => (k = KRedkey ∧ key = req) ∨ key = robinKeyOf req
  | ListConfigs ns cluster => mkKey ns cluster = req
  | Create k o => k ≠ KRedkey ∧ nn_Namespace (key_of k o) = nn_Namespace req ∧
      (k ≠ KRedkeyConfig → key_of k o = robinKeyOf req) ∧
      entries (om_Labels (meta_of k o)) !! ClusterLabel = Some (nn_Name req) ∧
      ∃ cluster ref, seen KRedkey cluster ∧ key_of KRedkey cluster = req ∧
        ref ∈ om_OwnerReferences (meta_of k o) ∧ controls cluster ref
  | Delete k key =>
      match k with
      | KRedkey => False
      | KRedkeyConfig => ∃ c, seen KRedkeyConfig c ∧
          selected (nn_Namespace req) (nn_Name req) c = true ∧ key = cf_key c
      | _ => key = robinKeyOf req
      end
  | Patch k base new => k ≠ KRedkey ∧ k ≠ KRedkeyConfig ∧ seen k base ∧
      key_of k base = robinKeyOf req ∧ key_of k new = robinKeyOf req
  | StatusUpdate o => ∃ base, seen KRedkey base ∧ key_of KRedkey base = req ∧
      rk_Meta o = rk_Meta base ∧ rk_Spec o = rk_Spec base ∧ keepsTopology seen base (rk_Status o)
  | Emit (GaugeSet _ labels _) => take 2 labels = [nn_Namespace req; nn_Name req]
  | Emit (DeletePartialMatch _ ns name) => mkKey ns name = req
  | OpLookup key | OpStore key _ | OpDelete key => key = req
  | PhaseLookup key | PhaseStore key _ | PhaseDelete key => key = req
  | _ => True
  end.

(** Requests of the metrics code for [req]: none goes to the API server, the
    counter of failed reconcile stages is not its business, and the series and
    entries it touches are those of [req]. *)
Definition localCall (req : NamespacedName) (T : Type) (q : Req T) : Prop :=
  match q with
  | Emit (CounterInc redkeyReconcileStageErrors _) => False
  | Emit (GaugeSet _ labels _) => take 2 labels = [nn_Namespace req; nn_Name req]
  | Emit (DeletePartialMatch _ ns name) => mkKey ns name = req
  | Now | Emit _ | Lock _ | Unlock _ => True
  | OpLookup key | OpStore key _ | OpDelete key => key = req
  | PhaseLookup key | PhaseStore key _ | PhaseDelete key => key = req
  | _ => False
  end.

Lemma for_each_calls P {A} (l : list A) (f : A → prog unit) :
  (∀ x, all_calls P (f x)) → all_calls P (for_each l f).
Proof. intros Hf. induction l as [|x l IH]; [done|]. by apply all_calls_bind. Qed.

Lemma observe_calls key status phase : all_calls (localCall key) (opTracker_observe key status phase).
Proof.
  unfold opTracker_observe. repeat (apply all_calls_bind; [by repeat split|intros ?]).
  apply all_calls_bind; [|by repeat split]. unfold observeSwitch.
  repeat case_match; by repeat (split; [done|intros ?]).
Qed.

Lemma setStateSet_calls m key active values :
  all_calls (localCall key) (setStateSet m (nn_Namespace key) (nn_Name key) active values).
Proof. apply for_each_calls. by repeat split. Qed.

Lemma recordMetrics_calls cluster active :
  all_calls (localCall (key_of KRedkey cluster)) (recordRedkeyMetrics cluster active).
Proof.
  unfold recordRedkeyMetrics. change (mkKey _ _) with (key_of KRedkey cluster).
  change (rk_Namespace cluster) with (nn_Namespace (key_of KRedkey cluster)).
  change (rk_Name cluster) with (nn_Name (key_of KRedkey cluster)).
  apply all_calls_bind; [apply observe_calls|intros _].
  apply all_calls_bind; [by repeat split|intros _].
  apply all_calls_bind; [by case_match; repeat split|intros _].
  apply all_calls_bind; [apply setStateSet_calls|intros _].
  destruct active as [c|]; [|by repeat split].
  apply all_calls_bind; [apply setStateSet_calls|intros _].
  apply all_calls_bind; [by repeat (split; [done|intros ?])|].
  intros []; by repeat (split; [done|intros ?]).
Qed.

Lemma selectActive_in configs c : selectActiveConfig configs = Some c → c ∈ configs.
Proof.
  assert (Hgen : match find_first (λ c, bool_decide (rct_ConfigPhase (cf_Status c) = ConfigPhaseInProgress))
      configs with Some c => Some c | None => head configs end = Some c → c ∈ configs).
  { destruct (find_first _ configs) as [d|] eqn:Hf.
    - apply find_first_Some in Hf as (l1 & l2 & -> & _). intros [= ->]. set_solver.
    - destruct configs; [done|]. intros [= ->]. by left. }
  unfold selectActiveConfig. destruct configs as [|d [|d' l]]; [done| |done].
  intros [= ->]. by left.
Qed.

Section footprint.
Context `{K8sLaws}.
Context (seen : ∀ k, obj k → Prop) (req : NamespacedName).

Abbreviation within p Q := (obeys (readsLawful seen) (footprint seen req) p Q).

Definition any {A} (a : A) : Prop := True.

(** The Redkey under reconciliation, as it was read. *)
Definition ours (cluster : Redkey) : Prop := seen KRedkey cluster ∧ key_of KRedkey cluster = req.

(** A Redkey under reconciliation, as it stands after status writes. *)
Definition named (r : res error Redkey) : Prop :=
  match r with Ok cluster => key_of KRedkey cluster = req | Err _ => True end.

(** Configs of the cluster, as they were listed. *)
Definition listed (l : list RedkeyConfig) : Prop :=
  ∀ c, c ∈ l → seen KRedkeyConfig c ∧ selected (nn_Namespace req) (nn_Name req) c = true.

(** Requests outside the API. *)
Lemma within_metrics {A} (p : prog A) :
  all_calls (localCall req) p → within p any.
Proof.
  induction p as [a|T q k IH]; simpl; [done|]. intros [Hq Hk].
  split; [by destruct q as [| | | | | | |c| | | | | | | |]; [..|destruct c| | | | | | | |]|].
  intros r _. by apply IH.
Qed.

Lemma within_step {A} (p : prog A) (Q : A → Prop) : within p any → (∀ a, Q a) → within p Q.
Proof. intros Hp HQ. eapply obeys_conseq; [done|auto]. Qed.

(** A step whose result matters only through [ok]. *)
Lemma within_then_to {A B} (p : go A) (k : A → go B) (ok : A → Prop) (Q : res error B → Prop) :
  (∀ e, Q (Err e)) → within p (λ r, match r with Ok a => ok a | Err _ => True end) →
  (∀ a, ok a → within (k a) Q) → within (go_bind p k) Q.
Proof.
  intros He Hp Hk. apply obeys_go_bind. eapply obeys_conseq; [done|].
  intros [a|e] Ha; [by apply Hk|apply He].
Qed.

Lemma within_seq_to {A B} (p : go A) (k : A → go B) (Q : res error B → Prop) :
  (∀ e, Q (Err e)) → within p any → (∀ a, within (k a) Q) → within (go_bind p k) Q.
Proof.
  intros He Hp Hk. apply (within_then_to p k any); [done| |by intros a _].
  apply within_step; [done|]. by intros [].
Qed.

Lemma within_then {A B} (p : go A) (k : A → go B) (ok : A → Prop) :
  within p (λ r, match r with Ok a => ok a | Err _ => True end) →
  (∀ a, ok a → within (k a) any) → within (go_bind p k) any.
Proof. by apply within_then_to. Qed.

Lemma within_seq {A B} (p : go A) (k : A → go B) :
  within p any → (∀ a, within (k a) any) → within (go_bind p k) any.
Proof. by apply within_seq_to. Qed.

Lemma within_call {T} (q : Req T) : footprint seen req T q → within (call q) any.
Proof. intros Hq. by apply obeys_call. Qed.

Lemma within_create cluster k o m :
  ours cluster → k ≠ KRedkey → SetControllerReference cluster m = Ok (meta_of k o) →
  om_Namespace m = rk_Namespace cluster → (k ≠ KRedkeyConfig → om_key m = robinKey cluster) →
  entries (om_Labels m) !! ClusterLabel = Some (rk_Name cluster) →
  within (call (Create k o)) any.
Proof.
  intros [Hseen Hkey] Hk (refs & ref & Hm & Href & Hctl)%SetControllerReference_Ok Hns Hrobin Hlab.
  assert (Hko : key_of k o = om_key m) by (unfold key_of; by rewrite Hm).
  apply within_call. unfold footprint. rewrite Hko, Hm, (robinKeyOf_key cluster req Hkey). simpl.
  rewrite Hns, Hlab. subst req. split; [done|]. split; [done|]. split; [done|]. split; [done|].
  by exists cluster, ref.
Qed.

Lemma within_get_robin cluster k (Q : res error (obj k) → Prop) :
  ours cluster → (∀ o, seen k o → key_of k o = robinKey cluster → Q (Ok o)) → (∀ e, Q (Err e)) →
  within (call (Get k (robinKey cluster))) Q.
Proof.
  intros [_ Hkey] HQ He. apply obeys_call; [right; by rewrite (robinKeyOf_key cluster)|].
  intros [o|e]; [intros [Ho Hk]; auto|auto].
Qed.

Lemma within_patch_robin cluster k base new :
  ours cluster → k ≠ KRedkey → k ≠ KRedkeyConfig → seen k base →
  key_of k base = robinKey cluster → key_of k new = robinKey cluster →
  within (call (Patch k base new)) any.
Proof.
  intros [_ Hkey] H1 H2 Hs Hb Hn. apply within_call. simpl.
  by rewrite (robinKeyOf_key cluster req Hkey).
Qed.

(** ** Robin *)

Lemma baseLabels_cluster cluster : robinBaseLabels cluster !! ClusterLabel = Some (rk_Name cluster).
Proof. done. Qed.

Lemma merged_cluster_label cluster spec override :
  entries (mergeMeta spec override (Some (robinBaseLabels cluster))) !! ClusterLabel =
    Some (rk_Name cluster).
Proof. eapply lookup_weaken; [apply baseLabels_cluster|]. apply (mergeMeta_base _ _ (Some _)). Qed.

Lemma within_create_rbac cluster k o :
  ours cluster → k ≠ KRedkey → SetControllerReference cluster (rbacMeta cluster) = Ok (meta_of k o) →
  within (call (Create k o)) any.
Proof.
  intros Hours Hk Hset. eapply within_create; [done|done|done|done|done|]. apply merged_cluster_label.
Qed.

Lemma within_ensureRBAC cluster : ours cluster → within (ensureRBAC cluster) any.
Proof.
  intros Hours. unfold ensureRBAC, ensureServiceAccount, ensureRole, ensureRoleBinding.
  destruct (SetControllerReference cluster (rbacMeta cluster)) as [m|e] eqn:Hset; [|done].
  apply within_seq; [|intros _; apply within_seq; [|intros _]].
  all: apply obeys_bind; apply (within_get_robin cluster _ _ Hours); [intros o Hseen Hkey|intros e].
  all: repeat case_match; try done; try by eapply within_create_rbac.
  all: try by apply (within_patch_robin cluster).
  apply within_seq; [|intros _; by eapply within_create_rbac].
  apply within_call. rewrite Hkey. simpl. by rewrite (robinKeyOf_key cluster) by apply Hours.
Qed.

Lemma within_ensureRobinDeployment cluster :
  ours cluster → within (ensureRobinDeployment cluster) any.
Proof.
  intros Hours. unfold ensureRobinDeployment.
  destruct (desired_key_replicas cluster) as [Hkey _].
  assert (Hlab : entries (om_Labels (dp_Meta (buildDesiredRobinDeployment cluster))) !! ClusterLabel =
    Some (rk_Name cluster)).
  { unfold buildDesiredRobinDeployment. destruct (match rbs_Template _ with Some _ => _ | None => _ end).
    apply merged_cluster_label. }
  destruct (SetControllerReference cluster _) as [m|e] eqn:Hset; [|done].
  pose proof Hset as (refs & ref & Hm & _)%SetControllerReference_Ok.
  assert (Hk : om_key (dp_Meta (set_dp_Meta m (buildDesiredRobinDeployment cluster))) = robinKey cluster)
    by (simpl; rewrite Hm; exact Hkey).
  rewrite Hk. apply obeys_bind. apply (within_get_robin cluster _ _ Hours); [intros o Hseen Ho|intros e].
  - case_match; [|done]. apply within_seq; [|done]. by apply (within_patch_robin cluster).
  - case_match; [|done]. apply within_seq; [|done].
    eapply (within_create cluster KDeployment); [done|done|exact Hset| |done|exact Hlab].
    by apply (f_equal nn_Namespace) in Hkey.
Qed.

(** ** Configs *)

Lemma listed_perm l l' : l ≡ₚ l' → listed l → listed l'.
Proof. intros Hp Hl c Hc. apply Hl. by rewrite Hp. Qed.

Lemma within_list cluster (Q : res error (list RedkeyConfig) → Prop) :
  ours cluster → (∀ l, listed l → Q (Ok l)) → (∀ e, Q (Err e)) →
  within (call (ListConfigs (rk_Namespace cluster) (rk_Name cluster))) Q.
Proof.
  intros [_ Hkey] HQ He. apply obeys_call; [exact Hkey|]. intros [l|e] Hl; [|done].
  apply HQ. unfold listed. by rewrite <- Hkey.
Qed.

Lemma within_listConfigs cluster :
  ours cluster →
  within (listConfigs cluster) (λ r, match r with Ok l => listed l | Err _ => True end).
Proof.
  intros Hours. apply obeys_go_bind, within_list; [done| |done].
  intros l Hl. apply obeys_ret. eapply listed_perm; [|done]. symmetry. apply sort_slice_perm.
Qed.

Lemma within_createNewConfig cluster highest :
  ours cluster → within (createNewConfig cluster highest) any.
Proof.
  intros Hours. unfold createNewConfig.
  destruct (SetControllerReference cluster _) as [m|e] eqn:Hset; [|done].
  apply obeys_bind, within_step; [|intros [|e]; simpl; [done|by case_match]].
  eapply (within_create cluster KRedkeyConfig); [done|done|exact Hset|done|done|].
  simpl. eapply lookup_weaken; [|apply mergeMeta_base]. apply lookup_singleton_eq.
Qed.

Lemma within_deleteConfigs l :
  listed l →
  within (deleteConfigs l) (λ r, match r with Some (rest, _) => rest ⊆ l | None => True end).
Proof.
  induction l as [|c l IH]; intros Hl; [done|].
  assert (Hl' : listed l) by (intros d Hd; apply Hl; by right).
  assert (Hrest : within (deleteConfigs l)
    (λ r, match r with Some (rest, _) => rest ⊆ c :: l | None => True end)).
  { eapply obeys_conseq; [by apply IH|]. intros [[rest e]|]; [set_solver|done]. }
  split; [destruct (Hl c); [by left|]; by exists c|].
  intros [u|e] _; simpl; [by split|]. destruct (IsNotFound e); [exact Hrest|]. simpl. set_solver.
Qed.

Lemma within_cleanup configs :
  listed configs → within (cleanupSupersededConfigs configs) (λ r, listed r.1).
Proof.
  intros Hl. unfold cleanupSupersededConfigs. case_bool_decide; [done|].
  destruct (find_last_index isApplied configs) as [[|i]|]; [done| |done].
  assert (Hd : listed (drop (S i) configs)).
  { intros c Hc. apply Hl. by apply (subseteq_drop (S i) configs). }
  apply obeys_bind. eapply obeys_conseq; [apply within_deleteConfigs|].
  { intros c Hc. apply Hl. by apply (subseteq_take (S i) configs). }
  intros [[rest e]|] Hr; apply obeys_ret; [|done].
  intros c [Hc|Hc]%elem_of_app; [|by apply Hd].
  apply Hl. apply (subseteq_take (S i) configs). by apply Hr.
Qed.

(** ** Status *)

Lemma within_retry {A} n (p : go A) : within p any → within (retry_conflict n p) any.
Proof.
  intros Hp. induction n as [|n IH]; [done|]. apply obeys_bind, within_step; [done|].
  intros [a|e]; [done|]. by case_match.
Qed.

Lemma aggregated_keepsTopology latest c gen now :
  seen KRedkeyConfig c → keepsTopology seen latest (aggregatedStatus latest c gen now).
Proof.
  intros Hc. unfold keepsTopology, aggregatedStatus. simpl.
  destruct (recordsTopology latest c) eqn:Hr; [|by left]. right. exists c.
  unfold recordsTopology in Hr. rewrite !andb_true_iff, negb_true_iff, Z.ltb_lt in Hr. naive_solver.
Qed.

Lemma within_aggregateStatus cluster configs :
  ours cluster → listed configs → within (aggregateStatus cluster configs) named.
Proof.
  intros [Hseen Hkey] Hl. unfold aggregateStatus.
  pose proof (λ c, selectActive_in configs c) as Hsel.
  destruct (selectActiveConfig configs) as [c|]; [|done].
  apply obeys_go_bind, within_step; [|by intros []].
  destruct RetryOnConflict_spec as [n Hn]. rewrite Hn. apply within_retry.
  unfold aggregateAttempt.
  apply (within_then _ _ ours).
  - apply obeys_call; [left; by rewrite <- Hkey|]. intros [o|e]; [|done]. intros [Ho Hko].
    split; [done|]. by rewrite Hko, <- Hkey.
  - intros latest [Hs Hk]. apply obeys_bind, obeys_call; [done|]. intros now _.
    apply within_seq; [|done]. apply within_call. exists latest.
    repeat split; [done|done|]. apply aggregated_keepsTopology. by apply Hl, Hsel.
Qed.

(** ** Scale to zero *)

Lemma within_deleteIgnoreNotFound msg k key :
  footprint seen req _ (Delete k key) → within (deleteIgnoreNotFound msg k key) any.
Proof.
  intros Hf. apply obeys_bind, within_step; [by apply within_call|].
  intros [|e]; [done|]. by case_match.
Qed.

Lemma within_deleteEach l : listed l → within (deleteEach l) any.
Proof.
  induction l as [|c l IH]; intros Hl; [done|]. apply within_seq.
  - apply within_deleteIgnoreNotFound. destruct (Hl c); [by left|]. by exists c.
  - intros _. apply IH. intros d Hd. apply Hl. by right.
Qed.

Lemma within_scaledToZero cluster : ours cluster → within (updateStatusScaledToZero cluster) named.
Proof.
  intros [Hs Hk]. apply obeys_bind, obeys_call; [done|]. intros now _. apply obeys_call.
  - exists cluster. repeat split; [done|done|]. by left.
  - intros [o|e]; [|done]. intros Ho. simpl in *. by rewrite Ho.
Qed.

Lemma within_tearDown cluster :
  ours cluster →
  within (deleteRobinDeployment cluster) any ∧ within (deleteRBAC cluster) any ∧
  within (deleteAllConfigs cluster) any.
Proof.
  intros Hours. assert (Hk : robinKey cluster = robinKeyOf req)
    by (symmetry; apply robinKeyOf_key, Hours).
  unfold deleteRobinDeployment, deleteRBAC, deleteAllConfigs. rewrite Hk.
  split; [by apply within_deleteIgnoreNotFound|]. split.
  - repeat (apply within_seq; [by apply within_deleteIgnoreNotFound|]; intros _).
    by apply within_deleteIgnoreNotFound.
  - apply (within_then _ _ listed); [|apply within_deleteEach].
    apply obeys_wrap_err. by apply within_list.
Qed.

Lemma within_scaleToZero resync cluster :
  ours cluster →
  within (reconcileScaleToZero resync cluster)
    (λ r, match r with Ok (_, c) => key_of KRedkey c = req | Err _ => True end).
Proof.
  intros Hours. apply (within_then_to _ _ listed); [done|by apply within_listConfigs|].
  intros configs Hl. destruct (within_tearDown cluster Hours) as (H1 & H2 & H3).
  pose proof (within_scaledToZero cluster Hours) as Hst.
  pose proof (within_ensureRBAC cluster Hours) as Hr.
  pose proof (within_ensureRobinDeployment cluster Hours) as Hd.
  assert (Hend : ∀ p : go Redkey, within p named →
    within (cluster' ⇐ p; mret (Ok (mkResult resync, cluster')))
      (λ r, match r with Ok (_, c) => key_of KRedkey c = req | Err _ => True end)).
  { intros p Hp. by apply (within_then_to _ _ (λ c, key_of KRedkey c = req)). }
  destruct (last configs) as [c|]; [|by apply Hend].
  case_match; [|case_match]; repeat (apply within_seq_to; [done|done|]; intros ?); try by apply Hend.
  - apply within_seq_to; [done|by apply within_createNewConfig|]. intros _. apply Hours.
  - by apply Hend, within_aggregateStatus.
Qed.

(** ** The reconciler *)

Lemma within_stage {A} stage (p : go A) (k : A → prog (Result * option error)) (ok : A → Prop) :
  within p (λ r, match r with Ok a => ok a | Err _ => True end) →
  (∀ a, ok a → within (k a) any) → within (at_stage stage p k) any.
Proof.
  intros Hp Hk. apply obeys_bind. eapply obeys_conseq; [done|]. intros [a|e] Ha; [by apply Hk|done].
Qed.

Lemma within_stage_any {A} stage (p : go A) (k : A → prog (Result * option error)) :
  within p any → (∀ a, within (k a) any) → within (at_stage stage p k) any.
Proof.
  intros Hp Hk. apply (within_stage _ _ _ any); [|auto]. eapply within_step; [done|]. by intros [].
Qed.

Lemma within_recordMetrics cluster active :
  key_of KRedkey cluster = req → within (recordRedkeyMetrics cluster active) any.
Proof. intros Hk. apply within_metrics. rewrite <- Hk. apply recordMetrics_calls. Qed.

Lemma within_finish r cluster configs :
  ours cluster → listed configs → within (finishReconcile r cluster configs) any.
Proof.
  intros Hours Hl. unfold finishReconcile. destruct configs as [|c configs].
  { apply obeys_bind, within_step; [apply within_recordMetrics, Hours|done]. }
  apply obeys_bind. eapply obeys_conseq; [by apply within_cleanup|]. intros [rest [e|]] Hr; [done|].
  apply (within_stage _ _ _ (λ cl, key_of KRedkey cl = req)); [by apply within_aggregateStatus|].
  intros cluster' Hk. apply obeys_bind, within_step; [by apply within_recordMetrics|done].
Qed.

Lemma within_Reconcile r : within (Reconcile r req) any.
Proof.
  apply obeys_bind, obeys_call; [by left|]. intros [cluster|e] Hgot; last first.
  { case_match; [|done]. apply within_metrics. destruct req. by repeat (split; [done|intros ?]). }
  change (ours cluster) in Hgot. cbv beta iota. case_match.
  { apply (within_stage _ _ _ (λ x, key_of KRedkey x.2 = req)).
    { eapply obeys_conseq; [by apply within_scaleToZero|]. by intros [[]|]. }
    intros x Hk. apply obeys_bind, within_step; [by apply within_recordMetrics|done]. }
  apply within_stage_any; [by apply within_ensureRBAC|]. intros _.
  apply within_stage_any; [by apply within_ensureRobinDeployment|]. intros _.
  apply (within_stage _ _ _ listed); [by apply within_listConfigs|]. intros configs Hl.
  cbv zeta. case_match; [|by apply within_finish].
  apply within_stage_any; [by apply within_createNewConfig|]. intros _.
  apply (within_stage _ _ _ listed); [by apply within_listConfigs|]. intros configs' Hl'.
  by apply within_finish.
Qed.
End footprint.

(** ** Traces *)

(** The objects a trace read. *)
Definition readIn (tr : list event) (k : Kind) (o : obj k) : Prop :=
  ∃ e, e ∈ tr ∧ match e with @Ev T q r =>
    match q in Req T return T → Prop with
    | Get k' key => λ r, match r with
        | Ok o' => ∃ E : k' = k, eq_rect k' obj o' k E = o
        | Err _ => False end
    | ListConfigs _ _ => λ r, match r with
        | Ok l => ∃ c, c ∈ l ∧ ∃ E : KRedkeyConfig = k, eq_rect KRedkeyConfig obj c k E = o
        | Err _ => False end
    | _ => λ _, False
    end r end.

(** Reads answer what was asked for. *)
Definition readsMatch (tr : list event) : Prop :=
  Forall (λ e, match e with @Ev T q r => readsLawful (λ _ _, True) T q r end) tr.

Lemma readsMatch_lawful tr :
  readsMatch tr →
  Forall (λ e, match e with @Ev T q r => readsLawful (readIn tr) T q r end) tr.
Proof.
  intros Hm. apply Forall_forall. intros e He. pose proof (proj1 (Forall_forall _ _) Hm e He) as Hl.
  destruct e as [T q r]. destruct q; simpl in *; try done; destruct r as [o'|err]; try done.
  - split; [|apply Hl]. eexists. split; [exact He|]. by exists eq_refl.
  - intros c Hc. split; [|by apply Hl]. eexists. split; [exact He|]. exists c. split; [done|].
    by exists eq_refl.
Qed.

Section executions.
Context `{K8sLib, !KubeClient W, !KubeLaws W}.

Lemma handle_reads {T} (q : Req T) (w w' : W) r (seen : ∀ k, obj k → Prop) :
  handle q w = (w', r) →
  (∀ k key o, sget k (cache w') !! key = Some o → seen k o) → readsLawful seen T q r.
Proof.
  intros Hh Hseen. destruct (handle_contract _ q w w' r Hh) as (s & _ & _ & Hc).
  destruct q; simpl in *; try done; destruct r as [o'|e]; try done;
    [destruct Hc as [_ Hc]..|].
  - split; [by eapply Hseen|]. by eapply cache_key.
  - intros c. rewrite Hc. unfold selected_configs. rewrite list_elem_of_filter. intros [Hsel Hin].
    split; [|done]. apply list_elem_of_fmap in Hin as ([key c'] & -> & Hin%elem_of_map_to_list).
    by eapply (Hseen KRedkeyConfig).
  - destruct Hc as (cur & rv & _ & _ & _ & Hs). apply (server_key w' KRedkey).
    rewrite Hs. apply lookup_insert_eq.
Qed.

Lemma trace_readsMatch {A} (p : prog A) (w : W) : readsMatch (trace p w).
Proof.
  revert w. induction p as [a|T q k IH]; intros w; simpl; [constructor|].
  destruct (handle q w) as [w1 r] eqn:Hh. constructor; [by eapply handle_reads|apply IH].
Qed.
End executions.

(** C9: the blast radius of a reconcile.  Whatever the API answers (failures,
    stale data, any interleaving with other actors), as long as the
    answers are about the key or label that was asked for, every request of a
    reconcile stays within the footprint of its own Redkey: it creates only
    objects labelled for and controlled by it, deletes only Robin's objects and
    configs it listed, patches only Robin's objects, never writes a Redkey's
    spec or metadata, never loses the recorded topology, and touches no other
    Redkey's gauge series or tracker entries. *)
Theorem Reconcile_footprint `{K8sLaws} (r : RedkeyReconciler) (req : NamespacedName)
    (tr : list event) (a : Result * option error) :
  runs (Reconcile r req) tr a → readsMatch tr →
  Forall (λ e, match e with @Ev T q _ => footprint (readIn tr) req T q end) tr.
Proof.
  intros Hr Hm. apply (obeys_runs (readsLawful (readIn tr)) _ (Reconcile r req) any tr a);
    [apply within_Reconcile|done|by apply readsMatch_lawful].
Qed.

Lemma Reconcile_footprint_witness :
  let w := sampleWorld (sampleRedkey 2 0 false (statusObserved 1 3))
    [sampleConfig 1 2 0 ConfigPhaseApplied ClusterStatusReady] in
  let tr := trace (Reconcile (H := fake_lib) (mkReconciler 30 1) sampleKey) w in
  deletions tr = [(KDeployment, robinKeyOf sampleKey); (KRoleBinding, robinKeyOf sampleKey);
    (KRole, robinKeyOf sampleKey); (KServiceAccount, robinKeyOf sampleKey);
    (KRedkeyConfig, mkKey "ns" "rk-1")] ∧
  Forall (λ e, match e with @Ev T q _ => footprint (readIn tr) sampleKey T q end) tr.
Proof.
  intros w tr. split; [vm_compute; reflexivity|].
  apply (Reconcile_footprint (H := fake_lib) (mkReconciler 30 1) sampleKey tr
    (exec (Reconcile (mkReconciler 30 1) sampleKey) w).2).
  - apply exec_runs.
  - apply trace_readsMatch.
Defined.

(** ** Executions against an arbitrary lawful client *)

Section topology.
Context `{K8sLib, !K8sLaws, !KubeClient W, !KubeLaws W}.

(** What the end of an execution remembers of the Redkeys it read. *)
Definition remembered (w : W) (k : Kind) : obj k → Prop :=
  match k with
  | KRedkey => λ o, past w (key_of KRedkey o) (om_ResourceVersion (rk_Meta o)) = Some o
  | _ => λ _, True
  end.

Lemma past_exec {A} (p : prog A) (w w' : W) a key rv o :
  exec p w = (w', a) → past w key rv = Some o → past w' key rv = Some o.
Proof.
  revert w. induction p as [b|T q k IH]; intros w; simpl; [by intros [= <- _]|].
  destruct (handle q w) as [w1 r] eqn:Hh. intros He Hp. eapply IH; [done|]. by eapply past_mono.
Qed.

Lemma remembered_cache {A} (p : prog A) (w w' : W) a k key o :
  exec p w = (w', a) → sget k (cache w) !! key = Some o → remembered w' k o.
Proof.
  intros He Ho. destruct k; try done. simpl in *. eapply past_exec; [done|].
  rewrite (cache_key w KRedkey key o Ho). by apply past_cache.
Qed.

(** A store property is kept by an execution if other actors keep it and every
    request within the footprint keeps it, status writes being derived from the
    live object. *)
Lemma footprint_invariant (I : Store → Prop) {A} (p : prog A) req (w w' : W) a :
  exec p w = (w', a) →
  obeys (readsLawful (remembered w')) (footprint (remembered w') req) p any →
  (∀ s s', rely s s' → I s → I s') →
  (∀ T (q : Req T) c s r s', footprint (remembered w') req T q →
    (∀ key o, st_redkeys s !! key = Some o → past w' key (om_ResourceVersion (rk_Meta o)) = Some o) →
    contract q c s r s' → I s → I s') →
  I (server w) → I (server w').
Proof.
  intros He Hp Hrely Hstep. revert w He Hp. induction p as [b|T q k IH]; intros w; simpl.
  { by intros [= <- _]. }
  destruct (handle q w) as [w1 r] eqn:Hh. intros He [Hq Hk] HI.
  destruct (handle_contract _ q w w1 r Hh) as (s & Hs & Hpast & Hc).
  eapply IH; [done| |].
  - apply Hk. eapply handle_reads; [done|]. intros k' key o. by eapply (remembered_cache (k r)).
  - eapply Hstep; [done| |done|].
    + intros key o Ho. eapply past_exec; [done|]. by apply Hpast.
    + clear -Hs Hrely HI. induction Hs; eauto.
Qed.

(** The Redkey at [key], if it exists, has a recorded topology. *)
Definition topologyKnown (key : NamespacedName) (s : Store) : Prop :=
  ∀ o, st_redkeys s !! key = Some o → 0 < rst_LastAppliedPrimaries (rk_Status o).

Lemma topologyKnown_step w' req key {T} (q : Req T) c s r s' :
  footprint (remembered w') req T q →
  (∀ key o, st_redkeys s !! key = Some o → past w' key (om_ResourceVersion (rk_Meta o)) = Some o) →
  contract q c s r s' → topologyKnown key s → topologyKnown key s'.
Proof.
  intros Hf Hpast Hc HI. destruct q; simpl in Hf, Hc; try by subst; try by destruct Hc as [-> _].
  - destruct r as [[]|e]; [|by destruct Hc as [-> _]].
    destruct Hc as (_ & o' & _ & ->), Hf as [Hk _]. by destruct k.
  - destruct r as [[]|e]; [|by destruct Hc as [-> _]]. destruct Hc as [_ ->]. by destruct k.
  - destruct r as [[]|e]; [|by subst].
    destruct Hc as (cur & o' & _ & _ & _ & ->), Hf as [Hk _]. by destruct k.
  - destruct r as [o'|e]; [|by subst]. destruct Hc as (cur & rv & Hcur & Hrv & -> & ->).
    destruct Hf as (base & Hseen & Hkey & Hmeta & _ & Htop). simpl in Hseen.
    intros o1. simpl. rewrite lookup_insert_Some. intros [[Hk <-]|[_ Ho1]]; [|by apply HI]. simpl.
    assert (cur = base) as ->.
    { apply Hpast in Hcur. unfold key_of in *. simpl in *. rewrite Hrv, Hmeta in Hcur. congruence. }
    destruct Htop as [[-> _]|(c' & _ & _ & Hpos & _ & -> & _)]; [|done]. apply HI. by rewrite <- Hk.
Qed.

(** C10: the topology Robin needs to scale back up is never lost.  If the
    Redkey has a recorded topology when a reconcile starts, it has one when the
    reconcile ends: against any client that honours resource versions, with a
    stale cache, failing calls and concurrent writers, as long as those do not
    clear the field themselves. *)
Theorem Reconcile_keeps_topology (r : RedkeyReconciler) (req key : NamespacedName) (w w' : W)
    (a : Result * option error) :
  exec (Reconcile r req) w = (w', a) →
  (∀ s s', rely s s' → topologyKnown key s → topologyKnown key s') →
  topologyKnown key (server w) → topologyKnown key (server w').
Proof.
  intros He Hrely. eapply footprint_invariant; [done|apply within_Reconcile|done|].
  intros T q c s x s'. apply topologyKnown_step.
Qed.
End topology.

Lemma Reconcile_keeps_topology_witness :
  let w := staleWorld (sampleRedkey 2 0 false (statusObserved 1 3))
    [sampleConfig 1 2 0 ConfigPhaseApplied ClusterStatusReady]
    [sampleConfig 1 2 0 ConfigPhaseApplied ClusterStatusReady] in
  topologyKnown sampleKey (server (exec (Reconcile (H := fake_lib) (mkReconciler 30 1) sampleKey) w).1) ∧
  (rst_LastAppliedPrimaries ∘ rk_Status <$>
    st_redkeys (server (exec (Reconcile (H := fake_lib) (mkReconciler 30 1) sampleKey) w).1) !! sampleKey)
    = Some 3.
Proof.
  intros w. split; [|vm_compute; reflexivity].
  apply (Reconcile_keeps_topology (H := fake_lib) (W := World true) (mkReconciler 30 1) sampleKey sampleKey w _
    (exec (Reconcile (mkReconciler 30 1) sampleKey) w).2).
  - apply surjective_pairing.
  - intros s s' ->. exact (λ H, H).
  - intros o Ho. vm_compute in Ho. injection Ho as <-. vm_compute. reflexivity.
Defined.
