(* ===== verification/ControllerProofs.v ===== *)
(** * Correctness of the reconciler

    The whole of [Reconcile] against an ideal client: one reconcile brings the
    cluster's objects in line with the spec, a second one changes nothing. *)

From S2P Require Import Prelude GoLib K8s Types Effects Client Logic FakeCluster.
From S2P Require Import Robin Config Metrics ScaleZero Controller Samples RobinProofs ConfigProofs.
From S2P Require Import ConfigStore Footprint.
Local Open Scope Z_scope.

Section reconcile.
Context `{K8sLib, !K8sLaws, !KubeClient W, !KubeIdeal W}.

(** Requests that do not go to the API leave the store alone. *)
Lemma wp_local {A} req (p : prog A) (w : W) :
  all_calls (localCall req) p → wp p w (λ _ w', server w' = server w).
Proof.
  revert w. induction p as [a|T q k IH]; intros w; [done|]. intros [Hq Hk].
  apply (wp_bind (call q) k). apply wp_call_ideal. intros w1 r Hc _ _.
  eapply wp_mono; [by apply IH|]. intros a w2 ->. by destruct q.
Qed.

Lemma wp_recordMetrics cluster active (w : W) Q :
  (∀ w', server w' = server w → Q tt w') → wp (recordRedkeyMetrics cluster active) w Q.
Proof.
  intros HQ. eapply wp_mono; [eapply wp_local, recordMetrics_calls|]. intros [] w'. apply HQ.
Qed.

(** The Redkey after a status write. *)
Definition withStatus (cluster : Redkey) (rv : string) (st : RedkeyStatus) : Redkey :=
  mkRedkey (set_om_ResourceVersion rv (rk_Meta cluster)) (rk_Spec cluster) st.

Lemma wp_retry {A} n (p : go A) (w : W) Q :
  wp p w (λ r w', is_ok r = true ∧ Q r w') → wp (retry_conflict n p) w Q.
Proof.
  intros Hp. destruct n as [|n]; simpl.
  - eapply wp_mono; [exact Hp|]. by intros a w' [_ HQ].
  - apply wp_bind. eapply wp_mono; [done|]. by intros [a|e] w' [Hok HQ].
Qed.

Lemma wp_aggregateStatus cluster configs active (w : W) Q :
  let req := key_of KRedkey cluster in
  selectActiveConfig configs = Some active → st_redkeys (server w) !! req = Some cluster →
  (∀ w' rv now, let cluster' := withStatus cluster rv
      (aggregatedStatus cluster active (rk_Generation cluster) now) in
    server w' = sput KRedkey req cluster' (server w) →
    Q (Ok (set_rk_Status (rk_Status cluster') cluster)) w') →
  wp (aggregateStatus cluster configs) w Q.
Proof.
  intros req Hact Hcur HQ. unfold aggregateStatus. rewrite Hact. apply wp_go_bind.
  destruct RetryOnConflict_spec as [n Hn]. rewrite Hn. apply wp_retry.
  assert (Hg : sget KRedkey (server w) !! mkKey (rk_Namespace cluster) (rk_Name cluster) = Some cluster)
    by exact Hcur.
  apply wp_go_bind, wp_get_ideal. intros w1 Hs1 _. rewrite Hg.
  apply wp_bind, wp_now_ideal. intros w2 now Hs2 _. apply wp_go_bind.
  apply wp_status_ideal with cluster; [by rewrite Hs2, Hs1|done|].
  intros w3 rv o' -> Hs3 _. apply wp_ret. split; [done|]. apply wp_ret.
  apply (HQ w3 rv now). rewrite Hs3, Hs2, Hs1. done.
Qed.

(** ** One reconcile *)

(** The configs before cleanup: a new one is appended when it is due. *)
Definition withNewConfig (cluster : Redkey) (configs configs' : list RedkeyConfig) : Prop :=
  if bool_decide (length configs = 0%nat) || needsNewConfig cluster (last configs)
  then ∃ c, createdFor cluster (nextSequence (last configs)) c ∧ configs' = configs ++ [c]
  else configs' = configs.

(** What a reconcile of a running cluster makes of the store. *)
Record reconciled (cluster : Redkey) (s s' : Store) : Prop := {
  rd_rbac : rbacInPlace cluster s';
  rd_deployment : holds_at KDeployment (robinKey cluster) (deploymentOk cluster) s';
  rd_configs : ∃ configs, withNewConfig cluster (clusterConfigs (key_of KRedkey cluster) s) configs ∧
    clusterConfigs (key_of KRedkey cluster) s' = keepApplied configs;
  rd_ok : configsOk (key_of KRedkey cluster) s';
  rd_status : ∃ active rv now,
    selectActiveConfig (clusterConfigs (key_of KRedkey cluster) s') = Some active ∧
    st_redkeys s' = <[key_of KRedkey cluster := withStatus cluster rv
      (aggregatedStatus cluster active (rk_Generation cluster) now)]> (st_redkeys s);
  rd_still : rbacInPlace cluster s → holds_at KDeployment (robinKey cluster) (deploymentOk cluster) s →
    withNewConfig cluster (clusterConfigs (key_of KRedkey cluster) s)
      (clusterConfigs (key_of KRedkey cluster) s) →
    keepApplied (clusterConfigs (key_of KRedkey cluster) s) = clusterConfigs (key_of KRedkey cluster) s →
    ∀ k, k ≠ KRedkey → sget k s' = sget k s;
}.

Lemma keepApplied_nonempty configs : configs ≠ [] → keepApplied configs ≠ [].
Proof.
  intros Hne. unfold keepApplied. destruct (find_last_index _ configs) as [i|] eqn:Hi; [|done].
  apply find_last_index_lt in Hi. intros Heq. apply (f_equal length) in Heq.
  rewrite length_drop in Heq. simpl in Heq. lia.
Qed.

Lemma selectActive_total configs : configs ≠ [] → ∃ c, selectActiveConfig configs = Some c.
Proof.
  intros Hne. destruct configs as [|c [|d l]]; [done|by eexists|]. unfold selectActiveConfig.
  destruct (find_first _ _); by eexists.
Qed.

(** The end of a reconcile. *)
Lemma wp_finish r cluster configs (w : W) Q :
  let req := key_of KRedkey cluster in
  configs = clusterConfigs req (server w) → configsOk req (server w) → configs ≠ [] →
  st_redkeys (server w) !! req = Some cluster →
  (∀ w' active rv now,
    clusterConfigs req (server w') = keepApplied configs → configsOk req (server w') →
    selectActiveConfig (keepApplied configs) = Some active →
    st_redkeys (server w') = <[req := withStatus cluster rv
      (aggregatedStatus cluster active (rk_Generation cluster) now)]> (st_redkeys (server w)) →
    (∀ k, k ≠ KRedkeyConfig → k ≠ KRedkey → sget k (server w') = sget k (server w)) →
    (keepApplied configs = configs → st_configs (server w') = st_configs (server w)) →
    Q (mkResult (ResyncInterval r), None) w') →
  wp (finishReconcile r cluster configs) w Q.
Proof.
  intros req -> Hok Hne Hcur HQ. unfold finishReconcile.
  destruct (clusterConfigs req (server w)) as [|c0 l0] eqn:Hcfg; [done|]. rewrite <- Hcfg in *.
  apply wp_bind, (wp_cleanup req); [done|]. intros w1 Hc1 Hok1 Hf1 Hs1.
  destruct (selectActive_total (keepApplied (clusterConfigs req (server w)))) as [active Hact].
  { by apply keepApplied_nonempty. }
  apply wp_bind. apply (wp_aggregateStatus cluster _ active); [done| |].
  { change (sget KRedkey (server w1) !! req = Some cluster). by rewrite Hf1. }
  intros w2 rv now cl' Hs2. apply wp_bind, wp_recordMetrics. intros w3 Hs3. apply wp_ret.
  rewrite Hs2 in Hs3. apply (HQ w3 active rv now).
  - by rewrite Hs3.
  - eapply (configsOk_frame req (server w1)); [apply server_keyed|by rewrite Hs3|done].
  - done.
  - rewrite Hs3. simpl. f_equal. by apply (Hf1 KRedkey).
  - intros k Hk1 Hk2. rewrite Hs3, sget_sput_ne by done. by apply Hf1.
  - intros Heq. rewrite Hs3. simpl. by rewrite Hs1.
Qed.

Lemma wp_stage {A} stage (p : go A) k (w : W) Q :
  wp p w (λ r w1, ∃ a, r = Ok a ∧ wp (k a) w1 Q) → wp (at_stage stage p k) w Q.
Proof. intros Hp. apply wp_bind. eapply wp_mono; [exact Hp|]. by intros r w1 (a & -> & Hk). Qed.

(** Robin's objects are as the spec asks. *)
Definition robinInPlace (cluster : Redkey) (s : Store) : Prop :=
  rbacInPlace cluster s ∧ holds_at KDeployment (robinKey cluster) (deploymentOk cluster) s.

Lemma robinInPlace_frame cluster s s' :
  (∀ k, k ≠ KRedkey → k ≠ KRedkeyConfig → sget k s' = sget k s) →
  robinInPlace cluster s → robinInPlace cluster s'.
Proof.
  intros Hf ((H1 & H2 & H3) & H4).
  split; [split; [|split]|]; (eapply holds_at_frame; [by apply Hf|done]).
Qed.

(** Both steps that put Robin in place, one after the other. *)
Lemma wp_robin cluster (w : W) :
  revisionUnclaimed cluster →
  wp (ensureRBAC cluster) w (λ r1 w1, r1 = Ok tt ∧ wp (ensureRobinDeployment cluster) w1 (λ r2 w2,
    r2 = Ok tt ∧ robinInPlace cluster (server w2) ∧
    (∀ k, k = KRedkey ∨ k = KRedkeyConfig → sget k (server w2) = sget k (server w)) ∧
    (robinInPlace cluster (server w) → server w2 = server w))).
Proof.
  intros Hrev. eapply wp_mono; [apply wp_ensureRBAC|].
  intros r1 w1 (-> & Hr & Hf1 & Hi1). split; [done|].
  eapply wp_mono; [by apply ensureRobinDeployment_settles|].
  intros r2 w2 (-> & Hd & Hf2 & Hi2). split; [done|]. split; [|split].
  - split; [|done]. destruct Hr as (H1 & H2 & H3).
    split; [|split]; (eapply holds_at_frame; [by apply Hf2|done]).
  - intros k' [->| ->]; by rewrite Hf2, Hf1.
  - intros [G1 G2]. destruct (Hi1 G1) as [E1 _]. rewrite E1 in Hi2. by destruct (Hi2 G2).
Qed.

Lemma wp_ensureRobin cluster (w : W) Q (k : unit → prog (Result * option error)) :
  revisionUnclaimed cluster →
  (∀ w', robinInPlace cluster (server w') →
    (∀ k, k = KRedkey ∨ k = KRedkeyConfig → sget k (server w') = sget k (server w)) →
    (robinInPlace cluster (server w) → server w' = server w) → wp (k tt) w' Q) →
  wp (at_stage "ensure_rbac" (ensureRBAC cluster) (λ _,
      at_stage "ensure_robin_deployment" (ensureRobinDeployment cluster) k)) w Q.
Proof.
  intros Hrev HQ. apply wp_stage. eapply wp_mono; [by apply wp_robin|].
  intros r1 w1 [-> Hd]. exists tt. split; [done|].
  apply wp_stage. eapply wp_mono; [exact Hd|]. intros r2 w2 (-> & H1 & H2 & H3).
  exists tt. split; [done|]. by apply HQ.
Qed.

(** The end of a reconcile, given what the steps before it did: [s] is the
    store at the start, [w1] the world once Robin is in place, [w3] the one in
    which [configs] were listed last. *)
Lemma wp_finish_reconciled r cluster configs s (w1 w3 : W) Q :
  let req := key_of KRedkey cluster in
  st_redkeys s !! req = Some cluster → robinInPlace cluster (server w1) →
  (∀ k, k = KRedkey ∨ k = KRedkeyConfig → sget k (server w1) = sget k s) →
  (robinInPlace cluster s → server w1 = s) →
  withNewConfig cluster (clusterConfigs req s) configs →
  configs = clusterConfigs req (server w3) → configsOk req (server w3) → configs ≠ [] →
  (∀ k, k ≠ KRedkeyConfig → sget k (server w3) = sget k (server w1)) →
  (configs = clusterConfigs req s → server w3 = server w1) →
  (∀ w', reconciled cluster s (server w') → Q (mkResult (ResyncInterval r), None) w') →
  wp (finishReconcile r cluster configs) w3 Q.
Proof.
  intros req Hcur Hrob Hf1 Hi1 Hnew Hc3 Hok3 Hne Hf3 Hs3 HQ.
  assert (Hrk : sget KRedkey (server w3) = sget KRedkey s).
  { rewrite Hf3 by done. apply Hf1. by left. }
  apply wp_finish; [done|done|done|change (sget KRedkey (server w3) !! req = Some cluster); by rewrite Hrk|].
  intros w' active rv now Hc' Hok' Hact Hst Hf' Hs'. apply HQ.
  assert (Hrob' : robinInPlace cluster (server w')).
  { eapply robinInPlace_frame; [|exact Hrob]. intros k Hk1 Hk2. by rewrite Hf', Hf3. }
  split; [apply Hrob'|apply Hrob'|by exists configs|done| |].
  - exists active, rv, now. rewrite Hc', Hst. split; [done|]. f_equal. exact Hrk.
  - intros G1 G2 Hnn Hka k Hk. fold req in Hnn, Hka.
    assert (configs = clusterConfigs req s) as Heq.
    { revert Hnew Hnn. unfold withNewConfig. case_match; [|done]. intros _ (c & _ & Hbad).
      apply (f_equal length) in Hbad. rewrite length_app in Hbad. simpl in Hbad. lia. }
    specialize (Hs3 Heq). rewrite Heq in Hs'. specialize (Hs' Hka).
    assert (server w1 = s) as E1 by by apply Hi1.
    destruct (decide (k = KRedkeyConfig)) as [->|Hk2].
    + simpl. by rewrite Hs', Hs3, E1.
    + by rewrite Hf', Hf3, E1.
Qed.

(** A running cluster whose store is in order: the Redkey [cluster] is live,
    asks for primaries, leaves the revision annotation alone, and its configs
    are well named with room for [room] more sequence numbers. *)
Record runnable (cluster : Redkey) (room : Z) (s : Store) : Prop := {
  ru_live : st_redkeys s !! key_of KRedkey cluster = Some cluster;
  ru_primaries : rs_Primaries (rk_Spec cluster) ≠ 0;
  ru_revision : revisionUnclaimed cluster;
  ru_configs : configsOk (key_of KRedkey cluster) s;
  ru_room : ∀ c, c ∈ clusterConfigs (key_of KRedkey cluster) s → seqOf c < 2 ^ 63 - room;
}.

Lemma wp_Reconcile r (cluster : obj KRedkey) (w : W) Q :
  runnable cluster 1 (server w) →
  (∀ w', reconciled cluster (server w) (server w') → Q (mkResult (ResyncInterval r), None) w') →
  wp (Reconcile r (key_of KRedkey cluster)) w Q.
Proof.
  intros [Hcur Hprim Hrev Hok Hmax] HQ. set (req := key_of KRedkey cluster) in *.
  apply wp_bind, (wp_get_ideal KRedkey req). intros w0 Hs0 _.
  assert (Hg : sget KRedkey (server w) !! req = Some cluster) by exact Hcur. rewrite Hg.
  rewrite bool_decide_eq_false_2 by done. apply wp_ensureRobin; [done|]. intros w1 Hrob Hf1 Hi1.
  rewrite Hs0 in Hf1, Hi1.
  assert (Hcfg1 : st_configs (server w1) = st_configs (server w)) by (apply (Hf1 KRedkeyConfig); by right).
  assert (Hcc1 : clusterConfigs req (server w1) = clusterConfigs req (server w))
    by (unfold clusterConfigs, selected_configs; by rewrite Hcfg1).
  assert (Hok1 : configsOk req (server w1)) by (eapply configsOk_frame; [apply server_keyed|done|done]).
  apply wp_stage. apply wp_listConfigs; [done|]. intros w2 Hs2 _. eexists. split; [done|].
  fold req. cbv zeta. rewrite Hcc1. case_match eqn:Hdue.
  - rewrite <- Hcc1. apply wp_stage. rewrite <- Hs2. apply wp_createNewConfig; fold req; rewrite Hs2.
    + done.
    + by rewrite Hcc1.
    + intros w3 c Hc Hok3 Hcc3 Hs3. exists tt. split; [done|]. apply wp_stage.
      apply wp_listConfigs; [done|]. intros w4 Hs4 _. eexists. split; [done|]. fold req.
      rewrite Hcc3, Hcc1. apply (wp_finish_reconciled r cluster _ (server w) w1); fold req; try done.
      * unfold withNewConfig. rewrite Hdue. exists c. by rewrite <- Hcc1.
      * by rewrite Hs4, Hcc3, Hcc1.
      * by rewrite Hs4.
      * by destruct (clusterConfigs req (server w)).
      * intros k Hk. by rewrite Hs4, Hs3, sget_sput_ne.
      * intros Hbad. apply (f_equal length) in Hbad. rewrite length_app in Hbad. simpl in Hbad. lia.
  - apply (wp_finish_reconciled r cluster _ (server w) w1); fold req; rewrite ?Hs2; try done.
    + unfold withNewConfig. by rewrite Hdue.
    + apply orb_false_iff in Hdue as [Hlen%bool_decide_eq_false _]. by destruct (clusterConfigs req (server w)).
Qed.

(** ** Consequences *)

Lemma keepApplied_suffix configs : ∃ gone, configs = gone ++ keepApplied configs ∧
  last (keepApplied configs) = last configs.
Proof.
  unfold keepApplied. destruct (find_last_index isApplied configs) as [i|] eqn:Hi; [|by exists []].
  exists (take i configs). rewrite take_drop. split; [done|].
  rewrite <- (take_drop i configs) at 2. rewrite last_app.
  destruct (last (drop i configs)) eqn:Hl; [done|]. apply last_None, (f_equal length) in Hl.
  rewrite length_drop in Hl. apply find_last_index_lt in Hi. simpl in Hl. lia.
Qed.

Lemma keepApplied_idemp configs : keepApplied (keepApplied configs) = keepApplied configs.
Proof.
  unfold keepApplied at 2 3. destruct (find_last_index isApplied configs) as [i|] eqn:Hi.
  - apply find_last_index_split in Hi as (old & a & new & -> & -> & Ha & Hn).
    rewrite drop_app_length. unfold keepApplied. simpl.
    assert (find_last_index isApplied new = None) as ->; [|by rewrite Ha].
    apply find_last_index_None. by apply Forall_forall.
  - unfold keepApplied. by rewrite Hi.
Qed.

Lemma needsNewConfig_observed cluster latest :
  rk_Generation cluster ≤ rst_ObservedGeneration (rk_Status cluster) →
  needsNewConfig cluster latest = false.
Proof.
  intros Hle. unfold needsNewConfig.
  rewrite (proj2 (Z.ltb_ge _ _) Hle). by repeat case_match.
Qed.

(** After a reconcile the cluster is again runnable, and no config is due. *)
Lemma reconciled_runnable cluster s s' :
  runnable cluster 2 s → reconciled cluster s s' →
  ∃ rv active now, let cluster' := withStatus cluster rv
      (aggregatedStatus cluster active (rk_Generation cluster) now) in
    runnable cluster' 1 s' ∧
    selectActiveConfig (clusterConfigs (key_of KRedkey cluster) s') = Some active ∧
    clusterConfigs (key_of KRedkey cluster) s' ≠ [].
Proof.
  intros [Hcur Hprim Hrev Hok Hmax] [_ _ (configs & Hnew & Hc') Hok' (active & rv & now & Hact & Hst) _].
  exists rv, active, now. cbv zeta. split; [|split; [done|]].
  - split; [|done|done|done|].
    + rewrite Hst. apply lookup_insert_eq.
    + intros c Hc. change (key_of KRedkey (withStatus _ _ _)) with (key_of KRedkey cluster) in Hc.
      rewrite Hc' in Hc. destruct (keepApplied_suffix configs) as (gone & Hg & _).
      assert (Hin : c ∈ configs) by (rewrite Hg; set_solver). clear Hc Hg.
      revert Hnew. unfold withNewConfig. case_match; [|intros ->; specialize (Hmax c Hin); lia].
      intros (d & (Hd & _) & ->). apply elem_of_app in Hin as [Hin| ->%list_elem_of_singleton].
      { specialize (Hmax c Hin). lia. }
      rewrite Hd, defaultConfigSpec_seq. simpl. unfold nextSequence.
      destruct (last (clusterConfigs (key_of KRedkey cluster) s)) as [m|] eqn:Hlast; [|lia].
      assert (Hm : m ∈ clusterConfigs (key_of KRedkey cluster) s) by by apply last_Some_elem_of.
      specialize (Hmax m Hm). destruct (co_named _ _ Hok m Hm) as [_ Hpos].
      rewrite int64_id by (unfold in_int64; lia). lia.
  - intros Hnil. rewrite Hnil in Hact. done.
Qed.

(** C7: one reconcile of a running cluster, against an ideal client.  It
    succeeds and asks to be run again after the resync interval; Robin's
    ServiceAccount, Role, RoleBinding and Deployment are then as the spec asks;
    the live Redkey keeps its spec, has observed its own generation, and shows
    the phase and status of the active one of the configs left in the store;
    and no further config is due. *)
Theorem Reconcile_converges (r : RedkeyReconciler) (cluster : Redkey) (w w' : W)
    (out : Result * option error) :
  runnable cluster 2 (server w) → exec (Reconcile r (key_of KRedkey cluster)) w = (w', out) →
  out = (mkResult (ResyncInterval r), None) ∧
  rbacInPlace cluster (server w') ∧
  holds_at KDeployment (robinKey cluster) (deploymentOk cluster) (server w') ∧
  ∃ cluster' active,
    st_redkeys (server w') !! key_of KRedkey cluster = Some cluster' ∧
    selectActiveConfig (clusterConfigs (key_of KRedkey cluster) (server w')) = Some active ∧
    rk_Spec cluster' = rk_Spec cluster ∧ rk_Generation cluster' = rk_Generation cluster ∧
    rst_ObservedGeneration (rk_Status cluster') = rk_Generation cluster ∧
    rst_Phase (rk_Status cluster') = phaseOf active ∧
    rst_Status (rk_Status cluster') = rct_Status (cf_Status active) ∧
    needsNewConfig cluster' (last (clusterConfigs (key_of KRedkey cluster) (server w'))) = false.
Proof.
  intros Hrun He.
  assert (Hwp : wp (Reconcile r (key_of KRedkey cluster)) w (λ out w',
    out = (mkResult (ResyncInterval r), None) ∧ reconciled cluster (server w) (server w'))).
  { apply wp_Reconcile; [|done]. destruct Hrun as [? ? ? ? Hm]. split; try done.
    intros c Hc. specialize (Hm c Hc). lia. }
  destruct (wp_exec _ _ _ _ _ Hwp He) as [-> Hrec]. split; [done|].
  split; [apply Hrec|]. split; [apply Hrec|].
  destruct (reconciled_runnable cluster _ _ Hrun Hrec) as (rv & active & now & Hrun' & Hact & _).
  eexists _, active. split; [apply Hrun'|]. repeat split; [done| |].
  - simpl. apply phaseOf_aggregate.
  - by apply needsNewConfig_observed.
Qed.

(** The same status, but for when it was last updated. *)
Definition sameStatus (st st' : RedkeyStatus) : Prop :=
  ∃ now, st' = mkRedkeyStatus (rst_Replicas st) (rst_Phase st) (rst_Status st) (rst_Substatus st) (rst_Nodes st)
    (rst_Conditions st) now (rst_ObservedGeneration st) (rst_LastAppliedPrimaries st)
    (rst_LastAppliedReplicasPerPrimary st).

Lemma aggregated_again cluster rv active gen now now' :
  sameStatus (aggregatedStatus cluster active gen now)
    (aggregatedStatus (withStatus cluster rv (aggregatedStatus cluster active gen now)) active gen now').
Proof.
  assert (Hr : ∀ st, recordsTopology (withStatus cluster rv st) active = recordsTopology cluster active)
    by done.
  exists (Some now'). unfold aggregatedStatus at 1. rewrite Hr. unfold aggregatedStatus. simpl.
  rewrite aggregateConditions_again. by destruct (recordsTopology cluster active).
Qed.

(** C8: reconciling a running cluster whose spec leaves the revision annotation
    alone is idempotent.  Against an ideal client, a second reconcile with nothing
    changed in between leaves every other object as it is, and writes the very same
    status, its conditions and their time stamps included; only the time of the
    last update moves. *)
Theorem Reconcile_idempotent (r : RedkeyReconciler) (cluster : Redkey) (w w' w'' : W)
    (out out' : Result * option error) :
  runnable cluster 2 (server w) →
  exec (Reconcile r (key_of KRedkey cluster)) w = (w', out) →
  exec (Reconcile r (key_of KRedkey cluster)) w' = (w'', out') →
  out' = out ∧ (∀ k, k ≠ KRedkey → sget k (server w'') = sget k (server w')) ∧
  ∃ o o', st_redkeys (server w') !! key_of KRedkey cluster = Some o ∧
    st_redkeys (server w'') !! key_of KRedkey cluster = Some o' ∧
    rk_Spec o' = rk_Spec o ∧ sameStatus (rk_Status o) (rk_Status o').
Proof.
  intros Hrun He He'.
  assert (Hrun1 : runnable cluster 1 (server w)).
  { destruct Hrun as [? ? ? ? Hm]. split; try done. intros c Hc. specialize (Hm c Hc). lia. }
  assert (Hrec := wp_exec _ _ (λ out w', out = (mkResult (ResyncInterval r), None) ∧
    reconciled cluster (server w) (server w')) _ _
    (wp_Reconcile r cluster w _ Hrun1 (λ w' H, conj eq_refl H)) He).
  destruct Hrec as [-> Hrec].
  destruct (reconciled_runnable cluster _ _ Hrun Hrec) as (rv & active & now & Hrun' & Hact & Hne).
  set (cluster' := withStatus cluster rv _) in *.
  assert (Hrec' := wp_exec _ _ (λ out w'', out = (mkResult (ResyncInterval r), None) ∧
    reconciled cluster' (server w') (server w'')) _ _
    (wp_Reconcile r cluster' w' _ Hrun' (λ w' H, conj eq_refl H)) He').
  destruct Hrec' as [-> Hrec']. split; [done|].
  assert (Hstill : ∀ k, k ≠ KRedkey → sget k (server w'') = sget k (server w')).
  { apply Hrec'; [exact (rd_rbac _ _ _ Hrec)|exact (rd_deployment _ _ _ Hrec)| |].
    - change (key_of KRedkey cluster') with (key_of KRedkey cluster). unfold withNewConfig.
      rewrite needsNewConfig_observed by done. rewrite bool_decide_eq_false_2; [done|].
      by destruct (clusterConfigs (key_of KRedkey cluster) (server w')).
    - change (key_of KRedkey cluster') with (key_of KRedkey cluster).
      destruct Hrec as [_ _ (configs & _ & ->) _ _ _]. apply keepApplied_idemp. }
  split; [done|]. destruct Hrec' as [_ _ _ _ (active' & rv' & now' & Hact' & Hst') _].
  change (key_of KRedkey cluster') with (key_of KRedkey cluster) in Hact', Hst'.
  assert (active' = active) as ->.
  { unfold clusterConfigs, selected_configs in Hact, Hact'.
    assert (Hcfg : st_configs (server w'') = st_configs (server w')) by by apply (Hstill KRedkeyConfig).
    rewrite Hcfg in Hact'. congruence. }
  exists cluster'. eexists. split; [apply Hrun'|]. rewrite Hst'. split; [apply lookup_insert_eq|].
  split; [done|]. apply aggregated_again.
Qed.

(** C11: the history of configs of a running cluster ([runnable]: it asks for
    primaries and its spec leaves the revision annotation alone), against an ideal
    client.  When no config exists or the spec is newer than the last one, a reconcile
    appends exactly one config, which carries the spec's topology, a sequence above
    all earlier ones, and the Redkey's generation; otherwise it appends none.
    Cleanup only drops a prefix, so this reconcile does not lose the newest config.
    (The teardown of a scale to zero drops them all.) *)
Theorem Reconcile_config_history (r : RedkeyReconciler) (cluster : Redkey) (w w' : W)
    (out : Result * option error) :
  runnable cluster 1 (server w) → in_int64 (rk_Generation cluster) →
  exec (Reconcile r (key_of KRedkey cluster)) w = (w', out) →
  let before := clusterConfigs (key_of KRedkey cluster) (server w) in
  let after := clusterConfigs (key_of KRedkey cluster) (server w') in
  if bool_decide (before = []) || needsNewConfig cluster (last before) then
    ∃ gone c, before ++ [c] = gone ++ after ∧ last after = Some c ∧
      configGeneration c = Ok (rk_Generation cluster) ∧
      rcs_Primaries (cf_Spec c) = rs_Primaries (rk_Spec cluster) ∧
      rcs_ReplicasPerPrimary (cf_Spec c) = rs_ReplicasPerPrimary (rk_Spec cluster) ∧
      ∀ d, d ∈ before → seqOf d < seqOf c
  else ∃ gone, before = gone ++ after ∧ last after = last before.
Proof.
  intros Hrun Hgen He before after.
  destruct (wp_exec _ _ (λ out w', reconciled cluster (server w) (server w')) _ _
    (wp_Reconcile r cluster w _ Hrun (λ w' H, H)) He) as [_ _ (configs & Hnew & Hafter) _ _ _].
  fold before after in Hnew, Hafter. destruct (keepApplied_suffix configs) as (gone & Hg & Hlast).
  rewrite <- Hafter in Hg, Hlast.
  assert (Hlen : bool_decide (length before = 0%nat) = bool_decide (before = []))
    by (apply bool_decide_ext, length_zero_iff_nil).
  unfold withNewConfig in Hnew. rewrite Hlen in Hnew.
  destruct (bool_decide (before = []) || needsNewConfig cluster (last before)).
  - destruct Hnew as (c & (Hspec & _ & Hmeta) & ->). exists gone, c.
    split; [done|]. split; [by rewrite Hlast, last_snoc|].
    split; [by apply (newConfig_generation cluster (nextSequence (last before))), Hmeta|].
    rewrite Hspec, defaultConfigSpec_seq.
    split; [apply defaultConfigSpec_topology|]. split; [apply defaultConfigSpec_topology|].
    apply (nextSequence_fresh (key_of KRedkey cluster) (server w)); [apply Hrun|].
    intros d. apply Hrun.
  - exists gone. by rewrite <- Hnew.
Qed.
End reconcile.

(** ** Witnesses *)

Lemma configsOk_empty req s : keyed s → st_configs s = ∅ → configsOk req s.
Proof.
  intros Hk He. split; [done| |].
  - intros c. rewrite elem_of_clusterConfigs, He, lookup_empty by done. by intros [].
  - intros n c _. by rewrite He, lookup_empty.
Qed.

Lemma sample_runnable room gen st :
  runnable (sampleRedkey gen 3 false st) room (server (sampleWorld (sampleRedkey gen 3 false st) [])).
Proof.
  split.
  - by apply lookup_singleton_eq.
  - done.
  - intros [v Hv]. vm_compute in Hv. discriminate Hv.
  - apply configsOk_empty; [apply server_keyed|done].
  - intros c Hc. exfalso. revert Hc. apply not_elem_of_nil.
Qed.

Lemma Reconcile_converges_witness :
  let w := sampleWorld (sampleRedkey 1 3 false zeroStatus) [] in
  let w' := (exec (Reconcile (H := fake_lib) (mkReconciler 30 1) sampleKey) w).1 in
  rbacInPlace (sampleRedkey 1 3 false zeroStatus) (server w') ∧
  rst_Phase ∘ rk_Status <$> st_redkeys (server w') !! sampleKey = Some PhaseConfiguring.
Proof.
  intros w w'. split; [|vm_compute; reflexivity].
  destruct (Reconcile_converges (H := fake_lib) (W := World false) (mkReconciler 30 1)
    (sampleRedkey 1 3 false zeroStatus) w w' _ (sample_runnable 2 1 zeroStatus)
    (surjective_pairing (exec (Reconcile (mkReconciler 30 1) sampleKey) w))) as (_ & Hr & _).
  exact Hr.
Defined.

Lemma Reconcile_idempotent_witness :
  let w := sampleWorld (sampleRedkey 1 3 false zeroStatus) [] in
  let w' := (exec (Reconcile (H := fake_lib) (mkReconciler 30 1) sampleKey) w).1 in
  let w'' := (exec (Reconcile (H := fake_lib) (mkReconciler 30 1) sampleKey) w').1 in
  size (st_configs (server w')) = 1%nat ∧ st_configs (server w'') = st_configs (server w').
Proof.
  intros w w' w''. split; [vm_compute; reflexivity|].
  destruct (Reconcile_idempotent (H := fake_lib) (W := World false) (mkReconciler 30 1)
    (sampleRedkey 1 3 false zeroStatus) w w' w'' _ _ (sample_runnable 2 1 zeroStatus)
    (surjective_pairing (exec (Reconcile (mkReconciler 30 1) sampleKey) w))
    (surjective_pairing (exec (Reconcile (mkReconciler 30 1) sampleKey) w'))) as (_ & Hk & _).
  exact (Hk KRedkeyConfig ltac:(discriminate)).
Defined.

Lemma Reconcile_config_history_witness :
  let w := sampleWorld (sampleRedkey 1 3 false zeroStatus) [] in
  let w' := (exec (Reconcile (H := fake_lib) (mkReconciler 30 1) sampleKey) w).1 in
  ∃ c, last (clusterConfigs sampleKey (server w')) = Some c ∧ configGeneration c = Ok 1.
Proof.
  intros w w'.
  destruct (Reconcile_config_history (H := fake_lib) (W := World false) (mkReconciler 30 1)
    (sampleRedkey 1 3 false zeroStatus) w w' _ (sample_runnable 1 1 zeroStatus)
    ltac:(split; vm_compute; congruence)
    (surjective_pairing (exec (Reconcile (mkReconciler 30 1) sampleKey) w)))
    as (gone & c & _ & Hl & Hg & _).
  exists c. split; [exact Hl|exact Hg].
Defined.
