(* ===== verification/Failing.v ===== *)
(** * Reconciles that may fail

    What a reconcile leaves of the store when any of its requests may fail.  The
    store a failed request leaves behind is the one a crash of the operator at
    that point would leave, so this covers interrupted reconciles too. *)

From S2P Require Import Prelude GoLib K8s Types Effects Client Logic FakeCluster.
From S2P Require Import Robin Config Metrics ScaleZero Controller Samples RobinProofs ConfigProofs.
From S2P Require Import ConfigStore Footprint ControllerProofs.
Local Open Scope Z_scope.

(** ** What may come of a reconcile *)

(** Whether a reconcile creates a config. *)
Definition configDue (cluster : Redkey) (configs : list RedkeyConfig) : bool :=
  if bool_decide (rs_Primaries (rk_Spec cluster) = 0) then
    match last configs with Some c => negb (bool_decide (rcs_Primaries (cf_Spec c) = 0)) | None => false end
  else bool_decide (length configs = 0%nat) || needsNewConfig cluster (last configs).

(** The configs grow by the one that is due, or not at all. *)
Definition grown (cluster : Redkey) (l l' : list RedkeyConfig) : Prop :=
  l' = l ∨ configDue cluster l = true ∧ ∃ c, createdFor cluster (nextSequence (last l)) c ∧ l' = l ++ [c].

(** Of [l], configs may be gone, but never the newest of a running cluster. *)
Record trimmed (cluster : Redkey) (l : list RedkeyConfig) (s' : Store) : Prop := {
  tr_ok : configsOk (key_of KRedkey cluster) s';
  tr_sublist : clusterConfigs (key_of KRedkey cluster) s' `sublist_of` l;
  tr_last : rs_Primaries (rk_Spec cluster) ≠ 0 → last (clusterConfigs (key_of KRedkey cluster) s') = last l;
}.

(** The status was written, and marks the generation observed. *)
Definition marked (cluster : Redkey) (s s' : Store) : Prop :=
  ∃ rv st, st_redkeys s' = <[key_of KRedkey cluster := withStatus cluster rv st]> (st_redkeys s) ∧
    rst_ObservedGeneration st = rk_Generation cluster.

(** The outcome of a reconcile, successful or not: at most the config that is due
    is added; configs may be deleted, but never the newest of a running cluster;
    of the Redkey nothing but the status is written, and in a running cluster
    only once the config that was due exists. *)
Definition attempted (cluster : Redkey) (s s' : Store) : Prop :=
  let configs := clusterConfigs (key_of KRedkey cluster) s in
  ∃ l, grown cluster configs l ∧ trimmed cluster l s' ∧
    (st_redkeys s' = st_redkeys s ∨
     marked cluster s s' ∧ (rs_Primaries (rk_Spec cluster) ≠ 0 → l = configs → configDue cluster configs = false)).

(** ** Deletions *)

(** Some of the configs under [keys] are gone, and nothing else. *)
Record pruned (keys : list NamespacedName) (s s' : Store) : Prop := {
  pr_redkeys : st_redkeys s' = st_redkeys s;
  pr_sub : ∀ key c, st_configs s' !! key = Some c → st_configs s !! key = Some c;
  pr_keep : ∀ key c, st_configs s !! key = Some c → key ∉ keys → st_configs s' !! key = Some c;
}.

Lemma pruned_refl keys s s' :
  st_redkeys s' = st_redkeys s → st_configs s' = st_configs s → pruned keys s s'.
Proof. intros H1 H2. split; [done|by rewrite H2..]. Qed.

Lemma pruned_sdel key s : pruned [key] s (sdel KRedkeyConfig key s).
Proof.
  assert (Hd : st_configs (sdel KRedkeyConfig key s) = delete key (st_configs s)) by done.
  split; [done|intros k c; rewrite Hd; by intros [_ ?]%lookup_delete_Some|].
  intros k c Hk Hn. rewrite Hd. apply lookup_delete_Some. split; [|done]. intros ->. apply Hn. left.
Qed.

Lemma pruned_trans keys1 keys2 s1 s2 s3 :
  pruned keys1 s1 s2 → pruned keys2 s2 s3 → pruned (keys1 ++ keys2) s1 s3.
Proof.
  intros [A1 A2 A3] [B1 B2 B3]. split; [congruence|auto|]. intros key c Hc Hn.
  apply not_elem_of_app in Hn as [Hn1 Hn2]. auto.
Qed.

Lemma sorted_filter {A} (R : A → A → Prop) (P : A → Prop) `{∀ x, Decision (P x)} l :
  StronglySorted R l → StronglySorted R (filter P l).
Proof.
  induction 1 as [|x l Hl IH Hx]; [constructor|]. rewrite filter_cons. case_decide; [|done].
  constructor; [done|]. apply Forall_forall. intros y [_ Hy]%list_elem_of_filter.
  by apply (proj1 (Forall_forall _ _) Hx).
Qed.

Lemma last_filter {A} (P : A → Prop) `{∀ x, Decision (P x)} l x :
  last l = Some x → P x → last (filter P l) = Some x.
Proof.
  intros (l' & ->)%last_Some HP. rewrite filter_app, filter_cons, decide_True by done. apply last_snoc.
Qed.

(** Deleting configs leaves a sublist, which ends as before unless the newest is
    among them. *)
Lemma clusterConfigs_pruned req keys s s' :
  configsOk req s → keyed s' → pruned keys s s' →
  configsOk req s' ∧ clusterConfigs req s' `sublist_of` clusterConfigs req s ∧
  ∀ c, last (clusterConfigs req s) = Some c → cf_key c ∉ keys → last (clusterConfigs req s') = Some c.
Proof.
  intros Hok Hk' [_ Hsub Hkeep]. pose proof (co_keyed _ _ Hok) as Hk.
  assert (Hok' : configsOk req s').
  { split; [done| |].
    - intros c [Hc Hsel]%elem_of_clusterConfigs; [|done]. apply (co_named _ _ Hok).
      apply elem_of_clusterConfigs; [done|]. split; [by apply Hsub|done].
    - intros n c Hn Hc. eapply (co_taken _ _ Hok); [done|by apply Hsub]. }
  assert (Heq : clusterConfigs req s' =
    filter (λ c, is_Some (st_configs s' !! cf_key c)) (clusterConfigs req s)).
  { apply clusterConfigs_unique; [done|by apply NoDup_filter, NoDup_clusterConfigs|..].
    - apply sorted_filter, clusterConfigs_sorted.
    - intros c. rewrite list_elem_of_filter, !elem_of_clusterConfigs by done. split.
      + intros ([d Hd] & Hc & Hsel). split; [|done]. pose proof (Hsub _ _ Hd) as Hd'. congruence.
      + intros [Hc Hsel]. split; [by eexists|]. split; [by apply Hsub|done]. }
  split; [done|]. rewrite Heq. split; [apply sublist_filter|]. intros c Hc Hn. apply last_filter; [done|].
  exists c. apply Hkeep; [|done]. by apply last_Some_elem_of, elem_of_clusterConfigs in Hc as [Hc _].
Qed.

(** ** Requests that spare Redkeys and configs *)

Definition spares (T : Type) (q : Req T) : Prop :=
  match q with
  | Create k _ | Delete k _ | Patch k _ _ => k ≠ KRedkey ∧ k ≠ KRedkeyConfig
  | StatusUpdate _ => False
  | _ => True
  end.

(** Redkeys and configs are as they were. *)
Definition same (s s' : Store) : Prop := st_redkeys s' = st_redkeys s ∧ st_configs s' = st_configs s.

Lemma contract_spares `{K8sLib} {T} (q : Req T) c s x s' : spares T q → contract q c s x s' → same s s'.
Proof.
  intros Hq Hc. destruct q as [| |k o|k key|k base new| | | | | | | | | | |]; simpl in Hq, Hc; try by rewrite ?Hc.
  - by destruct Hc as [-> _].
  - by destruct Hc as [-> _].
  - destruct x; [|by destruct Hc as [-> _]]. destruct Hc as (_ & o' & _ & ->). by destruct k, Hq.
  - destruct x; [|by destruct Hc as [-> _]]. destruct Hc as [_ ->]. by destruct k, Hq.
  - destruct x; [|by rewrite Hc]. destruct Hc as (cur & o' & _ & _ & _ & ->). by destruct k, Hq.
Qed.

Section failing.
Context `{K8sLib, !K8sLaws, !KubeClient W, !KubeQuiet W}.

Lemma quiet_keyed (w : W) : keyed (server w).
Proof. intros k key o. apply server_key. Qed.

Lemma wp_spares {A} (p : prog A) (w : W) :
  all_calls spares p → wp p w (λ _ w', same (server w) (server w')).
Proof.
  intros Hp. apply (wp_store_invariant (same (server w)) spares); [..|done|done].
  - by intros s s' ->%quiet_rely.
  - intros T q c s x s' Hq Hc [H1 H2]. destruct (contract_spares q c s x s' Hq Hc). split; congruence.
Qed.

Lemma spares_ensureRobin cluster :
  all_calls spares (ensureRBAC cluster) ∧ all_calls spares (ensureRobinDeployment cluster).
Proof.
  split.
  - unfold ensureRBAC, ensureServiceAccount, ensureRole, ensureRoleBinding.
    destruct (SetControllerReference cluster (rbacMeta cluster)); [|done].
    repeat (apply all_calls_go_bind; [|intros ?]); follow_calls; done.
  - unfold ensureRobinDeployment. destruct (SetControllerReference cluster _); follow_calls; done.
Qed.

Lemma spares_metrics cluster active : all_calls spares (recordRedkeyMetrics cluster active).
Proof.
  eapply all_calls_mono; [|apply recordMetrics_calls]. intros T q Hq. by destruct q.
Qed.

(** ** Operations whose requests may fail *)

Abbreviation onStore P := (λ _ w', P (server w')).

Lemma same_configs req s s' : same s s' → clusterConfigs req s' = clusterConfigs req s.
Proof. intros [_ Hc]. unfold clusterConfigs, selected_configs. by rewrite Hc. Qed.

Lemma same_ok req s (w' : W) : same s (server w') → configsOk req s → configsOk req (server w').
Proof. intros [_ Hc]. apply configsOk_frame; [apply quiet_keyed|done]. Qed.

(** An error ends the reconcile at once. *)
Lemma wp_stage_quiet {A} stage (p : go A) k (w : W) (P : Store → Prop) :
  wp p w (λ r w1, match r with Ok a => wp (k a) w1 (onStore P) | Err _ => P (server w1) end) →
  wp (at_stage stage p k) w (onStore P).
Proof.
  intros Hp. apply wp_bind. eapply wp_mono; [exact Hp|]. intros [a|e] w1 HP; [done|].
  apply wp_bind, wp_call_quiet. intros w2 [] Hs. simpl in Hs. apply wp_ret. by rewrite Hs.
Qed.

Lemma wp_metrics_quiet cluster active (w : W) (P : Store → Prop) (out : Result * option error) :
  (∀ w' : W, same (server w) (server w') → P (server w')) →
  wp (recordRedkeyMetrics cluster active ≫= λ _, mret out) w (onStore P).
Proof.
  intros HP. apply wp_bind. eapply wp_mono; [apply wp_spares, spares_metrics|]. intros [] w' Hs.
  by apply wp_ret, HP.
Qed.

Lemma wp_list_quiet cluster (w : W) Q :
  configsOk (key_of KRedkey cluster) (server w) →
  (∀ w', server w' = server w → Q (Ok (clusterConfigs (key_of KRedkey cluster) (server w))) w') →
  (∀ w' e, server w' = server w → Q (Err e) w') → wp (listConfigs cluster) w Q.
Proof.
  intros Hok HQ1 HQ2. apply wp_go_bind, wp_call_quiet. intros w' [l|e] [Hs Hl]; [|by apply HQ2].
  apply wp_ret. rewrite Hs in Hl. rewrite (selected_perm_sorted _ _ l Hok Hl). by apply HQ1.
Qed.

(** Either nothing happened, or the next config was created. *)
Lemma wp_create_quiet cluster (w : W) :
  let req := key_of KRedkey cluster in
  let configs := clusterConfigs req (server w) in
  configsOk req (server w) → (∀ c, c ∈ configs → seqOf c < 2 ^ 63 - 1) →
  wp (createNewConfig cluster (last configs)) w (λ r w',
    is_ok r = false ∧ same (server w) (server w') ∨
    ∃ c, createdFor cluster (nextSequence (last configs)) c ∧ configsOk req (server w') ∧
      clusterConfigs req (server w') = configs ++ [c] ∧ st_redkeys (server w') = st_redkeys (server w)).
Proof.
  intros req configs Hok Hmax. unfold createNewConfig.
  destruct (nextSequence_fresh req (server w) Hok Hmax) as (Hpos & Hlt & Hnone).
  fold configs in Hpos, Hlt, Hnone. set (n := nextSequence (last configs)) in *.
  destruct (newConfig_owner cluster n) as [refs ->]. apply wp_bind, wp_call_quiet. intros w1 [[]|e] Hc.
  - destruct Hc as (_ & c & (Hmeta & Hspec & Hst) & Hs).
    assert (Hc : createdFor cluster n c).
    { split; [done|]. split; [done|]. destruct Hmeta as (H1 & H2 & H3 & H4 & _).
      exact (conj H1 (conj H2 (conj H3 (conj H4 eq_refl)))). }
    pose proof (createdFor_stored cluster n c Hc) as Hsc. destruct (Hsc) as [Hkey _].
    change (key_of KRedkeyConfig _) with (mkKey (nn_Namespace req) (configName (nn_Name req) n)) in Hs.
    fold req in Hkey, Hsc. rewrite <- Hkey in Hs, Hnone.
    apply wp_bind, wp_call_quiet. intros w2 [] Hs2. simpl in Hs2. rewrite Hs in Hs2. apply wp_ret. right.
    exists c. split; [done|]. rewrite Hs2. split; [by eapply configsOk_create|].
    split; [by eapply clusterConfigs_create|done].
  - destruct Hc as [Hs Hex]. destruct (IsAlreadyExists e) eqn:He; [|by apply wp_ret; left; rewrite Hs].
    destruct (Hex eq_refl) as [c Hc]. discriminate (eq_trans (eq_sym Hc) Hnone).
Qed.

(** One deletion: the object is gone or it is still there. *)
Lemma wp_delete_quiet key (w : W) Q :
  (∀ w' r, pruned [key] (server w) (server w') → Q r w') → wp (call (Delete KRedkeyConfig key)) w Q.
Proof.
  intros HQ. apply wp_call_quiet. intros w' [[]|e] Hc; apply HQ.
  - destruct Hc as [_ ->]. apply pruned_sdel.
  - destruct Hc as [Hs _]. by apply pruned_refl; rewrite Hs.
Qed.

Lemma pruned_cons key keys s1 s2 s3 :
  pruned [key] s1 s2 → pruned keys s2 s3 → pruned (key :: keys) s1 s3.
Proof. apply (pruned_trans [key]). Qed.

Lemma pruned_weaken keys keys' s s' : keys ⊆ keys' → pruned keys s s' → pruned keys' s s'.
Proof. intros Hk [H1 H2 H3]. split; auto. Qed.

Lemma wp_deleteConfigs_quiet l (w : W) :
  wp (deleteConfigs l) w (λ _ w', pruned (cf_key <$> l) (server w) (server w')).
Proof.
  revert w. induction l as [|c l IH]; intros w; [by apply wp_ret, pruned_refl|].
  assert (Hrec : ∀ w1 : W, pruned [cf_key c] (server w) (server w1) →
    wp (deleteConfigs l) w1 (λ _ w', pruned (cf_key <$> c :: l) (server w) (server w'))).
  { intros w1 Hp. eapply wp_mono; [apply IH|]. intros r w' Hp'. by eapply pruned_cons. }
  apply wp_bind, wp_delete_quiet. intros w1 [[]|e] Hp.
  - apply wp_bind, wp_call_quiet. intros w2 [] Hs. simpl in Hs. apply Hrec. by rewrite Hs.
  - case_match; [by apply Hrec|]. apply wp_ret. eapply pruned_weaken; [|done]. set_solver.
Qed.

Lemma wp_deleteEach_quiet l (w : W) :
  wp (deleteEach l) w (λ _ w', pruned (cf_key <$> l) (server w) (server w')).
Proof.
  revert w. induction l as [|c l IH]; intros w; [by apply wp_ret, pruned_refl|].
  apply wp_go_bind, wp_bind, wp_delete_quiet. intros w1 r Hp.
  assert (Hrec : wp (deleteEach l) w1 (λ _ w', pruned (cf_key <$> c :: l) (server w) (server w'))).
  { eapply wp_mono; [apply IH|]. intros r' w' Hp'. by eapply pruned_cons. }
  destruct r as [[]|e]; [exact Hrec|]. case_match; [exact Hrec|]. apply wp_ret.
  eapply pruned_weaken; [|done]. set_solver.
Qed.

(** Cleanup spares the newest config, whatever fails. *)
Lemma take_spares_last req s i c :
  configsOk req s → (i < length (clusterConfigs req s))%nat → last (clusterConfigs req s) = Some c →
  cf_key c ∉ cf_key <$> take i (clusterConfigs req s).
Proof.
  intros Hok Hi Hlast. set (l := clusterConfigs req s) in *.
  assert (Hnd : NoDup (cf_key <$> l)) by (by apply (NoDup_config_keys req s); [|apply NoDup_clusterConfigs, Hok|]).
  rewrite <- (take_drop i l), fmap_app in Hnd. apply NoDup_app in Hnd as (_ & Hd & _).
  intros Hin. apply (Hd _ Hin), list_elem_of_fmap_2, last_Some_elem_of.
  rewrite <- (take_drop i l), last_app in Hlast. destruct (last (drop i l)) as [d|] eqn:E; [done|].
  apply last_None, (f_equal length) in E. rewrite length_drop in E. simpl in E. lia.
Qed.

Lemma pruned_trimmed cluster keys s (w' : W) :
  configsOk (key_of KRedkey cluster) s → pruned keys s (server w') →
  (rs_Primaries (rk_Spec cluster) ≠ 0 → ∀ c,
    last (clusterConfigs (key_of KRedkey cluster) s) = Some c → cf_key c ∉ keys) →
  trimmed cluster (clusterConfigs (key_of KRedkey cluster) s) (server w').
Proof.
  intros Hok Hp Hkeep.
  destruct (clusterConfigs_pruned _ keys s (server w') Hok (quiet_keyed w') Hp) as (H1 & H2 & H3).
  split; [done|done|]. intros Hrun. destruct (last (clusterConfigs _ s)) as [c|] eqn:Hlast.
  - by apply H3, Hkeep.
  - apply last_None in Hlast. rewrite Hlast in H2. by apply sublist_nil_r in H2 as ->.
Qed.

Lemma wp_cleanup_quiet cluster (w : W) :
  let configs := clusterConfigs (key_of KRedkey cluster) (server w) in
  configsOk (key_of KRedkey cluster) (server w) →
  wp (cleanupSupersededConfigs configs) w (λ _ w',
    st_redkeys (server w') = st_redkeys (server w) ∧ trimmed cluster configs (server w')).
Proof.
  intros configs Hok.
  assert (Hsame : st_redkeys (server w) = st_redkeys (server w) ∧ trimmed cluster configs (server w))
    by (split; [done|]; apply (pruned_trimmed cluster []); [done|by apply pruned_refl|intros _ c _; apply not_elem_of_nil]).
  unfold cleanupSupersededConfigs. case_bool_decide; [by apply wp_ret|].
  destruct (find_last_index isApplied configs) as [[|i]|] eqn:Hi; [by apply wp_ret| |by apply wp_ret].
  apply wp_bind. eapply wp_mono; [apply wp_deleteConfigs_quiet|]. intros r w' Hp.
  assert (Hdone : st_redkeys (server w') = st_redkeys (server w) ∧ trimmed cluster configs (server w')).
  { split; [apply Hp|]. apply (pruned_trimmed cluster (cf_key <$> take (S i) configs)); [done|exact Hp|]. intros _ c Hc.
    apply take_spares_last; [done|by eapply find_last_index_lt|done]. }
  destruct r as [[rest e]|]; by apply wp_ret.
Qed.

(** A status write, or none. *)
Definition perhapsMarked (cluster : Redkey) (s s' : Store) : Prop :=
  st_configs s' = st_configs s ∧ (st_redkeys s' = st_redkeys s ∨ marked cluster s s').

Lemma wp_statusUpdate_quiet cluster st (w : W) Q :
  st_redkeys (server w) !! key_of KRedkey cluster = Some cluster →
  rst_ObservedGeneration st = rk_Generation cluster →
  (∀ w' o, perhapsMarked cluster (server w) (server w') → Q (Ok o) w') →
  (∀ w' e, server w' = server w → Q (Err e) w') →
  wp (call (StatusUpdate (set_rk_Status st cluster))) w Q.
Proof.
  intros Hcur Hst HQ1 HQ2. apply wp_call_quiet. intros w' [o|e] Hc; [|by apply HQ2].
  destruct Hc as (cur & rv & Hcur' & _ & Ho & Hs). apply HQ1. simpl in Hcur'.
  injection (eq_trans (eq_sym Hcur') Hcur) as ->.
  split; [by rewrite Hs|]. right. exists rv, st. split; [by rewrite Hs, Ho|done].
Qed.

(** Failed attempts change nothing, whether they are retried or not. *)
Lemma wp_retry_quiet {A} n (p : go A) (s : Store) (P : Store → Prop) (w : W) :
  P s →
  (∀ w1 : W, server w1 = s → wp p w1 (λ r w', match r with Ok _ => P (server w') | Err _ => server w' = s end)) →
  server w = s → wp (retry_conflict n p) w (onStore P).
Proof.
  intros HP Hp. revert w. induction n as [|n IH]; intros w Hw; simpl.
  - eapply wp_mono; [by apply Hp|]. intros [x|e] w2 H2; [done|by rewrite H2].
  - apply wp_bind. eapply wp_mono; [by apply Hp|]. intros [x|e] w2 H2; [by apply wp_ret|].
    case_match; [by apply IH|]. apply wp_ret. by rewrite H2.
Qed.

Lemma wp_aggregate_quiet cluster configs (w : W) :
  st_redkeys (server w) !! key_of KRedkey cluster = Some cluster →
  wp (aggregateStatus cluster configs) w (λ _ w', perhapsMarked cluster (server w) (server w')).
Proof.
  intros Hcur. unfold aggregateStatus.
  assert (Hid : ∀ w' : W, server w' = server w → perhapsMarked cluster (server w) (server w'))
    by (intros w' ->; split; [done|by left]).
  destruct (selectActiveConfig configs) as [active|]; [|by apply wp_ret, Hid].
  apply wp_go_bind. destruct RetryOnConflict_spec as [n Hn]. rewrite Hn. clear Hn.
  assert (Hatt : ∀ w1 : W, server w1 = server w →
    wp (aggregateAttempt cluster active (rk_Generation cluster)) w1 (λ r w', match r with
      | Ok _ => perhapsMarked cluster (server w) (server w') | Err _ => server w' = server w end)).
  { intros w1 H1. apply wp_go_bind, wp_call_quiet. intros w2 [latest|e] [H2 Hl]; [|congruence].
    rewrite H2, H1 in Hl. change (st_redkeys (server w) !! key_of KRedkey cluster = Some latest) in Hl.
    rewrite Hcur in Hl. injection Hl as <-.
    apply wp_bind, wp_call_quiet. intros w3 now H3. simpl in H3. assert (H4 : server w3 = server w) by congruence.
    apply wp_go_bind, wp_statusUpdate_quiet; [by rewrite H4|done|..]; rewrite H4; [|done].
    intros w4 o Ho. by apply wp_ret. }
  eapply wp_mono; [apply (wp_retry_quiet n _ (server w) (perhapsMarked cluster (server w)) w); [by apply Hid|exact Hatt|done]|].
  intros [st|e] w' Hw; [|done]. by apply wp_ret.
Qed.

(** ** The end of a reconcile *)

(** What is left of [attempted] once the config that was due exists. *)
Definition finished (cluster : Redkey) (l : list RedkeyConfig) (s s' : Store) : Prop :=
  trimmed cluster l s' ∧ (st_redkeys s' = st_redkeys s ∨ marked cluster s s').

Lemma trimmed_frame cluster l s (w : W) :
  st_configs (server w) = st_configs s → trimmed cluster l s → trimmed cluster l (server w).
Proof.
  intros Hc [H1 H2 H3].
  assert (Hcc : clusterConfigs (key_of KRedkey cluster) (server w) = clusterConfigs (key_of KRedkey cluster) s)
    by (unfold clusterConfigs, selected_configs; by rewrite Hc).
  split; rewrite ?Hcc; [|done|done]. by apply (configsOk_frame _ s); [apply quiet_keyed| |].
Qed.

Lemma trimmed_same cluster s (w : W) :
  configsOk (key_of KRedkey cluster) s → same s (server w) →
  trimmed cluster (clusterConfigs (key_of KRedkey cluster) s) (server w).
Proof.
  intros Hok [H1 H2]. apply (pruned_trimmed cluster []); [done|by apply pruned_refl|].
  intros _ c _. apply not_elem_of_nil.
Qed.

(** A status write after the configs have been trimmed. *)
Lemma finished_marked cluster l s s1 (w : W) :
  st_redkeys s1 = st_redkeys s → trimmed cluster l s1 → perhapsMarked cluster s1 (server w) →
  finished cluster l s (server w).
Proof.
  intros Hr Ht [Hc Hm]. split; [by apply (trimmed_frame _ _ s1)|]. unfold marked in *. by rewrite Hr in Hm.
Qed.

Lemma finished_frame cluster l s s1 (w : W) :
  finished cluster l s s1 → same s1 (server w) → finished cluster l s (server w).
Proof.
  intros [Ht Hm] [Hr Hc]. split; [by apply (trimmed_frame _ _ s1)|]. unfold marked in *. by rewrite Hr.
Qed.

Lemma wp_finish_quiet r cluster (w : W) :
  let configs := clusterConfigs (key_of KRedkey cluster) (server w) in
  configsOk (key_of KRedkey cluster) (server w) →
  st_redkeys (server w) !! key_of KRedkey cluster = Some cluster →
  wp (finishReconcile r cluster configs) w (onStore (finished cluster configs (server w))).
Proof.
  intros configs Hok Hcur.
  assert (Hstep : configs ≠ [] → finishReconcile r cluster configs =
    (cleaned ← cleanupSupersededConfigs configs;
     let '(configs, cerr) := cleaned in
     match cerr with
     | Some e => stageError "cleanup_superseded_configs" e
     | None => at_stage "aggregate_status" (aggregateStatus cluster configs) (λ cluster,
         recordRedkeyMetrics cluster (selectActiveConfig configs) ≫= λ _, mret (mkResult (ResyncInterval r), None))
     end)) by by destruct configs.
  destruct (decide (configs = [])) as [Hnil|Hne].
  - assert (Hsame : ∀ w' : W, same (server w) (server w') → finished cluster configs (server w) (server w'))
      by (intros w' Hs; split; [by apply trimmed_same|by left; apply Hs]).
    rewrite Hnil in *. by apply wp_metrics_quiet.
  - rewrite Hstep by done. clear Hstep. apply wp_bind. eapply wp_mono; [by apply wp_cleanup_quiet|].
    intros [cfg [e|]] w1 [Hr Ht].
    + apply wp_bind, wp_call_quiet. intros w2 [] Hs. simpl in Hs. apply wp_ret. rewrite Hs. by split; [|left].
    + apply wp_stage_quiet. eapply wp_mono; [apply wp_aggregate_quiet; by rewrite Hr|]. intros out w2 Hm.
      assert (Hf : finished cluster configs (server w) (server w2)) by (by eapply finished_marked).
      destruct out as [cl|e]; [|exact Hf]. apply wp_metrics_quiet. intros w3 Hs. by eapply finished_frame.
Qed.

(** ** A whole reconcile *)

Section reconcile.
Context (cluster : Redkey) (s : Store).
Local Abbreviation req := (key_of KRedkey cluster).
Hypothesis Hlive : st_redkeys s !! req = Some cluster.
Hypothesis Hok : configsOk req s.
Hypothesis Hroom : ∀ c, c ∈ clusterConfigs req s → seqOf c < 2 ^ 63 - 1.

Lemma attempted_same (w : W) : same s (server w) → attempted cluster s (server w).
Proof.
  intros Hs. exists (clusterConfigs req s). split; [by left|]. split; [by apply trimmed_same|]. left. apply Hs.
Qed.

Lemma attempted_frame (s1 : Store) (w : W) :
  attempted cluster s s1 → same s1 (server w) → attempted cluster s (server w).
Proof.
  intros (l & Hg & Ht & Hm) [Hr Hc]. exists l. split; [done|]. split; [by apply (trimmed_frame _ _ s1)|].
  unfold marked in *. by rewrite Hr.
Qed.

(** When no config was due. *)
Lemma attempted_settled (s1 s' : Store) :
  same s s1 → finished cluster (clusterConfigs req s1) s1 s' →
  (rs_Primaries (rk_Spec cluster) ≠ 0 → configDue cluster (clusterConfigs req s) = false) →
  attempted cluster s s'.
Proof.
  intros Hs [Ht Hm] Hdue. rewrite (same_configs req s s1 Hs) in Ht. exists (clusterConfigs req s).
  split; [by left|]. split; [done|]. destruct Hs as [Hr _]. unfold marked in *. rewrite Hr in Hm.
  destruct Hm as [Hm|Hm]; [by left|right]. split; [done|]. auto.
Qed.

(** When the config that was due has been created. *)
Lemma attempted_created c (s1 s' : Store) :
  configDue cluster (clusterConfigs req s) = true →
  createdFor cluster (nextSequence (last (clusterConfigs req s))) c →
  st_redkeys s1 = st_redkeys s → finished cluster (clusterConfigs req s ++ [c]) s1 s' →
  attempted cluster s s'.
Proof.
  intros Hdue Hc Hr [Ht Hm]. exists (clusterConfigs req s ++ [c]). split; [right; by eauto|]. split; [done|].
  unfold marked in *. rewrite Hr in Hm. destruct Hm as [Hm|Hm]; [by left|right]. split; [done|].
  intros _ Heq. apply (f_equal length) in Heq. rewrite length_app in Heq. simpl in Heq. lia.
Qed.

(** A step that spares Redkeys and configs, and what follows it. *)
Lemma wp_spared {A} (p : prog A) (w : W) Q :
  all_calls spares p → same s (server w) → (∀ r w', same s (server w') → Q r w') → wp p w Q.
Proof.
  intros Hp [H1 H2] HQ. eapply wp_mono; [by apply wp_spares|]. intros r w' [H3 H4]. apply HQ. split; congruence.
Qed.

Lemma wp_listed (w : W) Q :
  same s (server w) → (∀ w', same s (server w') → Q (Ok (clusterConfigs req s)) w') →
  (∀ e w', same s (server w') → Q (Err e) w') → wp (listConfigs cluster) w Q.
Proof.
  intros Hs HQ1 HQ2. apply wp_list_quiet.
  - by apply (same_ok req s).
  - intros w' Heq. rewrite (same_configs req s) by done. apply HQ1. by rewrite Heq.
  - intros w' e Heq. apply HQ2. by rewrite Heq.
Qed.

(** Creating the config that is due, and what follows it. *)
Lemma wp_created (w : W) Q :
  same s (server w) → configDue cluster (clusterConfigs req s) = true →
  (∀ e w', attempted cluster s (server w') → Q (Err e) w') →
  (∀ w' r c, createdFor cluster (nextSequence (last (clusterConfigs req s))) c → configsOk req (server w') →
    clusterConfigs req (server w') = clusterConfigs req s ++ [c] → st_redkeys (server w') = st_redkeys s →
    Q r w') →
  wp (createNewConfig cluster (last (clusterConfigs req s))) w Q.
Proof.
  intros Hs Hdue HQ1 HQ2. pose proof (same_configs req s _ Hs) as Hcc. rewrite <- Hcc.
  eapply wp_mono; [apply wp_create_quiet; [by apply (same_ok req s)|by rewrite Hcc]|]. rewrite Hcc.
  intros r w' [[He Hs']|(c & H1 & H2 & H3 & H4)].
  - destruct r as [|e]; [done|]. apply HQ1, attempted_same. destruct Hs, Hs'. split; congruence.
  - apply (HQ2 _ _ c); [done|done|done|]. rewrite H4. apply Hs.
Qed.

Lemma created_finished c (s1 : Store) (w : W) :
  configsOk req s1 → clusterConfigs req s1 = clusterConfigs req s ++ [c] → same s1 (server w) →
  finished cluster (clusterConfigs req s ++ [c]) s1 (server w).
Proof. intros H1 <- H3. split; [by apply trimmed_same|left; apply H3]. Qed.

Lemma wp_running r (w : W) :
  rs_Primaries (rk_Spec cluster) ≠ 0 → same s (server w) →
  wp (at_stage "ensure_rbac" (ensureRBAC cluster) (λ _,
      at_stage "ensure_robin_deployment" (ensureRobinDeployment cluster) (λ _,
      at_stage "list_configs" (listConfigs cluster) (λ configs,
        if bool_decide (length configs = 0%nat) || needsNewConfig cluster (last configs) then
          at_stage "create_new_config" (createNewConfig cluster (last configs)) (λ _,
          at_stage "list_configs" (listConfigs cluster) (λ configs, finishReconcile r cluster configs))
        else finishReconcile r cluster configs)))) w (onStore (attempted cluster s)).
Proof.
  intros Hp Hs0. destruct (spares_ensureRobin cluster) as [Hrbac Hdep].
  apply wp_stage_quiet, wp_spared; [done|done|]. intros [[]|e] w1 Hs1; [|by apply attempted_same].
  apply wp_stage_quiet, wp_spared; [done|done|]. intros [[]|e] w2 Hs2; [|by apply attempted_same].
  apply wp_stage_quiet, wp_listed; [done| |intros e w3 Hs3; by apply attempted_same]. intros w3 Hs3.
  assert (Hdue : configDue cluster (clusterConfigs req s) =
    bool_decide (length (clusterConfigs req s) = 0%nat) || needsNewConfig cluster (last (clusterConfigs req s)))
    by (unfold configDue; by rewrite bool_decide_eq_false_2).
  rewrite <- Hdue. destruct (configDue cluster (clusterConfigs req s)) eqn:Hd.
  - apply wp_stage_quiet, wp_created; [done|done|intros e w4 Hw4; exact Hw4|]. intros w4 r4 c Hc Hok4 Hcc4 Hrk4.
    assert (Hafter : ∀ w5 : W, same (server w4) (server w5) → attempted cluster s (server w5)).
    { intros w5 Hs5. eapply attempted_created; [done|done|exact Hrk4|]. by eapply created_finished. }
    destruct r4 as [[]|e]; [|by apply Hafter].
    apply wp_stage_quiet, wp_list_quiet; [done| |intros w5 e Hw5; apply Hafter; by rewrite Hw5].
    intros w5 Hs5. rewrite <- Hs5. rewrite <- Hs5 in Hok4, Hcc4, Hrk4.
    eapply wp_mono; [apply wp_finish_quiet; [done|by rewrite Hrk4]|]. intros out w6 Hf. rewrite Hcc4 in Hf.
    by eapply attempted_created.
  - rewrite <- (same_configs req s (server w3) Hs3). eapply wp_mono.
    + apply wp_finish_quiet; [by apply (same_ok req s)|]. destruct Hs3 as [-> _]. done.
    + intros out w4 Hf. by eapply attempted_settled.
Qed.

(** Robin's objects are neither Redkeys nor configs. *)
Lemma spares_teardown :
  all_calls spares (deleteRobinDeployment cluster) ∧ all_calls spares (deleteRBAC cluster).
Proof.
  split; [follow_calls; done|]. unfold deleteRBAC.
  repeat (apply all_calls_go_bind; [|intros ?]); follow_calls; done.
Qed.

(** A scale to zero that got as far as deleting some of the configs. *)
Lemma attempted_zero (s1 s' : Store) :
  rs_Primaries (rk_Spec cluster) = 0 → st_redkeys s1 = st_redkeys s →
  trimmed cluster (clusterConfigs req s) s1 → st_configs s' = st_configs s1 → keyed s' →
  st_redkeys s' = st_redkeys s1 ∨ marked cluster s1 s' → attempted cluster s s'.
Proof.
  intros Hp Hr [T1 T2 _] Hc Hk Hm. exists (clusterConfigs req s). split; [by left|].
  assert (Hcc : clusterConfigs req s' = clusterConfigs req s1)
    by (unfold clusterConfigs, selected_configs; by rewrite Hc).
  split; [split; [by apply (configsOk_frame _ s1)|by rewrite Hcc|done]|].
  unfold marked in *. rewrite Hr in Hm. destruct Hm as [Hm|Hm]; [by left|right]. by split.
Qed.

Lemma wp_zeroed (s1 : Store) (w : W) :
  rs_Primaries (rk_Spec cluster) = 0 → st_redkeys s1 = st_redkeys s →
  trimmed cluster (clusterConfigs req s) s1 → server w = s1 →
  wp (updateStatusScaledToZero cluster) w (onStore (attempted cluster s)).
Proof.
  intros Hp Hr Ht <-. apply wp_bind, wp_call_quiet. intros w1 now Hs1. simpl in Hs1.
  apply wp_statusUpdate_quiet; [by rewrite Hs1, Hr|done| |]; rewrite Hs1.
  - intros w2 o [Hc Hm]. eapply attempted_zero; [done|done|done|done|apply quiet_keyed|done].
  - intros w2 e Hs2. eapply (attempted_zero (server w)); rewrite ?Hs2; first [done|by left|apply quiet_keyed].
Qed.

Lemma wp_torndown (w : W) (resync : Z) :
  rs_Primaries (rk_Spec cluster) = 0 → same s (server w) →
  wp (deleteRobinDeployment cluster ;;; deleteRBAC cluster ;;; deleteAllConfigs cluster ;;;
    (cluster' ⇐ updateStatusScaledToZero cluster; mret (Ok (mkResult resync, cluster')))) w
    (onStore (attempted cluster s)).
Proof.
  intros Hp Hs0. destruct spares_teardown as [Hdep Hrbac].
  apply wp_go_bind, wp_spared; [done|done|]. intros [[]|e] w1 Hs1; [|by apply attempted_same].
  apply wp_go_bind, wp_spared; [done|done|]. intros [[]|e] w2 Hs2; [|by apply attempted_same].
  apply wp_go_bind. apply wp_go_bind, wp_wrap_err, wp_call_quiet.
  intros w3 [items|e] [Hs3 _]; rewrite <- Hs3 in Hs2; [|by apply attempted_same].
  eapply wp_mono; [apply wp_deleteEach_quiet|]. intros r w4 Hpr.
  assert (Ht : trimmed cluster (clusterConfigs req s) (server w4)).
  { rewrite <- (same_configs req s (server w3)) by done.
    apply (pruned_trimmed cluster (cf_key <$> items)); [by apply (same_ok req s)|done|done]. }
  assert (Hr : st_redkeys (server w4) = st_redkeys s).
  { transitivity (st_redkeys (server w3)); [apply Hpr|apply Hs2]. }
  destruct r as [[]|e]; [|eapply attempted_zero; first [done|by left|apply quiet_keyed]].
  apply wp_go_bind. eapply wp_mono; [by eapply (wp_zeroed (server w4))|]. by intros [cl|e] w5 Hw5.
Qed.

Lemma wp_scaleToZero_quiet resync (w : W) :
  rs_Primaries (rk_Spec cluster) = 0 → same s (server w) →
  wp (reconcileScaleToZero resync cluster) w (onStore (attempted cluster s)).
Proof.
  intros Hp Hs0. destruct (spares_ensureRobin cluster) as [Hrbac Hdep].
  assert (Hst : ∀ w', same s (server w') → trimmed cluster (clusterConfigs req s) (server w'))
    by (intros w' Hs; by apply trimmed_same).
  apply wp_go_bind, wp_listed; [done| |intros e w1 Hs1; by apply attempted_same]. intros w1 Hs1.
  destruct (last (clusterConfigs req s)) as [c|] eqn:Hlast; last first.
  { apply wp_go_bind. eapply wp_mono; [apply (wp_zeroed (server w1)); [done|apply Hs1|by apply Hst|done]|].
    by intros [cl|e] w2 Hw2. }
  destruct (negb _) eqn:Hneg; [|case_match; [by apply wp_torndown|]];
    (apply wp_go_bind, wp_spared; [done|done|]; intros [[]|e] w2 Hs2; [|by apply attempted_same];
     apply wp_go_bind, wp_spared; [done|done|]; intros [[]|e] w3 Hs3; [|by apply attempted_same]).
  - assert (Hdue : configDue cluster (clusterConfigs req s) = true)
      by (unfold configDue; by rewrite bool_decide_eq_true_2, Hlast).
    apply wp_go_bind. rewrite <- Hlast. apply wp_created; [done|done|intros e w4 Hw4; exact Hw4|].
    intros w4 r4 d Hd Hok4 Hcc4 Hrk4.
    assert (Hafter : attempted cluster s (server w4)).
    { eapply attempted_created; [done|done|exact Hrk4|]. by eapply created_finished. }
    by destruct r4.
  - apply wp_go_bind. eapply wp_mono; [apply wp_aggregate_quiet; destruct Hs3 as [-> _]; done|].
    intros out w4 [Hc Hm].
    assert (Hafter : attempted cluster s (server w4)).
    { eapply attempted_zero; [done|apply Hs3|by apply Hst|done|apply quiet_keyed|done]. }
    by destruct out.
Qed.
End reconcile.

(** Whatever fails on the way, and wherever the operator stops. *)
Lemma wp_attempted r (cluster : obj KRedkey) (w : W) :
  let req := key_of KRedkey cluster in
  st_redkeys (server w) !! req = Some cluster → configsOk req (server w) →
  (∀ c, c ∈ clusterConfigs req (server w) → seqOf c < 2 ^ 63 - 1) →
  wp (Reconcile r req) w (onStore (attempted cluster (server w))).
Proof.
  intros req Hlive Hok Hroom. set (s := server w) in *.
  apply wp_bind, wp_call_quiet. intros w1 [o|e] [Hs1 Hget]; fold s in Hs1, Hget; rewrite Hs1 in Hget.
  - injection (eq_trans (eq_sym Hget) Hlive) as ->.
    assert (Hsame : same s (server w1)) by by rewrite Hs1.
    case_bool_decide as Hp; [|by apply wp_running].
    apply wp_stage_quiet. eapply wp_mono; [by apply wp_scaleToZero_quiet|].
    intros [[res cl]|e] w2 Ha; [|done]. apply wp_metrics_quiet. intros w3 Hs3. by eapply attempted_frame.
  - destruct (IsNotFound e) eqn:He; [discriminate (eq_trans (eq_sym Hlive) (Hget eq_refl))|].
    apply wp_bind, wp_call_quiet. intros w2 [] Hs2. simpl in Hs2. apply wp_ret.
    apply attempted_same; [done|]. by rewrite Hs2, Hs1.
Qed.
End failing.

(** ** A client that fails on schedule *)

(** The answer to a request that does not get through to the API server. *)
Definition unanswered {T} (q : Req T) : option T :=
  let e := OtherError "connection refused" in
  match q in Req T return option T with
  | Get _ _ => Some (Err e)
  | ListConfigs _ _ => Some (Err e)
  | Create _ _ => Some (Err e)
  | Delete _ _ => Some (Err e)
  | Patch _ _ _ => Some (Err e)
  | StatusUpdate _ => Some (Err e)
  | _ => None
  end.

(** A client with a schedule of which of its requests get through; past the end
    of it none does, as if the operator had been stopped. *)
Definition Faulty (W : Type) : Type := W * list bool.

Section faulty.
Context `{K8sLib, !KubeClient W}.

Definition faulty_handle {T} (q : Req T) (w : Faulty W) : Faulty W * T :=
  let through := let '(w1, r) := handle q w.1 in ((w1, tail w.2), r) in
  match unanswered q with
  | None => let '(w1, r) := handle q w.1 in ((w1, w.2), r)
  | Some r => match w.2 with true :: _ => through | _ => ((w.1, tail w.2), r) end
  end.

#[global] Instance faulty_client : KubeClient (Faulty W) := {
  handle := @faulty_handle;
  server := λ w, server w.1;
  cache := λ w, cache w.1;
  past := λ w, past w.1;
  memory := λ w, memory w.1;
  rely := rely;
}.

(** A request is either served by the client below or unanswered. *)
Lemma faulty_cases {T} (q : Req T) (w w' : Faulty W) r :
  handle q w = (w', r) → handle q w.1 = (w'.1, r) ∨ w'.1 = w.1 ∧ unanswered q = Some r.
Proof.
  simpl. unfold faulty_handle. destruct (handle q w.1) as [w1 r1] eqn:Hh, (unanswered q) as [x|] eqn:Hu.
  - destruct w.2 as [|[] l]; intros [= <- <-]; [by right|by left|by right].
  - intros [= <- <-]. by left.
Qed.

#[global] Instance faulty_quiet : KubeQuiet W → KubeQuiet (Faulty W).
Proof.
  intros HQ. split; [split|..]; simpl.
  - intros T q w w' r [Hh|[Hw Hu]]%faulty_cases; [by apply (handle_contract _ q w.1)|].
    exists (server w.1). rewrite Hw. split; [done|]. split; [intros key o; apply past_server|].
    by destruct q; simplify_eq Hu; intros <-.
  - intros T q w w' r [Hh|[-> Hu]]%faulty_cases; [by apply handle_memory|]. by destruct q; simplify_eq Hu.
  - intros w. apply server_key.
  - intros w. apply cache_key.
  - intros T q w w' r key rv o [Hh|[-> _]]%faulty_cases; [by eapply past_mono|done].
  - intros w. apply past_server.
  - intros w. apply past_cache.
  - intros w. apply quiet_fresh.
  - apply quiet_rely.
Qed.
End faulty.

(** ** Failures are contained *)

Section contained.
Context `{K8sLib, !K8sLaws, !KubeClient W, !KubeQuiet W}.

(** C12: failures are contained.  Let any requests of a reconcile fail, or the
    operator be stopped at any of them.  Afterwards at most the config that was
    due has been added to the cluster's, every other config is one that was there
    before, unchanged, and of all Redkeys only this one may have changed, in its
    status alone.  If the spec asks for primaries (a cluster that scales to zero
    drops its configs in the end), the newest config is still there too, and if the
    generation has become observed by this reconcile, then the newest config was
    created by it or none was due. *)
Theorem Reconcile_failures_contained (r : RedkeyReconciler) (cluster : Redkey) (w w' : W)
    (out : Result * option error) :
  let req := key_of KRedkey cluster in
  let before := clusterConfigs req (server w) in
  st_redkeys (server w) !! req = Some cluster → configsOk req (server w) →
  (∀ c, c ∈ before → seqOf c < 2 ^ 63 - 1) → exec (Reconcile r req) w = (w', out) →
  configsOk req (server w') ∧
  ∃ l, (l = before ∨ configDue cluster before = true ∧
      ∃ c, createdFor cluster (nextSequence (last before)) c ∧ l = before ++ [c]) ∧
    clusterConfigs req (server w') `sublist_of` l ∧
    (rs_Primaries (rk_Spec cluster) ≠ 0 → last (clusterConfigs req (server w')) = last l) ∧
    (∀ key, key ≠ req → st_redkeys (server w') !! key = st_redkeys (server w) !! key) ∧
    ∃ cluster', st_redkeys (server w') !! req = Some cluster' ∧ rk_Spec cluster' = rk_Spec cluster ∧
      rk_Generation cluster' = rk_Generation cluster ∧
      (rst_ObservedGeneration (rk_Status cluster) ≠ rk_Generation cluster →
       rst_ObservedGeneration (rk_Status cluster') = rk_Generation cluster →
       rs_Primaries (rk_Spec cluster) ≠ 0 → l = before → configDue cluster before = false).
Proof.
  intros req before Hlive Hok Hroom He.
  destruct (wp_exec _ _ _ _ _ (wp_attempted r cluster w Hlive Hok Hroom) He) as (l & Hg & [T1 T2 T3] & Hm).
  split; [done|]. exists l. split; [exact Hg|]. split; [done|]. split; [done|].
  destruct Hm as [->|[(rv & st & -> & _) Hdue]].
  - split; [done|]. exists cluster. split; [done|]. split; [done|]. split; [done|]. by intros Hn Hob.
  - split; [intros key Hk; by apply lookup_insert_ne|]. exists (withStatus cluster rv st).
    split; [apply lookup_insert_eq|]. split; [done|]. split; [done|]. intros _ _. exact Hdue.
Qed.
End contained.

(** A reconcile that is stopped after its eleventh request has created the first
    config and published nothing. *)
Lemma Reconcile_failures_contained_witness :
  let cluster := sampleRedkey 1 3 false zeroStatus in
  let w : Faulty (World false) := (sampleWorld cluster [], replicate 11 true) in
  let w' := (exec (Reconcile (H := fake_lib) (mkReconciler 30 1) sampleKey) w).1 in
  (λ o, rst_ObservedGeneration (rk_Status o)) <$> st_redkeys (server w') !! sampleKey = Some 0 ∧
  size (st_configs (server w')) = 1%nat ∧ configsOk sampleKey (server w').
Proof.
  intros cluster w w'. split; [vm_compute; reflexivity|]. split; [vm_compute; reflexivity|].
  destruct (Reconcile_failures_contained (H := fake_lib) (W := Faulty (World false)) (mkReconciler 30 1)
    cluster w w' (exec (Reconcile (H := fake_lib) (mkReconciler 30 1) sampleKey) w).2) as [Hok _].
  - apply (sample_runnable 2 1 zeroStatus).
  - apply (sample_runnable 2 1 zeroStatus).
  - intros c Hc. exfalso. revert Hc. apply not_elem_of_nil.
  - apply surjective_pairing.
  - exact Hok.
Defined.
