(* ===== verification/ScaleZeroProofs.v ===== *)
(** * Correctness of scaling to zero *)

From S2P Require Import Prelude GoLib K8s Types Effects Client Logic FakeCluster.
From S2P Require Import Robin Config Metrics ScaleZero Controller Samples RobinProofs ConfigProofs.
From S2P Require Import ConfigStore Footprint ControllerProofs.
Local Open Scope Z_scope.

(** ** Deletions, whatever the API answers *)

(** The teardown, in order: Robin first, its RBAC, then the configs. *)
Definition robinRefs (cluster : Redkey) : list (Kind * NamespacedName) :=
  [(KDeployment, robinKey cluster); (KRoleBinding, robinKey cluster);
   (KRole, robinKey cluster); (KServiceAccount, robinKey cluster)].

(** A program that asks to delete [l] in order, stopping at the first error. *)
Definition deletesInOrder {A} (l : list (Kind * NamespacedName)) (p : go A) : Prop :=
  ∀ tr out, runs p tr out → deletions tr `prefix_of` l ∧ (is_ok out = true → deletions tr = l).

Lemma deletesInOrder_bind {A B} l1 l2 (p : go A) (k : A → go B) :
  deletesInOrder l1 p → (∀ a, deletesInOrder l2 (k a)) → deletesInOrder (l1 ++ l2) (go_bind p k).
Proof.
  intros Hp Hk tr out [(tr1 & tr2 & a & -> & H1 & H2)|(e & H1 & ->)]%runs_go_bind.
  - destruct (Hp _ _ H1) as [_ Heq], (Hk a _ _ H2) as [Hpre Hok].
    rewrite deletions_app, Heq by done. split; [by apply prefix_app|].
    intros Hb. by rewrite Hok.
  - destruct (Hp _ _ H1) as [Hpre _]. split; [by apply prefix_app_r|done].
Qed.

Lemma deletesInOrder_ret {A} (r : res error A) : deletesInOrder [] (mret r).
Proof. intros tr out [-> ->]. done. Qed.

Lemma deleteIgnoreNotFound_order msg k key :
  deletesInOrder [(k, key)] (deleteIgnoreNotFound msg k key).
Proof.
  intros tr out ([u|e] & tr' & -> & Hr); simpl in Hr; [|case_match]; destruct Hr as [-> ->]; done.
Qed.

Lemma deleteEach_order l : deletesInOrder (configRef <$> l) (deleteEach l).
Proof.
  induction l as [|c l IH]; [apply deletesInOrder_ret|].
  apply (deletesInOrder_bind [configRef c]); [apply deleteIgnoreNotFound_order|done].
Qed.

Lemma deleteRBAC_order cluster :
  deletesInOrder [(KRoleBinding, robinKey cluster); (KRole, robinKey cluster);
    (KServiceAccount, robinKey cluster)] (deleteRBAC cluster).
Proof.
  apply (deletesInOrder_bind [_] [_; _]); [apply deleteIgnoreNotFound_order|intros _].
  apply (deletesInOrder_bind [_] [_]); [apply deleteIgnoreNotFound_order|intros _].
  apply deleteIgnoreNotFound_order.
Qed.

(** The list call of [deleteAllConfigs], in a trace. *)
Definition listedIn (cluster : Redkey) (items : list RedkeyConfig) (tr : list event) : Prop :=
  Ev (ListConfigs (rk_Namespace cluster) (rk_Name cluster)) (Ok items) ∈ tr.

Lemma deleteAllConfigs_order cluster tr out :
  runs (deleteAllConfigs cluster) tr out →
  ∃ items, deletions tr `prefix_of` (configRef <$> items) ∧ (items = [] ∨ listedIn cluster items tr) ∧
    (is_ok out = true → deletions tr = configRef <$> items).
Proof.
  intros [(tr1 & tr2 & items & -> & H1 & H2)|(e & H1 & ->)]%runs_go_bind.
  - apply runs_bind in H1 as (tr3 & tr4 & r & -> & H3%runs_call & H4).
    destruct r as [l|e]; destruct H4 as [-> [= ->]]. rewrite H3.
    destruct (deleteEach_order l _ _ H2) as [Hp Hok]. exists l.
    split; [done|]. split; [|done]. right. left.
  - exists []. apply runs_bind in H1 as (tr3 & tr4 & r & -> & H3%runs_call & H4).
    destruct r as [l|e']; destruct H4 as [-> ?]; simplify_eq. simpl. split; [done|]. split; [by left|done].
Qed.

(** Case C of [reconcileScaleToZero]. *)
Lemma teardown_order `{K8sLib} resync cluster tr out :
  runs (deleteRobinDeployment cluster ;;; deleteRBAC cluster ;;; deleteAllConfigs cluster ;;;
    (cluster' ⇐ updateStatusScaledToZero cluster; mret (Ok (mkResult resync, cluster')))) tr out →
  ∃ items, deletions tr `prefix_of` robinRefs cluster ++ (configRef <$> items) ∧
    (items = [] ∨ listedIn cluster items tr) ∧
    (is_ok out = true → deletions tr = robinRefs cluster ++ (configRef <$> items)).
Proof.
  intros Hr.
  (* what follows Robin's Deployment and RBAC *)
  assert (Hrest : ∀ tr, runs (deleteAllConfigs cluster ;;;
      (cluster' ⇐ updateStatusScaledToZero cluster; mret (Ok (mkResult resync, cluster')))) tr out →
    ∃ items, deletions tr `prefix_of` (configRef <$> items) ∧ (items = [] ∨ listedIn cluster items tr) ∧
      (is_ok out = true → deletions tr = configRef <$> items)).
  { intros tr0 [(tr1 & tr2 & [] & -> & H1 & H2)|(e & H1 & ->)]%runs_go_bind;
      apply deleteAllConfigs_order in H1 as (items & Hp & Hl & Hok); exists items; [|done].
    assert (Hd2 : deletions tr2 = []).
    { destruct H2 as (now & tr3 & -> & [u|e] & tr4 & -> & [-> _]); done. }
    rewrite deletions_app, Hd2, app_nil_r. split; [done|]. split; [|by intros _; apply Hok].
    destruct Hl as [->|Hl]; [by left|right]. unfold listedIn in *. set_solver. }
  apply runs_go_bind in Hr as [(tr1 & tr2 & [] & -> & H1 & Hr)|(e & H1 & ->)]; last first.
  { apply deleteIgnoreNotFound_order in H1 as [Hp _]. exists []. split; [|by split; [left|]].
    by apply (prefix_app_r _ [(KDeployment, robinKey cluster)]). }
  apply deleteIgnoreNotFound_order in H1 as [_ Hd1]. rewrite deletions_app, Hd1 by done.
  apply runs_go_bind in Hr as [(tr3 & tr4 & [] & -> & H2 & Hr)|(e & H2 & ->)]; last first.
  { apply deleteRBAC_order in H2 as [Hp _]. exists []. split; [|by split; [left|]].
    by apply (prefix_app [(KDeployment, robinKey cluster)]). }
  apply deleteRBAC_order in H2 as [_ Hd2]. rewrite deletions_app, Hd2 by done.
  destruct (Hrest tr4 Hr) as (items & Hp & Hl & Hok). exists items.
  split; [by apply (prefix_app (robinRefs cluster))|]. split.
  - destruct Hl as [->|Hl]; [by left|right]. unfold listedIn in *. set_solver.
  - intros Ho. by rewrite (Hok Ho).
Qed.

(** No request of a program deletes anything but a RoleBinding. *)
Definition sparing (T : Type) (q : Req T) : Prop :=
  match q with Delete k _ => k = KRoleBinding | _ => True end.

Lemma sparing_deletions {A} (p : prog A) tr a :
  all_calls sparing p → runs p tr a → ∀ k key, (k, key) ∈ deletions tr → k = KRoleBinding.
Proof.
  intros Hp Hr k key Hin. pose proof (all_calls_runs _ _ _ _ Hp Hr) as Hall.
  apply list_elem_of_omap in Hin as ([T q r] & He & Hq). rewrite Forall_forall in Hall.
  specialize (Hall _ He). simpl in Hall. by destruct q; simplify_eq.
Qed.

Section sparing.
Context `{K8sLaws}.

Lemma sparing_ensureRobin cluster :
  all_calls sparing (ensureRBAC cluster) ∧ all_calls sparing (ensureRobinDeployment cluster).
Proof.
  split.
  - unfold ensureRBAC, ensureServiceAccount, ensureRole, ensureRoleBinding.
    destruct (SetControllerReference cluster (rbacMeta cluster)); [|done].
    repeat (apply all_calls_go_bind; [|intros ?]); follow_calls.
  - unfold ensureRobinDeployment. destruct (SetControllerReference cluster _); follow_calls.
Qed.

Lemma sparing_createNewConfig cluster highest : all_calls sparing (createNewConfig cluster highest).
Proof.
  unfold createNewConfig. destruct (SetControllerReference cluster _); follow_calls.
Qed.

Lemma sparing_aggregateStatus cluster configs : all_calls sparing (aggregateStatus cluster configs).
Proof.
  unfold aggregateStatus. destruct (selectActiveConfig configs) as [c|]; [|done].
  apply all_calls_go_bind; [|done]. destruct RetryOnConflict_spec as [n ->]. apply all_calls_retry.
  apply all_calls_go_bind; [by repeat split|]. intros latest. split; [done|]. intros now.
  apply all_calls_go_bind; [by repeat split|done].
Qed.

End sparing.

(** C14: scaling to zero tears nothing down early.  Whatever the API answers,
    Robin's Deployment, its Role and ServiceAccount and the configs are only
    deleted once the listed config with the highest sequence asks for zero
    primaries and Robin has reported it applied; then they go in a fixed order,
    Robin's objects before the configs (so an interrupted teardown finds the
    applied config again), stopping at the first error, and a successful
    outcome means everything was deleted. *)
Theorem scaleToZero_teardown_guarded `{K8sLaws} (resync : Z) (cluster : Redkey) (tr : list event)
    (out : res error (Result * Redkey)) (k : Kind) (key : NamespacedName) :
  runs (reconcileScaleToZero resync cluster) tr out →
  (k, key) ∈ deletions tr → k ≠ KRoleBinding →
  ∃ items tr' c, tr = Ev (ListConfigs (rk_Namespace cluster) (rk_Name cluster)) (Ok items) :: tr' ∧
    last (sortConfigs items) = Some c ∧ rcs_Primaries (cf_Spec c) = 0 ∧ isApplied c = true ∧
    ∃ items', deletions tr `prefix_of` robinRefs cluster ++ (configRef <$> items') ∧
      (items' = [] ∨ listedIn cluster items' tr') ∧
      (is_ok out = true → deletions tr = robinRefs cluster ++ (configRef <$> items')).
Proof.
  intros Hr Hin Hk.
  assert (Hsp : ∀ (p : go (Result * Redkey)) tr', all_calls sparing p → runs p tr' out →
    (k, key) ∈ deletions tr' → False).
  { intros p tr' Hp Hr' Hin'. by apply Hk, (sparing_deletions p tr' out Hp Hr' k key). }
  apply runs_go_bind in Hr as [(tr1 & tr' & configs & -> & H1 & Hr)|(e & H1 & ->)]; last first.
  { destruct H1 as ([|] & ? & -> & [-> ?]); [done|]. inversion Hin. }
  apply runs_go_bind in H1 as [(? & ? & items & -> & ->%runs_call & [-> [= ->]])|(? & ? & [=])].
  simpl app in *. change (deletions (Ev _ _ :: tr')) with (deletions tr') in *.
  destruct (sparing_ensureRobin cluster) as [Hrbac Hdep].
  destruct (last (sortConfigs items)) as [c|] eqn:Hlast; last first.
  { exfalso. eapply Hsp; [|exact Hr|done]. follow_calls. }
  case_match eqn:Hprim.
  { exfalso. eapply Hsp; [|exact Hr|done]. repeat (apply all_calls_go_bind; [try done|intros ?]); [|done].
    apply sparing_createNewConfig. }
  case_bool_decide as Happ; last first.
  { exfalso. eapply Hsp; [|exact Hr|done]. repeat (apply all_calls_go_bind; [try done|intros ?]); [|done].
    apply sparing_aggregateStatus. }
  exists items, tr', c. split; [done|]. split; [done|].
  split; [by apply negb_false_iff, bool_decide_eq_true in Hprim|]. split; [by apply bool_decide_eq_true|].
  by eapply teardown_order.
Qed.

Lemma scaleToZero_teardown_guarded_witness :
  let c := sampleConfig 2 2 0 ConfigPhaseApplied ClusterStatusReady in
  let w := sampleWorld (sampleRedkey 2 0 false (statusObserved 1 3))
    [sampleConfig 1 1 3 ConfigPhaseApplied ClusterStatusReady; c] in
  let p := reconcileScaleToZero (H := fake_lib) 30 (sampleRedkey 2 0 false (statusObserved 1 3)) in
  (KRole, robinKeyOf sampleKey) ∈ deletions (trace p w) ∧
  ∃ items c', last (sortConfigs items) = Some c' ∧ rcs_Primaries (cf_Spec c') = 0 ∧ isApplied c' = true.
Proof.
  intros c w p.
  assert (Hin : (KRole, robinKeyOf sampleKey) ∈ deletions (trace p w)).
  { apply (bool_decide_unpack _). vm_compute. exact I. }
  split; [exact Hin|].
  destruct (scaleToZero_teardown_guarded (H := fake_lib) 30
    (sampleRedkey 2 0 false (statusObserved 1 3)) (trace p w) (exec p w).2 KRole (robinKeyOf sampleKey))
    as (items & tr' & c' & Htr & Hl & Hp & Ha & _).
  - apply exec_runs.
  - exact Hin.
  - discriminate.
  - exists items, c'. exact (conj Hl (conj Hp Ha)).
Defined.

(** ** Against an ideal client *)

Section ideal.
Context `{K8sLib, !K8sLaws, !KubeClient W, !KubeIdeal W}.

Lemma sdel_absent k key s : sget k s !! key = None → sdel k key s = s.
Proof. intros Hn. unfold sdel. rewrite delete_id by done. apply sset_sget. Qed.

Lemma wp_deleteIgnoreNotFound msg k key (w : W) Q :
  (∀ w', server w' = sdel k key (server w) → Q (Ok tt) w') →
  wp (deleteIgnoreNotFound msg k key) w Q.
Proof.
  intros HQ. apply wp_bind, wp_delete_ideal.
  - intros w' Hs _ _. by apply wp_ret, HQ.
  - intros w' Hs Hn _. apply wp_ret, HQ. by rewrite sdel_absent.
Qed.

(** The store without the configs [l]. *)
Definition dropConfigs (l : list RedkeyConfig) (s : Store) : Store :=
  foldl (λ s c, sdel KRedkeyConfig (cf_key c) s) s l.

Lemma dropConfigs_other l s k : k ≠ KRedkeyConfig → sget k (dropConfigs l s) = sget k s.
Proof.
  intros Hk. revert s. induction l as [|c l IH]; intros s; [done|].
  change (dropConfigs (c :: l) s) with (dropConfigs l (sdel KRedkeyConfig (cf_key c) s)).
  rewrite IH. by apply sget_sdel_ne.
Qed.

Lemma dropConfigs_lookup l s key c :
  st_configs (dropConfigs l s) !! key = Some c ↔ st_configs s !! key = Some c ∧ key ∉ cf_key <$> l.
Proof.
  revert s. induction l as [|d l IH]; intros s; [set_solver|].
  change (dropConfigs (d :: l) s) with (dropConfigs l (sdel KRedkeyConfig (cf_key d) s)).
  rewrite IH. csimpl. change (st_configs (sdel _ _ _)) with (delete (cf_key d) (st_configs s)).
  rewrite lookup_delete_Some, not_elem_of_cons. split; intros; intuition congruence.
Qed.

Lemma wp_deleteEach l (w : W) Q :
  (∀ w', server w' = dropConfigs l (server w) → Q (Ok tt) w') → wp (deleteEach l) w Q.
Proof.
  revert w. induction l as [|c l IH]; intros w HQ; [by apply wp_ret, HQ|].
  apply wp_go_bind, wp_deleteIgnoreNotFound. intros w1 Hs1. apply IH. intros w2 Hs2. apply HQ.
  by rewrite Hs2, Hs1.
Qed.

(** What a completed scale to zero leaves of a store: Robin's objects and the
    cluster's configs are gone, other objects are as they were, and the Redkey
    reports the cluster as scaled to zero. *)
Record tornDown (cluster : Redkey) (s s' : Store) : Prop := {
  td_robin : ∀ k, k ≠ KRedkey → k ≠ KRedkeyConfig → sget k s' = delete (robinKey cluster) (sget k s);
  td_configs : ∀ key c, st_configs s' !! key = Some c ↔
    st_configs s !! key = Some c ∧ selected (rk_Namespace cluster) (rk_Name cluster) c = false;
  td_status : ∃ rv now, st_redkeys s' = <[key_of KRedkey cluster := withStatus cluster rv
    (scaledToZeroStatus cluster now)]> (st_redkeys s);
}.

Lemma selected_dropped cluster s l key c :
  keyed s → l ≡ₚ selected_configs (rk_Namespace cluster) (rk_Name cluster) s →
  st_configs s !! key = Some c →
  key ∉ cf_key <$> l ↔ selected (rk_Namespace cluster) (rk_Name cluster) c = false.
Proof.
  intros Hk Hl Hc. pose proof (Hk KRedkeyConfig key c Hc) as Hkey. change (cf_key c = key) in Hkey.
  assert (Hin : key ∈ cf_key <$> l ↔ selected (rk_Namespace cluster) (rk_Name cluster) c = true).
  { rewrite Hl. unfold selected_configs. rewrite list_elem_of_fmap. split.
    - intros (d & -> & [Hsel Hd]%list_elem_of_filter).
      apply list_elem_of_fmap in Hd as ([key' d'] & -> & Hd%elem_of_map_to_list). simpl in *.
      pose proof (Hk KRedkeyConfig key' d' Hd) as Hkey'. change (cf_key d' = key') in Hkey'.
      rewrite Hkey' in Hc. rewrite Hc in Hd. by injection Hd as ->.
    - intros Hsel. exists c. split; [done|]. apply list_elem_of_filter. split; [done|].
      apply list_elem_of_fmap. exists (key, c). split; [done|]. by apply elem_of_map_to_list. }
  rewrite Hin. apply not_true_iff_false.
Qed.

Lemma wp_updateStatusScaledToZero cluster (w : W) Q :
  st_redkeys (server w) !! key_of KRedkey cluster = Some cluster →
  (∀ w' rv now, let cluster' := withStatus cluster rv (scaledToZeroStatus cluster now) in
    server w' = sput KRedkey (key_of KRedkey cluster) cluster' (server w) → Q (Ok cluster') w') →
  wp (updateStatusScaledToZero cluster) w Q.
Proof.
  intros Hcur HQ. apply wp_bind, wp_now_ideal. intros w1 now Hs1 _.
  apply wp_status_ideal with cluster; [by rewrite Hs1|done|].
  intros w2 rv o' -> Hs2 _. apply (HQ w2 rv now). by rewrite Hs2, Hs1.
Qed.

(** Case C. *)
Lemma wp_teardown resync cluster (w : W) Q :
  st_redkeys (server w) !! key_of KRedkey cluster = Some cluster →
  (∀ w' cluster', tornDown cluster (server w) (server w') → Q (Ok (mkResult resync, cluster')) w') →
  wp (deleteRobinDeployment cluster ;;; deleteRBAC cluster ;;; deleteAllConfigs cluster ;;;
    (cluster' ⇐ updateStatusScaledToZero cluster; mret (Ok (mkResult resync, cluster')))) w Q.
Proof.
  intros Hcur HQ. apply wp_go_bind, wp_deleteIgnoreNotFound. intros w1 Hs1.
  apply wp_go_bind. apply wp_go_bind, wp_deleteIgnoreNotFound. intros w2 Hs2.
  apply wp_go_bind, wp_deleteIgnoreNotFound. intros w3 Hs3.
  apply wp_deleteIgnoreNotFound. intros w4 Hs4. rewrite Hs3, Hs2, Hs1 in Hs4.
  assert (Hcfg4 : st_configs (server w4) = st_configs (server w)) by by rewrite Hs4.
  apply wp_go_bind. apply wp_go_bind, wp_wrap_err, wp_list_ideal. intros w5 items Hit Hs5 _.
  apply wp_deleteEach. intros w6 Hs6. rewrite Hs5 in Hs6.
  assert (Hoth : ∀ k, k ≠ KRedkeyConfig → sget k (server w6) = sget k (server w4))
    by (intros k Hk; rewrite Hs6; by apply dropConfigs_other).
  apply wp_go_bind, wp_updateStatusScaledToZero.
  { change (sget KRedkey (server w6) !! key_of KRedkey cluster = Some cluster).
    rewrite Hoth by done. by rewrite Hs4. }
  intros w7 rv now cl Hs7. apply wp_ret, HQ. split.
  - intros k H1 H2. rewrite Hs7, sget_sput_ne, Hoth, Hs4 by done. by destruct k.
  - intros key c. rewrite Hs7. change (st_configs (sput KRedkey _ _ _)) with (st_configs (server w6)).
    rewrite Hs6, dropConfigs_lookup, Hcfg4.
    assert (Hsel : st_configs (server w) !! key = Some c → key ∉ cf_key <$> items ↔
      selected (rk_Namespace cluster) (rk_Name cluster) c = false).
    { apply selected_dropped; [apply server_keyed|]. rewrite Hit. unfold selected_configs. by rewrite Hcfg4. }
    tauto.
  - exists rv, now. rewrite Hs7. simpl. f_equal. transitivity (st_redkeys (server w4)).
    + by apply (Hoth KRedkey).
    + by rewrite Hs4.
Qed.

(** A Redkey asking for no primaries, with its configs in order. *)
Record zeroing (cluster : Redkey) (s : Store) : Prop := {
  ze_live : st_redkeys s !! key_of KRedkey cluster = Some cluster;
  ze_primaries : rs_Primaries (rk_Spec cluster) = 0;
  ze_configs : configsOk (key_of KRedkey cluster) s;
}.

Lemma wp_Reconcile_zero r (cluster : obj KRedkey) (w : W) Q :
  zeroing cluster (server w) →
  (∀ w1, server w1 = server w →
    wp (reconcileScaleToZero (ResyncInterval r) cluster) w1 (λ out w2, ∃ res cluster',
      out = Ok (res, cluster') ∧ ∀ w3, server w3 = server w2 → Q (res, None) w3)) →
  wp (Reconcile r (key_of KRedkey cluster)) w Q.
Proof.
  intros [Hcur Hprim _] Hp. apply wp_bind, (wp_get_ideal KRedkey). intros w1 Hs1 _.
  assert (Hg : sget KRedkey (server w) !! key_of KRedkey cluster = Some cluster) by exact Hcur.
  rewrite Hg, bool_decide_eq_true_2 by done. apply wp_stage.
  eapply wp_mono; [by apply Hp|]. intros out w2 (res & cluster' & -> & HQ).
  exists (res, cluster'). split; [done|]. apply wp_bind, wp_recordMetrics. intros w3 Hs3.
  by apply wp_ret, HQ.
Qed.

Lemma wp_Reconcile_teardown r (cluster : obj KRedkey) c (w : W) Q :
  zeroing cluster (server w) →
  last (clusterConfigs (key_of KRedkey cluster) (server w)) = Some c →
  rcs_Primaries (cf_Spec c) = 0 → isApplied c = true →
  (∀ w', tornDown cluster (server w) (server w') → Q (mkResult (ResyncInterval r), None) w') →
  wp (Reconcile r (key_of KRedkey cluster)) w Q.
Proof.
  intros Hz Hlast Hprim Happ HQ. apply wp_Reconcile_zero; [done|]. intros w1 Hs1.
  apply wp_go_bind, wp_listConfigs; [rewrite Hs1; apply Hz|]. intros w2 Hs2 _.
  rewrite Hs1, Hlast, (bool_decide_eq_true_2 _ Hprim). simpl negb. cbv iota.
  change (bool_decide (rct_ConfigPhase (cf_Status c) = ConfigPhaseApplied)) with (isApplied c).
  rewrite Happ. rewrite Hs1 in Hs2. apply wp_teardown; [rewrite Hs2; apply Hz|].
  intros w3 cl' Htd. eexists _, cl'. split; [done|]. intros w4 Hs4. apply HQ.
  by rewrite Hs4, <- Hs2.
Qed.

(** Case B: a config with zero primaries is appended. *)
Lemma wp_Reconcile_handover r (cluster : obj KRedkey) c (w : W) Q :
  zeroing cluster (server w) → revisionUnclaimed cluster →
  last (clusterConfigs (key_of KRedkey cluster) (server w)) = Some c →
  rcs_Primaries (cf_Spec c) ≠ 0 →
  (∀ d, d ∈ clusterConfigs (key_of KRedkey cluster) (server w) → seqOf d < 2 ^ 63 - 1) →
  (∀ w' d, createdFor cluster (nextSequence (Some c)) d → zeroing cluster (server w') →
    clusterConfigs (key_of KRedkey cluster) (server w') =
      clusterConfigs (key_of KRedkey cluster) (server w) ++ [d] →
    robinInPlace cluster (server w') → st_redkeys (server w') = st_redkeys (server w) →
    Q (mkResult (ResyncInterval r), None) w') →
  wp (Reconcile r (key_of KRedkey cluster)) w Q.
Proof.
  intros Hz Hrev Hlast Hprim Hmax HQ. apply wp_Reconcile_zero; [done|]. intros w1 Hs1.
  apply wp_go_bind, wp_listConfigs; [rewrite Hs1; apply Hz|]. intros w2 Hs2 _.
  rewrite Hs1, Hlast, bool_decide_eq_false_2 by done. simpl negb. cbv iota.
  apply wp_go_bind. eapply wp_mono; [by apply wp_robin|]. intros r1 w3 [-> Hd].
  apply wp_go_bind. eapply wp_mono; [exact Hd|]. intros r2 w4 (-> & Hrob & Hf & _). clear Hd.
  rewrite Hs2, Hs1 in Hf.
  assert (Hcfg : st_configs (server w4) = st_configs (server w)) by (apply (Hf KRedkeyConfig); by right).
  assert (Hrk : st_redkeys (server w4) = st_redkeys (server w)) by (apply (Hf KRedkey); by left).
  assert (Hcc : clusterConfigs (key_of KRedkey cluster) (server w4) =
    clusterConfigs (key_of KRedkey cluster) (server w))
    by (unfold clusterConfigs, selected_configs; by rewrite Hcfg).
  apply wp_go_bind. rewrite <- Hlast, <- Hcc. apply wp_createNewConfig.
  - eapply configsOk_frame; [apply server_keyed|exact Hcfg|apply Hz].
  - by rewrite Hcc.
  - intros w5 d Hd Hok5 Hcc5 Hs5. rewrite Hcc, Hlast in Hd. apply wp_ret. eexists _, _. split; [done|].
    intros w6 Hs6. destruct Hz as [Hlive Hp0 _]. apply (HQ w6 d); [done| |by rewrite Hs6, Hcc5, Hcc| |].
    + split; [|done|by rewrite Hs6]. rewrite Hs6, Hs5. simpl. by rewrite Hrk.
    + rewrite Hs6, Hs5. eapply robinInPlace_frame; [|exact Hrob]. intros k H1 H2. by apply sget_sput_ne.
    + rewrite Hs6, Hs5. exact Hrk.
Qed.

(** Case A: nothing is left but the status to publish. *)
Lemma wp_Reconcile_zeroed r (cluster : obj KRedkey) (w : W) Q :
  zeroing cluster (server w) → clusterConfigs (key_of KRedkey cluster) (server w) = [] →
  (∀ w' rv now, server w' = sput KRedkey (key_of KRedkey cluster)
      (withStatus cluster rv (scaledToZeroStatus cluster now)) (server w) →
    Q (mkResult (ResyncInterval r), None) w') →
  wp (Reconcile r (key_of KRedkey cluster)) w Q.
Proof.
  intros Hz Hnil HQ. apply wp_Reconcile_zero; [done|]. intros w1 Hs1.
  apply wp_go_bind, wp_listConfigs; [rewrite Hs1; apply Hz|]. intros w2 Hs2 _. rewrite Hs1, Hnil.
  rewrite Hs1 in Hs2. apply wp_go_bind, wp_updateStatusScaledToZero; [rewrite Hs2; apply Hz|].
  intros w3 rv now cl Hs3. apply wp_ret. eexists _, _. split; [done|]. intros w4 Hs4.
  apply (HQ w4 rv now). by rewrite Hs4, Hs3, Hs2.
Qed.

(** Case D: Robin is kept in place and its progress published. *)
Lemma wp_Reconcile_waiting r (cluster : obj KRedkey) c (w : W) Q :
  zeroing cluster (server w) → revisionUnclaimed cluster →
  last (clusterConfigs (key_of KRedkey cluster) (server w)) = Some c →
  rcs_Primaries (cf_Spec c) = 0 → isApplied c = false →
  (∀ w' active rv now, robinInPlace cluster (server w') →
    st_configs (server w') = st_configs (server w) →
    st_redkeys (server w') = <[key_of KRedkey cluster := withStatus cluster rv
      (aggregatedStatus cluster active (rk_Generation cluster) now)]> (st_redkeys (server w)) →
    Q (mkResult (ResyncInterval r), None) w') →
  wp (Reconcile r (key_of KRedkey cluster)) w Q.
Proof.
  intros Hz Hrev Hlast Hprim Happ HQ. apply wp_Reconcile_zero; [done|]. intros w1 Hs1.
  apply wp_go_bind, wp_listConfigs; [rewrite Hs1; apply Hz|]. intros w2 Hs2 _.
  rewrite Hs1, Hlast, (bool_decide_eq_true_2 _ Hprim). simpl negb. cbv iota.
  change (bool_decide (rct_ConfigPhase (cf_Status c) = ConfigPhaseApplied)) with (isApplied c). rewrite Happ.
  apply wp_go_bind. eapply wp_mono; [by apply wp_robin|]. intros r1 w3 [-> Hd].
  apply wp_go_bind. eapply wp_mono; [exact Hd|]. intros r2 w4 (-> & Hrob & Hf & _). clear Hd.
  rewrite Hs2, Hs1 in Hf.
  assert (Hrk : st_redkeys (server w4) = st_redkeys (server w)) by (apply (Hf KRedkey); by left).
  destruct (selectActive_total (clusterConfigs (key_of KRedkey cluster) (server w))) as [active Hact].
  { intros Hnil. by rewrite Hnil in Hlast. }
  apply wp_go_bind, (wp_aggregateStatus cluster _ active); [done|rewrite Hrk; apply Hz|].
  intros w5 rv now cl Hs5. apply wp_ret. eexists _, _. split; [done|]. intros w6 Hs6.
  rewrite Hs5 in Hs6. apply (HQ w6 active rv now); rewrite Hs6.
  - eapply robinInPlace_frame; [|exact Hrob]. intros k H1 H2. by apply sget_sput_ne.
  - apply (Hf KRedkeyConfig). by right.
  - simpl. by rewrite Hrk.
Qed.

(** Nothing is left of the configs after a teardown. *)
Lemma tornDown_configs cluster s s' :
  keyed s' → tornDown cluster s s' → clusterConfigs (key_of KRedkey cluster) s' = [].
Proof.
  intros Hk Htd. destruct (clusterConfigs (key_of KRedkey cluster) s') as [|x l] eqn:Hx; [done|]. exfalso.
  assert (Hin : x ∈ clusterConfigs (key_of KRedkey cluster) s') by (rewrite Hx; left).
  apply elem_of_clusterConfigs in Hin as [Hlk Hsel]; [|done].
  apply (td_configs _ _ _ Htd) in Hlk as [_ Hn]. simpl in Hsel. unfold rk_Namespace, rk_Name in Hn. congruence.
Qed.

Lemma tornDown_configsOk cluster s s' :
  keyed s' → tornDown cluster s s' → configsOk (key_of KRedkey cluster) s → configsOk (key_of KRedkey cluster) s'.
Proof.
  intros Hk Htd Hok. apply (configsOk_delete _ s s' (λ key, ∃ c, st_configs s !! key = Some c ∧
    selected (rk_Namespace cluster) (rk_Name cluster) c = true)); [done| |done].
  intros key c. rewrite (td_configs _ _ _ Htd). split; intros [Hc Hn]; (split; [done|]).
  - intros (d & Hd & Hsel). rewrite Hc in Hd. injection Hd as <-. by rewrite Hn in Hsel.
  - apply not_true_is_false. intros Hsel. apply Hn. by exists c.
Qed.

(** C15: the end of scaling to zero, against an ideal client.  Once Robin has
    applied the config with zero primaries, a reconcile succeeds, deletes
    exactly Robin's four objects and the cluster's configs (those of other
    clusters stay), and publishes phase Ready with no replicas for the current
    generation, with the topology recorded before left in place. *)
Theorem Reconcile_scales_to_zero (r : RedkeyReconciler) (cluster : Redkey) (c : RedkeyConfig) (w w' : W)
    (out : Result * option error) :
  zeroing cluster (server w) →
  last (clusterConfigs (key_of KRedkey cluster) (server w)) = Some c →
  rcs_Primaries (cf_Spec c) = 0 → isApplied c = true →
  exec (Reconcile r (key_of KRedkey cluster)) w = (w', out) →
  out = (mkResult (ResyncInterval r), None) ∧
  (∀ k, k ≠ KRedkey → k ≠ KRedkeyConfig →
    sget k (server w') = delete (robinKey cluster) (sget k (server w))) ∧
  (∀ key d, st_configs (server w') !! key = Some d ↔ st_configs (server w) !! key = Some d ∧
    selected (rk_Namespace cluster) (rk_Name cluster) d = false) ∧
  ∃ cluster', st_redkeys (server w') !! key_of KRedkey cluster = Some cluster' ∧
    rst_Phase (rk_Status cluster') = PhaseReady ∧ rst_Replicas (rk_Status cluster') = 0 ∧
    rst_ObservedGeneration (rk_Status cluster') = rk_Generation cluster ∧
    conditionIsTrue (rst_Conditions (rk_Status cluster')) "Ready" = true ∧
    rst_LastAppliedPrimaries (rk_Status cluster') = rst_LastAppliedPrimaries (rk_Status cluster) ∧
    rst_LastAppliedReplicasPerPrimary (rk_Status cluster') =
      rst_LastAppliedReplicasPerPrimary (rk_Status cluster).
Proof.
  intros Hz Hlast Hprim Happ He.
  destruct (wp_exec _ _ (λ out w', out = (mkResult (ResyncInterval r), None) ∧
    tornDown cluster (server w) (server w')) _ _ (wp_Reconcile_teardown r cluster c w _ Hz Hlast Hprim Happ
      (λ w' H, conj eq_refl H)) He) as [-> [Hrob Hcfg (rv & now & Hst)]].
  split; [done|]. split; [done|]. split; [done|]. eexists. rewrite Hst.
  split; [apply lookup_insert_eq|]. repeat split; try done. simpl. unfold conditionIsTrue.
  rewrite !Find_Set_ne by done.
  destruct (Find_Set_eq (rst_Conditions (rk_Status cluster))
    (newCondition "Ready" ConditionTrue "ScaledToZero" "")) as (c' & Hf & Hs & _).
  simpl in Hf. rewrite Hf, Hs. done.
Qed.

(** Robin reports a config as applied: its status is rewritten. *)
Definition robinApplies (c : RedkeyConfig) (st : RedkeyConfigStatus) (s s' : Store) : Prop :=
  rct_ConfigPhase st = ConfigPhaseApplied ∧ ∃ rv, s' = sput KRedkeyConfig (cf_key c) (reportedOn rv st c) s.

(** The two reconciles of a scale to zero, with Robin's report in between. *)
Lemma scale_to_zero_run (r : RedkeyReconciler) (cluster : Redkey) (c : RedkeyConfig)
    (w w1 w2 w3 : W) (out1 out2 : Result * option error) :
  zeroing cluster (server w) → revisionUnclaimed cluster →
  last (clusterConfigs (key_of KRedkey cluster) (server w)) = Some c → rcs_Primaries (cf_Spec c) ≠ 0 →
  (∀ d, d ∈ clusterConfigs (key_of KRedkey cluster) (server w) → seqOf d < 2 ^ 63 - 1) →
  exec (Reconcile r (key_of KRedkey cluster)) w = (w1, out1) →
  (∀ d, last (clusterConfigs (key_of KRedkey cluster) (server w1)) = Some d →
    ∃ st, robinApplies d st (server w1) (server w2)) →
  exec (Reconcile r (key_of KRedkey cluster)) w2 = (w3, out2) →
  robinInPlace cluster (server w1) ∧
  out1 = (mkResult (ResyncInterval r), None) ∧ out2 = (mkResult (ResyncInterval r), None) ∧
  tornDown cluster (server w2) (server w3).
Proof.
  intros Hz Hrev Hlast Hprim Hmax He1 Hrobin He2.
  destruct (wp_exec _ _ (λ out w1, out = (mkResult (ResyncInterval r), None) ∧ ∃ d,
    createdFor cluster (nextSequence (Some c)) d ∧ zeroing cluster (server w1) ∧
    clusterConfigs (key_of KRedkey cluster) (server w1) =
      clusterConfigs (key_of KRedkey cluster) (server w) ++ [d] ∧
    robinInPlace cluster (server w1)) _ _
    (wp_Reconcile_handover r cluster c w _ Hz Hrev Hlast Hprim Hmax
      (λ w' d H1 H2 H3 H4 _, conj eq_refl (ex_intro _ d (conj H1 (conj H2 (conj H3 H4)))))) He1)
    as (-> & d & Hd & Hz1 & Hcc1 & Hrob).
  split; [done|]. split; [done|].
  destruct (Hrobin d) as (st & Hphase & rv2 & Hs2); [by rewrite Hcc1, last_snoc|].
  set (d' := reportedOn rv2 st d) in *.
  destruct (clusterConfigs_update _ (server w1) d d' _ [] (ze_configs _ _ Hz1) Hcc1) as [Hok2 Hcc2];
    [by eexists _, _|]. rewrite <- Hs2 in Hok2, Hcc2.
  assert (Hz2 : zeroing cluster (server w2)).
  { split; [rewrite Hs2; apply Hz1|apply Hz|done]. }
  assert (Hp2 : rcs_Primaries (cf_Spec d') = 0).
  { destruct Hd as (Hspec & _). change (rcs_Primaries (cf_Spec d) = 0). rewrite Hspec.
    rewrite (proj1 (defaultConfigSpec_topology _)). apply Hz. }
  assert (Hl2 : last (clusterConfigs (key_of KRedkey cluster) (server w2)) = Some d')
    by by rewrite Hcc2, last_snoc.
  destruct (wp_exec _ _ (λ out w3, out = (mkResult (ResyncInterval r), None) ∧
    tornDown cluster (server w2) (server w3)) _ _ (wp_Reconcile_teardown r cluster d' w2 _ Hz2 Hl2 Hp2
      (bool_decide_eq_true_2 _ Hphase) (λ w' H, conj eq_refl H)) He2) as [-> Htd].
  by split.
Qed.

(** C13: scaling to zero completes.  Starting from a cluster whose newest
    config still asks for primaries, one reconcile keeps Robin in place and
    hands it a config with zero primaries; once Robin has reported that config
    applied, the next reconcile removes Robin, its RBAC and every config of the
    cluster, and publishes phase Ready. *)
Theorem scale_to_zero_completes (r : RedkeyReconciler) (cluster : Redkey) (c : RedkeyConfig)
    (w w1 w2 w3 : W) (out1 out2 : Result * option error) :
  zeroing cluster (server w) → revisionUnclaimed cluster →
  last (clusterConfigs (key_of KRedkey cluster) (server w)) = Some c → rcs_Primaries (cf_Spec c) ≠ 0 →
  (∀ d, d ∈ clusterConfigs (key_of KRedkey cluster) (server w) → seqOf d < 2 ^ 63 - 1) →
  exec (Reconcile r (key_of KRedkey cluster)) w = (w1, out1) →
  (∀ d, last (clusterConfigs (key_of KRedkey cluster) (server w1)) = Some d →
    ∃ st, robinApplies d st (server w1) (server w2)) →
  exec (Reconcile r (key_of KRedkey cluster)) w2 = (w3, out2) →
  robinInPlace cluster (server w1) ∧
  out1 = (mkResult (ResyncInterval r), None) ∧ out2 = (mkResult (ResyncInterval r), None) ∧
  clusterConfigs (key_of KRedkey cluster) (server w3) = [] ∧
  (∀ k, k ≠ KRedkey → k ≠ KRedkeyConfig → sget k (server w3) !! robinKey cluster = None) ∧
  rst_Phase ∘ rk_Status <$> st_redkeys (server w3) !! key_of KRedkey cluster = Some PhaseReady.
Proof.
  intros Hz Hrev Hlast Hprim Hmax He1 Hrobin He2.
  destruct (scale_to_zero_run r cluster c w w1 w2 w3 out1 out2 Hz Hrev Hlast Hprim Hmax He1 Hrobin He2)
    as (Hrob & H1 & H2 & Htd).
  split; [done|]. split; [done|]. split; [done|]. split; [|split].
  - eapply tornDown_configs; [apply server_keyed|exact Htd].
  - intros k Hk1 Hk2. rewrite (td_robin _ _ _ Htd k Hk1 Hk2). apply lookup_delete_eq.
  - destruct (td_status _ _ _ Htd) as (rv & now & ->). rewrite lookup_insert_eq. done.
Qed.
End ideal.

(** ** Witnesses *)

(** The cluster "ns/rk", scaled to zero after its config 1 was applied. *)
Definition zeroRedkey : Redkey := sampleRedkey 2 0 false (statusObserved 1 3).

(** Configs [sampleConfig] builds are well named. *)
Lemma sample_configsOk r seq gen primaries phase status :
  1 ≤ seq → configsOk sampleKey (server (sampleWorld r [sampleConfig seq gen primaries phase status])).
Proof.
  intros Hpos. set (c := sampleConfig seq gen primaries phase status).
  assert (Hk : keyed (server (sampleWorld r [c]))) by apply server_keyed.
  assert (Hlk : ∀ key d, st_configs (server (sampleWorld r [c])) !! key = Some d ↔ key = cf_key c ∧ d = c).
  { intros key d.
    assert (Hm : st_configs (server (sampleWorld r [c])) = <[cf_key c := c]> ∅) by reflexivity.
    rewrite Hm, insert_empty, lookup_singleton_Some. naive_solver. }
  split; [done| |].
  - intros d [[_ ->]%Hlk _]%elem_of_clusterConfigs; done.
  - intros n d Hn [Hkey ->]%Hlk.
    assert (Hname : configName "rk" n = configName "rk" seq) by exact (f_equal nn_Name Hkey).
    apply configName_inj in Hname as [_ ->]; [done|lia|lia].
Qed.

Lemma sample_sequence r seq gen primaries phase status d :
  d ∈ clusterConfigs sampleKey (server (sampleWorld r [sampleConfig seq gen primaries phase status])) → seqOf d = seq.
Proof.
  set (c := sampleConfig seq gen primaries phase status). intros [Hd _]%elem_of_clusterConfigs; [|apply server_keyed].
  assert (Hm : st_configs (server (sampleWorld r [c])) = <[cf_key c := c]> ∅) by reflexivity.
  rewrite Hm, insert_empty, lookup_singleton_Some in Hd. by destruct Hd as [_ <-].
Qed.

Lemma zeroing_sample primaries phase :
  zeroing zeroRedkey (server (sampleWorld zeroRedkey [sampleConfig 1 1 primaries phase ClusterStatusReady])).
Proof.
  split; [by apply lookup_singleton_eq|done|]. by apply sample_configsOk.
Qed.

Lemma Reconcile_scales_to_zero_witness :
  let c := sampleConfig 1 2 0 ConfigPhaseApplied ClusterStatusReady in
  let w := sampleWorld zeroRedkey [c] in
  let w' := (exec (Reconcile (H := fake_lib) (mkReconciler 30 1) sampleKey) w).1 in
  (size (st_configs (server w)), size (st_configs (server w'))) = (1, 0)%nat ∧
  sget KDeployment (server w') = delete (robinKey zeroRedkey) (sget KDeployment (server w)).
Proof.
  intros c w w'. split; [vm_compute; reflexivity|].
  assert (Hz : zeroing zeroRedkey (server w)).
  { split; [by apply lookup_singleton_eq|done|]. by apply sample_configsOk. }
  destruct (Reconcile_scales_to_zero (H := fake_lib) (W := World false) (mkReconciler 30 1) zeroRedkey c w w'
    (exec (Reconcile (H := fake_lib) (mkReconciler 30 1) sampleKey) w).2 Hz) as (_ & Hk & _).
  - vm_compute. reflexivity.
  - reflexivity.
  - reflexivity.
  - apply surjective_pairing.
  - apply Hk; discriminate.
Defined.

(** Robin reports [c] in a world. *)
Definition reportConfig {lag} (c : RedkeyConfig) (w : World lag) : World lag.
Proof.
  refine {| w_raw := with_server (sput KRedkeyConfig (cf_key c) c (fw_server (w_raw w))) (w_raw w) |}.
  destruct (w_ok w) as (H1 & H2 & H3 & H4).
  split; [by apply (sput_keyed KRedkeyConfig c)|]. split; [done|]. split; [|done]. by apply logged_other.
Defined.

Lemma scale_to_zero_completes_witness :
  let rec := mkReconciler 30 1 in
  let w := sampleWorld zeroRedkey [sampleConfig 1 1 3 ConfigPhaseApplied ClusterStatusReady] in
  let w1 := (exec (Reconcile (H := fake_lib) rec sampleKey) w).1 in
  let applied := reportedOn "v9" (mkRedkeyConfigStatus ConfigPhaseApplied ClusterStatusReady (mkRedkeySubstatus "" 0) None [] None 0) in
  let w2 := match last (clusterConfigs sampleKey (server w1)) with
    | Some c => reportConfig (applied c) w1 | None => w1 end in
  let w3 := (exec (Reconcile (H := fake_lib) rec sampleKey) w2).1 in
  length (clusterConfigs sampleKey (server w2)) = 2%nat ∧ clusterConfigs sampleKey (server w3) = [].
Proof.
  intros rec w w1 applied w2 w3. split; [vm_compute; reflexivity|].
  destruct (scale_to_zero_completes (H := fake_lib) (W := World false) rec zeroRedkey
    (sampleConfig 1 1 3 ConfigPhaseApplied ClusterStatusReady) w w1 w2 w3
    (exec (Reconcile (H := fake_lib) rec sampleKey) w).2
    (exec (Reconcile (H := fake_lib) rec sampleKey) w2).2) as (_ & _ & _ & Hc & _).
  - apply zeroing_sample.
  - intros [v Hv]. vm_compute in Hv. discriminate Hv.
  - vm_compute. reflexivity.
  - discriminate.
  - intros d Hd. by rewrite (sample_sequence _ _ _ _ _ _ d Hd).
  - apply surjective_pairing.
  - intros d Hd. eexists. unfold w2.
    change (key_of KRedkey zeroRedkey) with sampleKey in Hd. rewrite Hd.
    split; [|exists "v9"; reflexivity]. reflexivity.
  - apply surjective_pairing.
  - exact Hc.
Defined.
