(* ===== verification/TraceProofs.v ===== *)
(** * Properties of every reconcile, whatever the API answers

    Accounting of failures, lock discipline, and the calls on metric vectors.
    Nothing here assumes anything of the client. *)

From S2P Require Import Prelude GoLib K8s Types Effects Client Logic FakeCluster.
From S2P Require Import Robin Config Metrics ScaleZero Controller Samples RobinProofs ConfigProofs.
From S2P Require Import Footprint.
Local Open Scope Z_scope.

(** ** Failure accounting *)

(** The stages counted as failed in a trace. *)
Definition stageErrors (tr : list event) : list (list string) :=
  omap (λ e, match e with @Ev T q _ =>
    match q with Emit (CounterInc redkeyReconcileStageErrors labels) => Some labels | _ => None end end) tr.

(** No request counts a failed stage. *)
Definition quiet (T : Type) (q : Req T) : Prop :=
  match q with Emit (CounterInc redkeyReconcileStageErrors _) => False | _ => True end.

Lemma quiet_stageErrors {A} (p : prog A) tr a : all_calls quiet p → runs p tr a → stageErrors tr = [].
Proof.
  intros Hp Hr. pose proof (all_calls_runs _ _ _ _ Hp Hr) as Hall. clear Hr.
  induction Hall as [|[T q r] tr Hq _ IH]; [done|]. unfold stageErrors. csimpl. fold (stageErrors tr).
  destruct q as [| | | | | | |c| | | | | | | |]; try exact IH. destruct c as [| |m|]; try exact IH.
  destruct m; done.
Qed.

Lemma local_quiet {A} req (p : prog A) : all_calls (localCall req) p → all_calls quiet p.
Proof.
  apply all_calls_mono. intros T q Hq. destruct q as [| | | | | | |c| | | | | | | |]; try done.
  by destruct c as [| |[]|].
Qed.

(** A call its vector accepts: the vector is registered, of the type the call
    needs, and has as many labels as the call gives values (with another number
    [WithLabelValues] panics); a partial match is on labels the vector has. *)
Definition accepted (c : MetricCall) : bool :=
  match c with
  | GaugeSet m labels _ => bool_decide (m ∈ registered) &&
      bool_decide (mv_Type (metricOpts m) = Gauge) && bool_decide (length labels = length (mv_Labels (metricOpts m)))
  | CounterInc m labels => bool_decide (m ∈ registered) &&
      bool_decide (mv_Type (metricOpts m) = Counter) && bool_decide (length labels = length (mv_Labels (metricOpts m)))
  | Observe m labels _ => bool_decide (m ∈ registered) &&
      match mv_Type (metricOpts m) with Histogram _ => true | _ => false end &&
      bool_decide (length labels = length (mv_Labels (metricOpts m)))
  | DeletePartialMatch m _ _ => bool_decide (m ∈ registered) &&
      bool_decide ("namespace" ∈ mv_Labels (metricOpts m)) && bool_decide ("name" ∈ mv_Labels (metricOpts m))
  end.

(** Requests outside the trackers, other than counting a failed stage: all
    the steps of a reconcile make between its metrics. *)
Definition plainCall (T : Type) (q : Req T) : Prop :=
  match q with
  | Emit (CounterInc redkeyReconcileStageErrors _) => False
  | Get _ _ | ListConfigs _ _ | Create _ _ | Delete _ _ | Patch _ _ _ | StatusUpdate _ | Now => True
  | Emit c => accepted c = true
  | _ => False
  end.

Lemma plain_quiet {A} (p : prog A) : all_calls plainCall p → all_calls quiet p.
Proof.
  apply all_calls_mono. intros T q Hq. destruct q as [| | | | | | |c| | | | | | | |]; try done.
  by destruct c as [| |[]|].
Qed.

Definition stages : list string :=
  ["get_cluster"; "scale_to_zero"; "ensure_rbac"; "ensure_robin_deployment"; "list_configs";
   "create_new_config"; "cleanup_superseded_configs"; "aggregate_status"].

(** An outcome agrees with the failures counted. *)
Definition accounted (r : RedkeyReconciler) (p : prog (Result * option error)) : Prop :=
  ∀ tr out, runs p tr out →
  match out.2 with
  | None => stageErrors tr = [] ∧ RequeueAfter out.1 = ResyncInterval r
  | Some _ => RequeueAfter out.1 = 0 ∧ ∃ stage, stage ∈ stages ∧ stageErrors tr = [[stage]]
  end.

Lemma stageErrors_app tr1 tr2 : stageErrors (tr1 ++ tr2) = stageErrors tr1 ++ stageErrors tr2.
Proof. apply omap_app. Qed.

Lemma accounted_ret r : accounted r (mret (mkResult (ResyncInterval r), None)).
Proof. by intros tr out [-> ->]. Qed.

Lemma accounted_quiet {A} r (p : prog A) k :
  all_calls quiet p → (∀ tr a, runs p tr a → accounted r (k a)) → accounted r (p ≫= k).
Proof.
  intros Hp Hk tr out (tr1 & tr2 & a & -> & H1 & H2)%runs_bind.
  rewrite stageErrors_app, (quiet_stageErrors p tr1 a Hp H1). by apply (Hk tr1 a H1).
Qed.

Lemma accounted_error r stage e : stage ∈ stages → accounted r (stageError stage e).
Proof. intros Hs tr out ([] & tr' & -> & [-> ->]). split; [done|]. by exists stage. Qed.

Lemma accounted_stage {A} r stage (p : go A) k :
  stage ∈ stages → all_calls quiet p → (∀ tr a, runs p tr (Ok a) → accounted r (k a)) →
  accounted r (at_stage stage p k).
Proof.
  intros Hs Hp Hk. apply accounted_quiet; [done|].
  intros tr [a|e] Hr; [by eapply Hk|by apply accounted_error].
Qed.

Section accounting.
Context `{K8sLaws}.

Lemma plain_ensureRobin cluster :
  all_calls plainCall (ensureRBAC cluster) ∧ all_calls plainCall (ensureRobinDeployment cluster).
Proof.
  split.
  - unfold ensureRBAC, ensureServiceAccount, ensureRole, ensureRoleBinding.
    destruct (SetControllerReference cluster (rbacMeta cluster)); [|done].
    repeat (apply all_calls_go_bind; [|intros ?]); follow_calls.
  - unfold ensureRobinDeployment. destruct (SetControllerReference cluster _); follow_calls.
Qed.

Lemma plain_createNewConfig cluster highest : all_calls plainCall (createNewConfig cluster highest).
Proof. unfold createNewConfig. destruct (SetControllerReference cluster _); follow_calls. Qed.

Lemma plain_aggregateStatus cluster configs : all_calls plainCall (aggregateStatus cluster configs).
Proof.
  unfold aggregateStatus. destruct (selectActiveConfig configs) as [c|]; [|done].
  apply all_calls_go_bind; [|done]. destruct RetryOnConflict_spec as [n ->]. apply all_calls_retry.
  follow_calls.
Qed.

Lemma plain_deleteConfigs l : all_calls plainCall (deleteConfigs l).
Proof.
  induction l as [|c l IH]; [done|]. split; [done|]. intros [[]|e]; simpl; [by split|].
  by destruct (IsNotFound e).
Qed.

Lemma plain_cleanup configs : all_calls plainCall (cleanupSupersededConfigs configs).
Proof.
  unfold cleanupSupersededConfigs. case_bool_decide; [done|].
  destruct (find_last_index isApplied configs) as [[|i]|]; [done| |done].
  apply all_calls_bind; [apply plain_deleteConfigs|]. by intros [[]|].
Qed.

Lemma plain_deleteEach l : all_calls plainCall (deleteEach l).
Proof.
  induction l as [|c l IH]; [done|]. apply all_calls_go_bind; [follow_calls|done].
Qed.

Lemma plain_scaleToZero resync cluster : all_calls plainCall (reconcileScaleToZero resync cluster).
Proof.
  destruct (plain_ensureRobin cluster) as [Hr Hd]. apply all_calls_go_bind; [follow_calls|].
  intros configs. destruct (last configs) as [c|]; [|follow_calls].
  case_match; [|case_match].
  - repeat (apply all_calls_go_bind; [done|intros _]).
    apply all_calls_go_bind; [apply plain_createNewConfig|done].
  - apply all_calls_go_bind; [follow_calls|intros _]. apply all_calls_go_bind; [follow_calls|intros _].
    apply all_calls_go_bind; [|intros _; follow_calls].
    apply all_calls_go_bind; [follow_calls|apply plain_deleteEach].
  - repeat (apply all_calls_go_bind; [done|intros _]).
    apply all_calls_go_bind; [apply plain_aggregateStatus|done].
Qed.

Lemma quiet_recordMetrics cluster active : all_calls quiet (recordRedkeyMetrics cluster active).
Proof. eapply local_quiet, recordMetrics_calls. Qed.

#[local] Hint Resolve plain_createNewConfig plain_aggregateStatus plain_cleanup plain_scaleToZero
  plain_quiet quiet_recordMetrics : redkey.

Lemma accounted_finish r cluster configs : accounted r (finishReconcile r cluster configs).
Proof.
  unfold finishReconcile. destruct configs as [|c configs].
  { apply accounted_quiet; [auto with redkey|]. intros _ _ _. apply accounted_ret. }
  apply accounted_quiet; [auto with redkey|]. intros _ [rest [e|]] _.
  { apply accounted_error. set_solver. }
  apply accounted_stage; [set_solver|auto with redkey|]. intros _ cluster' _.
  apply accounted_quiet; [auto with redkey|]. intros _ _ _. apply accounted_ret.
Qed.

(** What a program returns, whatever the responses. *)
Abbreviation returns p Q := (obeys (λ _ _ _, True) (λ _ _, True) p Q).

Lemma returns_any {A} (p : prog A) : returns p any.
Proof. by induction p as [a|T q k IH]; simpl. Qed.

Lemma returns_step {A B} (p : go A) (k : A → go B) (Q : res error B → Prop) :
  (∀ e, Q (Err e)) → (∀ a, returns (k a) Q) → returns (go_bind p k) Q.
Proof.
  intros He Hk. apply obeys_go_bind. eapply obeys_conseq; [apply returns_any|]. by intros [a|e].
Qed.

(** A successful scale to zero asks for the resync interval. *)
Lemma scaleToZero_result resync cluster tr result cluster' :
  runs (reconcileScaleToZero resync cluster) tr (Ok (result, cluster')) → RequeueAfter result = resync.
Proof.
  set (Q := λ out : res error (Result * Redkey),
    match out with Ok (x, _) => RequeueAfter x = resync | Err _ => True end).
  assert (HQ : returns (reconcileScaleToZero resync cluster) Q).
  { apply returns_step; [done|]. intros configs. destruct (last configs) as [c|];
      [case_match; [|case_match]|]; by repeat (apply returns_step; [done|intros ?]). }
  intros Hr. destruct (obeys_runs _ _ _ _ _ _ HQ Hr) as [_ Hres]; [|exact Hres].
  apply Forall_forall. by intros [].
Qed.

(** C18: every failure is counted exactly once and under the right regime.
    Whatever the API answers, a reconcile that returns an error has counted one
    failed stage, one of those it documents, and leaves the retry to the work
    queue's backoff; one that succeeds has counted none and asks for the resync
    interval, or, when the Redkey is gone, for nothing. *)
Theorem Reconcile_accounts_failures (r : RedkeyReconciler) (req : NamespacedName) (tr : list event)
    (result : Result) (err : option error) :
  runs (Reconcile r req) tr (result, err) →
  match err with
  | Some _ => RequeueAfter result = 0 ∧ ∃ stage, stage ∈ stages ∧ stageErrors tr = [[stage]]
  | None => stageErrors tr = [] ∧
      (RequeueAfter result = ResyncInterval r ∨
       RequeueAfter result = 0 ∧ ∃ e tr', IsNotFound e = true ∧ tr = Ev (Get KRedkey req) (Err e) :: tr')
  end.
Proof.
  intros (tr1 & tr' & got & -> & ->%runs_call & Hr)%runs_bind.
  change (stageErrors ([_] ++ tr')) with (stageErrors tr'). destruct got as [cluster|e]; cbv beta iota in Hr.
  - match type of Hr with runs ?p _ _ => assert (Hacc : accounted r p) end.
    { case_bool_decide.
      - apply accounted_stage; [set_solver|auto with redkey|]. intros tr1 [res1 cl'] Hrun.
        apply accounted_quiet; [auto with redkey|]. intros _ _ _.
        intros tr2 out [-> ->]. split; [done|]. exact (scaleToZero_result _ _ _ _ _ Hrun).
      - destruct (plain_ensureRobin cluster) as [Hrb%plain_quiet Hd%plain_quiet].
        apply accounted_stage; [set_solver|done|]. intros _ _ _.
        apply accounted_stage; [set_solver|done|]. intros _ _ _.
        apply accounted_stage; [set_solver|follow_calls|]. intros _ configs _.
        cbv zeta. case_match; [|apply accounted_finish].
        apply accounted_stage; [set_solver|auto with redkey|]. intros _ _ _.
        apply accounted_stage; [set_solver|follow_calls|]. intros _ configs' _. apply accounted_finish. }
    specialize (Hacc tr' (result, err) Hr). simpl in Hacc. destruct err; [done|]. split; [apply Hacc|].
    left. apply Hacc.
  - destruct (IsNotFound e) eqn:He.
    + apply runs_bind in Hr as (tr1 & tr2 & [] & -> & Hrun & [-> [= -> ->]]). rewrite app_nil_r.
      split; [|right; split; [done|by exists e, tr1]].
      by apply (quiet_stageErrors (deleteRedkeyMetrics req) tr1 tt); [follow_calls|].
    + destruct Hr as ([] & tr2 & -> & [-> [= -> ->]]). split; [done|]. exists "get_cluster".
      split; [set_solver|done].
Qed.
End accounting.

Lemma Reconcile_accounts_failures_witness :
  stageErrors [Ev (Get KRedkey sampleKey) (Err Conflict);
    Ev (Emit (CounterInc redkeyReconcileStageErrors ["get_cluster"])) tt] = [["get_cluster"]] ∧
  ∃ stage, stage ∈ stages.
Proof.
  split; [reflexivity|].
  destruct (Reconcile_accounts_failures (H := fake_lib) (mkReconciler 30 1) sampleKey
    [Ev (Get KRedkey sampleKey) (Err Conflict);
     Ev (Emit (CounterInc redkeyReconcileStageErrors ["get_cluster"])) tt] (mkResult 0) (Some Conflict))
    as (_ & stage & Hs & _).
  - exists (Err Conflict). eexists. split; [reflexivity|]. exists tt, []. split; [reflexivity|].
    split; reflexivity.
  - exists stage. exact Hs.
Defined.

(** ** Locks *)

(** What a trace may do while [held] is locked: the trackers are accessed under
    their own mutex only, a mutex is never taken while another is held, and no
    API request is made under a lock. *)
Definition lockStep (held : option Mutex) (e : event) : option (option Mutex) :=
  match e with @Ev T q _ =>
    match q with
    | Lock m => match held with None => Some (Some m) | Some _ => None end
    | Unlock m => if bool_decide (held = Some m) then Some None else None
    | OpLookup _ | OpStore _ _ | OpDelete _ => if bool_decide (held = Some OpTrackerMu) then Some held else None
    | PhaseLookup _ | PhaseStore _ _ | PhaseDelete _ =>
        if bool_decide (held = Some ReadyTrackerMu) then Some held else None
    | Emit _ | Now => Some held
    | _ => match held with None => Some None | Some _ => None end
    end
  end.

Fixpoint lockTrace (held : option Mutex) (tr : list event) : option (option Mutex) :=
  match tr with
  | [] => Some held
  | e :: tr' => match lockStep held e with Some held' => lockTrace held' tr' | None => None end
  end.

Lemma lockTrace_app held tr1 tr2 :
  lockTrace held (tr1 ++ tr2) =
    match lockTrace held tr1 with Some held' => lockTrace held' tr2 | None => None end.
Proof. revert held. induction tr1 as [|e tr1 IH]; intros held; simpl; [done|]. by case_match. Qed.

(** A program that starts and ends without a lock. *)
Definition balanced {A} (p : prog A) : Prop := ∀ tr a, runs p tr a → lockTrace None tr = Some None.

Lemma balanced_bind {A B} (p : prog A) (f : A → prog B) :
  balanced p → (∀ a, balanced (f a)) → balanced (p ≫= f).
Proof.
  intros Hp Hf tr b (tr1 & tr2 & a & -> & H1 & H2)%runs_bind.
  rewrite lockTrace_app, (Hp _ _ H1). by eapply Hf.
Qed.

Lemma balanced_plain {A} (p : prog A) : all_calls plainCall p → balanced p.
Proof.
  intros Hp tr a Hr. pose proof (all_calls_runs _ _ _ _ Hp Hr) as Hall. clear Hr.
  induction Hall as [|[T q r] tr Hq _ IH]; [done|]. destruct q; simpl; done.
Qed.

Lemma balanced_stage {A} stage (p : go A) k :
  all_calls plainCall p → (∀ a, balanced (k a)) → balanced (at_stage stage p k).
Proof.
  intros Hp Hk. apply balanced_bind; [by apply balanced_plain|]. intros [a|e]; [apply Hk|].
  by intros tr out ([] & tr' & -> & [-> ->]).
Qed.

(** The section between [Lock] and [Unlock], whatever the tracker answers. *)
Lemma balanced_observe key status phase : balanced (opTracker_observe key status phase).
Proof.
  intros tr [] (? & ? & [] & -> & ->%runs_call & Hr)%runs_bind.
  apply runs_bind in Hr as (? & ? & tracking & -> & ->%runs_call & Hr).
  apply runs_bind in Hr as (tr3 & tr4 & [] & -> & H1 & ->%runs_call). simpl. rewrite lockTrace_app.
  assert (Hin : lockTrace (Some OpTrackerMu) tr3 = Some (Some OpTrackerMu)); [|by rewrite Hin].
  unfold observeSwitch in H1.
  destruct (inOperation status), tracking as [cur|]; [case_bool_decide|..];
    repeat match goal with
    | H : runs _ _ _ |- _ => simpl in H
    | H : ∃ _, _ |- _ => destruct H
    | H : _ ∧ _ |- _ => destruct H
    | H : _ = _ :: _ |- _ => subst
    end; subst; done.
Qed.

Lemma balanced_recordMetrics cluster active : balanced (recordRedkeyMetrics cluster active).
Proof.
  unfold recordRedkeyMetrics, setStateSet.
  apply balanced_bind; [apply balanced_observe|intros _].
  apply balanced_bind; [apply balanced_plain; by repeat split|intros _].
  apply balanced_bind; [apply balanced_plain; by case_match; repeat split|intros _].
  apply balanced_bind; [apply balanced_plain, for_each_calls; by repeat split|intros _].
  destruct active as [c|]; [|apply balanced_plain; by repeat split].
  apply balanced_bind; [apply balanced_plain, for_each_calls; by repeat split|intros _].
  apply balanced_bind; [|intros []; apply balanced_plain; by follow_calls].
  by intros tr b ([] & ? & -> & prev & ? & -> & [] & ? & -> & [] & ? & -> & [-> ->]).
Qed.

Section locking.
Context `{K8sLaws}.
#[local] Hint Resolve plain_createNewConfig plain_aggregateStatus plain_cleanup plain_scaleToZero
  balanced_plain balanced_recordMetrics : redkey.

Lemma balanced_finish r cluster configs : balanced (finishReconcile r cluster configs).
Proof.
  assert (Hend : ∀ cl act, balanced (recordRedkeyMetrics cl act ≫= λ _, mret (mkResult (ResyncInterval r), @None error))).
  { intros cl act. apply balanced_bind; [auto with redkey|]. intros _. by apply balanced_plain. }
  unfold finishReconcile. destruct configs as [|c configs]; [apply Hend|].
  apply balanced_bind; [auto with redkey|]. intros [rest [e|]].
  - by intros tr out ([] & tr' & -> & [-> ->]).
  - apply balanced_stage; [auto with redkey|]. intros cl. apply Hend.
Qed.

(** The lock discipline of every reconcile: each access to a tracker happens
    under that tracker's mutex, the two mutexes are never held together or taken
    twice, no API request is made while one is held, and both are free at the end. *)
Lemma balanced_Reconcile r req : balanced (Reconcile r req).
Proof.
  apply balanced_bind; [apply balanced_plain; by repeat split|]. intros [cluster|e]; last first.
  { case_match; [|by intros tr out ([] & tr' & -> & [-> ->])].
    apply balanced_bind; [|intros _; by apply balanced_plain].
    intros tr a Hr. repeat destruct Hr as ([] & ? & -> & Hr). by destruct Hr as [-> ->]. }
  destruct (plain_ensureRobin cluster) as [Hrb Hd]. cbv beta iota. case_match.
  { apply balanced_stage; [auto with redkey|]. intros [res1 cl'].
    apply balanced_bind; [auto with redkey|]. intros _. by apply balanced_plain. }
  apply balanced_stage; [done|]. intros _. apply balanced_stage; [done|]. intros _.
  apply balanced_stage; [follow_calls|]. intros configs. cbv zeta. case_match; [|apply balanced_finish].
  apply balanced_stage; [auto with redkey|]. intros _.
  apply balanced_stage; [follow_calls|]. intros configs'. apply balanced_finish.
Qed.

End locking.

(** ** Metric calls *)

Definition labelled (T : Type) (q : Req T) : Prop :=
  match q with Emit c => accepted c = true | _ => True end.

Lemma plain_labelled {A} (p : prog A) : all_calls plainCall p → all_calls labelled p.
Proof.
  apply all_calls_mono. intros T q Hq. destruct q as [| | | | | | |c| | | | | | | |]; try done.
  by destruct c as [| |[]|].
Qed.

Lemma labelled_stage {A} stage (p : go A) k :
  all_calls plainCall p → (∀ a, all_calls labelled (k a)) → all_calls labelled (at_stage stage p k).
Proof. intros Hp Hk. apply all_calls_bind; [by apply plain_labelled|]. intros [a|e]; [apply Hk|by repeat split]. Qed.

Lemma labelled_recordMetrics cluster active : all_calls labelled (recordRedkeyMetrics cluster active).
Proof.
  unfold recordRedkeyMetrics, setStateSet.
  apply all_calls_bind; [unfold opTracker_observe, observeSwitch, finishOperation, startOperation; follow_calls|intros _].
  apply all_calls_bind; [by repeat split|intros _].
  apply all_calls_bind; [by case_match; repeat split|intros _].
  apply all_calls_bind; [apply for_each_calls; by repeat split|intros _].
  destruct active as [c|]; [|by repeat split].
  apply all_calls_bind; [apply for_each_calls; by repeat split|intros _]. follow_calls.
Qed.

Section labels.
Context `{K8sLaws}.
#[local] Hint Resolve plain_createNewConfig plain_aggregateStatus plain_cleanup plain_scaleToZero
  plain_labelled labelled_recordMetrics : redkey.

Lemma labelled_finish r cluster configs : all_calls labelled (finishReconcile r cluster configs).
Proof.
  unfold finishReconcile. destruct configs as [|c configs]; [apply all_calls_bind; auto with redkey; done|].
  apply all_calls_bind; [auto with redkey|]. intros [rest [e|]]; [by repeat split|].
  apply labelled_stage; [auto with redkey|]. intros cl. apply all_calls_bind; [auto with redkey|done].
Qed.

Lemma labelled_Reconcile r req : all_calls labelled (Reconcile r req).
Proof.
  apply all_calls_bind; [by repeat split|]. intros [cluster|e]; last first.
  { case_match; [|by repeat split]. follow_calls. }
  destruct (plain_ensureRobin cluster) as [Hrb Hd]. cbv beta iota. case_match.
  { apply labelled_stage; [auto with redkey|]. intros [res1 cl']. apply all_calls_bind; [auto with redkey|done]. }
  apply labelled_stage; [done|]. intros _. apply labelled_stage; [done|]. intros _.
  apply labelled_stage; [follow_calls|]. intros configs. cbv zeta. case_match; [|apply labelled_finish].
  apply labelled_stage; [auto with redkey|]. intros _.
  apply labelled_stage; [follow_calls|]. intros configs'. apply labelled_finish.
Qed.
End labels.

(** C27: no metric call panics.  Every vector is registered exactly once, under a
    name of its own, when the package is loaded; and whatever the API answers,
    every call a reconcile makes on a vector is one its type has, with as many
    label values as the vector has labels. *)
Theorem metric_calls_accepted `{K8sLaws} (r : RedkeyReconciler) (req : NamespacedName) (tr : list event)
    (out : Result * option error) :
  runs (Reconcile r req) tr out →
  Forall (λ e, match e with @Ev T q _ => labelled T q end) tr ∧
  NoDup registered ∧ NoDup ((λ m, mv_Name (metricOpts m)) <$> registered) ∧ ∀ m, m ∈ registered.
Proof.
  intros Hr. split; [|split; [|split]].
  - exact (all_calls_runs labelled (Reconcile r req) tr out (labelled_Reconcile r req) Hr).
  - apply (bool_decide_unpack _). by vm_compute.
  - apply (bool_decide_unpack _). by vm_compute.
  - intros m. apply (bool_decide_unpack _). by destruct m; vm_compute.
Qed.

Lemma metric_calls_accepted_witness :
  let tr := trace (Reconcile (H := fake_lib) (mkReconciler 30 1) sampleKey) (sampleWorld (sampleRedkey 1 3 true zeroStatus) []) in
  Forall (λ e, match e with @Ev T q _ => labelled T q end) tr.
Proof.
  intros tr. destruct (metric_calls_accepted (H := fake_lib) (mkReconciler 30 1) sampleKey tr
    (exec (Reconcile (mkReconciler 30 1) sampleKey) (sampleWorld (sampleRedkey 1 3 true zeroStatus) [])).2) as [Hf _].
  - apply exec_runs.
  - exact Hf.
Defined.
