(* ===== verification/Workers.v ===== *)
(** * Concurrent reconciles

    The operator runs several reconciles at once ([MaxConcurrentReconciles]),
    and they share the two trackers of metrics.go.  The work queue never hands
    out a key that is being reconciled, so the reconciles of one Redkey follow
    each other while those of different Redkeys interleave freely.  Here every
    Redkey has a worker that runs its reconciles in sequence; a step lets one
    worker make its next request, on the shared trackers and mutexes or on an
    API server that may answer anything. *)

From S2P Require Import Prelude GoLib K8s Types Effects Client Logic FakeCluster.
From S2P Require Import Robin Config Metrics ScaleZero Controller Samples RobinProofs ConfigProofs.
From S2P Require Import Footprint TraceProofs.
Local Open Scope Z_scope.

(** ** The shared trackers *)

(** [operationTracker] and [readinessTracker]: who holds each mutex, and the
    two maps. *)
Record Shared := mkShared {
  sh_owner : Mutex → option nat;
  sh_active : gmap NamespacedName activeOperation;
  sh_lastPhase : gmap NamespacedName string;
}.

Definition set_owner (m : Mutex) (o : option nat) (s : Shared) : Shared :=
  mkShared (λ m', if bool_decide (m' = m) then o else sh_owner s m') (sh_active s) (sh_lastPhase s).
Definition set_sh_active (f : gmap NamespacedName activeOperation → gmap NamespacedName activeOperation)
    (s : Shared) : Shared := mkShared (sh_owner s) (f (sh_active s)) (sh_lastPhase s).
Definition set_sh_lastPhase (f : gmap NamespacedName string → gmap NamespacedName string)
    (s : Shared) : Shared := mkShared (sh_owner s) (sh_active s) (f (sh_lastPhase s)).

(** How worker [i]'s request is served.  [Lock] blocks while the mutex is
    held; [Unlock] of a free mutex is a fatal error in Go, so no step; the API
    server, the clock and the Prometheus registry may answer anything. *)
Definition serve (i : nat) {T} (q : Req T) (s : Shared) : T → Shared → Prop :=
  match q in Req T return T → Shared → Prop with
  | Lock m => λ _ s', sh_owner s m = None ∧ s' = set_owner m (Some i) s
  | Unlock m => λ _ s', is_Some (sh_owner s m) ∧ s' = set_owner m None s
  | OpLookup key => λ r s', r = sh_active s !! key ∧ s' = s
  | OpStore key v => λ _ s', s' = set_sh_active (insert key v) s
  | OpDelete key => λ _ s', s' = set_sh_active (delete key) s
  | PhaseLookup key => λ r s', r = sh_lastPhase s !! key ∧ s' = s
  | PhaseStore key v => λ _ s', s' = set_sh_lastPhase (insert key v) s
  | PhaseDelete key => λ _ s', s' = set_sh_lastPhase (delete key) s
  | _ => λ _ s', s' = s
  end.

(** ** Workers *)

Section workers.
Context `{K8sLib}.

(** [n] reconciles of one Redkey, one after the other. *)
Fixpoint reconciles (r : RedkeyReconciler) (req : NamespacedName) (n : nat) : prog (list (Result * option error)) :=
  match n with
  | O => mret []
  | S n' => out ← Reconcile r req; outs ← reconciles r req n'; mret (out :: outs)
  end.
End workers.

Abbreviation worker := (prog (list (Result * option error))).

(** What every worker has left to do, and what they share. *)
Record Pool := mkPool { pl_workers : list worker; pl_shared : Shared }.

(** Worker [i] makes its next request. *)
Inductive poolStep : Pool → nat → event → Pool → Prop :=
| worker_step ws s i T (q : Req T) k r s' :
    ws !! i = Some (Call q k) → serve i q s r s' →
    poolStep (mkPool ws s) i (Ev q r) (mkPool (<[i := k r]> ws) s').

(** A schedule: which worker did what, in order. *)
Inductive poolRun (P : Pool) : list (nat * event) → Pool → Prop :=
| run_nil : poolRun P [] P
| run_snoc sched P' i e P'' :
    poolRun P sched P' → poolStep P' i e P'' → poolRun P (sched ++ [(i, e)]) P''.

(** The workers of the given Redkeys, each with a number of reconciles to do. *)
Definition startPool `{K8sLib} (r : RedkeyReconciler) (jobs : list (NamespacedName * nat)) (s : Shared) : Pool :=
  mkPool ((λ job, reconciles r job.1 job.2) <$> jobs) s.

Definition finished (p : worker) : bool := match p with Ret _ => true | _ => false end.

(** The tracker whose map a worker is about to access. *)
Definition accesses (p : worker) : option Mutex :=
  match p with
  | Ret _ => None
  | Call q _ =>
      match q with
      | OpLookup _ | OpStore _ _ | OpDelete _ => Some OpTrackerMu
      | PhaseLookup _ | PhaseStore _ _ | PhaseDelete _ => Some ReadyTrackerMu
      | _ => None
      end
  end.

(** What one worker did in a schedule. *)
Definition doneBy (i : nat) (sched : list (nat * event)) : list event :=
  omap (λ ie, if bool_decide (ie.1 = i) then Some ie.2 else None) sched.

(** ** What a worker may do next, mutexes considered *)

(** As [lockTrace], for every way a program can go on. *)
Fixpoint lockSafe {A} (held : option Mutex) (p : prog A) : Prop :=
  match p with
  | Ret _ => held = None
  | Call q k => ∀ r, match lockStep held (Ev q r) with Some held' => lockSafe held' (k r) | None => False end
  end.

Lemma response {T} (q : Req T) : ∃ r : T, True.
Proof.
  destruct q; try (by exists tt); try (by exists None); try (by exists (Err NotFound)). by exists 0.
Qed.

Lemma runs_total {A} (p : prog A) : ∃ tr a, runs p tr a.
Proof.
  induction p as [a|T q k IH]; [by exists [], a|].
  destruct (response q) as [r _], (IH r) as (tr & a & Hr). by exists (Ev q r :: tr), a, r, tr.
Qed.

Lemma lockSafe_of_runs {A} (p : prog A) held :
  (∀ tr a, runs p tr a → lockTrace held tr = Some None) → lockSafe held p.
Proof.
  revert held. induction p as [a|T q k IH]; intros held Hp.
  { specialize (Hp [] a (conj eq_refl eq_refl)). by injection Hp. }
  assert (Hcons : ∀ r tr a, runs (k r) tr a →
    match lockStep held (Ev q r) with Some h => lockTrace h tr | None => None end = Some None).
  { intros r tr a Hr. apply (Hp (Ev q r :: tr) a). by exists r, tr. }
  intros r. specialize (Hcons r). destruct (lockStep held (Ev q r)) as [held'|]; [by apply IH|].
  destruct (runs_total (k r)) as (tr & a & Hr). discriminate (Hcons tr a Hr).
Qed.

Lemma balanced_reconciles `{K8sLaws} r req n : balanced (reconciles r req n).
Proof.
  induction n as [|n IH]; [by apply balanced_plain|].
  apply balanced_bind; [apply balanced_Reconcile|intros out].
  apply balanced_bind; [done|intros outs]. by apply balanced_plain.
Qed.

(** Worker [i] with program [p] holds exactly what the mutexes record, and will
    use them as the discipline asks. *)
Definition inLine (s : Shared) (i : nat) (p : worker) : Prop :=
  ∃ held, lockSafe held p ∧ ∀ m, sh_owner s m = Some i ↔ held = Some m.

Definition disciplined (P : Pool) : Prop :=
  (∀ i p, pl_workers P !! i = Some p → inLine (pl_shared P) i p) ∧
  ∀ m i, sh_owner (pl_shared P) m = Some i → is_Some (pl_workers P !! i).

Definition unlocked (s : Shared) : Prop := ∀ m, sh_owner s m = None.

(** A step of worker [i] changes the mutexes the way its own record of them
    changes, and no other worker's. *)
Lemma serve_owner {T} (q : Req T) (i : nat) s r s' held held' :
  serve i q s r s' → lockStep held (Ev q r) = Some held' →
  (∀ m, sh_owner s m = Some i ↔ held = Some m) →
  (∀ m, sh_owner s' m = Some i ↔ held' = Some m) ∧
  ∀ m j, j ≠ i → sh_owner s' m = Some j ↔ sh_owner s m = Some j.
Proof.
  intros Hserve Hstep Hown.
  destruct q as [| | | | | | | |mu|mu| | | | | | ]; simpl in Hserve, Hstep.
  9: { destruct Hserve as [Hfree ->], held as [|]; [done|]. injection Hstep as <-. split.
       - intros m'. simpl. case_bool_decide as Hm; [by subst; split; congruence|].
         rewrite Hown. split; [done|congruence].
       - intros m' j Hj. simpl. case_bool_decide as Hm; [|done]. subst. rewrite Hfree. split; congruence. }
  9: { destruct Hserve as [_ ->]. case_bool_decide as Hh; [|done]. injection Hstep as <-. subst held. split.
       - intros m'. simpl. case_bool_decide as Hm; [done|]. rewrite Hown. split; congruence.
       - intros m' j Hj. simpl. case_bool_decide as Hm; [|done]. subst.
         rewrite (proj2 (Hown mu) eq_refl). split; congruence. }
  all: repeat match goal with H : _ ∧ _ |- _ => destruct H end; subst s';
    repeat (case_bool_decide || destruct held); simplify_eq; done.
Qed.

Lemma step_disciplined P i e P' : poolStep P i e P' → disciplined P → disciplined P'.
Proof.
  intros [ws s j T q k r s' Hj Hserve] [Hin Hdom]. simpl in *.
  destruct (Hin j _ Hj) as (held & Hsafe & Hown). specialize (Hsafe r).
  destruct (lockStep held (Ev q r)) as [held'|] eqn:Hstep; [|done].
  destruct (serve_owner q j s r s' held held' Hserve Hstep Hown) as [Hown' Hother]. split; simpl.
  - intros i' p [(<- & <- & _)|[Hne Hp]]%list_lookup_insert_Some; [by exists held'|].
    destruct (Hin i' p Hp) as (h & Hs & Ho). exists h. split; [done|]. intros m. by rewrite Hother by congruence.
  - intros m i' Hm. destruct (decide (i' = j)) as [->|Hne].
    + rewrite list_lookup_insert_eq by by eapply lookup_lt_Some. by eexists.
    + rewrite list_lookup_insert_ne by done. apply (Hdom m). by rewrite <- Hother.
Qed.

Lemma run_disciplined P sched P' : poolRun P sched P' → disciplined P → disciplined P'.
Proof. induction 1; [done|]. intros Hd. eapply step_disciplined; eauto. Qed.

Lemma start_disciplined `{K8sLaws} r jobs s : unlocked s → disciplined (startPool r jobs s).
Proof.
  intros Hs. split; simpl; [|by intros m i; rewrite Hs].
  intros i p Hp. apply list_lookup_fmap_Some in Hp as (job & -> & _). exists None.
  split; [apply lockSafe_of_runs, balanced_reconciles|]. intros m. by rewrite Hs.
Qed.

(** ** Progress *)

(** A request that does not wait for a mutex is always served. *)
Lemma serve_total {T} (q : Req T) i s :
  (∀ m, match q with Lock m' => m' = m | _ => False end → sh_owner s m = None) →
  (∀ m, match q with Unlock m' => m' = m | _ => False end → is_Some (sh_owner s m)) →
  ∃ r s', serve i q s r s'.
Proof.
  intros Hl Hu. destruct (response q) as [r _]. destruct q; try (by exists r; eexists).
  - exists tt. eexists. split; [by apply Hl|done].
  - exists tt. eexists. split; [by apply Hu|done].
  - by eexists _, s.
  - by eexists _, s.
Qed.

Lemma disciplined_progress P :
  disciplined P → (∃ p, p ∈ pl_workers P ∧ finished p = false) → ∃ i e P', poolStep P i e P'.
Proof.
  destruct P as [ws s]. intros [Hin Hdom] (p & Hp & Hf). simpl in *.
  (* A worker that holds a mutex can go on; if nobody holds one, anybody can. *)
  assert (Hgo : ∀ i T (q : Req T) k, ws !! i = Some (Call q k) →
    ((∃ m, sh_owner s m = Some i) ∨ unlocked s) → ∃ i e P', poolStep (mkPool ws s) i e P').
  { intros i T q k Hi Hm. destruct (Hin i _ Hi) as (held & Hsafe & Hown).
    destruct (response q) as [r0 _]. specialize (Hsafe r0).
    destruct (serve_total q i s) as (r & s' & Hs).
    - intros m Hq. destruct q; try done. subst. destruct Hm as [[m' Hm]|Hm]; [|apply Hm].
      apply Hown in Hm as ->. done.
    - intros m Hq. destruct q; try done. subst. simpl in Hsafe.
      case_bool_decide as Hh; [|done]. subst. exists i. by apply Hown.
    - eexists i, _, _. by econstructor. }
  destruct (sh_owner s OpTrackerMu) as [i|] eqn:H1; [|destruct (sh_owner s ReadyTrackerMu) as [i|] eqn:H2].
  1,2: edestruct Hdom as [p' Hp']; [eassumption|]; destruct (Hin i p' Hp') as (held & Hsafe & Hown);
    destruct p' as [a|T q k]; [|eapply Hgo; eauto]; simpl in Hsafe; subst held;
    exfalso; (apply Hown in H1 || apply Hown in H2); done.
  apply list_elem_of_lookup in Hp as [i Hi]. destruct p as [|T q k]; [done|].
  eapply Hgo; [done|]. right. by intros [].
Qed.

(** ** Termination *)

(** One element of a list replaced by a smaller one. *)
Inductive lessOne {A} (R : A → A → Prop) : list A → list A → Prop :=
| less_at l i x y : l !! i = Some x → R y x → lessOne R (<[i := y]> l) l.

Lemma lessOne_nil {A} (R : A → A → Prop) : Acc (lessOne R) [].
Proof.
  constructor. intros l Hl. inversion Hl as [? i x y Hx]. by rewrite lookup_nil in Hx.
Qed.

Lemma lessOne_cons {A} (R : A → A → Prop) x l :
  Acc R x → Acc (lessOne R) l → Acc (lessOne R) (x :: l).
Proof.
  intros Hx. revert l. induction Hx as [x _ IHx]. intros l Hl. induction Hl as [l Hl IHl].
  constructor. intros l' Hl'. inversion Hl' as [? i z y Hz Hy]. subst. destruct i as [|i]; simpl in *.
  - simplify_eq. apply IHx; [done|]. by constructor.
  - apply IHl. by econstructor.
Qed.

Lemma lessOne_Acc {A} (R : A → A → Prop) l : Forall (Acc R) l → Acc (lessOne R) l.
Proof. induction 1; [apply lessOne_nil|by apply lessOne_cons]. Qed.

(** A program after one of its requests has been answered. *)
Definition continues {A} (p' p : prog A) : Prop :=
  match p with Ret _ => False | Call q k => ∃ r, p' = k r end.

Lemma continues_Acc {A} (p : prog A) : Acc continues p.
Proof.
  induction p as [a|T q k IH]; constructor; intros p' Hp'; [done|]. destruct Hp' as [r ->]. apply IH.
Qed.

Lemma pool_terminates P : Acc (λ P2 P1, ∃ i e, poolStep P1 i e P2) P.
Proof.
  destruct P as [ws s].
  assert (Hws : Acc (lessOne continues) ws) by (apply lessOne_Acc, Forall_forall; intros; apply continues_Acc).
  revert s. induction Hws as [ws _ IH]. intros s. constructor. intros P' (i & e & Hstep).
  inversion Hstep as [ws' s0 i' T q k r s' Hi]; subst. apply IH. econstructor; [done|by exists r].
Qed.

(** C19: concurrent reconciles.  Whatever the schedule of the workers and
    whatever the API answers, a worker about to access a tracker's map holds
    that tracker's mutex (so no two workers ever race on a map), no schedule
    goes on for ever, and the workers never get stuck: when none can make a
    step all reconciles have ended, with both mutexes free. *)
Theorem workers_race_free_and_complete `{K8sLaws} (r : RedkeyReconciler)
    (jobs : list (NamespacedName * nat)) (s : Shared) (sched : list (nat * event)) (P : Pool) :
  unlocked s → poolRun (startPool r jobs s) sched P →
  (∀ i p m, pl_workers P !! i = Some p → accesses p = Some m → sh_owner (pl_shared P) m = Some i) ∧
  Acc (λ P2 P1, ∃ i e, poolStep P1 i e P2) P ∧
  ((∃ i e P', poolStep P i e P') ∨
   Forall (λ p, finished p = true) (pl_workers P) ∧ unlocked (pl_shared P)).
Proof.
  intros Hs Hrun. pose proof (run_disciplined _ _ _ Hrun (start_disciplined r jobs s Hs)) as Hd.
  split; [|split; [apply pool_terminates|]].
  - intros i p m Hp Hacc. destruct (proj1 Hd i p Hp) as (held & Hsafe & Hown). apply Hown.
    destruct p as [a|T q k]; [done|]. destruct (response q) as [x _]. specialize (Hsafe x).
    destruct q; simplify_eq/=; by case_bool_decide.
  - destruct (decide (Exists (λ p, finished p = false) (pl_workers P))) as [Hex|Hall].
    { left. apply (disciplined_progress _ Hd). by apply Exists_exists in Hex. }
    right. assert (Hfin : Forall (λ p, finished p = true) (pl_workers P)).
    { eapply Forall_impl; [exact (not_Exists_Forall _ _ Hall)|].
      intros p. simpl. by destruct (finished p). }
    split; [done|]. intros m. destruct (sh_owner (pl_shared P) m) as [i|] eqn:Hm; [|done].
    destruct (proj2 Hd m i Hm) as [p Hp]. destruct (proj1 Hd i p Hp) as (held & Hsafe & Hown).
    pose proof (proj1 (Forall_lookup _ _) Hfin i p Hp) as Hret. destruct p; [|done].
    simpl in Hsafe. subst held. by apply Hown in Hm.
Qed.

(** ** Isolation *)

(** What worker [i], alone with its Redkey [key], knows of the shared state. *)
Definition sees (key : NamespacedName) (i : nat) (s s1 : Shared) : Prop :=
  sh_active s1 !! key = sh_active s !! key ∧ sh_lastPhase s1 !! key = sh_lastPhase s !! key ∧
  ∀ m, sh_owner s1 m = (if bool_decide (sh_owner s m = Some i) then Some 0%nat else None).

Abbreviation keeps req p := (obeys (readsLawful (λ _ _, True)) (footprint (λ _ _, True) req) p any).

Lemma keeps_reconciles `{K8sLaws} r req n : keeps req (reconciles r req n).
Proof.
  induction n as [|n IH]; [done|]. apply obeys_bind.
  eapply obeys_conseq; [apply (within_Reconcile (λ _ _, True) req r)|intros out _].
  apply obeys_bind. eapply obeys_conseq; [exact IH|done].
Qed.

(** A request of another Redkey's worker is not seen. *)
Lemma serve_other {T} (q : Req T) (key req : NamespacedName) (i j : nat) s r s' s1 :
  serve j q s r s' → footprint (λ _ _, True) req T q → req ≠ key →
  (∀ m, sh_owner s' m = Some i ↔ sh_owner s m = Some i) → sees key i s s1 → sees key i s' s1.
Proof.
  intros Hs Hf Hne Hown (Ha & Hp & Ho).
  assert (Ho' : ∀ m, sh_owner s1 m = (if bool_decide (sh_owner s' m = Some i) then Some 0%nat else None)).
  { intros m. rewrite Ho. by rewrite (bool_decide_ext _ _ (Hown m)). }
  split; [|split; [|exact Ho']]; destruct q; simpl in Hs, Hf;
    repeat match goal with H : _ ∧ _ |- _ => destruct H end; subst; simpl;
    rewrite ?lookup_insert_ne, ?lookup_delete_ne by done; done.
Qed.

(** A request of the Redkey's own worker is served the same way when it is alone. *)
Lemma serve_own {T} (q : Req T) (key : NamespacedName) (i : nat) s r s' s1 held :
  serve i q s r s' → footprint (λ _ _, True) key T q →
  is_Some (lockStep held (Ev q r)) → (∀ m, sh_owner s m = Some i ↔ held = Some m) →
  sees key i s s1 → ∃ s1', serve 0 q s1 r s1' ∧ sees key i s' s1'.
Proof.
  intros Hs Hf Hstep Hown (Ha & Hp & Ho).
  destruct q as [| | | | | | | |mu|mu| | | | | | ]; simpl in Hs, Hf, Hstep;
    try (subst; exists s1; by split).
  - destruct Hs as [Hfree ->]. eexists. split; [split; [by rewrite Ho, Hfree|done]|].
    split; [done|]. split; [done|]. intros m. simpl.
    case_bool_decide as Hm; [by rewrite bool_decide_eq_true_2|apply Ho].
  - destruct Hs as [_ ->]. case_bool_decide as Hh; [|by destruct Hstep]. subst held.
    pose proof (proj2 (Hown mu) eq_refl) as Hi.
    eexists. split; [split; [rewrite Ho, bool_decide_eq_true_2 by done; by eexists|done]|].
    split; [done|]. split; [done|]. intros m. simpl.
    case_bool_decide as Hm; [done|apply Ho].
  - destruct Hs as [-> ->]. subst. exists s1. split; [by split|by split].
  - subst. eexists. split; [done|]. split; [simpl; by rewrite !lookup_insert_eq|by split].
  - subst. eexists. split; [done|]. split; [simpl; by rewrite !lookup_delete_eq|by split].
  - destruct Hs as [-> ->]. subst. exists s1. split; [by split|by split].
  - subst. eexists. split; [done|]. split; [done|]. split; [simpl; by rewrite !lookup_insert_eq|done].
  - subst. eexists. split; [done|]. split; [done|]. split; [simpl; by rewrite !lookup_delete_eq|done].
Qed.

(** Everything the isolation of worker [i] rests on, along a schedule. *)
Definition alongside `{K8sLib} (r : RedkeyReconciler) (jobs : list (NamespacedName * nat)) (s : Shared)
    (i : nat) (key : NamespacedName) (n : nat) (sched : list (nat * event)) (P : Pool) : Prop :=
  (∀ j p job, pl_workers P !! j = Some p → jobs !! j = Some job → keeps job.1 p) ∧
  ∃ p s1, pl_workers P !! i = Some p ∧ sees key i (pl_shared P) s1 ∧
    poolRun (startPool r [(key, n)] s) ((0%nat,.) <$> doneBy i sched) (mkPool [p] s1).

Lemma doneBy_snoc i sched j e :
  doneBy i (sched ++ [(j, e)]) = doneBy i sched ++ (if bool_decide (j = i) then [e] else []).
Proof. unfold doneBy. rewrite omap_app. simpl. by case_bool_decide. Qed.

Lemma readsMatch_last tr e :
  readsMatch (tr ++ [e]) → match e with @Ev T q r => readsLawful (λ _ _, True) T q r end.
Proof. intros [_ Hl]%Forall_app. by apply Forall_cons_1 in Hl as [Hl _]. Qed.

Lemma alongside_step `{K8sLaws} r jobs s i key n sched P j e P' :
  NoDup jobs.*1 → jobs !! i = Some (key, n) → length (pl_workers P) = length jobs →
  disciplined P → (match e with @Ev T q x => readsLawful (λ _ _, True) T q x end) →
  alongside r jobs s i key n sched P → poolStep P j e P' →
  alongside r jobs s i key n (sched ++ [(j, e)]) P'.
Proof.
  intros Hnd Hi Hlen [Hin _] Hread [Hkeeps (p & s1 & Hp & Hsees & Hrun)] Hstep.
  destruct Hstep as [ws s0 j T q k x s' Hj Hserve]. simpl in *.
  destruct (Hin j _ Hj) as (held & Hsafe & Hown). specialize (Hsafe x).
  destruct (lockStep held (Ev q x)) as [held'|] eqn:Hls; [|done].
  destruct (serve_owner q j s0 x s' held held' Hserve Hls Hown) as [_ Hother].
  destruct (lookup_lt_is_Some_2 jobs j) as [[req m] Hjob]; [rewrite <- Hlen; by eapply lookup_lt_Some|].
  destruct (Hkeeps j _ _ Hj Hjob) as [Hfoot Hrest]. simpl in Hfoot. split.
  { simpl. intros j' p' job [(<- & <- & _)|[Hne Hp']]%list_lookup_insert_Some Hjob'; [|by eapply Hkeeps].
    simplify_eq. by apply Hrest. }
  rewrite doneBy_snoc. case_bool_decide as Hji.
  - subst j. simplify_eq.
    destruct (serve_own q key i s0 x s' s1 held) as (s1' & Hserve1 & Hsees');
      [done|done|by rewrite Hls|done|done|].
    exists (k x), s1'. simpl. split; [by rewrite list_lookup_insert_eq by by eapply lookup_lt_Some|].
    split; [done|]. rewrite fmap_app. eapply run_snoc; [exact Hrun|].
    exact (worker_step [Call q k] s1 0 T q k x s1' eq_refl Hserve1).
  - exists p, s1. simpl. rewrite list_lookup_insert_ne by done. split; [done|]. rewrite app_nil_r.
    split; [|done]. eapply serve_other; [done|done| |intros ?; by apply Hother|done].
    intros ->. apply Hji. eapply (NoDup_lookup jobs.*1); [done|by rewrite list_lookup_fmap, Hjob|].
    by rewrite list_lookup_fmap, Hi.
Qed.

(** C31: concurrent reconciles of different Redkeys do not influence each other
    through the trackers.  In any schedule, what one Redkey's worker does is
    something it can do alone with the same API answers: the trackers answer it
    as if it were the only one, and leave its entries as it would. *)
Theorem workers_isolated `{K8sLaws} (r : RedkeyReconciler) (jobs : list (NamespacedName * nat))
    (s : Shared) (sched : list (nat * event)) (P : Pool) (i : nat) (key : NamespacedName) (n : nat) :
  unlocked s → NoDup jobs.*1 → jobs !! i = Some (key, n) →
  poolRun (startPool r jobs s) sched P → readsMatch sched.*2 →
  ∃ p s1, pl_workers P !! i = Some p ∧
    poolRun (startPool r [(key, n)] s) ((0%nat,.) <$> doneBy i sched) (mkPool [p] s1) ∧
    sh_active s1 !! key = sh_active (pl_shared P) !! key ∧
    sh_lastPhase s1 !! key = sh_lastPhase (pl_shared P) !! key.
Proof.
  intros Hs Hnd Hi Hrun Hmatch.
  assert (Hlen : ∀ sched P, poolRun (startPool r jobs s) sched P → length (pl_workers P) = length jobs).
  { intros ? ?. induction 1 as [|sched1 P2 j e P3 _ IH Hst]; [apply length_fmap|].
    destruct Hst. simpl in *. rewrite length_insert. auto. }
  assert (Ha : alongside r jobs s i key n sched P); last first.
  { destruct Ha as [_ (p & s1 & Hp & (H1 & H2 & _) & Hrun1)]. by exists p, s1. }
  induction Hrun as [|sched P2 j e P3 Hrun IH Hst].
  - split.
    + intros j p job Hp Hjob. simpl in Hp. rewrite list_lookup_fmap, Hjob in Hp. injection Hp as <-.
      apply keeps_reconciles.
    + eexists _, s. split; [simpl; by rewrite list_lookup_fmap, Hi|]. split; [|apply run_nil].
      split; [done|]. split; [done|]. intros m. simpl. by rewrite Hs.
  - rewrite fmap_app in Hmatch. eapply alongside_step; [done|done|by eapply Hlen| | | |done].
    + eapply run_disciplined; [done|]. by apply start_disciplined.
    + by eapply readsMatch_last.
    + apply IH. apply Forall_app in Hmatch. apply Hmatch.
Qed.

(** ** Schedules by execution *)

(** As [serve], with the API's answers given by [answer]; [None] when the
    worker has to wait. *)
Definition serveWith (answer : ∀ T, Req T → T) (i : nat) {T} (q : Req T) (s : Shared) : option (T * Shared) :=
  match q in Req T return option (T * Shared) with
  | Lock m => match sh_owner s m with None => Some (tt, set_owner m (Some i) s) | Some _ => None end
  | Unlock m => match sh_owner s m with None => None | Some _ => Some (tt, set_owner m None s) end
  | OpLookup key => Some (sh_active s !! key, s)
  | OpStore key v => Some (tt, set_sh_active (insert key v) s)
  | OpDelete key => Some (tt, set_sh_active (delete key) s)
  | PhaseLookup key => Some (sh_lastPhase s !! key, s)
  | PhaseStore key v => Some (tt, set_sh_lastPhase (insert key v) s)
  | PhaseDelete key => Some (tt, set_sh_lastPhase (delete key) s)
  | q => Some (answer _ q, s)
  end.

Lemma serveWith_serve answer i {T} (q : Req T) s r s' :
  serveWith answer i q s = Some (r, s') → serve i q s r s'.
Proof. destruct q; simpl; intros Hs; repeat case_match; simplify_eq; try done; by split. Qed.

(** Let the workers step in the given order; one that has to wait or has
    finished loses its turn. *)
Fixpoint play (answer : ∀ T, Req T → T) (P : Pool) (order : list nat) : list (nat * event) * Pool :=
  match order with
  | [] => ([], P)
  | i :: order' =>
      match pl_workers P !! i with
      | Some (Call q k) =>
          match serveWith answer i q (pl_shared P) with
          | Some (r, s') =>
              let '(sched, P') := play answer (mkPool (<[i := k r]> (pl_workers P)) s') order' in
              ((i, Ev q r) :: sched, P')
          | None => play answer P order'
          end
      | _ => play answer P order'
      end
  end.

Lemma run_cons P i e P1 sched P2 : poolStep P i e P1 → poolRun P1 sched P2 → poolRun P ((i, e) :: sched) P2.
Proof.
  intros Hs Hr. induction Hr as [|sched P2 j e' P3 _ IH Hst].
  - by apply (run_snoc P [] P i e); [apply run_nil|].
  - change (poolRun P (((i, e) :: sched) ++ [(j, e')]) P3). by eapply run_snoc.
Qed.

Lemma play_run answer P order : poolRun P (play answer P order).1 (play answer P order).2.
Proof.
  revert P. induction order as [|i order IH]; intros P; [apply run_nil|]. simpl.
  destruct (pl_workers P !! i) as [[a|T q k]|] eqn:Hi; [apply IH| |apply IH].
  destruct (serveWith answer i q (pl_shared P)) as [[r s']|] eqn:Hs; [|apply IH].
  specialize (IH (mkPool (<[i := k r]> (pl_workers P)) s')). destruct (play answer _ order) as [sched P'].
  simpl in *. eapply run_cons; [|exact IH]. destruct P. constructor; [done|by apply serveWith_serve in Hs].
Qed.

Lemma play_readsMatch answer P order :
  (∀ T q, readsLawful (λ _ _, True) T q (answer T q)) → readsMatch (play answer P order).1.*2.
Proof.
  intros Ha. revert P. induction order as [|i order IH]; intros P; [constructor|]. simpl.
  destruct (pl_workers P !! i) as [[a|T q k]|]; [apply IH| |apply IH].
  destruct (serveWith answer i q (pl_shared P)) as [[r s']|] eqn:Hs; [|apply IH].
  specialize (IH (mkPool (<[i := k r]> (pl_workers P)) s')). destruct (play answer _ order) as [sched P'].
  constructor; [|exact IH]. simpl. clear -Ha Hs. pose proof (Ha T q) as Hq.
  destruct q; try exact I; simpl in Hs; injection Hs as <- <-; exact Hq.
Qed.

(** An API that knows a Redkey scaled to zero under every key, and nothing else. *)
Definition zeroed (key : NamespacedName) : Redkey :=
  mkRedkey (mkMeta (nn_Name key) (nn_Namespace key) None None [] 1 "v1" "uid-1" 0)
    (sampleSpec 0 false None None) zeroStatus.

Definition zeroedAPI (T : Type) (q : Req T) : T :=
  match q in Req T return T with
  | Get k key => match k return res error (obj k) with KRedkey => Ok (zeroed key) | _ => Err NotFound end
  | ListConfigs _ _ => Ok []
  | Create _ _ | Delete _ _ | Patch _ _ _ => Err Conflict
  | StatusUpdate o => Ok o
  | Now => 7
  | Emit _ | Lock _ | Unlock _ | OpStore _ _ | OpDelete _ | PhaseStore _ _ | PhaseDelete _ => tt
  | OpLookup _ | PhaseLookup _ => None
  end.

Definition twoJobs : list (NamespacedName * nat) := [(mkKey "ns" "a", 1%nat); (mkKey "ns" "b", 2%nat)].

(** Both Redkeys were being scaled when the schedule starts. *)
Definition scalingBoth : Shared :=
  mkShared (λ _, None) {[mkKey "ns" "a" := mkActiveOperation "ScalingDown" 3;
    mkKey "ns" "b" := mkActiveOperation "ScalingDown" 4]} ∅.

(** The two workers in turn. *)
Fixpoint turns (n : nat) : list nat :=
  match n with O => [] | S n' => 0%nat :: 1%nat :: turns n' end.

Definition interleaved (n : nat) : list (nat * event) * Pool :=
  play zeroedAPI (startPool (H := fake_lib) (mkReconciler 30 2) twoJobs scalingBoth) (turns n).

(** After 5 turns the first worker is in its critical section and the second
    waits; after 40 all three reconciles have ended. *)
Lemma workers_race_free_and_complete_witness :
  (accesses <$> pl_workers (interleaved 5).2 !! 0%nat) = Some (Some OpTrackerMu) ∧
  sh_owner (pl_shared (interleaved 5).2) OpTrackerMu = Some 0%nat ∧
  forallb finished (pl_workers (interleaved 40).2) = true ∧
  ((∃ i e P', poolStep (interleaved 40).2 i e P') ∨
   Forall (λ p, finished p = true) (pl_workers (interleaved 40).2) ∧
   unlocked (pl_shared (interleaved 40).2)).
Proof.
  split; [vm_compute; reflexivity|]. split; [|split; [vm_compute; reflexivity|]].
  - destruct (pl_workers (interleaved 5).2 !! 0%nat) as [p|] eqn:Hp.
    + apply (workers_race_free_and_complete (H := fake_lib) (mkReconciler 30 2) twoJobs scalingBoth
        (interleaved 5).1 (interleaved 5).2 (λ m, eq_refl) (play_run _ _ _)) with (p := p); [exact Hp|].
      assert (Ha : accesses <$> pl_workers (interleaved 5).2 !! 0%nat = Some (Some OpTrackerMu))
        by (vm_compute; reflexivity).
      rewrite Hp in Ha. injection Ha as Ha. exact Ha.
    + exfalso. assert (Ha : is_Some (pl_workers (interleaved 5).2 !! 0%nat)) by (vm_compute; eexists; reflexivity).
      rewrite Hp in Ha. destruct Ha as [x Hx]. discriminate Hx.
  - apply (workers_race_free_and_complete (H := fake_lib) (mkReconciler 30 2) twoJobs scalingBoth
      (interleaved 40).1 (interleaved 40).2 (λ m, eq_refl) (play_run _ _ _)).
Defined.

Lemma workers_isolated_witness :
  length (doneBy 1 (interleaved 40).1) = 28%nat ∧
  ∃ p s1, pl_workers (interleaved 40).2 !! 1%nat = Some p ∧
    poolRun (startPool (H := fake_lib) (mkReconciler 30 2) [(mkKey "ns" "b", 2%nat)] scalingBoth)
      ((0%nat,.) <$> doneBy 1 (interleaved 40).1) (mkPool [p] s1) ∧
    sh_active s1 !! mkKey "ns" "b" = sh_active (pl_shared (interleaved 40).2) !! mkKey "ns" "b" ∧
    sh_lastPhase s1 !! mkKey "ns" "b" = sh_lastPhase (pl_shared (interleaved 40).2) !! mkKey "ns" "b".
Proof.
  split; [vm_compute; reflexivity|].
  apply (workers_isolated (H := fake_lib) (mkReconciler 30 2) twoJobs scalingBoth
    (interleaved 40).1 (interleaved 40).2 1 (mkKey "ns" "b") 2).
  - intros m. reflexivity.
  - apply NoDup_cons. split; [|apply NoDup_singleton]. intros Hin%list_elem_of_singleton. discriminate Hin.
  - reflexivity.
  - apply play_run.
  - apply play_readsMatch. intros T q. destruct q; try exact I; simpl; try reflexivity.
    + destruct k; try exact I. split; [exact I|]. destruct key. reflexivity.
    + intros c Hc. destruct (not_elem_of_nil c Hc).
Defined.
