(* ===== verification/MetricsProofs.v ===== *)
(** * Correctness of the metrics trackers

    The trackers are the operator's own memory, so these theorems hold for any
    client: nothing the API answers can disturb them. *)

From S2P Require Import Prelude GoLib K8s Types Effects Client Logic FakeCluster.
From S2P Require Import Robin Config Metrics ScaleZero Controller Samples ConfigProofs Footprint ControllerProofs.
Local Open Scope Z_scope.

Section trackers.
Context `{K8sLib, !KubeClient W, !KubeLaws W}.

Lemma wp_memory {T} (q : Req T) (w : W) Q :
  (∀ w' r, mem_contract q (memory w) r (memory w') → Q r w') → wp (call q) w Q.
Proof. intros HQ. apply wp_call_handle. intros w' r Hh. by eapply HQ, handle_memory. Qed.

(** *** Clock readings *)

Definition clockOf (e : event) : option Z :=
  match e with
  | Ev q x => match q in Req T return T → option Z with Now => λ t, Some t | _ => λ _, None end x
  end.

(** The times [time.Now] gave, in the order they were asked for. *)
Definition clock (tr : list event) : list Z := omap clockOf tr.

(** What holds of the clock readings, the result and the world after [p]. *)
Definition timed {A} (p : prog A) (w : W) (Q : list Z → A → W → Prop) : Prop :=
  wp p w (Q (clock (trace p w))).

Lemma timed_ret {A} (a : A) w Q : Q [] a w → timed (mret a) w Q.
Proof. done. Qed.

Lemma timed_bind {A B} (p : prog A) (f : A → prog B) w Q :
  timed p w (λ ts a w1, timed (f a) w1 (λ ts', Q (ts ++ ts'))) → timed (p ≫= f) w Q.
Proof.
  unfold timed, wp. rewrite trace_bind, exec_bind. destruct (exec p w) as [w1 a] eqn:He.
  unfold clock. by rewrite omap_app.
Qed.

Lemma timed_memory {T} (q : Req T) (w : W) Q :
  (∀ x, clockOf (Ev q x) = None) → (∀ w' x, mem_contract q (memory w) x (memory w') → Q [] x w') → timed (call q) w Q.
Proof.
  intros Hq HQ. unfold timed. rewrite trace_call. unfold clock. cbn [omap list_omap]. rewrite Hq. by apply wp_memory.
Qed.

Lemma timed_now (w : W) Q : (∀ w' t, memory w' = memory w → Q [t] t w') → timed (call Now) w Q.
Proof.
  intros HQ. unfold timed. rewrite trace_call. apply wp_call_handle. intros w' t Hh. rewrite Hh. simpl.
  apply HQ. by apply (handle_memory _ Now w w' t).
Qed.

Definition with_active (f : gmap NamespacedName activeOperation → gmap NamespacedName activeOperation)
    (m : Memory) : Memory := mkMemory (f (mm_active m)) (mm_lastPhase m) (mm_held m) (mm_emitted m).
Definition with_phase (f : gmap NamespacedName string → gmap NamespacedName string) (m : Memory) : Memory :=
  mkMemory (mm_active m) (f (mm_lastPhase m)) (mm_held m) (mm_emitted m).
Definition emit (cs : list MetricCall) (m : Memory) : Memory :=
  mkMemory (mm_active m) (mm_lastPhase m) (mm_held m) (mm_emitted m ++ cs).

(** ** Operations *)

(** The abstract tracker: what is in progress for one Redkey, and what one
    observation makes of it.  An operation lasts as long as its status is
    observed; [Some (op, started, result)] is the operation that ended. *)
Definition observed (current : option activeOperation) (status phase : string) (now : Z)
    : option activeOperation * option (activeOperation * string) :=
  let next :=
    if inOperation status then
      match current with
      | Some op => if bool_decide (ao_operation op = status) then Some op
                   else Some (mkActiveOperation status now)
      | None => Some (mkActiveOperation status now)
      end
    else None in
  let ended :=
    match current with
    | Some op =>
        if bool_decide (ao_operation op = status) && inOperation status then None
        else Some (op, if inOperation status then "superseded" else settledResult status phase)
    | None => None
    end in
  (next, ended).

Definition set_active (key : NamespacedName) (v : option activeOperation) :
    gmap NamespacedName activeOperation → gmap NamespacedName activeOperation :=
  partial_alter (λ _, v) key.

(** What the end of an operation puts on the metrics. *)
Definition endedMetrics (ended : option (activeOperation * string)) (finished : Z) : list MetricCall :=
  match ended with
  | None => []
  | Some (op, result) =>
      [Observe redkeyOperationDuration [ao_operation op] (finished - ao_startedAt op);
       CounterInc redkeyOperationTotal [ao_operation op; result]]
  end.

(** An operation starts: another one than that in progress is observed. *)
Definition starts (current : option activeOperation) (status : string) : bool :=
  inOperation status && negb (bool_decide (ao_operation <$> current = Some status)).

(** The clock readings of one observation: one for the end of an operation, one for
    the start of the next. *)
Definition readings (current : option activeOperation) (status phase : string) (finished now : Z) : list Z :=
  match (observed current status phase now).2 with Some _ => [finished] | None => [] end ++
  if starts current status then [now] else [].

Lemma timed_finishOperation op result (w : W) Q :
  (∀ w' finished, memory w' = emit (endedMetrics (Some (op, result)) finished) (memory w) → Q [finished] tt w') →
  timed (finishOperation op result) w Q.
Proof.
  intros HQ. apply timed_bind, timed_now. intros w1 t Hm1.
  apply timed_bind, timed_memory; [done|]. intros w2 [] Hm2. apply timed_memory; [done|]. intros w3 [] Hm3. apply (HQ w3 t).
  simpl in Hm2, Hm3. rewrite Hm3, Hm2, Hm1. unfold emit. simpl. by rewrite <- app_assoc.
Qed.

Lemma timed_startOperation key status (w : W) Q :
  (∀ w' now, memory w' = with_active (set_active key (Some (mkActiveOperation status now))) (memory w) →
    Q [now] tt w') →
  timed (startOperation key status) w Q.
Proof.
  intros HQ. apply timed_bind, timed_now. intros w1 t Hm1. apply timed_memory; [done|]. intros w2 [] Hm2.
  apply (HQ w2 t). simpl in Hm2. by rewrite Hm2, Hm1.
Qed.

Lemma emit_nil m : emit [] m = m.
Proof. destruct m. unfold emit. simpl. by rewrite app_nil_r. Qed.

Lemma set_active_id key v m :
  mm_active m !! key = v → with_active (set_active key v) m = m.
Proof.
  intros <-. destruct m as [a p h e]. unfold with_active, set_active. simpl. f_equal.
  destruct (a !! key) as [op|] eqn:Ha.
  - change (<[key := op]> a = a). by apply insert_id.
  - change (delete key a = a). by apply delete_id.
Qed.

(** The locked section. *)
Lemma timed_observeSwitch key status phase (w : W) Q :
  (∀ w' finished now,
    let '(next, ended) := observed (mm_active (memory w) !! key) status phase now in
    memory w' = emit (endedMetrics ended finished) (with_active (set_active key next) (memory w)) →
    Q (readings (mm_active (memory w) !! key) status phase finished now) tt w') →
  timed (observeSwitch key status phase (mm_active (memory w) !! key)) w Q.
Proof.
  unfold readings, starts, observed, observeSwitch.
  destruct (mm_active (memory w) !! key) as [op|] eqn:Hop, (inOperation status); intros HQ; simpl in HQ.
  - case_bool_decide as Heq; [rewrite (bool_decide_eq_true_2 (Some _ = _)) in HQ by congruence
      |rewrite (bool_decide_eq_false_2 (Some _ = _)) in HQ by congruence].
    + apply timed_ret, (HQ w 0 0). simpl. by rewrite emit_nil, set_active_id.
    + apply timed_bind, timed_finishOperation. intros w1 t Hm1. apply timed_startOperation. intros w2 now Hm2.
      apply (HQ w2 t now). by rewrite Hm2, Hm1.
  - apply timed_bind, timed_finishOperation. intros w1 t Hm1. apply timed_memory; [done|]. intros w2 [] Hm2.
    rewrite andb_false_r in HQ. apply (HQ w2 t 0). simpl in Hm2. by rewrite Hm2, Hm1.
  - apply timed_startOperation. intros w2 now Hm2. apply (HQ w2 0 now). by rewrite emit_nil, Hm2.
  - apply timed_ret, (HQ w 0 0). by rewrite emit_nil, set_active_id.
Qed.

(** [opTracker.observe] implements the abstract tracker: the entry of the Redkey
    becomes the abstract one, the entries of others are untouched, the mutex is free
    again, and exactly the ended operation is reported, at the times read from the
    clock. *)
Lemma timed_observe key status phase (w : W) Q :
  mm_held (memory w) = ∅ →
  (∀ w' finished now,
    let '(next, ended) := observed (mm_active (memory w) !! key) status phase now in
    memory w' = emit (endedMetrics ended finished) (with_active (set_active key next) (memory w)) →
    Q (readings (mm_active (memory w) !! key) status phase finished now) tt w') →
  timed (opTracker_observe key status phase) w Q.
Proof.
  intros Hheld HQ. apply timed_bind, timed_memory; [done|]. intros w1 [] Hm1. simpl in Hm1.
  apply timed_bind, timed_memory; [done|]. intros w2 tracking [Htr Hm2]. rewrite Hm1 in Htr, Hm2. simpl in Htr.
  assert (Ha2 : mm_active (memory w2) = mm_active (memory w)) by by rewrite Hm2.
  apply timed_bind. rewrite Htr, <- Ha2. apply timed_observeSwitch. intros w3 finished now. rewrite Ha2.
  specialize (λ w', HQ w' finished now). destruct (observed _ _ _ _) as [next ended]. intros Hm3.
  apply timed_memory; [done|]. intros w4 [] Hm4. simpl. rewrite app_nil_r. apply HQ. simpl in Hm4. rewrite Hm4, Hm3, Hm2.
  unfold emit, with_active. simpl. f_equal. rewrite Hheld. set_solver.
Qed.

(** ** Readiness *)

Lemma wp_enteredReady key phase (w : W) Q :
  mm_held (memory w) = ∅ →
  (∀ w', memory w' = with_phase (<[key := phase]>) (memory w) →
    Q (bool_decide (phase = PhaseReady) &&
       negb (bool_decide (default "" (mm_lastPhase (memory w) !! key) = PhaseReady))) w') →
  wp (readyTracker_enteredReady key phase) w Q.
Proof.
  intros Hheld HQ. apply wp_bind, wp_memory. intros w1 [] Hm1. simpl in Hm1.
  apply wp_bind, wp_memory. intros w2 prev [-> Hm2]. rewrite Hm1 in Hm2 |- *. cbn [mm_lastPhase].
  apply wp_bind, wp_memory. intros w3 [] Hm3. apply wp_bind, wp_memory. intros w4 [] Hm4.
  apply wp_ret, HQ. simpl in Hm3, Hm4. rewrite Hm4, Hm3, Hm2. unfold with_phase. simpl. f_equal.
  rewrite Hheld. set_solver.
Qed.

(** ** Forgetting a Redkey *)

Lemma wp_emit c (w : W) Q : (∀ w', memory w' = emit [c] (memory w) → Q tt w') → wp (call (Emit c)) w Q.
Proof. intros HQ. apply wp_memory. intros w' [] Hm. by apply HQ. Qed.

Lemma wp_opForget key (w : W) Q :
  mm_held (memory w) = ∅ → (∀ w', memory w' = with_active (delete key) (memory w) → Q tt w') →
  wp (opTracker_forget key) w Q.
Proof.
  intros Hheld HQ. apply wp_bind, wp_memory. intros w1 [] Hm1. apply wp_bind, wp_memory. intros w2 [] Hm2.
  apply wp_memory. intros w3 [] Hm3. apply HQ. simpl in *. rewrite Hm3, Hm2, Hm1.
  unfold with_active. simpl. f_equal. rewrite Hheld. set_solver.
Qed.

Lemma wp_readyForget key (w : W) Q :
  mm_held (memory w) = ∅ → (∀ w', memory w' = with_phase (delete key) (memory w) → Q tt w') →
  wp (readyTracker_forget key) w Q.
Proof.
  intros Hheld HQ. apply wp_bind, wp_memory. intros w1 [] Hm1. apply wp_bind, wp_memory. intros w2 [] Hm2.
  apply wp_memory. intros w3 [] Hm3. apply HQ. simpl in *. rewrite Hm3, Hm2, Hm1.
  unfold with_phase. simpl. f_equal. rewrite Hheld. set_solver.
Qed.

(** C26: [opTracker.observe] refines the abstract tracker.  For any client, one
    observation of a Redkey's status moves its entry as [observed] says, leaves the
    other Redkeys' entries alone, reports the operation that ended, if any, exactly
    once with its result, and leaves the mutex free.  The clock is read once for an
    operation that ends and once for one that starts, in this order: the duration
    reported is the first reading minus the time the operation had started, and the
    new operation is timed from the second; an operation whose status is observed
    again keeps its start time and reads no clock. *)
Theorem opTracker_observe_refines (key : NamespacedName) (status phase : string) (w w' : W) (u : unit) :
  mm_held (memory w) = ∅ → exec (opTracker_observe key status phase) w = (w', u) →
  let current := mm_active (memory w) !! key in
  ∃ finished now,
    clock (trace (opTracker_observe key status phase) w) = readings current status phase finished now ∧
    let '(next, ended) := observed current status phase now in
    mm_active (memory w') !! key = next ∧
    (∀ key', key' ≠ key → mm_active (memory w') !! key' = mm_active (memory w) !! key') ∧
    mm_emitted (memory w') = mm_emitted (memory w) ++
      match ended with
      | None => []
      | Some (op, result) =>
          [Observe redkeyOperationDuration [ao_operation op] (finished - ao_startedAt op);
           CounterInc redkeyOperationTotal [ao_operation op; result]]
      end ∧
    mm_lastPhase (memory w') = mm_lastPhase (memory w) ∧ mm_held (memory w') = ∅.
Proof.
  intros Hheld He current. pattern u, w'. eapply wp_exec; [|exact He].
  apply (timed_observe key status phase w (λ ts _ w', ∃ finished now, ts = readings current status phase finished now ∧ _) Hheld).
  intros w1 finished now. destruct (observed _ _ _ now) as [next ended] eqn:Ho. intros Hm.
  exists finished, now. split; [done|]. fold current in Ho. rewrite Ho, Hm. simpl. unfold set_active.
  split; [apply lookup_partial_alter_eq|]. split; [|done].
  intros key' Hne. by apply lookup_partial_alter_ne.
Qed.

(** The answers of [enteredReady] over a sequence of observed phases. *)
Fixpoint enteredAll (key : NamespacedName) (phases : list string) : prog (list bool) :=
  match phases with
  | [] => mret []
  | p :: ps =>
      b ← readyTracker_enteredReady key p;
      bs ← enteredAll key ps;
      mret (b :: bs)
  end.

(** The changes from another phase to Ready in a sequence of phases. *)
Definition becameReady (before : string) (phases : list string) : list bool :=
  zip_with (λ prev p, bool_decide (p = PhaseReady) && negb (bool_decide (prev = PhaseReady)))
    (before :: phases) phases.

Lemma wp_enteredAll key phases (w : W) Q :
  mm_held (memory w) = ∅ →
  (∀ w', mm_held (memory w') = ∅ →
    (∀ key', key' ≠ key → mm_lastPhase (memory w') !! key' = mm_lastPhase (memory w) !! key') →
    Q (becameReady (default "" (mm_lastPhase (memory w) !! key)) phases) w') →
  wp (enteredAll key phases) w Q.
Proof.
  revert w Q. induction phases as [|p ps IH]; intros w Q Hheld HQ; [by apply wp_ret, HQ|].
  change (enteredAll key (p :: ps)) with
    (b ← readyTracker_enteredReady key p; bs ← enteredAll key ps; mret (b :: bs)).
  apply wp_bind, wp_enteredReady; [done|]. intros w1 Hm1. apply wp_bind, IH; [by rewrite Hm1|].
  intros w2 Hh2 Hf2. apply wp_ret. rewrite Hm1 in Hf2 |- *. simpl in Hf2 |- *.
  rewrite lookup_insert_eq. apply HQ; [done|]. intros key' Hne. rewrite Hf2 by done.
  by apply lookup_insert_ne.
Qed.

(** Time-to-ready is sampled once per transition.  Over any sequence of
    observed phases of a Redkey, [enteredReady] answers true exactly at the
    changes from another phase (or from never having been seen) to Ready, and
    never mixes up two Redkeys. *)
Lemma enteredReady_transitions (key : NamespacedName) (phases : list string) (w w' : W) (bs : list bool) :
  mm_held (memory w) = ∅ → exec (enteredAll key phases) w = (w', bs) →
  bs = becameReady (default "" (mm_lastPhase (memory w) !! key)) phases ∧
  ∀ key', key' ≠ key → mm_lastPhase (memory w') !! key' = mm_lastPhase (memory w) !! key'.
Proof.
  intros Hheld He. pattern bs, w'. eapply wp_exec; [|exact He]. by apply wp_enteredAll.
Qed.

(** C28: a Redkey that is gone.  When the read says so, the reconcile ends
    without an error, does not ask to be run again, sends nothing to the API
    after that read, forgets what the trackers knew of that Redkey and of no
    other, and drops its series from the three gauges. *)
Theorem Reconcile_gone (r : RedkeyReconciler) (req : NamespacedName) (w w0 w' : W) (e : error)
    (out : Result * option error) :
  handle (Get KRedkey req) w = (w0, Err e) → IsNotFound e = true → mm_held (memory w) = ∅ →
  exec (Reconcile r req) w = (w', out) →
  out = (mkResult 0, None) ∧
  Forall (λ ev, match ev with @Ev T q _ => localCall req T q end) (tail (trace (Reconcile r req) w)) ∧
  memory w' = emit
    [DeletePartialMatch redkeyPhase (nn_Namespace req) (nn_Name req);
     DeletePartialMatch redkeyConfigPhase (nn_Namespace req) (nn_Name req);
     DeletePartialMatch redkeyOperationInProgress (nn_Namespace req) (nn_Name req)]
    (with_active (delete req) (with_phase (delete req) (memory w))).
Proof.
  intros Hh Hnf Hheld He.
  assert (Hm0 : memory w0 = memory w) by by apply handle_memory in Hh.
  set (rest := deleteRedkeyMetrics req ≫= λ _, mret (mkResult 0, @None error)).
  assert (Hcont : exec (Reconcile r req) w = exec rest w0 ∧
    trace (Reconcile r req) w = Ev (Get KRedkey req) (Err e) :: trace rest w0).
  { unfold Reconcile. rewrite exec_bind, trace_bind, exec_call, trace_call.
    change (obj KRedkey) with Redkey in Hh. rewrite Hh. simpl. by rewrite Hnf. }
  destruct Hcont as [Hex Htr]. rewrite Hex in He. rewrite Htr. cbn [tail].
  assert (Hlocal : all_calls (localCall req) rest) by (destruct req; by repeat (split; [done|intros ?])).
  match goal with |- _ ∧ _ ∧ ?m => assert (Hboth : out = (mkResult 0, None) ∧ m) end; last first.
  { destruct Hboth as [-> Hm]. split; [done|]. split; [|exact Hm].
    apply (all_calls_runs (localCall req) rest _ (exec rest w0).2); [exact Hlocal|apply exec_runs]. }
  - pattern out, w'. eapply wp_exec; [|exact He]. unfold rest, deleteRedkeyMetrics.
    apply wp_bind, wp_bind, wp_emit. intros w1 Hm1. apply wp_bind, wp_emit. intros w2 Hm2.
    apply wp_bind, wp_emit. intros w3 Hm3. rewrite Hm2, Hm1, Hm0 in Hm3.
    apply wp_bind, wp_opForget; [by rewrite Hm3|]. intros w4 Hm4. rewrite Hm3 in Hm4.
    apply wp_readyForget; [by rewrite Hm4|]. intros w5 Hm5. apply wp_ret. split; [done|].
    rewrite Hm5, Hm4. unfold emit, with_active, with_phase. simpl. by rewrite <- !app_assoc.
Qed.
End trackers.

(** ** State sets *)

(** The values a trace sets on the series of one gauge. *)
Definition gauges (m : MetricName) (tr : list event) : list (list string * Z) :=
  omap (λ e, match e with @Ev T q _ =>
    match q with
    | Emit (GaugeSet m' labels v) => if bool_decide (m' = m) then Some (labels, v) else None
    | _ => None
    end end) tr.

Lemma gauges_app m tr1 tr2 : gauges m (tr1 ++ tr2) = gauges m tr1 ++ gauges m tr2.
Proof. apply omap_app. Qed.

Lemma gauges_setStateSet m m' ns name active values tr u :
  runs (setStateSet m' ns name active values) tr u →
  gauges m tr = if bool_decide (m' = m)
    then (λ v, ([ns; name; v], if bool_decide (v = active) then 1 else 0)) <$> values else [].
Proof.
  revert tr. induction values as [|v values IH]; intros tr; [intros [-> _]; by case_bool_decide|].
  intros (tr1 & tr2 & [] & -> & ->%runs_call & H2)%runs_bind. rewrite gauges_app, (IH _ H2).
  unfold gauges. simpl. by case_bool_decide.
Qed.

(** No request sets a series of the gauge [m]. *)
Definition spares (m : MetricName) (T : Type) (q : Req T) : Prop :=
  match q with Emit (GaugeSet m' _ _) => m' ≠ m | _ => True end.

Lemma gauges_spared m {A} (p : prog A) tr a : all_calls (spares m) p → runs p tr a → gauges m tr = [].
Proof.
  intros Hp Hr. pose proof (all_calls_runs _ _ _ _ Hp Hr) as Hall. clear Hr.
  induction Hall as [|[T q r] tr Hq _ IH]; [done|]. unfold gauges. csimpl. fold (gauges m tr).
  destruct q as [| | | | | | |c| | | | | | | |]; try exact IH. destruct c; try exact IH.
  rewrite bool_decide_eq_false_2 by done. exact IH.
Qed.

Lemma observe_spares m key status phase : all_calls (spares m) (opTracker_observe key status phase).
Proof.
  eapply (all_calls_mono (λ T q, match q with Emit (GaugeSet _ _ _) => False | _ => True end)).
  { intros T q. destruct q as [| | | | | | |c| | | | | | | |]; try done. by destruct c. }
  unfold opTracker_observe. repeat (apply all_calls_bind; [by repeat split|intros ?]).
  apply all_calls_bind; [|by repeat split]. unfold observeSwitch. follow_calls.
Qed.

(** The series that are set to one. *)
Definition hot (l : list (list string * Z)) : list (list string) := (filter (λ g, g.2 = 1) l).*1.

Lemma hot_stateSet ns name active values :
  NoDup values →
  hot ((λ v, ([ns; name; v], if bool_decide (v = active) then 1 else 0)) <$> values) =
    if bool_decide (active ∈ values) then [[ns; name; active]] else [].
Proof.
  unfold hot. induction values as [|v values IH]; intros Hnd; [done|].
  apply NoDup_cons in Hnd as [Hv Hnd]. specialize (IH Hnd). csimpl.
  destruct (bool_decide_reflect (v = active)) as [->|Hne].
  - rewrite filter_cons_True by done. csimpl. rewrite IH.
    rewrite bool_decide_eq_false_2 by done. rewrite bool_decide_eq_true_2; [done|by left].
  - rewrite filter_cons_False by done. rewrite IH. erewrite bool_decide_ext; [done|]. set_solver.
Qed.

Lemma phaseOf_listed c : phaseOf c ∈ redkeyPhaseValues.
Proof. unfold phaseOf. repeat case_match; set_solver. Qed.

(** C39: the state-set gauges are one-hot.  Whenever the metrics of a Redkey
    are recorded with the phase aggregation computed, exactly the series of
    that phase is set to one among the three phases; among the config phases
    it is the active config's, or none at all while Robin has not yet given the
    config a phase. *)
Theorem recordRedkeyMetrics_one_hot (cluster : Redkey) (c : RedkeyConfig) (tr : list event) (u : unit) :
  runs (recordRedkeyMetrics cluster (Some c)) tr u →
  rst_Phase (rk_Status cluster) = phaseOf c →
  length (gauges redkeyPhase tr) = 3%nat ∧ length (gauges redkeyConfigPhase tr) = 4%nat ∧
  hot (gauges redkeyPhase tr) = [[rk_Namespace cluster; rk_Name cluster; phaseOf c]] ∧
  hot (gauges redkeyConfigPhase tr) =
    if bool_decide (rct_ConfigPhase (cf_Status c) ∈ redkeyConfigPhaseValues)
    then [[rk_Namespace cluster; rk_Name cluster; rct_ConfigPhase (cf_Status c)]] else [].
Proof.
  intros Hr Hphase. unfold recordRedkeyMetrics in Hr.
  apply runs_bind in Hr as (tr1 & tr2 & [] & -> & H1 & Hr).
  apply runs_bind in Hr as (tr3 & tr4 & [] & -> & H2 & Hr).
  apply runs_bind in Hr as (tr5 & tr6 & [] & -> & H3 & Hr).
  apply runs_bind in Hr as (tr7 & tr8 & [] & -> & H4 & Hr).
  apply runs_bind in Hr as (tr9 & tr10 & [] & -> & H5 & H6).
  assert (Hnone : ∀ m, m ≠ redkeyOperationInProgress →
    gauges m tr1 = [] ∧ gauges m tr3 = [] ∧ gauges m tr5 = [] ∧ gauges m tr10 = []).
  { intros m Hm. repeat split.
    - eapply gauges_spared; [apply observe_spares|exact H1].
    - eapply gauges_spared; [|exact H2]. by repeat split.
    - eapply gauges_spared; [|exact H3]. by case_match; repeat split.
    - eapply gauges_spared; [|exact H6]. follow_calls. }
  assert (Hg : ∀ m, m ≠ redkeyOperationInProgress →
    gauges m (tr1 ++ tr3 ++ tr5 ++ tr7 ++ tr9 ++ tr10) = gauges m tr7 ++ gauges m tr9).
  { intros m Hm. destruct (Hnone m Hm) as (E1 & E3 & E5 & E10).
    by rewrite !gauges_app, E1, E3, E5, E10, app_nil_r. }
  rewrite !Hg by done.
  rewrite !(gauges_setStateSet _ _ _ _ _ _ _ _ H4), !(gauges_setStateSet _ _ _ _ _ _ _ _ H5).
  rewrite !bool_decide_eq_true_2, !bool_decide_eq_false_2, app_nil_r, !app_nil_l by done.
  rewrite !length_fmap. split; [done|]. split; [done|]. split.
  - rewrite hot_stateSet, Hphase; [|apply (bool_decide_unpack _); by vm_compute].
    by rewrite bool_decide_eq_true_2 by apply phaseOf_listed.
  - apply hot_stateSet. apply (bool_decide_unpack _). by vm_compute.
Qed.

(** ** Witnesses *)

Lemma opTracker_observe_refines_witness :
  let w := sampleWorld (sampleRedkey 1 3 true zeroStatus) [] in
  let w1 := (exec (opTracker_observe sampleKey "ScalingUp" PhaseConfiguring) w).1 in
  let w2 := (exec (opTracker_observe sampleKey ClusterStatusReady PhaseReady) w1).1 in
  mm_active (memory w1) !! sampleKey = Some (mkActiveOperation "ScalingUp" 100) ∧
  clock (trace (opTracker_observe sampleKey ClusterStatusReady PhaseReady) w1) = [101] ∧
  mm_active (memory w2) !! sampleKey = None.
Proof.
  intros w w1 w2. split; [vm_compute; reflexivity|]. split; [vm_compute; reflexivity|].
  destruct (opTracker_observe_refines (H := fake_lib) (W := World false) sampleKey ClusterStatusReady PhaseReady
    w1 w2 tt) as (finished & now & _ & Hnext).
  - vm_compute. reflexivity.
  - unfold w2. destruct (exec _ w1) as [w3 []]. reflexivity.
  - exact (proj1 Hnext).
Defined.

Example enteredReady_transitions_example :
  let w := sampleWorld (sampleRedkey 1 3 true zeroStatus) [] in
  (exec (enteredAll sampleKey [PhaseConfiguring; PhaseReady; PhaseReady; PhaseError; PhaseReady]) w).2 =
    [false; true; false; false; true].
Proof.
  intros w. assert (Hheld : mm_held (memory w) = ∅) by reflexivity.
  destruct (enteredReady_transitions (H := fake_lib) (W := World false) sampleKey
    [PhaseConfiguring; PhaseReady; PhaseReady; PhaseError; PhaseReady] w _ _ Hheld
    (surjective_pairing (exec (enteredAll sampleKey
      [PhaseConfiguring; PhaseReady; PhaseReady; PhaseError; PhaseReady]) w))) as [Hb _].
  rewrite Hb. reflexivity.
Defined.

Lemma Reconcile_gone_witness :
  let w := sampleWorld (sampleRedkey 1 3 true zeroStatus) [] in
  (exec (Reconcile (H := fake_lib) (mkReconciler 30 1) (mkKey "ns" "gone")) w).2 = (mkResult 0, None).
Proof.
  intros w. assert (Hheld : mm_held (memory w) = ∅) by reflexivity.
  assert (Hh : handle (Get KRedkey (mkKey "ns" "gone")) w =
    ((handle (Get KRedkey (mkKey "ns" "gone")) w).1, Err NotFound)) by reflexivity.
  destruct (Reconcile_gone (H := fake_lib) (W := World false) (mkReconciler 30 1) (mkKey "ns" "gone") w
    _ _ NotFound _ Hh eq_refl Hheld
    (surjective_pairing (exec (Reconcile (mkReconciler 30 1) (mkKey "ns" "gone")) w))) as [Ho _].
  exact Ho.
Defined.

Lemma recordRedkeyMetrics_one_hot_witness :
  let c := sampleConfig 1 1 3 "" "" in
  let rk := sampleRedkey 1 3 true (mkRedkeyStatus 3 PhaseConfiguring "" (mkRedkeySubstatus "" 0) None [] None 1 0 0) in
  let tr := trace (recordRedkeyMetrics rk (Some c)) (sampleWorld rk []) in
  hot (gauges redkeyPhase tr) = [["ns"; "rk"; PhaseConfiguring]] ∧ hot (gauges redkeyConfigPhase tr) = [].
Proof.
  intros c rk tr.
  destruct (recordRedkeyMetrics_one_hot rk c tr (exec (recordRedkeyMetrics rk (Some c)) (sampleWorld rk [])).2)
    as (_ & _ & H1 & H2).
  - apply exec_runs.
  - reflexivity.
  - split; [exact H1|exact H2].
Defined.
