(* ===== verification/Access.v ===== *)
(** * The operator's own permissions (redkey_controller.go, RBAC markers)

    The [+kubebuilder:rbac] markers above [Reconcile], from which the
    operator's ClusterRole is generated, and what they have to cover: every
    request a reconcile makes, and every rule of the Role it creates for Robin
    (the API server refuses a Role that grants more than its creator holds). *)

From S2P Require Import Prelude GoLib K8s Types Effects Client Logic FakeCluster.
From S2P Require Import Robin Config ScaleZero Controller Samples Footprint.
Local Open Scope Z_scope.

(** The markers, in order. *)
Definition operatorRules : list PolicyRule :=
  let all := ["get"; "list"; "watch"; "create"; "update"; "patch"; "delete"] in
  [mkRule ["redkey.inditex.dev"] ["redkeys"] all;
   mkRule ["redkey.inditex.dev"] ["redkeys/status"] ["get"; "update"; "patch"];
   mkRule ["redkey.inditex.dev"] ["redkeys/scale"] ["get"; "update"; "patch"];
   mkRule ["redkey.inditex.dev"] ["redkeys/finalizers"] ["update"];
   mkRule ["redkey.inditex.dev"] ["redkeyconfigs"] ["get"; "list"; "watch"; "create"; "delete"];
   mkRule ["redkey.inditex.dev"] ["redkeyconfigs/status"] ["get"; "update"; "patch"];
   mkRule [""] ["configmaps"; "services"] all;
   mkRule [""] ["pods"] ["get"; "list"; "watch"; "delete"];
   mkRule [""] ["secrets"] ["get"];
   mkRule [""] ["persistentvolumeclaims"] ["list"; "delete"];
   mkRule ["apps"] ["statefulsets"] all;
   mkRule ["policy"] ["poddisruptionbudgets"] all;
   mkRule ["apps"] ["deployments"] all;
   mkRule [""] ["serviceaccounts"] all;
   mkRule ["rbac.authorization.k8s.io"] ["roles"; "rolebindings"] all].

(** Whether rules allow a verb on a resource of an API group. *)
Definition allows (rules : list PolicyRule) (group resource verb : string) : bool :=
  existsb (λ r, bool_decide (group ∈ pr_APIGroups r) && bool_decide (resource ∈ pr_Resources r) &&
    bool_decide (verb ∈ pr_Verbs r)) rules.

(** The API group and resource of each kind. *)
Definition resourceOf (k : Kind) : string * string :=
  match k with
  | KRedkey => ("redkey.inditex.dev", "redkeys")
  | KRedkeyConfig => ("redkey.inditex.dev", "redkeyconfigs")
  | KDeployment => ("apps", "deployments")
  | KServiceAccount => ("", "serviceaccounts")
  | KRole => ("rbac.authorization.k8s.io", "roles")
  | KRoleBinding => ("rbac.authorization.k8s.io", "rolebindings")
  end.

(** The verbs a request needs on the API server: a cached read lists and
    watches the kind. *)
Definition needs {T} (q : Req T) : list (string * string * string) :=
  match q with
  | Get k _ => (λ v, (resourceOf k, v)) <$> ["get"; "list"; "watch"]
  | ListConfigs _ _ => (λ v, (resourceOf KRedkeyConfig, v)) <$> ["list"; "watch"]
  | Create k _ => [(resourceOf k, "create")]
  | Delete k _ => [(resourceOf k, "delete")]
  | Patch k _ _ => [(resourceOf k, "patch")]
  | StatusUpdate _ => [("redkey.inditex.dev", "redkeys/status", "update")]
  | _ => []
  end.

Definition authorised (rules : list PolicyRule) (T : Type) (q : Req T) : Prop :=
  ∀ g r v, (g, r, v) ∈ needs q → allows rules g r v = true.

(** The controller watches the kind. *)
Definition watches (setup : list BuilderCall) (k : Kind) : bool :=
  bool_decide (For k ∈ setup) || bool_decide (Owns k ∈ setup).

(** An object a request creates is of an owned kind and controlled by a Redkey
    [P] holds of, so that its events come back as requests for that Redkey. *)
Definition comesBack (setup : list BuilderCall) (P : Redkey → Prop) (T : Type) (q : Req T) : Prop :=
  match q with
  | Create k o => Owns k ∈ setup ∧ ∃ cluster ref, P cluster ∧
      ref ∈ om_OwnerReferences (meta_of k o) ∧ controls cluster ref
  | _ => True
  end.

(** Everything the rules [l] grant is granted by [rules]. *)
Definition coversRules (rules l : list PolicyRule) : bool :=
  forallb (λ x, forallb (λ g, forallb (λ r, forallb (λ v, allows rules g r v) (pr_Verbs x))
    (pr_Resources x)) (pr_APIGroups x)) l.

Lemma authorised_footprint seen req T (q : Req T) :
  footprint seen req T q → authorised operatorRules T q.
Proof.
  intros Hf g r v Hin.
  assert (Hall : forallb (λ x, allows operatorRules x.1.1 x.1.2 x.2) (needs q) = true).
  { destruct q; simpl in Hf; try reflexivity; destruct k; try reflexivity; destruct Hf; try done; naive_solver. }
  rewrite forallb_forall in Hall. apply list_elem_of_In in Hin. exact (Hall _ Hin).
Qed.

Lemma comesBack_footprint r seen req T (q : Req T) :
  footprint seen req T q →
  comesBack (RedkeyReconciler_SetupWithManager r) (λ c, seen KRedkey c ∧ key_of KRedkey c = req) T q.
Proof.
  destruct q as [| |k o|  | | | | | | | | | | | |]; try done. intros (Hk & _ & _ & _ & cluster & ref & H1 & H2 & H3).
  split; [destruct k; try done; set_solver|]. exists cluster, ref. tauto.
Qed.

(** C29: the operator's permissions suffice and are not exceeded by what it
    hands out.  Every request of every reconcile, whatever the API answers, is
    allowed by the generated rules (in particular configs are never patched or
    updated, which the rules do not allow); the Role created for Robin grants
    nothing the operator does not hold; and Robin can report on configs but
    neither create, change nor delete them.  The controller watches every kind a
    reconcile reads, may list and watch it, and owns the kind of every object a
    reconcile creates, each of which is controlled by the Redkey reconciled. *)
Theorem permissions_suffice `{K8sLaws} (r : RedkeyReconciler) (req : NamespacedName)
    (tr : list event) (a : Result * option error) :
  runs (Reconcile r req) tr a → readsMatch tr →
  Forall (λ e, match e with @Ev T q _ => authorised operatorRules T q end) tr ∧
  coversRules operatorRules DesiredRobinRules = true ∧
  allows operatorRules "redkey.inditex.dev" "redkeyconfigs" "patch" = false ∧
  (∀ v, allows DesiredRobinRules "redkey.inditex.dev" "redkeyconfigs" v = true →
    v ∈ ["get"; "list"; "watch"]) ∧
  (∀ k, watches (RedkeyReconciler_SetupWithManager r) k = true ∧
    ∀ v, v ∈ ["get"; "list"; "watch"] → allows operatorRules (resourceOf k).1 (resourceOf k).2 v = true) ∧
  Forall (λ e, match e with @Ev T q _ => comesBack (RedkeyReconciler_SetupWithManager r)
    (λ cluster, readIn tr KRedkey cluster ∧ key_of KRedkey cluster = req) T q end) tr.
Proof.
  intros Hr Hm. split; [|split; [reflexivity|split; [reflexivity|split; [|split]]]].
  - destruct (obeys_runs (readsLawful (readIn tr)) _ (Reconcile r req) any tr a
      (within_Reconcile (readIn tr) req r) Hr (readsMatch_lawful tr Hm)) as [Hf _].
    eapply Forall_impl; [exact Hf|]. intros [T q x]. apply authorised_footprint.
  - intros v Hv. apply existsb_exists in Hv as (x & Hx & Hv).
    apply andb_true_iff in Hv as [Hv Hverb]. apply andb_true_iff in Hv as [Hg Hres].
    rewrite !bool_decide_eq_true in *.
    repeat (destruct Hx as [<-|Hx]; [simpl in *; set_solver|]). destruct Hx.
  - intros k. split; [by destruct k|]. intros v Hv.
    assert (Hall : forallb (allows operatorRules (resourceOf k).1 (resourceOf k).2) ["get"; "list"; "watch"] = true)
      by by destruct k.
    rewrite forallb_forall in Hall. apply list_elem_of_In in Hv. exact (Hall _ Hv).
  - destruct (obeys_runs (readsLawful (readIn tr)) _ (Reconcile r req) any tr a
      (within_Reconcile (readIn tr) req r) Hr (readsMatch_lawful tr Hm)) as [Hf _].
    eapply Forall_impl; [exact Hf|]. intros [T q x]. apply comesBack_footprint.
Qed.

Lemma permissions_suffice_witness :
  let w := sampleWorld (sampleRedkey 1 3 true zeroStatus) [] in
  let tr := trace (Reconcile (H := fake_lib) (mkReconciler 30 1) sampleKey) w in
  Forall (λ e, match e with @Ev T q _ => authorised operatorRules T q end) tr.
Proof.
  intros w tr.
  destruct (permissions_suffice (H := fake_lib) (mkReconciler 30 1) sampleKey tr
    (exec (Reconcile (mkReconciler 30 1) sampleKey) w).2) as [Hall _].
  - apply exec_runs.
  - apply trace_readsMatch.
  - exact Hall.
Defined.
