(* ===== verification/Validation.v ===== *)
(** * Admission rules of the Redkey type (api/v1beta1/redkey_types.go)

    The markers on [RedkeySpec], its fields, [RedkeyStatus] and [Redkey], as the API
    server evaluates them on a write: a spec arrives as an object some of whose
    fields may be absent, the defaults are filled in, the bounds, the enumerations and
    the CEL rules are checked, and what Go later reads is the zero value of a field
    that is absent.  [has(f)] is the presence of the field, whatever its value; a
    field rule on [oldSelf] applies when both objects have the field.  The
    scale-from-zero lock is then related to the status writes of the operator. *)

From S2P Require Import Prelude GoLib K8s Types Effects Client Logic FakeCluster.
From S2P Require Import Robin Config ScaleZero Controller Samples Footprint.
Local Open Scope Z_scope.

(** ** Objects *)

(** The spec of a Redkey as an object: the fields that have a marker, each present
    or not, and the others as Go decodes them ([sp_Rest]). *)
Record SpecObject := mkSpecObject {
  sp_Mode : option string;
  sp_Primaries : option Z;
  sp_ReplicasPerPrimary : option Z;
  sp_DeletePVC : option bool;
  sp_Robin : option RobinSpec;
  sp_SkipIfSuperseded : option bool;
  sp_PurgeKeysOnRebalance : option bool;
  sp_Ephemeral : option bool;
  sp_Storage : option string;
  sp_StorageClassName : option string;
  sp_AccessModes : option (list string);
  sp_Rest : RedkeySpec;
}.

(** The [+kubebuilder:default] markers. *)
Definition applyDefaults (x : SpecObject) : SpecObject :=
  mkSpecObject (Some (default ModeCluster (sp_Mode x))) (sp_Primaries x) (Some (default 0 (sp_ReplicasPerPrimary x)))
    (Some (default false (sp_DeletePVC x))) (sp_Robin x) (Some (default true (sp_SkipIfSuperseded x)))
    (Some (default true (sp_PurgeKeysOnRebalance x))) (Some (default true (sp_Ephemeral x))) (sp_Storage x)
    (Some (default "" (sp_StorageClassName x))) (Some (default ["ReadWriteOnce"] (sp_AccessModes x))) (sp_Rest x).

(** The [RedkeySpec] that Go decodes: an absent field has its zero value. *)
Definition decodeSpec (x : SpecObject) : RedkeySpec :=
  let s := sp_Rest x in
  mkRedkeySpec (rs_Auth s) (rs_Version s) (default "" (sp_Mode x)) (default 0 (sp_Primaries x))
    (default 0 (sp_ReplicasPerPrimary x)) (rs_Image s) (sp_DeletePVC x) (rs_Backup s)
    (default (mkRobinSpec "" None None None) (sp_Robin x)) (default false (sp_SkipIfSuperseded x))
    (sp_PurgeKeysOnRebalance x) (rs_Config s) (rs_Resources s) (rs_Labels s) (rs_Annotations s) (rs_Pdb s)
    (rs_Override s) (default false (sp_Ephemeral x)) (default "" (sp_Storage x)) (default "" (sp_StorageClassName x))
    (default [] (sp_AccessModes x)).

(** A stored Redkey. *)
Record StoredRedkey := mkStoredRedkey { ro_Meta : ObjectMeta; ro_Spec : SpecObject; ro_Status : RedkeyStatus }.

Definition decodeRedkey (o : StoredRedkey) : Redkey := mkRedkey (ro_Meta o) (decodeSpec (ro_Spec o)) (ro_Status o).

(** The object a Go client sends for a spec: a field tagged [omitempty] is left out
    when it is the zero value, a nil pointer is [null], which is no value either. *)
Definition encodeSpec (s : RedkeySpec) : SpecObject :=
  mkSpecObject (if bool_decide (rs_Mode s = "") then None else Some (rs_Mode s)) (Some (rs_Primaries s))
    (Some (rs_ReplicasPerPrimary s)) (rs_DeletePVC s) (Some (rs_Robin s)) (Some (rs_SkipIfSuperseded s))
    (rs_PurgeKeysOnRebalance s) (Some (rs_Ephemeral s))
    (if bool_decide (rs_Storage s = "") then None else Some (rs_Storage s)) (Some (rs_StorageClassName s))
    (if bool_decide (rs_AccessModes s = []) then None else Some (rs_AccessModes s)) s.

(** A stored object that Go reads as [o]. *)
Definition storedRedkey (o : Redkey) : StoredRedkey :=
  mkStoredRedkey (rk_Meta o) (applyDefaults (encodeSpec (rk_Spec o))) (rk_Status o).

(** A Go client's spec comes back as it was sent, the defaults apart. *)
Lemma decode_encode s :
  rs_Mode s ≠ "" → is_Some (rs_DeletePVC s) → is_Some (rs_PurgeKeysOnRebalance s) → rs_AccessModes s ≠ [] →
  decodeSpec (applyDefaults (encodeSpec s)) = s.
Proof.
  destruct s as [? ? mode ? ? ? del ? ? ? purge ? ? ? ? ? ? ? storage ? modes]. simpl. intros Hm [d ->] [p ->] Ha.
  unfold decodeSpec, applyDefaults, encodeSpec. simpl.
  rewrite (bool_decide_eq_false_2 (mode = "")), (bool_decide_eq_false_2 (modes = [])) by done.
  by destruct (bool_decide_reflect (storage = "")) as [->|].
Qed.

Lemma decode_stored o : decodeSpec (applyDefaults (encodeSpec (rk_Spec o))) = rk_Spec o → decodeRedkey (storedRedkey o) = o.
Proof. destruct o as [m s st]. unfold decodeRedkey. simpl. by intros ->. Qed.

(** ** The rules *)

Definition is_present {A} (f : option A) : bool := bool_decide (is_Some f).

(** The rules on [RedkeySpec] that read the new object only; a rule that reads an
    absent field fails. *)
Definition specRules (self : SpecObject) : bool :=
  match sp_Ephemeral self, sp_PurgeKeysOnRebalance self, sp_Mode self, sp_Primaries self, sp_ReplicasPerPrimary self with
  | Some ephemeral, Some purgeKeysOnRebalance, Some mode, Some primaries, Some replicasPerPrimary =>
      (ephemeral || is_present (sp_Storage self)) &&
      negb (ephemeral && is_present (sp_Storage self)) &&
      negb (negb ephemeral && purgeKeysOnRebalance) &&
      (negb (bool_decide (mode = ModeStandalone)) || (primaries <=? 1)) &&
      (negb (bool_decide (mode = ModeStandalone)) || bool_decide (replicasPerPrimary = 0))
  | _, _, _, _, _ => false
  end.

(** The required fields, the bounds and the enumerations. *)
Definition fieldRules (self : SpecObject) : bool :=
  match sp_Mode self with
  | Some mode => bool_decide (mode ∈ [ModeCluster; ModeStandalone])
  | None => true
  end &&
  match sp_Primaries self with
  | Some primaries => 0 <=? primaries
  | None => false
  end &&
  is_present (sp_Robin self) &&
  forallb (λ m, bool_decide (m ∈ ["ReadWriteOnce"; "ReadOnlyMany"; "ReadWriteMany"])) (default [] (sp_AccessModes self)).

(** A field rule [self == oldSelf]. *)
Definition unchanged {A} `{EqDecision A} (oldSelf self : option A) : bool :=
  match oldSelf, self with
  | Some v, Some v' => bool_decide (v' = v)
  | _, _ => true
  end.

(** The rules that compare with the old object. *)
Definition transitionRules (oldSelf self : SpecObject) : bool :=
  bool_decide (sp_Mode self = sp_Mode oldSelf) &&
  unchanged (sp_Ephemeral oldSelf) (sp_Ephemeral self) &&
  unchanged (sp_Storage oldSelf) (sp_Storage self) &&
  unchanged (sp_StorageClassName oldSelf) (sp_StorageClassName self) &&
  unchanged (sp_AccessModes oldSelf) (sp_AccessModes self).

(** The bounds on the recorded topology, and that the nodes are no [null]. *)
Definition statusRules (st : RedkeyStatus) : bool :=
  is_present (rst_Nodes st) &&
  (0 <=? rst_LastAppliedPrimaries st) && (rst_LastAppliedPrimaries st <=? 100000) &&
  (0 <=? rst_LastAppliedReplicasPerPrimary st) && (rst_LastAppliedReplicasPerPrimary st <=? 100000).

(** A status field that is written by the operator, and tagged [omitempty], is there
    when it is not zero. *)
Definition has_int (z : Z) : bool := negb (bool_decide (z = 0)).

(** The scale-from-zero lock: the two rules on [Redkey]. *)
Definition scaleFromZeroRules (oldSelf self : Redkey) : bool :=
  let spec := rk_Spec self in
  let st := rk_Status self in
  let free := rs_Ephemeral spec || negb (bool_decide (rs_Primaries (rk_Spec oldSelf) = 0)) ||
    bool_decide (rs_Primaries spec = 0) || negb (has_int (rst_LastAppliedPrimaries st)) in
  (free || bool_decide (rs_Primaries spec = rst_LastAppliedPrimaries st)) &&
  (free || bool_decide (rs_ReplicasPerPrimary spec =
     if has_int (rst_LastAppliedReplicasPerPrimary st) then rst_LastAppliedReplicasPerPrimary st else 0)).

(** A write of the main resource keeps the stored status. *)
Definition withSpec (oldSelf : StoredRedkey) (x : SpecObject) : StoredRedkey :=
  mkStoredRedkey (ro_Meta oldSelf) (applyDefaults x) (ro_Status oldSelf).

Definition validSpec (x : SpecObject) : bool := fieldRules x && specRules x.

Definition admitsCreate (x : SpecObject) : bool := validSpec (applyDefaults x).

Definition admitsUpdate (oldSelf : StoredRedkey) (x : SpecObject) : bool :=
  validSpec (applyDefaults x) && transitionRules (ro_Spec oldSelf) (applyDefaults x) &&
  scaleFromZeroRules (decodeRedkey oldSelf) (decodeRedkey (withSpec oldSelf x)).

(** ** What the rules guarantee of one write *)

Lemma has_int_true z : has_int z = true ↔ z ≠ 0.
Proof. unfold has_int. by rewrite negb_true_iff, bool_decide_eq_false. Qed.

Lemma admitsUpdate_split oldSelf x :
  admitsUpdate oldSelf x = true →
  validSpec (applyDefaults x) = true ∧ transitionRules (ro_Spec oldSelf) (applyDefaults x) = true ∧
  scaleFromZeroRules (decodeRedkey oldSelf) (decodeRedkey (withSpec oldSelf x)) = true.
Proof. unfold admitsUpdate. rewrite !andb_true_iff. tauto. Qed.

(** Storage is there exactly when the cluster is not ephemeral. *)
Lemma validSpec_storage x :
  validSpec x = true → sp_Ephemeral x = Some (negb (is_present (sp_Storage x))).
Proof.
  unfold validSpec, specRules. rewrite andb_true_iff. intros [_ Hs]. repeat case_match; try done.
  rewrite !andb_true_iff in Hs. destruct Hs as ((((Hor & Hand) & _) & _) & _). f_equal.
  match goal with |- ?e = _ => destruct e end; by destruct (is_present (sp_Storage x)).
Qed.

(** A standalone one has at most one node. *)
Lemma validSpec_standalone x :
  validSpec x = true → IsStandalone (decodeSpec x) = true →
  0 ≤ NodesNeeded (decodeSpec x) ≤ 1 ∧ rs_ReplicasPerPrimary (decodeSpec x) = 0.
Proof.
  unfold validSpec, fieldRules, specRules, IsStandalone, NodesNeeded, decodeSpec. cbn [rs_Mode rs_Primaries rs_ReplicasPerPrimary].
  intros [Hf Hs]%andb_true_iff Hm. repeat case_match; try done. simpl in Hm |- *. rewrite Hm in Hs. simpl in Hs.
  rewrite !andb_true_iff, !Z.leb_le, bool_decide_eq_true in Hs. rewrite !andb_true_iff, !Z.leb_le in Hf.
  destruct Hs as ((_ & Hle) & ->), Hf as (((_ & Hpos) & _) & _). split; [|done]. rewrite Z.mul_0_r.
  match goal with |- context [?p + _] => assert (p = 0 ∨ p = 1) as [-> | ->] by lia end; vm_compute; intuition congruence.
Qed.

(** ** The life of a stored Redkey *)

(** One step of a Redkey's life: an admitted write of its spec, or a status
    write of the operator within its footprint ([seen] says which configs it
    has seen). *)
Inductive evolves (seen : ∀ k, obj k → Prop) : StoredRedkey → StoredRedkey → Prop :=
| evolves_user (o : StoredRedkey) (x : SpecObject) :
    admitsUpdate o x = true → evolves seen o (withSpec o x)
| evolves_operator (o : StoredRedkey) (st : RedkeyStatus) :
    keepsTopology seen (decodeRedkey o) st → evolves seen o (mkStoredRedkey (ro_Meta o) (ro_Spec o) st).

(** What a spec says of the storage, whatever else it says. *)
Definition storageOf (x : SpecObject) : option string * option bool * option string * option string * option (list string) :=
  (sp_Mode x, sp_Ephemeral x, sp_Storage x, sp_StorageClassName x, sp_AccessModes x).

Lemma unchanged_eq {A} `{EqDecision A} (v v' : A) : unchanged (Some v) (Some v') = true → v' = v.
Proof. apply bool_decide_eq_true. Qed.

Lemma admitted_ephemeral o x e :
  admitsUpdate o x = true → sp_Ephemeral (ro_Spec o) = Some e → sp_Ephemeral (ro_Spec (withSpec o x)) = Some e.
Proof.
  intros (_ & Ht & _)%admitsUpdate_split He. unfold transitionRules in Ht. rewrite !andb_true_iff, He in Ht.
  destruct Ht as ((((_ & Hx) & _) & _) & _). simpl in *. by rewrite (unchanged_eq _ _ Hx).
Qed.

(** An admitted update keeps it. *)
Lemma transition_storage x y :
  validSpec (applyDefaults y) = true → validSpec (applyDefaults x) = true →
  transitionRules (applyDefaults y) (applyDefaults x) = true →
  storageOf (applyDefaults x) = storageOf (applyDefaults y).
Proof.
  intros Hy%validSpec_storage Hx%validSpec_storage. unfold transitionRules. rewrite !andb_true_iff.
  intros ((((Hm%bool_decide_eq_true & He%unchanged_eq) & Hs) & Hc%unchanged_eq) & Ha%unchanged_eq).
  unfold storageOf. f_equal; [f_equal; [f_equal; [f_equal; [done|]|]|]|].
  - unfold applyDefaults. simpl. by rewrite He.
  - simpl in *. injection Hx as Hx. injection Hy as Hy. rewrite He, Hy in Hx.
    destruct (sp_Storage x) as [v|], (sp_Storage y) as [v'|]; try done. by rewrite (unchanged_eq _ _ Hs).
  - unfold applyDefaults. simpl. by rewrite Hc.
  - unfold applyDefaults. simpl. by rewrite Ha.
Qed.

(** Created and then written: some object, with its defaults, that is valid and says
    the same of the storage. *)
Lemma evolves_valid seen o o' y :
  rtc (evolves seen) o o' → ro_Spec o = applyDefaults y → admitsCreate y = true →
  ∃ x, ro_Spec o' = applyDefaults x ∧ validSpec (ro_Spec o') = true ∧ storageOf (ro_Spec o') = storageOf (ro_Spec o).
Proof.
  intros Hrtc. revert y. induction Hrtc as [o|o1 o2 o3 H12 _ IH]; intros y Hy Hc; [by exists y; rewrite Hy|].
  destruct H12 as [o1 x Hx|o1 st _]; [|by apply (IH y)].
  destruct (admitsUpdate_split _ _ Hx) as (Hv & Ht & _). destruct (IH x eq_refl Hv) as (z & Hz & Hvz & Hs).
  exists z. split; [done|]. split; [done|]. rewrite Hs. simpl. rewrite Hy in Ht |- *. by apply transition_storage.
Qed.

Definition topology (o : StoredRedkey) : Z * Z :=
  (rs_Primaries (decodeSpec (ro_Spec o)), rs_ReplicasPerPrimary (decodeSpec (ro_Spec o))).
Definition recorded (o : StoredRedkey) : Z * Z :=
  (rst_LastAppliedPrimaries (ro_Status o), rst_LastAppliedReplicasPerPrimary (ro_Status o)).

(** A topology Robin has applied and the operator has seen. *)
Definition seenApplied (seen : ∀ k, obj k → Prop) (t : Z * Z) : Prop :=
  ∃ c, seen KRedkeyConfig c ∧ isApplied c = true ∧ 0 < rcs_Primaries (cf_Spec c) ∧
    t = (rcs_Primaries (cf_Spec c), rcs_ReplicasPerPrimary (cf_Spec c)).

(** The lock, one write at a time. *)
Lemma scaleFromZero_locked o x :
  admitsUpdate o x = true → sp_Ephemeral (ro_Spec (withSpec o x)) = Some false →
  (topology o).1 = 0 → (topology (withSpec o x)).1 ≠ 0 → 0 < (recorded o).1 →
  topology (withSpec o x) = recorded o.
Proof.
  intros (_ & _ & Hl)%admitsUpdate_split He Ho Hn Hr. unfold scaleFromZeroRules in Hl. unfold topology, recorded in *.
  cbn [fst] in *. set (new := withSpec o x) in *.
  assert (Hp : has_int (rst_LastAppliedPrimaries (ro_Status o)) = true) by (apply has_int_true; lia).
  assert (He' : rs_Ephemeral (decodeSpec (ro_Spec new)) = false) by (unfold decodeSpec; cbn [rs_Ephemeral]; by rewrite He).
  change (rk_Spec (decodeRedkey o)) with (decodeSpec (ro_Spec o)) in Hl.
  change (rk_Spec (decodeRedkey new)) with (decodeSpec (ro_Spec new)) in Hl.
  change (rk_Status (decodeRedkey new)) with (ro_Status o) in Hl.
  rewrite He', Hp, (bool_decide_eq_true_2 _ Ho), (bool_decide_eq_false_2 _ Hn) in Hl. cbn [negb orb] in Hl.
  apply andb_true_iff in Hl as [H1%bool_decide_eq_true H2%bool_decide_eq_true].
  f_equal; [done|]. rewrite H2. unfold has_int.
  by destruct (bool_decide_reflect (rst_LastAppliedReplicasPerPrimary (ro_Status o) = 0)) as [->|].
Qed.

(** C32: what admission guarantees over the life of a Redkey.  From its creation
    on, however spec writes and status writes follow each other: the spec has a
    storage field exactly when it is not ephemeral (the field may be an empty string);
    a standalone one needs at most one node and has no replicas; the mode, whether it
    is ephemeral, the storage size, its class and access modes are those it was
    created with; and a write that scales a storage cluster with an admissible
    record up from zero asks for at most 100000 primaries with at most 100000
    replicas each. *)
Theorem admission_topology (seen : ∀ k, obj k → Prop) (y : SpecObject) (o o' : StoredRedkey) :
  ro_Spec o = applyDefaults y → admitsCreate y = true → rtc (evolves seen) o o' →
  (sp_Ephemeral (ro_Spec o') = Some true ∧ sp_Storage (ro_Spec o') = None ∨
   sp_Ephemeral (ro_Spec o') = Some false ∧ is_Some (sp_Storage (ro_Spec o'))) ∧
  (IsStandalone (decodeSpec (ro_Spec o')) = true →
   0 ≤ NodesNeeded (decodeSpec (ro_Spec o')) ≤ 1 ∧ rs_ReplicasPerPrimary (decodeSpec (ro_Spec o')) = 0) ∧
  storageOf (ro_Spec o') = storageOf (ro_Spec o) ∧
  (sp_Ephemeral (ro_Spec o) = Some false → (topology o').1 = 0 → statusRules (ro_Status o') = true → 0 < (recorded o').1 →
   ∀ x, admitsUpdate o' x = true → (topology (withSpec o' x)).1 ≠ 0 →
     (topology (withSpec o' x)).1 ≤ 100000 ∧ 0 ≤ (topology (withSpec o' x)).2 ≤ 100000).
Proof.
  intros Hy Hc Hrtc. destruct (evolves_valid _ _ _ _ Hrtc Hy Hc) as (z & Hz & Hv & Hs). split; [|split; [|split; [done|]]].
  - rewrite (validSpec_storage _ Hv). unfold is_present. case_bool_decide as Hp; [by right|left].
    split; [done|]. by apply eq_None_not_Some.
  - by apply validSpec_standalone.
  - intros He Hzero Hst Hr x Hx Hne.
    assert (He' : sp_Ephemeral (ro_Spec o') = Some false) by (unfold storageOf in Hs; congruence).
    apply (admitted_ephemeral o' x) in He'; [|done].
    rewrite (scaleFromZero_locked o' x Hx He' Hzero Hne Hr). unfold statusRules in Hst.
    rewrite !andb_true_iff, !Z.leb_le in Hst. unfold recorded. simpl. lia.
Qed.

Lemma admission_topology_witness :
  let y := encodeSpec (sampleSpec 3 false None None) in
  let o := mkStoredRedkey (sampleMeta 1) (applyDefaults y) (statusObserved 1 3) in
  let o' := withSpec o (encodeSpec (sampleSpec 0 false None None)) in
  (admitsUpdate o (encodeSpec (sampleSpec 0 true None None)), admitsUpdate o' (encodeSpec (sampleSpec 3 false None None))) =
    (false, true) ∧
  storageOf (ro_Spec o') = storageOf (ro_Spec o) ∧
  (topology (withSpec o' (encodeSpec (sampleSpec 3 false None None)))).1 ≤ 100000.
Proof.
  intros y o o'. split; [vm_compute; reflexivity|].
  assert (Hrtc : rtc (evolves (λ _ _, True)) o o').
  { apply rtc_once, evolves_user. vm_compute. reflexivity. }
  destruct (admission_topology (λ _ _, True) y o o' eq_refl ltac:(vm_compute; reflexivity) Hrtc) as (_ & _ & Hs & Hb).
  split; [exact Hs|]. apply Hb; [reflexivity|reflexivity|reflexivity|reflexivity|vm_compute; reflexivity|discriminate].
Defined.

(** A storage field that is there but empty passes for storage. *)
Lemma empty_storage_admitted :
  let x := mkSpecObject None (Some 3) None None (Some sampleRobin) None (Some false) (Some false) (Some "") None None
    (sampleSpec 3 false None None) in
  admitsCreate x = true ∧ rs_Ephemeral (decodeSpec (applyDefaults x)) = false ∧ rs_Storage (decodeSpec (applyDefaults x)) = "".
Proof. vm_compute. repeat split. Qed.

Lemma evolves_recorded seen o o' :
  evolves seen o o' → recorded o' = recorded o ∨ seenApplied seen (recorded o').
Proof.
  intros [? spec _|? st [[H1 H2]|(c & Hs & Ha & Hp & _ & H1 & H2)]].
  - by left.
  - left. unfold recorded. simpl in *. by rewrite H1, H2.
  - right. exists c. unfold recorded. simpl in *. by rewrite H1, H2.
Qed.

Lemma evolves_ephemeral seen o o' e :
  evolves seen o o' → sp_Ephemeral (ro_Spec o) = Some e → sp_Ephemeral (ro_Spec o') = Some e.
Proof. intros [? x Hx|? st _] He; [by apply admitted_ephemeral|done]. Qed.

(** C16: the scale-from-zero lock over the whole life of a storage cluster.
    However spec writes and operator status writes interleave, once a topology
    has been recorded there is always one recorded, and any admitted write that
    takes the cluster from zero back to a positive number of primaries restores
    exactly the recorded topology, which is the one recorded at the start or one
    Robin has reported applied. *)
Theorem scale_from_zero_lock (seen : ∀ k, obj k → Prop) (o o' : StoredRedkey) (x : SpecObject) :
  rtc (evolves seen) o o' → sp_Ephemeral (ro_Spec o) = Some false → 0 < (recorded o).1 →
  0 < (recorded o').1 ∧ (recorded o' = recorded o ∨ seenApplied seen (recorded o')) ∧
  ((topology o').1 = 0 → (topology (withSpec o' x)).1 ≠ 0 → admitsUpdate o' x = true →
   topology (withSpec o' x) = recorded o').
Proof.
  intros Hrtc He Hr.
  assert (Hinv : sp_Ephemeral (ro_Spec o') = Some false ∧ 0 < (recorded o').1 ∧
    (recorded o' = recorded o ∨ seenApplied seen (recorded o'))).
  { induction Hrtc as [|o1 o2 o3 H12 _ IH]; [by repeat split; [..|left]|].
    apply (evolves_ephemeral _ _ _ _ H12) in He.
    assert (Hr2 : 0 < (recorded o2).1).
    { destruct (evolves_recorded _ _ _ H12) as [->|(c & _ & _ & Hp & ->)]; done. }
    destruct (IH He Hr2) as (H1 & H2 & H3). split; [done|]. split; [done|].
    destruct H3 as [->|H3]; [|by right]. destruct (evolves_recorded _ _ _ H12); [by left|by right]. }
  destruct Hinv as (H1 & H2 & H3). split; [done|]. split; [done|]. intros Hz Hn Hadm.
  apply scaleFromZero_locked; try done. by apply admitted_ephemeral.
Qed.

Lemma scale_from_zero_lock_witness :
  let o := mkStoredRedkey (sampleMeta 1) (applyDefaults (encodeSpec (sampleSpec 3 false None None))) (statusObserved 1 3) in
  let o' := withSpec o (encodeSpec (sampleSpec 0 false None None)) in
  rtc (evolves (λ _ _, True)) o o' ∧ admitsUpdate o' (encodeSpec (sampleSpec 4 false None None)) = false ∧
  topology (withSpec o' (encodeSpec (sampleSpec 3 false None None))) = recorded o'.
Proof.
  intros o o'.
  assert (Hrtc : rtc (evolves (λ _ _, True)) o o').
  { apply rtc_once, evolves_user. vm_compute. reflexivity. }
  split; [exact Hrtc|]. split; [vm_compute; reflexivity|].
  destruct (scale_from_zero_lock (λ _ _, True) o o' (encodeSpec (sampleSpec 3 false None None)) Hrtc) as (_ & _ & Hl).
  - reflexivity.
  - reflexivity.
  - apply Hl; [reflexivity|discriminate|vm_compute; reflexivity].
Defined.

(** ** Node counts *)

(** C33: [NodesNeeded] stays within [int32] for every spec, and is the
    mathematical number of nodes as long as that number fits; nothing in the
    rules bounds the two fields, so an admitted spec can make it wrap. *)
Theorem NodesNeeded_bounds (s : RedkeySpec) :
  in_int32 (NodesNeeded s) ∧
  (in_int32 (rs_Primaries s * (1 + rs_ReplicasPerPrimary s)) →
   NodesNeeded s = rs_Primaries s * (1 + rs_ReplicasPerPrimary s)) ∧
  ∃ x s', admitsCreate x = true ∧ s' = decodeSpec (applyDefaults x) ∧ in_int32 (rs_Primaries s') ∧ in_int32 (rs_ReplicasPerPrimary s') ∧
    0 < rs_Primaries s' ∧ 0 < rs_ReplicasPerPrimary s' ∧ NodesNeeded s' = 0.
Proof.
  assert (Hn : NodesNeeded s = wrap 32 (rs_Primaries s * (1 + rs_ReplicasPerPrimary s))).
  { unfold NodesNeeded, int32. rewrite wrap_add_r by done. f_equal. lia. }
  rewrite Hn. split; [exact (wrap_range 32 _ ltac:(done))|]. split; [exact (wrap_id 32 _ ltac:(done))|].
  set (t := sampleSpec 65536 true None None).
  set (x := mkSpecObject None (Some 65536) (Some 65535) None (Some (rs_Robin t)) None None None None None None t).
  exists x, (decodeSpec (applyDefaults x)). unfold in_int32. simpl. split; [reflexivity|]. repeat split; lia || done.
Qed.

Lemma NodesNeeded_bounds_witness : NodesNeeded (sampleSpec 3 true None None) = 3 * (1 + 0).
Proof.
  destruct (NodesNeeded_bounds (sampleSpec 3 true None None)) as (_ & He & _).
  apply He. split; vm_compute; congruence.
Defined.
