(* ===== verification/Life.v ===== *)
(** * The life of a cluster

    A Redkey and its configs as they stand in the API server's store, together
    with the record of every spec the user has written; what the user, Robin and
    other actors do to them; and the invariant: every config is a snapshot of the
    spec of one generation, taken once and in order. *)

From S2P Require Import Prelude GoLib K8s Types Effects Client Logic FakeCluster.
From S2P Require Import Robin Config ScaleZero Controller RobinProofs ConfigProofs.
From S2P Require Import ConfigStore ControllerProofs Failing Validation.
Local Open Scope Z_scope.

(** ** The state *)

(** The store, and the spec the user wrote at each generation. *)
Record Sys := mkSys { sy_store : Store; sy_specs : gmap Z RedkeySpec }.

(** An admitted write of the main resource, of which [spec] is what the operator
    reads: the API server counts a generation exactly when the spec changes. *)
Record userWrite (o : Redkey) (m : ObjectMeta) (spec : RedkeySpec) : Prop := {
  uw_admitted : ∃ old x, decodeRedkey old = o ∧ admitsUpdate old x = true ∧ spec = decodeSpec (applyDefaults x);
  uw_key : om_key m = om_key (rk_Meta o);
  uw_generation : om_Generation m = rk_Generation o + 1 ∨
    om_Generation m = rk_Generation o ∧ spec = rk_Spec o;
  uw_range : om_Generation m < 2 ^ 63 - 1;
}.

(** What a config hands Robin of the spec: all of it but the backup flag, the
    access modes of the volumes, and the image, resources and template of Robin
    itself. *)
Record carries (s : RedkeySpec) (cs : RedkeyConfigSpec) : Prop := {
  ca_SkipIfSuperseded : rcs_SkipIfSuperseded cs = rs_SkipIfSuperseded s;
  ca_Mode : rcs_Mode cs = if bool_decide (rs_Mode s = "") then ModeCluster else rs_Mode s;
  ca_Primaries : rcs_Primaries cs = rs_Primaries s;
  ca_ReplicasPerPrimary : rcs_ReplicasPerPrimary cs = rs_ReplicasPerPrimary s;
  ca_Ephemeral : rcs_Ephemeral cs = rs_Ephemeral s;
  ca_Storage : rcs_Storage cs = rs_Storage s;
  ca_StorageClassName : rcs_StorageClassName cs = rs_StorageClassName s;
  ca_Image : rcs_Image cs = rs_Image s;
  ca_Version : rcs_Version cs = rs_Version s;
  ca_RedisConfig : rcs_RedisConfig cs = rs_Config s;
  ca_Resources : rcs_Resources cs = rs_Resources s;
  ca_Auth : rcs_Auth cs = rs_Auth s;
  ca_Labels : rcs_Labels cs = rs_Labels s;
  ca_Annotations : rcs_Annotations cs = rs_Annotations s;
  ca_DeletePVC : rcs_DeletePVC cs = rs_DeletePVC s;
  ca_PurgeKeysOnRebalance : rcs_PurgeKeysOnRebalance cs = rs_PurgeKeysOnRebalance s;
  ca_Override : rcs_Override cs = rs_Override s;
  ca_Pdb : rcs_Pdb cs = rs_Pdb s;
  ca_RobinConfig : rcs_RobinConfig cs = rbs_Config (rs_Robin s);
}.

Lemma carries_new s n : carries s (defaultConfigSpec (newConfigSpec s n)).
Proof.
  unfold defaultConfigSpec. simpl. split; case_bool_decide as Hm; simpl;
    by rewrite ?bool_decide_eq_true_2, ?bool_decide_eq_false_2.
Qed.

Section life.
Context (req : NamespacedName).

(** ** The other actors *)

(** Changes to anything else: other Redkeys and their configs, Robin's objects,
    objects of any other kind. *)
Record elsewhere (s s' : Store) : Prop := {
  el_keyed : keyed s';
  el_redkey : st_redkeys s' !! req = st_redkeys s !! req;
  el_configs : ∀ key c, selected (nn_Namespace req) (nn_Name req) c = true ∨
      (∃ n, 1 ≤ n ∧ key = mkKey (nn_Namespace req) (configName (nn_Name req) n)) →
    st_configs s' !! key = Some c ↔ st_configs s !! key = Some c;
}.

(** The user edits the spec, Robin reports on a config, or something else changes. *)
Inductive envStep : Sys → Sys → Prop :=
| env_user s specs o m spec :
    st_redkeys s !! req = Some o → userWrite o m spec →
    envStep (mkSys s specs)
      (mkSys (sput KRedkey req (mkRedkey m spec (rk_Status o)) s) (<[om_Generation m := spec]> specs))
| env_robin s specs c rv st :
    c ∈ clusterConfigs req s →
    envStep (mkSys s specs)
      (mkSys (sput KRedkeyConfig (cf_key c) (reportedOn rv st c) s) specs)
| env_other s s' specs : elsewhere s s' → envStep (mkSys s specs) (mkSys s' specs).

(** A Redkey as it was created, before the operator has seen it. *)
Record initial (S : Sys) (o : Redkey) : Prop := {
  in_live : st_redkeys (sy_store S) !! req = Some o;
  in_key : key_of KRedkey o = req;
  in_generation : rk_Generation o = 1;
  in_observed : rst_ObservedGeneration (rk_Status o) = 0;
  in_specs : sy_specs S = {[1 := rk_Spec o]};
  in_configsOk : configsOk req (sy_store S);
  in_configs : clusterConfigs req (sy_store S) = [];
}.

(** Config [c] was made from the spec of generation [g]. *)
Definition snapshotOf (specs : gmap Z RedkeySpec) (g : Z) (c : RedkeyConfig) : Prop :=
  configGeneration c = Ok g ∧ ∃ spec, specs !! g = Some spec ∧ carries spec (cf_Spec c).

(** The newest config was made from the current spec. *)
Definition upToDate (S : Sys) (o : Redkey) : Prop :=
  ∃ c, last (clusterConfigs req (sy_store S)) = Some c ∧ snapshotOf (sy_specs S) (rk_Generation o) c ∧
    sy_specs S !! rk_Generation o = Some (rk_Spec o).

(** The configs, oldest first, were made from ever newer generations, none of
    them newer than [gen]. *)
Definition inOrder (specs : gmap Z RedkeySpec) (gen : Z) (l : list RedkeyConfig) : Prop :=
  ∃ gens, Forall2 (snapshotOf specs) gens l ∧ StronglySorted Z.lt gens ∧
    Forall (λ g, g ≤ gen) gens ∧ Forall2 (λ g c, seqOf c ≤ g) gens l.

(** The live Redkey is [o], the configs are named as they should be, and the
    history is that of [o]. *)
Record lifeOk (S : Sys) (o : Redkey) : Prop := {
  lf_live : st_redkeys (sy_store S) !! req = Some o;
  lf_key : key_of KRedkey o = req;
  lf_configs : configsOk req (sy_store S);
  lf_spec : sy_specs S !! rk_Generation o = Some (rk_Spec o);
  lf_history : ∀ g spec, sy_specs S !! g = Some spec → g ≤ rk_Generation o;
  lf_range : 1 ≤ rk_Generation o < 2 ^ 63 - 1;
  lf_observed : rst_ObservedGeneration (rk_Status o) ≤ rk_Generation o;
}.

(** The invariant, with the live Redkey [o]. *)
Record sysOk (S : Sys) (o : Redkey) : Prop := {
  so_life : lifeOk S o;
  so_order : inOrder (sy_specs S) (rk_Generation o) (clusterConfigs req (sy_store S));
  so_settled : rst_ObservedGeneration (rk_Status o) = rk_Generation o →
    rs_Primaries (rk_Spec o) ≠ 0 → upToDate S o;
}.

(** ** Lists in order *)

Lemma inOrder_nil specs gen : inOrder specs gen [].
Proof. exists []. repeat split; constructor. Qed.

Lemma inOrder_mono specs gen gen' l : gen ≤ gen' → inOrder specs gen l → inOrder specs gen' l.
Proof.
  intros Hle (gens & H1 & H2 & H3 & H4). exists gens. repeat split; try done.
  eapply Forall_impl; [done|]. intros g Hg. simpl in *. lia.
Qed.

(** New history does not disturb old snapshots. *)
Lemma snapshotOf_specs specs specs' g c : specs ⊆ specs' → snapshotOf specs g c → snapshotOf specs' g c.
Proof. intros Hsub (Hg & spec & Hs & Hc). split; [done|]. exists spec. split; [by eapply lookup_weaken|done]. Qed.

Lemma inOrder_specs specs specs' gen l : specs ⊆ specs' → inOrder specs gen l → inOrder specs' gen l.
Proof.
  intros Hsub (gens & H1 & H2 & H3 & H4). exists gens. split; [|done].
  eapply Forall2_impl; [exact H1|]. intros g c. by apply snapshotOf_specs.
Qed.

(** Deleting configs does not disturb the order of those that stay. *)
Lemma inOrder_sublist specs gen l l' : l' `sublist_of` l → inOrder specs gen l → inOrder specs gen l'.
Proof.
  intros Hsub (gens & H1 & H2 & H3 & H4).
  destruct (Forall2_sublist_r (λ g c, snapshotOf specs g c ∧ seqOf c ≤ g) gens l l' Hsub) as (gens' & Hg & Hl).
  { clear -H1 H4. induction H1; inversion H4; subst; constructor; auto. }
  exists gens'. split; [by eapply Forall2_impl; [exact Hl|intros g c []]|].
  split; [by eapply sorted_sublist|]. split; [by eapply Forall_sublist|].
  by eapply Forall2_impl; [exact Hl|intros g c []].
Qed.

Lemma inOrder_last specs gen l c : inOrder specs gen l → last l = Some c →
  ∃ g, snapshotOf specs g c ∧ g ≤ gen ∧ seqOf c ≤ g.
Proof.
  intros (gens & H1 & H2 & H3 & H4) (l' & ->)%last_Some.
  apply Forall2_app_inv_r in H1 as (g1 & g2 & H5 & H1 & ->).
  apply Forall2_cons_inv_r in H1 as (g & g3 & H1 & Hnil & ->). apply Forall2_nil_inv_r in Hnil as ->.
  apply Forall2_app_inv in H4 as [_ H4]; [|by apply Forall2_length in H5].
  apply Forall_app in H3 as [_ H3]. exists g.
  split; [done|]. split; [by apply Forall_cons in H3 as [? _]|]. by apply Forall2_cons in H4 as [? _].
Qed.

Lemma snapshotOf_functional specs g g' c : snapshotOf specs g c → snapshotOf specs g' c → g = g'.
Proof. intros [H1 _] [H2 _]. congruence. Qed.

(** Append a snapshot of the current generation to older ones. *)
Lemma inOrder_snoc specs gen l c :
  inOrder specs gen l → snapshotOf specs gen c → seqOf c ≤ gen →
  (∀ d, last l = Some d → ¬ snapshotOf specs gen d) → inOrder specs gen (l ++ [c]).
Proof.
  intros Hl Hc Hseq Hnew. pose proof Hl as (gens & H1 & H2 & H3 & H4).
  assert (Hlt : Forall (λ g, g < gen) gens).
  { destruct (last gens) as [g|] eqn:Hlast.
    - apply last_Some in Hlast as (g1 & ->).
      apply Forall2_app_inv_l in H1 as (l1 & l2 & _ & H1 & ->).
      apply Forall2_cons_inv_l in H1 as (d & l3 & Hd & Hnil & ->). apply Forall2_nil_inv_l in Hnil as ->.
      assert (g ≠ gen) by (intros ->; apply (Hnew d); [apply last_snoc|done]).
      apply Forall_app in H3 as [H3 [Hg _]%Forall_cons]. apply Forall_app.
      split; [|constructor; [lia|constructor]]. clear -H2 H3 Hg.
      apply Forall_forall. intros x Hx.
      assert (x < g) by (eapply (StronglySorted_app_1_elem_of Z.lt); [exact H2|exact Hx|left]). lia.
    - apply last_None in Hlast as ->. constructor. }
  exists (gens ++ [gen]). split; [by apply Forall2_app; [|constructor]|].
  split; [|split; [apply Forall_app; by repeat constructor|by apply Forall2_app; [|constructor]]].
  apply StronglySorted_app_2; [|done|by repeat constructor]. intros x y Hx ->%list_elem_of_singleton.
  by apply (proj1 (Forall_forall _ _) Hlt).
Qed.

Lemma inOrder_bounds specs gen l c :
  inOrder specs gen l → c ∈ l → ∃ g, snapshotOf specs g c ∧ seqOf c ≤ g ≤ gen.
Proof.
  intros (gens & H1 & H2 & H3 & H4) [i Hi]%list_elem_of_lookup.
  destruct (Forall2_lookup_r _ _ _ _ _ H1 Hi) as (g & Hg & Hc). exists g. split; [done|].
  split; [by apply (Forall2_lookup_lr _ _ _ _ _ _ H4 Hg Hi)|].
  by apply (Forall_lookup_1 _ _ _ _ H3 Hg).
Qed.

(** ** The user and Robin *)

(** What the user has written stays on record. *)
Lemma userWrite_specs s specs o m spec :
  lifeOk (mkSys s specs) o → userWrite o m spec → specs ⊆ <[om_Generation m := spec]> specs.
Proof.
  intros [_ _ _ Hspec Hhist _ _] [_ _ Hgen _]. cbn [sy_specs] in *.
  destruct Hgen as [->|[-> ->]]; [|by rewrite insert_id]. apply insert_subseteq.
  destruct (specs !! (rk_Generation o + 1)) as [x|] eqn:Hx; [|done]. apply Hhist in Hx. lia.
Qed.

Lemma lifeOk_user s specs o m spec :
  lifeOk (mkSys s specs) o → userWrite o m spec →
  lifeOk (mkSys (sput KRedkey req (mkRedkey m spec (rk_Status o)) s) (<[om_Generation m := spec]> specs))
    (mkRedkey m spec (rk_Status o)).
Proof.
  intros [Hlive Hkey Hok Hspec Hhist Hrange Hobs] [Hadm Hm Hgen Hmax]. simpl in *.
  assert (Hle : rk_Generation o ≤ om_Generation m) by (destruct Hgen as [|[]]; lia).
  split; simpl; try done.
  - apply lookup_insert_eq.
  - transitivity (key_of KRedkey o); [exact Hm|exact Hkey].
  - apply (configsOk_frame req s); [|done|done].
    assert (Hk : key_of KRedkey (mkRedkey m spec (rk_Status o)) = req) by (transitivity (key_of KRedkey o); done).
    rewrite <- Hk at 1. apply (sput_keyed KRedkey (mkRedkey m spec (rk_Status o)) s), Hok.
  - unfold rk_Generation. apply lookup_insert_eq.
  - intros g spec' [[<- _]|[_ Hg%Hhist]]%lookup_insert_Some; unfold rk_Generation in *; simpl; lia.
  - unfold rk_Generation in *. simpl. lia.
  - unfold rk_Generation in *. simpl. lia.
Qed.

(** A change that leaves the Redkey alone. *)
Lemma lifeOk_configs s s' specs o :
  lifeOk (mkSys s specs) o → configsOk req s' → st_redkeys s' !! req = st_redkeys s !! req →
  lifeOk (mkSys s' specs) o.
Proof. intros [Hlive Hkey Hok Hspec Hhist Hrange Hobs] Hok' Hr. split; try done. simpl. by rewrite Hr. Qed.

(** A status write by the operator, for a generation the cluster has reached. *)
Lemma lifeOk_status S o s' rv st :
  lifeOk S o → keyed s' → st_configs s' = st_configs (sy_store S) →
  st_redkeys s' = <[req := withStatus o rv st]> (st_redkeys (sy_store S)) →
  rst_ObservedGeneration st ≤ rk_Generation o →
  lifeOk (mkSys s' (sy_specs S)) (withStatus o rv st).
Proof.
  intros [Hlive Hkey Hok Hspec Hhist Hrange Hobs] Hk Hcfg Hrk Hst.
  split; cbn [sy_store sy_specs]; try done.
  - rewrite Hrk. apply lookup_insert_eq.
  - by apply (configsOk_frame req (sy_store S)).
Qed.

(** ** Everything else *)

Lemma elsewhere_configs s s' :
  configsOk req s → elsewhere s s' → configsOk req s' ∧ clusterConfigs req s' = clusterConfigs req s.
Proof.
  intros Hok [Hk _ Hc]. pose proof (co_keyed _ _ Hok) as Hk0.
  assert (Hel : ∀ c, c ∈ clusterConfigs req s' ↔ c ∈ clusterConfigs req s).
  { intros c. rewrite !elem_of_clusterConfigs by done.
    split; intros [H1 H2]; (split; [|done]); (eapply Hc; [by left|done]). }
  assert (Hok' : configsOk req s').
  { split; [done| |].
    - intros c Hin%Hel. by apply (co_named _ _ Hok).
    - intros n c Hn Hl. apply (co_taken _ _ Hok); [done|]. eapply Hc; [right; by exists n|done]. }
  split; [done|]. apply clusterConfigs_unique; [done| | |].
  - by apply NoDup_clusterConfigs.
  - apply clusterConfigs_sorted.
  - intros c. by rewrite Hel.
Qed.

(** Redkeys and configs untouched: what a request for Robin's objects does. *)
Lemma elsewhere_same s s' : keyed s' → same s s' → elsewhere s s'.
Proof. intros Hk [H1 H2]. split; [done|by rewrite H1|]. intros key c _. by rewrite H2. Qed.

(** ** What the operator changes *)

(** The name of one of the cluster's configs. *)
Definition ours (key : NamespacedName) : Prop :=
  ∃ n, 1 ≤ n ∧ key = mkKey (nn_Namespace req) (configName (nn_Name req) n).

(** Changes to the cluster's Redkey and its configs only. *)
Record mine (s s' : Store) : Prop := {
  mi_keyed : keyed s';
  mi_redkeys : ∀ key, key ≠ req → st_redkeys s' !! key = st_redkeys s !! key;
  mi_configs : ∀ key, st_configs s' !! key = st_configs s !! key ∨
    ours key ∧ ∀ c, st_configs s' !! key = Some c → selected (nn_Namespace req) (nn_Name req) c = true;
}.

Lemma mine_redkey s s' :
  keyed s' → (∀ key, key ≠ req → st_redkeys s' !! key = st_redkeys s !! key) →
  st_configs s' = st_configs s → mine s s'.
Proof. intros Hk Hr Hc. split; [done|done|]. intros key. left. by rewrite Hc. Qed.

Lemma mine_same s s' : keyed s' → same s s' → mine s s'.
Proof. intros Hk [Hr Hc]. apply mine_redkey; [done|by rewrite Hr|done]. Qed.

Lemma mine_put s c :
  keyed s → ours (cf_key c) → selected (nn_Namespace req) (nn_Name req) c = true →
  mine s (sput KRedkeyConfig (cf_key c) c s).
Proof.
  intros Hk Hours Hsel. split; [by apply (sput_keyed KRedkeyConfig c)|done|]. intros key.
  rewrite lookup_sput_config. case_bool_decide as Hkey; [|by left]. right. subst key. split; [done|].
  by intros d [= <-].
Qed.

Lemma mine_del s key : keyed s → ours key → mine s (sdel KRedkeyConfig key s).
Proof.
  intros Hk Hours. split; [by apply sdel_keyed|done|]. intros key'.
  change (st_configs (sdel KRedkeyConfig key s)) with (delete key (st_configs s)).
  destruct (decide (key = key')) as [<-|Hne]; [|left; by apply lookup_delete_ne].
  right. split; [done|]. intros c Hc. by rewrite lookup_delete_eq in Hc.
Qed.

Lemma clusterConfigs_ours s c : configsOk req s → c ∈ clusterConfigs req s → ours (cf_key c).
Proof. intros Hok Hc. destruct (co_named _ _ Hok c Hc) as [Hkey Hpos]. by exists (seqOf c). Qed.

(** ** What a step of the others leaves unchanged *)

(** From [S] with the Redkey [o] to [S'] with [o']. *)
Record evolves (S S' : Sys) (o o' : Redkey) : Prop := {
  ev_life : lifeOk S' o';
  ev_generation : rk_Generation o ≤ rk_Generation o';
  ev_status : rk_Status o' = rk_Status o;
  ev_specs : sy_specs S ⊆ sy_specs S';
  ev_configs : Forall2 sameConfig (clusterConfigs req (sy_store S)) (clusterConfigs req (sy_store S'));
}.

Lemma env_evolves S S' o : lifeOk S o → envStep S S' → ∃ o', evolves S S' o o'.
Proof.
  intros HS Hstep. inversion Hstep as [s specs o1 m spec Ho Hw|s specs c rv st Hc|s s' specs He]; subst.
  - pose proof (lf_live _ _ HS) as Ho'. cbn [sy_store] in Ho'. rewrite Ho in Ho'. injection Ho' as ->.
    exists (mkRedkey m spec (rk_Status o)). split; cbn [sy_store sy_specs].
    + by apply lifeOk_user.
    + unfold rk_Generation. simpl. destruct (uw_generation _ _ _ Hw) as [Hg|[Hg _]]; unfold rk_Generation in Hg; lia.
    + done.
    + by apply (userWrite_specs s specs o).
    + reflexivity.
  - pose proof (lf_configs _ _ HS) as Hok. apply list_elem_of_split in Hc as (l1 & l2 & Hl). cbn [sy_store] in Hok.
    destruct (clusterConfigs_update req s c (reportedOn rv st c) l1 l2) as [Hok' Hcc]; [done..|].
    exists o. split; cbn [sy_store sy_specs]; [by apply (lifeOk_configs s)|done|done|done|].
    rewrite Hcc, Hl. apply Forall2_app; [done|]. constructor; [auto|done].
  - destruct (elsewhere_configs s s' (lf_configs _ _ HS) He) as [Hok' Hcc].
    exists o. split; cbn [sy_store sy_specs]; [|done|done|done|by rewrite Hcc].
    apply (lifeOk_configs s); [done|done|apply He].
Qed.

Lemma evolves_trans S1 S2 S3 o1 o2 o3 : evolves S1 S2 o1 o2 → evolves S2 S3 o2 o3 → evolves S1 S3 o1 o3.
Proof.
  intros [A1 A2 A3 A4 A5] [B1 B2 B3 B4 B5]. split; [done|lia|congruence|by etrans|by etrans].
Qed.

(** The newest config is the same one, up to its status. *)
Lemma sameConfig_last l l' c :
  Forall2 sameConfig l l' → last l = Some c → ∃ c', last l' = Some c' ∧ sameConfig c c'.
Proof.
  intros Hl (l1 & ->)%last_Some. apply Forall2_app_inv_l in Hl as (k1 & k2 & _ & Hk & ->).
  apply Forall2_cons_inv_l in Hk as (c' & k3 & Hc & Hnil & ->). apply Forall2_nil_inv_l in Hnil as ->.
  exists c'. by rewrite last_snoc.
Qed.

Lemma sameConfig_snapshot specs g c c' : sameConfig c c' → snapshotOf specs g c → snapshotOf specs g c'.
Proof. by intros (rv & st & ->). Qed.

Lemma sameConfig_inOrder specs gen l l' : Forall2 sameConfig l l' → inOrder specs gen l → inOrder specs gen l'.
Proof.
  intros Hl (gens & H1 & H2 & H3 & H4). exists gens. split; [|split; [done|split; [done|]]].
  - clear -Hl H1. revert gens H1. induction Hl; intros gens H1; inversion H1; subst; constructor; auto.
    by eapply sameConfig_snapshot.
  - clear -Hl H4. revert gens H4. induction Hl as [|c c' l l' Hs%sameConfig_spec _ IH]; intros gens H4;
      inversion H4; subst; constructor; [by rewrite Hs|auto].
Qed.

(** The others keep the system in order. *)
Lemma evolves_sysOk S S' o o' : sysOk S o → evolves S S' o o' → sysOk S' o'.
Proof.
  intros [Hl Hord Hset] [H1 H2 H3 H4 H5]. split; [done| |].
  - eapply sameConfig_inOrder; [exact H5|]. eapply inOrder_mono; [exact H2|]. by eapply inOrder_specs.
  - intros G1 G2. rewrite H3 in G1. pose proof (lf_observed _ _ Hl) as Hob.
    assert (Hg : rk_Generation o' = rk_Generation o) by lia.
    pose proof (lookup_weaken _ _ _ _ (lf_spec _ _ Hl) H4) as Hs. pose proof (lf_spec _ _ H1) as Hs'.
    rewrite Hg, Hs in Hs'. injection Hs' as Hs'. rewrite <- Hs' in G2.
    destruct (Hset ltac:(lia) G2) as (c & Hc & Hsnap & _).
    destruct (sameConfig_last _ _ c H5 Hc) as (c' & Hc' & Hsame). exists c'. split; [done|].
    rewrite Hg, <- Hs'. split; [|done]. eapply sameConfig_snapshot; [done|]. by eapply snapshotOf_specs.
Qed.

Lemma so_live S o : sysOk S o → st_redkeys (sy_store S) !! req = Some o.
Proof. intros HS. apply HS. Qed.
Lemma so_key S o : sysOk S o → key_of KRedkey o = req.
Proof. intros HS. apply HS. Qed.
Lemma so_configs S o : sysOk S o → configsOk req (sy_store S).
Proof. intros HS. apply HS. Qed.

(** ** New configs *)

(** The config a reconcile creates for [o] is a snapshot of its spec. *)
Lemma createdFor_snapshot specs o n c :
  in_int64 (rk_Generation o) → specs !! rk_Generation o = Some (rk_Spec o) →
  createdFor o n c → snapshotOf specs (rk_Generation o) c ∧ seqOf c = n.
Proof.
  intros Hg Hsp (Hc & _ & (_ & _ & _ & Hann & _)).
  assert (Hseq : seqOf c = n) by by rewrite Hc, defaultConfigSpec_seq.
  split; [|done]. split; [by apply (newConfig_generation o n)|]. exists (rk_Spec o). split; [done|]. rewrite Hc. apply carries_new.
Qed.

(** A config is due on a running cluster only if the newest one was made from an
    older generation. *)
Lemma due_newer (cl : Redkey) l d g :
  rs_Primaries (rk_Spec cl) ≠ 0 → configDue cl l = true → last l = Some d → configGeneration d = Ok g →
  g < rk_Generation cl.
Proof.
  intros Hp Hdue Hlast Hg. unfold configDue in Hdue. rewrite bool_decide_eq_false_2, Hlast in Hdue by done.
  apply orb_true_iff in Hdue as [Hlen|Hneed].
  - apply bool_decide_eq_true, nil_length_inv in Hlen. by rewrite Hlen in Hlast.
  - unfold needsNewConfig in Hneed. unfold configGeneration in Hg. case_bool_decide as He.
    + rewrite He in Hg. by vm_compute in Hg.
    + rewrite Hg in Hneed. destruct (rk_Generation cl <=? g) eqn:Hb; [done|]. by apply Z.leb_gt.
Qed.

Lemma nextSequence_bound specs gen l :
  inOrder specs gen l → 1 ≤ gen < 2 ^ 63 - 1 → (∀ d, d ∈ l → 1 ≤ seqOf d) →
  (∀ d, last l = Some d → ¬ snapshotOf specs gen d) → nextSequence (last l) ≤ gen.
Proof.
  intros Hl Hr Hpos Hnew. destruct (last l) as [d|] eqn:Hlast; simpl; [|lia].
  destruct (inOrder_last _ _ _ _ Hl Hlast) as (g & Hg & Hle & Hseq).
  assert (g ≠ gen) by (intros ->; by apply (Hnew d)).
  specialize (Hpos d (last_Some_elem_of _ _ Hlast)). rewrite int64_id by (unfold in_int64; lia). lia.
Qed.

Lemma clusterConfigs_sequences s :
  configsOk req s → StronglySorted Z.lt ((λ c, seqOf c) <$> clusterConfigs req s).
Proof.
  intros Hok. pose proof (NoDup_sequences req s Hok) as Hnd.
  pose proof (proj1 (sorted_keys (λ c, seqOf c) _) (clusterConfigs_sorted req s)) as Hs.
  induction Hs as [|x l Hs IH Hx]; [constructor|]. apply NoDup_cons in Hnd as [Hn Hnd].
  constructor; [by apply IH|]. apply Forall_forall. intros y Hy.
  pose proof (proj1 (Forall_forall _ _) Hx y Hy) as Hle. assert (x ≠ y) by (intros ->; done). simpl in Hle. lia.
Qed.
End life.

(** ** Two clusters *)

Lemma selected_inj req1 req2 c :
  selected (nn_Namespace req1) (nn_Name req1) c = true → selected (nn_Namespace req2) (nn_Name req2) c = true →
  req1 = req2.
Proof.
  unfold selected. intros [H1%bool_decide_eq_true H2%bool_decide_eq_true]%andb_true_iff
    [H3%bool_decide_eq_true H4%bool_decide_eq_true]%andb_true_iff.
  destruct req1 as [ns1 n1], req2 as [ns2 n2]. simpl in *. congruence.
Qed.

Lemma ours_inj req1 req2 key : ours req1 key → ours req2 key → req1 = req2.
Proof.
  intros (n1 & H1 & ->) (n2 & H2 & Heq). injection Heq as Hns Hname.
  apply configName_inj in Hname as [Hn _]; [|lia..]. destruct req1, req2. simpl in *. congruence.
Qed.

(** What belongs to one cluster is elsewhere for another. *)
Lemma mine_elsewhere req1 req2 s s' :
  req1 ≠ req2 → configsOk req1 s → configsOk req2 s → mine req1 s s' → elsewhere req2 s s'.
Proof.
  intros Hne Hok1 Hok2 [Hk Hr Hc]. split; [done|by apply Hr|]. intros key c Hcase.
  destruct (Hc key) as [->|[Hours Hsel]]; [done|].
  assert (Hno : ∀ d, selected (nn_Namespace req1) (nn_Name req1) d = true → d = c → False).
  { intros d Hd ->. destruct Hcase as [Hs|Hs]; apply Hne; [by apply (selected_inj _ _ c)|by apply (ours_inj _ _ key)]. }
  split; intros Hl; exfalso; [by apply (Hno c); [apply Hsel|]|].
  destruct Hours as (n & Hn & ->). by apply (Hno c); [apply (co_taken _ _ Hok1 n)|].
Qed.
