(* ===== verification/Interleaving.v ===== *)
(** * Programs among other actors

    A program whose requests are served one by one by an API server that other
    actors write to between any two of them.  [Interleaved] is what a model of the
    server and of the others provides; [advance] serves one request; [during] is
    the condition under which an invariant of the system holds at every moment
    until the program ends or is abandoned.  Its rules are those of a Hoare logic
    with assertions that the other actors cannot falsify ([Stable]). *)

From S2P Require Import Prelude GoLib K8s Types Effects Client Logic FakeCluster.
From S2P Require Import Config Metrics ScaleZero Controller RobinProofs ConfigProofs.
From S2P Require Import ConfigStore ControllerProofs Failing Life.
Local Open Scope Z_scope.

(** ** The contract keeps objects under their keys *)

Lemma contract_keyed `{K8sLib} {T} (q : Req T) c s x s' : keyed s → contract q c s x s' → keyed s'.
Proof.
  intros Hk Hc. destruct q as [| |k o|k key|k base new|o| | | | | | | | | |]; simpl in Hc; try by rewrite ?Hc.
  - by destruct Hc as [-> _].
  - by destruct Hc as [-> _].
  - destruct x; [|by destruct Hc as [-> _]]. destruct Hc as (_ & o' & Ho & ->).
    assert (key_of k o = key_of k o') as ->; [|by apply sput_keyed].
    destruct k; simpl in Ho; unfold key_of, om_key; simpl; destruct_and?; unfold meta_stored in *; destruct_and?; congruence.
  - destruct x; [|by destruct Hc as [-> _]]. destruct Hc as [_ ->]. by apply sdel_keyed.
  - destruct x; [|by subst]. destruct Hc as (cur & o' & _ & Hkey & _ & ->). rewrite <- Hkey. by apply sput_keyed.
  - destruct x; [|by subst]. destruct Hc as (cur & rv & Hcur & _ & -> & ->).
    pose proof (Hk KRedkey _ _ Hcur) as Hkey. rewrite <- Hkey.
    exact (sput_keyed KRedkey (mkRedkey (set_om_ResourceVersion rv (rk_Meta cur)) (rk_Spec cur) (rk_Status o)) s Hk).
Qed.

(** ** Systems *)

(** A system around a program: a step of the other actors, the serving of a
    request, the invariant to be kept, and what the program may change. *)
Class Interleaved (Σ : Type) := {
  others : Σ → Σ → Prop;
  serve : ∀ {T}, Req T → Σ → T → Σ → Prop;
  orderly : Σ → Prop;
  guarantee : Σ → Σ → Prop;
}.

(** The others keep the invariant; requests that spare Redkeys and configs look like
    steps of the others, and may be made. *)
Class InterleavedLaws (Σ : Type) `{Interleaved Σ} : Prop := {
  others_orderly : ∀ S S', orderly S → others S S' → orderly S';
  serve_spares : ∀ T (q : Req T) S x S', orderly S → spares T q → serve q S x S' →
    others S S' ∧ guarantee S S';
}.

Section logic.
Context `{Interleaved Σ, !InterleavedLaws Σ}.

(** The next request of [p] is served. *)
Definition advance {A} (S : Σ) (p : prog A) (S' : Σ) (p' : prog A) : Prop :=
  match p with
  | Ret _ => False
  | Call q k => ∃ x, serve q S x S' ∧ p' = k x
  end.

(** Assertions on orderly states that the other actors cannot falsify. *)
Class Stable (P : Σ → Prop) : Prop := {
  stable_orderly : ∀ S, P S → orderly S;
  stable_others : ∀ S S', P S → others S S' → P S';
}.

#[global] Instance orderly_stable : Stable orderly.
Proof. split; [done|]. apply others_orderly. Qed.

Lemma stable_rtc P `{!Stable P} S S' : P S → rtc others S S' → P S'.
Proof.
  intros HP Hrtc. revert HP. induction Hrtc as [S|S1 S2 S3 H12 _ IH]; intros HP; [done|].
  apply IH. by apply (stable_others S1).
Qed.

(** From [S], the system stays orderly while [p] runs, each of whose requests changes
    no more than it may, and ends in [Q]. *)
Fixpoint during {A} (p : prog A) (Q : A → Σ → Prop) (S : Σ) : Prop :=
  match p with
  | Ret a => Q a S
  | Call q k => ∀ S1, rtc others S S1 → ∀ x S2, serve q S1 x S2 →
      orderly S2 ∧ guarantee S1 S2 ∧ during (k x) Q S2
  end.

Lemma during_ret {A} (a : A) (Q : A → Σ → Prop) S : Q a S → during (mret a) Q S.
Proof. done. Qed.

Lemma during_mono {A} (p : prog A) (Q Q' : A → Σ → Prop) S :
  during p Q S → (∀ a S', Q a S' → Q' a S') → during p Q' S.
Proof.
  intros Hp HQ. revert S Hp. induction p as [a|T q k IH]; intros S Hp; simpl in *; [auto|].
  intros S1 Hs1 x S2 Hc. destruct (Hp S1 Hs1 x S2 Hc) as (Hok & Hg & Hk). auto.
Qed.

Lemma during_bind {A B} (p : prog A) (f : A → prog B) Q S :
  during p (λ a S', during (f a) Q S') S → during (p ≫= f) Q S.
Proof.
  revert S. induction p as [a|T q k IH]; intros S Hp; [done|].
  intros S1 Hs1 x S2 Hc. destruct (Hp S1 Hs1 x S2 Hc) as (Hok & Hg & Hk).
  split; [done|]. split; [done|]. by apply (IH x).
Qed.

Lemma during_go_bind {A B} (p : go A) (k : A → go B) Q S :
  during p (λ r S', match r with Ok a => during (k a) Q S' | Err e => Q (Err e) S' end) S →
  during (go_bind p k) Q S.
Proof.
  intros Hp. apply during_bind. eapply during_mono; [exact Hp|]. by intros [a|e] S' HS.
Qed.

Lemma during_wrap_err {A} msg (p : go A) Q S :
  during p (λ r S', match r with Ok a => Q (Ok a) S' | Err e => Q (Err (Errorf msg e)) S' end) S →
  during (wrap_err msg p) Q S.
Proof.
  intros Hp. apply during_bind. eapply during_mono; [exact Hp|]. by intros [a|e] S' HS.
Qed.

(** One request: what was known before still holds when it is served. *)
Lemma during_call {T} (q : Req T) (P : Σ → Prop) `{!Stable P} (Q : T → Σ → Prop) S :
  P S → (∀ S1 x S2, P S1 → serve q S1 x S2 → orderly S2 ∧ guarantee S1 S2 ∧ Q x S2) → during (call q) Q S.
Proof. intros HP HQ S1 Hs1 x S2 Hc. apply (HQ S1); [by eapply stable_rtc|done]. Qed.

(** A request that leaves Redkeys and configs alone, whose answer tells something. *)
Lemma during_look {T} (q : Req T) (P : Σ → Prop) `{!Stable P} (Q : T → Σ → Prop) S :
  spares T q → P S → (∀ S1 x S2, P S1 → serve q S1 x S2 → P S2 → Q x S2) → during (call q) Q S.
Proof.
  intros Hq HP HQ. apply (during_call q P); [done|]. intros S1 x S2 Hs1 Hc.
  destruct (serve_spares _ q S1 x S2 (stable_orderly S1 Hs1) Hq Hc) as [Ho Hg].
  pose proof (stable_others _ _ Hs1 Ho) as Hs2. split; [by apply stable_orderly|]. split; [done|]. by apply (HQ S1).
Qed.

(** Requests that leave Redkeys and configs alone. *)
Lemma during_spares {A} (p : prog A) (P : Σ → Prop) `{!Stable P} S :
  all_calls spares p → P S → during p (λ _, P) S.
Proof.
  revert S. induction p as [a|T q k IH]; intros S; [done|]. intros [Hq Hk] HP.
  apply (during_bind (call q) k), (during_look q P); [done|done|]. intros S1 x S2 _ _ Hs2. by apply IH.
Qed.

Lemma during_stage {A} stage (p : go A) k (P : Σ → Prop) `{!Stable P} S :
  during p (λ r S', match r with Ok a => during (k a) (λ _, P) S' | Err _ => P S' end) S →
  during (at_stage stage p k) (λ _, P) S.
Proof.
  intros Hp. apply during_bind. eapply during_mono; [exact Hp|]. intros [a|e] S' HS; [done|].
  by apply (during_spares (stageError stage e) P).
Qed.

(** Steps for Robin's objects only. *)
Lemma during_robin {A B} (p : go A) (k : A → go B) (P : Σ → Prop) `{!Stable P} Q S :
  all_calls spares p → P S → (∀ a S1, P S1 → during (k a) Q S1) → (∀ e S1, P S1 → Q (Err e) S1) →
  during (go_bind p k) Q S.
Proof.
  intros Hp HP HQ1 HQ2. apply during_go_bind. eapply during_mono; [by apply (during_spares p P)|].
  intros [a|e] S1 Hs1; [by apply HQ1|by apply HQ2].
Qed.

Lemma during_robin_stage {A} stage (p : go A) k (P : Σ → Prop) `{!Stable P} S :
  all_calls spares p → P S → (∀ a S1, P S1 → during (k a) (λ _, P) S1) →
  during (at_stage stage p k) (λ _, P) S.
Proof.
  intros Hp HP HQ. apply (during_stage _ _ _ P). eapply during_mono; [by apply (during_spares p P)|].
  intros [a|e] S1 Hs1; [by apply HQ|done].
Qed.

Lemma during_retry {A} n (p : go A) (P : Σ → Prop) S :
  (∀ S1, P S1 → during p (λ _, P) S1) → P S → during (retry_conflict n p) (λ _, P) S.
Proof.
  intros Hp. revert S. induction n as [|n IH]; intros S HS; simpl; [by apply Hp|].
  apply during_bind. eapply during_mono; [by apply Hp|]. intros [x|e] S1 Hs1; [by apply during_ret|].
  case_match; [by apply IH|by apply during_ret].
Qed.

(** ** Runs *)

Lemma during_others {A} (p : prog A) Q `{!∀ a, Stable (Q a)} S S' :
  during p Q S → others S S' → during p Q S'.
Proof.
  destruct p as [a|T q k]; intros Hp Hstep; [by apply (stable_others (P := Q a) S S')|].
  intros S1 Hs1. apply Hp. by eapply rtc_l.
Qed.

Lemma during_advance {A} (p p' : prog A) Q S S' :
  during p Q S → advance S p S' p' → orderly S' ∧ guarantee S S' ∧ during p' Q S'.
Proof.
  destruct p as [a|T q k]; intros Hp Hstep; [done|]. destruct Hstep as (x & Hc & ->).
  by apply (Hp S (rtc_refl _ _) x S').
Qed.

(** The whole: the others at any moment, a worker that starts [task] again and
    again, any request of which is served by the server, and that may stop
    anywhere. *)
Context {R : Type} (task : prog R).

Inductive interleaved : Σ * option (prog R) → Σ * option (prog R) → Prop :=
| il_others S S' p : others S S' → interleaved (S, p) (S', p)
| il_start S : interleaved (S, None) (S, Some task)
| il_request S S' p p' : advance S p S' p' → interleaved (S, Some p) (S', Some p')
| il_stop S p : interleaved (S, Some p) (S, None).

(** The state is orderly, and stays so during the task under way. *)
Definition steady (X : Σ * option (prog R)) : Prop :=
  orderly X.1 ∧ match X.2 with None => True | Some p => during p (λ _, orderly) X.1 end.

Lemma interleaved_steady X Y :
  (∀ S, orderly S → during task (λ _, orderly) S) → steady X → interleaved X Y → steady Y.
Proof.
  intros Htask [Hs1 Hs2] Hstep. destruct Hstep as [S S' p Hstep|S|S S' p p' Hstep|S p]; unfold steady in *; simpl in *.
  - split; [by apply (stable_others (P := orderly) S S')|]. destruct p as [p|]; [|done].
    by apply (during_others p (λ _, orderly) S S').
  - split; [done|]. by apply Htask.
  - by destruct (during_advance p p' _ S S' Hs2 Hstep) as (Hs1' & _ & Hs2').
  - done.
Qed.

Lemma reachable_steady X Y :
  (∀ S, orderly S → during task (λ _, orderly) S) → steady X → rtc interleaved X Y → steady Y.
Proof. intros Htask HX Hrtc. revert HX. induction Hrtc; eauto using interleaved_steady. Qed.
End logic.

(** ** The operations of a reconcile

    What a reconcile does once the configs are settled, for any assertion that its
    deletions and its status writes preserve. *)
Section operations.
Context `{K8sLib, !K8sLaws} `{Interleaved Σ, !InterleavedLaws Σ}.

(** Config [key] may go. *)
Definition deletable (P : Σ → Prop) (key : NamespacedName) : Prop :=
  ∀ S, P S → during (call (Delete KRedkeyConfig key)) (λ _, P) S.

(** A status for the generation of [cl] may be written. *)
Record publishable (cl : Redkey) (P : Σ → Prop) : Prop := {
  pb_get : ∀ S, P S → during (call (Get KRedkey (key_of KRedkey cl)))
    (λ x S', P S' ∧ match x with Ok latest => key_of KRedkey latest = key_of KRedkey cl | Err _ => True end) S;
  pb_write : ∀ latest st S, P S → key_of KRedkey latest = key_of KRedkey cl →
    rst_ObservedGeneration st = rk_Generation cl →
    during (call (StatusUpdate (set_rk_Status st latest))) (λ _, P) S;
}.

Context (P : Σ → Prop) `{!Stable P}.

Lemma during_deleteConfigs l S :
  Forall (deletable P) (cf_key <$> l) → P S → during (deleteConfigs l) (λ _, P) S.
Proof.
  revert S. induction l as [|c l IH]; intros S Hall HS; [done|].
  rewrite fmap_cons in Hall. apply Forall_cons in Hall as [Hc Hl].
  apply during_bind. eapply during_mono; [by apply Hc|]. intros [[]|e] S1 Hs1.
  - apply during_bind. eapply during_mono; [by apply (during_spares _ P)|]. intros [] S2. by apply IH.
  - case_match; [by apply IH|by apply during_ret].
Qed.

Lemma during_deleteEach l S :
  Forall (deletable P) (cf_key <$> l) → P S → during (deleteEach l) (λ _, P) S.
Proof.
  revert S. induction l as [|c l IH]; intros S Hall HS; [done|].
  rewrite fmap_cons in Hall. apply Forall_cons in Hall as [Hc Hl].
  apply during_go_bind, during_bind. eapply during_mono; [by apply Hc|].
  intros [[]|e] S1 Hs1; [by apply IH|]. case_match; [by apply IH|by apply during_ret].
Qed.

Lemma during_cleanup l S :
  (∀ i, (i < length l)%nat → Forall (deletable P) (cf_key <$> take i l)) → P S →
  during (cleanupSupersededConfigs l) (λ _, P) S.
Proof.
  intros Hdel HS. unfold cleanupSupersededConfigs. case_bool_decide; [done|].
  destruct (find_last_index isApplied l) as [[|i]|] eqn:Hi; [done| |done]. apply during_bind.
  eapply during_mono; [apply during_deleteConfigs; [by eapply Hdel, find_last_index_lt|done]|].
  intros [[rest e]|] S1 Hs1; by apply during_ret.
Qed.

Lemma during_metrics cl active out S :
  P S → during (recordRedkeyMetrics cl active ≫= λ _, mret out) (λ _ : Result * option error, P) S.
Proof.
  intros HP. apply during_bind. eapply during_mono; [by apply (during_spares _ P); [apply spares_metrics|]|].
  by intros [] S1 Hs1.
Qed.

Lemma during_aggregate cl l S :
  publishable cl P → P S → during (aggregateStatus cl l) (λ _, P) S.
Proof.
  intros [Hget Hwrite] HS. unfold aggregateStatus. destruct (selectActiveConfig l) as [active|]; [|done].
  apply during_go_bind. destruct RetryOnConflict_spec as [n ->].
  apply (during_mono _ (λ _, P)); [|by intros [st|e] S1 Hs1].
  apply during_retry; [|done]. intros S1 Hs1. apply during_go_bind.
  eapply during_mono; [by apply Hget|]. intros [latest|e] S2 [Hs2 Hlat]; [|done].
  apply during_bind. eapply during_mono; [by apply (during_spares _ P)|].
  intros now S3 Hs3. apply during_go_bind. eapply during_mono; [by apply Hwrite|].
  by intros [o'|e] S4 Hs4.
Qed.

Lemma during_scaledToZero cl S :
  publishable cl P → P S → during (updateStatusScaledToZero cl) (λ _, P) S.
Proof.
  intros [_ Hwrite] HS. apply during_bind. eapply during_mono; [by apply (during_spares _ P)|].
  intros now S1 Hs1. by apply Hwrite.
Qed.

Lemma during_finish r cl l S :
  publishable cl P → (∀ i, (i < length l)%nat → Forall (deletable P) (cf_key <$> take i l)) → P S →
  during (finishReconcile r cl l) (λ _, P) S.
Proof.
  intros Hpub Hdel HS. destruct l as [|c l]; [by apply during_metrics|].
  apply during_bind. eapply during_mono; [by apply during_cleanup|]. intros [cfg [e|]] S1 Hs1.
  - by apply (during_spares (stageError "cleanup_superseded_configs" e) P).
  - apply (during_stage _ _ _ P). eapply during_mono; [by apply during_aggregate|].
    intros [cl'|e] S2 Hs2; [|done]. by apply during_metrics.
Qed.
End operations.
