(* ===== verification/Reconciling.v ===== *)
(** * A reconcile among other actors

    The invariant of Life.v through a whole [Reconcile] that reads the Redkey once
    and goes on with what it read while the user, Robin and others keep writing:
    what a reconcile knows ([Held], [Listed], [Newest], [Settled]), and each
    operation in the logic of Interleaving.v. *)

From S2P Require Import Prelude GoLib K8s Types Effects Client Logic FakeCluster.
From S2P Require Import Robin Config Metrics ScaleZero Controller Samples RobinProofs ConfigProofs.
From S2P Require Import ConfigStore Footprint ControllerProofs Failing ScaleZeroProofs Validation.
From S2P Require Import Life Interleaving.
Local Open Scope Z_scope.

Section reconciling.
Context `{K8sLib, !K8sLaws}.
Context (r : RedkeyReconciler) (req : NamespacedName).

(** ** The API server of one cluster *)

(** Requests are answered from the store as it is. *)
#[local] Instance fresh_interleaved : Interleaved Sys := {
  others := envStep req;
  serve T q S x S' := ∃ s', contract q (sy_store S) (sy_store S) x s' ∧ S' = mkSys s' (sy_specs S);
  orderly S := ∃ o, sysOk req S o;
  guarantee S S' := mine req (sy_store S) (sy_store S');
}.

#[local] Instance fresh_laws : InterleavedLaws Sys.
Proof.
  split.
  - intros S S' [o HS] Hstep. destruct (env_evolves req S S' o (so_life _ _ _ HS) Hstep) as [o' He].
    exists o'. by eapply evolves_sysOk.
  - intros T q [s specs] x S' [o HS] Hq (s' & Hc & ->).
    assert (Hk : keyed s') by (eapply contract_keyed; [|exact Hc]; apply (so_configs _ _ _ HS)).
    pose proof (contract_spares q s s x s' Hq Hc) as Hsame.
    split; [by apply env_other, elsewhere_same|by apply mine_same].
Qed.

(** ** What a reconcile knows *)

Abbreviation configsIn S := (clusterConfigs req (sy_store S)).

(** The newest config is a snapshot of the generation of [cl]. *)
Definition newestFor (cl : Redkey) (S : Sys) : Prop :=
  ∃ c, last (configsIn S) = Some c ∧ snapshotOf (sy_specs S) (rk_Generation cl) c.

(** [cl] is the Redkey as the reconcile read it, [o] as it is now. *)
Record held (cl : Redkey) (S : Sys) (o : Redkey) : Prop := {
  he_ok : sysOk req S o;
  he_key : key_of KRedkey cl = req;
  he_spec : sy_specs S !! rk_Generation cl = Some (rk_Spec cl);
  he_generation : 1 ≤ rk_Generation cl ≤ rk_Generation o;
  he_observed : rst_ObservedGeneration (rk_Status o) ≤ rk_Generation cl;
  he_order : inOrder (sy_specs S) (rk_Generation cl) (configsIn S);
  he_settled : rk_Generation cl ≤ rst_ObservedGeneration (rk_Status cl) →
    rs_Primaries (rk_Spec cl) ≠ 0 → newestFor cl S;
}.

Definition Held (cl : Redkey) (S : Sys) : Prop := ∃ o, held cl S o.

(** The newest config is the one stored under [k], and for [cl] unless that asks
    for no primaries. *)
Definition Newest (cl : Redkey) (k : NamespacedName) (S : Sys) : Prop :=
  rs_Primaries (rk_Spec cl) ≠ 0 →
  ∃ c, last (configsIn S) = Some c ∧ cf_key c = k ∧ snapshotOf (sy_specs S) (rk_Generation cl) c.

(** [l] is the list of configs, up to what Robin has reported since. *)
Definition Listed (l : list RedkeyConfig) (S : Sys) : Prop := Forall2 sameConfig l (configsIn S).

(** Assertions that hold on until the operator changes something. *)
Class Kept (P : Sys → Prop) : Prop :=
  kept : ∀ S S' o o', P S → evolves req S S' o o' → P S'.

#[local] Instance and_stable P Q : Stable P → Kept Q → Stable (λ S, P S ∧ Q S).
Proof.
  intros HP HQ. split; [intros S [H1 _]; by apply (stable_orderly S H1)|]. intros S S' [H1 H2] Hstep.
  split; [by apply (stable_others S S')|]. destruct (stable_orderly S H1) as [o HS].
  destruct (env_evolves req S S' o (so_life _ _ _ HS) Hstep) as [o' He]. by apply (kept S S' o o').
Qed.

Lemma newestFor_evolves cl S S' o o' : newestFor cl S → evolves req S S' o o' → newestFor cl S'.
Proof.
  intros (c & Hc & Hs) [_ _ _ Hsp Hcc]. destruct (sameConfig_last _ _ c Hcc Hc) as (c' & Hc' & Hsame).
  exists c'. split; [done|]. eapply sameConfig_snapshot; [done|]. by eapply snapshotOf_specs.
Qed.

#[local] Instance Newest_kept cl k : Kept (Newest cl k).
Proof.
  intros S S' o o' HN [_ _ _ Hsp Hcc] Hp. destruct (HN Hp) as (c & Hc & Hk & Hs).
  destruct (sameConfig_last _ _ c Hcc Hc) as (c' & Hc' & Hsame). exists c'. split; [done|].
  split; [by rewrite (sameConfig_key _ _ Hsame)|].
  eapply sameConfig_snapshot; [done|]. by eapply snapshotOf_specs.
Qed.

#[local] Instance Listed_kept l : Kept (Listed l).
Proof. intros S S' o o' Hl [_ _ _ _ Hcc]. unfold Listed. by etrans. Qed.

#[local] Instance Held_stable cl : Stable (Held cl).
Proof.
  split; [intros S [o Ho]; exists o; apply Ho|]. intros S S' [o [H1 H2 H3 H4 H5 H6 H7]] Hstep.
  destruct (env_evolves req S S' o (so_life _ _ _ H1) Hstep) as [o' He]. exists o'. pose proof He as [E1 E2 E3 E4 E5]. split.
  - by eapply evolves_sysOk.
  - done.
  - by eapply lookup_weaken.
  - lia.
  - by rewrite E3.
  - eapply sameConfig_inOrder; [exact E5|]. by eapply inOrder_specs.
  - intros G1 G2. eapply newestFor_evolves; [|exact He]. auto.
Qed.

Lemma held_read S o : sysOk req S o → held o S o.
Proof.
  intros HS. pose proof HS as [[Hlive Hkey Hok Hspec Hhist Hrange Hobs] Hord Hset].
  split; try done; [lia|]. intros H1 H2. destruct (Hset ltac:(lia) H2) as (c & Hc & Hs & _). by exists c.
Qed.

(** A change to the configs. *)
Lemma held_configs cl S o s' :
  held cl S o → configsOk req s' → st_redkeys s' !! req = st_redkeys (sy_store S) !! req →
  inOrder (sy_specs S) (rk_Generation cl) (clusterConfigs req s') →
  (rs_Primaries (rk_Spec cl) ≠ 0 → newestFor cl S → newestFor cl (mkSys s' (sy_specs S))) →
  held cl (mkSys s' (sy_specs S)) o.
Proof.
  intros [[[Hlive Hkey Hok Hspec Hhist Hrange Hobs] Hord Hset] H2 H3 H4 H5 H6 H7] Hok' Hrk Hord' Hnew.
  split; cbn [sy_store sy_specs]; try done; [|auto]. split; cbn [sy_store sy_specs]; [split; cbn [sy_store sy_specs]; try done| |].
  - by rewrite Hrk.
  - eapply inOrder_mono; [|exact Hord']. lia.
  - intros G1 G2. assert (Hg : rk_Generation cl = rk_Generation o) by lia.
    assert (Hsp : rk_Spec cl = rk_Spec o) by (rewrite Hg, Hspec in H3; by injection H3 as ->).
    rewrite Hsp in Hnew. destruct (Hset G1 G2) as (c & Hc & Hs & _).
    destruct (Hnew G2) as (d & Hd & Hsd); [exists c; by rewrite Hg|].
    exists d. cbn [sy_specs] in *. by rewrite Hg in Hsd.
Qed.

(** A status write for the generation of [cl]. *)
Lemma held_status cl S o s' rv st k :
  held cl S o → keyed s' → st_configs s' = st_configs (sy_store S) →
  st_redkeys s' = <[req := withStatus o rv st]> (st_redkeys (sy_store S)) →
  rst_ObservedGeneration st = rk_Generation cl → Newest cl k S →
  held cl (mkSys s' (sy_specs S)) (withStatus o rv st) ∧ Newest cl k (mkSys s' (sy_specs S)).
Proof.
  intros [[Hlife Hord Hset] H2 H3 H4 H5 H6 H7] Hk Hcfg Hrk Hst Hnew.
  assert (Hcc : clusterConfigs req s' = configsIn S) by (unfold clusterConfigs, selected_configs; by rewrite Hcfg).
  split; [|unfold Newest; cbn [sy_store sy_specs]; by rewrite Hcc].
  assert (Hfor : rs_Primaries (rk_Spec cl) ≠ 0 → newestFor cl (mkSys s' (sy_specs S))).
  { intros Hp. destruct (Hnew Hp) as (c & Hc & _ & Hs). exists c. cbn [sy_store]. by rewrite Hcc. }
  split; cbn [sy_store sy_specs]; rewrite ?Hcc; try done; [|simpl; by rewrite Hst].
  split; cbn [sy_store sy_specs].
  - apply lifeOk_status; try done. rewrite Hst. apply H4.
  - by rewrite Hcc.
  - intros G1 G2. simpl in G1, G2. rewrite Hst in G1.
    change (rk_Generation (withStatus o rv st)) with (rk_Generation o) in *.
    assert (Hsp : rk_Spec cl = rk_Spec o) by (rewrite G1, (lf_spec _ _ _ Hlife) in H3; by injection H3 as ->).
    destruct Hfor as (c & Hc & Hs); [by rewrite Hsp|]. exists c. split; [done|]. rewrite <- G1 at 1. split; [done|apply (lf_spec _ _ _ Hlife)].
Qed.

(** ** Creating the config that is due *)

Lemma configDue_same cl l l' : Forall2 sameConfig l l' → configDue cl l' = configDue cl l.
Proof.
  intros Hl. unfold configDue, needsNewConfig. rewrite (Forall2_length _ _ _ Hl).
  destruct (last l) as [c|] eqn:Hc.
  - destruct (sameConfig_last l l' c Hl Hc) as (c' & -> & rv & st & ->). done.
  - apply last_None in Hc as ->. by apply Forall2_nil_inv_l in Hl as ->.
Qed.

Lemma nextSequence_same l l' : Forall2 sameConfig l l' → nextSequence (last l') = nextSequence (last l).
Proof.
  intros Hl. destruct (last l) as [c|] eqn:Hc.
  - destruct (sameConfig_last l l' c Hl Hc) as (c' & -> & Hs%sameConfig_spec). simpl. by rewrite Hs.
  - apply last_None in Hc as ->. by apply Forall2_nil_inv_l in Hl as ->.
Qed.

(** When a config is due, none exists for the generation. *)
Lemma due_not_snapshot cl S o d :
  held cl S o → configDue cl (configsIn S) = true → last (configsIn S) = Some d →
  ¬ snapshotOf (sy_specs S) (rk_Generation cl) d.
Proof.
  intros Hh Hdue Hlast [Hg (spec & Hs & Hcs)]. destruct (decide (rs_Primaries (rk_Spec cl) = 0)) as [Hp|Hp].
  - unfold configDue in Hdue. rewrite Hlast, bool_decide_eq_true_2 in Hdue by done.
    rewrite (he_spec _ _ _ Hh) in Hs. injection Hs as <-. by rewrite (ca_Primaries _ _ Hcs), Hp in Hdue.
  - pose proof (due_newer cl _ d _ Hp Hdue Hlast Hg). lia.
Qed.

(** When none is due, the newest config is for the generation. *)
Lemma notDue_newest cl S o :
  held cl S o → rs_Primaries (rk_Spec cl) ≠ 0 → configDue cl (configsIn S) = false → newestFor cl S.
Proof.
  unfold configDue. intros Hh Hp. rewrite bool_decide_eq_false_2 by done.
  intros [Hlen Hneed]%orb_false_iff. destruct (last (configsIn S)) as [d|] eqn:Hlast; last first.
  { apply last_None in Hlast. rewrite Hlast in Hlen. done. }
  destruct (inOrder_last _ _ _ _ (he_order _ _ _ Hh) Hlast) as (g & Hg & Hle & _).
  assert (Hcase : rk_Generation cl ≤ g ∨ rk_Generation cl ≤ rst_ObservedGeneration (rk_Status cl)).
  { pose proof Hg as [Hgen _]. unfold needsNewConfig in Hneed. unfold configGeneration in Hgen.
    case_bool_decide as He; [right; by apply Z.ltb_ge|]. rewrite Hgen in Hneed.
    destruct (rk_Generation cl <=? g) eqn:Hb; [left; by apply Z.leb_le|right; by apply Z.ltb_ge]. }
  destruct Hcase; [|by apply (he_settled _ _ _ Hh)]. exists d. split; [done|].
  by replace (rk_Generation cl) with g by lia.
Qed.

Lemma held_room cl S o c : held cl S o → c ∈ configsIn S → seqOf c < 2 ^ 63 - 1.
Proof.
  intros Hh Hc. destruct (inOrder_bounds _ _ _ _ (he_order _ _ _ Hh) Hc) as (g & _ & Hg).
  pose proof (lf_range _ _ _ (so_life _ _ _ (he_ok _ _ _ Hh))). pose proof (he_generation _ _ _ Hh). lia.
Qed.

(** Appending the config created for the generation. *)
Lemma inOrder_created cl S o c :
  held cl S o → configDue cl (configsIn S) = true →
  createdFor cl (nextSequence (last (configsIn S))) c →
  inOrder (sy_specs S) (rk_Generation cl) (configsIn S ++ [c]) ∧ snapshotOf (sy_specs S) (rk_Generation cl) c.
Proof.
  intros Hh Hdue Hc. pose proof (lf_range _ _ _ (so_life _ _ _ (he_ok _ _ _ Hh))). pose proof (he_generation _ _ _ Hh).
  assert (Hnew : ∀ d, last (configsIn S) = Some d → ¬ snapshotOf (sy_specs S) (rk_Generation cl) d)
    by (intros d; by apply (due_not_snapshot cl S o)).
  destruct (createdFor_snapshot (sy_specs S) cl (nextSequence (last (configsIn S))) c) as [Hsnap Hseq];
    [unfold in_int64; lia|apply Hh|done|].
  split; [|done]. apply inOrder_snoc; [apply Hh|done| |done]. rewrite Hseq.
  eapply nextSequence_bound; [apply Hh|lia| |done]. intros d Hd.
  by apply (co_named _ _ (so_configs _ _ _ (he_ok _ _ _ Hh))).
Qed.

Lemma held_create cl S o c :
  held cl S o → configDue cl (configsIn S) = true →
  createdFor cl (nextSequence (last (configsIn S))) c →
  st_configs (sy_store S) !! cf_key c = None →
  let S' := mkSys (sput KRedkeyConfig (cf_key c) c (sy_store S)) (sy_specs S) in
  held cl S' o ∧ Newest cl (cf_key c) S'.
Proof.
  intros Hh Hdue Hc Hnone S'. pose proof (so_configs _ _ _ (he_ok _ _ _ Hh)) as Hok.
  pose proof (createdFor_stored cl _ c Hc) as Hsc. rewrite (he_key _ _ _ Hh) in Hsc.
  destruct (nextSequence_fresh req (sy_store S) Hok) as (Hpos & Hlt & _); [by intros d; apply (held_room cl S o)|].
  destruct (inOrder_created cl S o c Hh Hdue Hc) as [Ho Hs].
  assert (Hcc : configsIn S' = configsIn S ++ [c]) by by eapply clusterConfigs_create.
  assert (Hnew : newestFor cl S') by (exists c; by rewrite Hcc, last_snoc).
  split; [|intros _; exists c; by rewrite Hcc, last_snoc].
  apply held_configs; [done|by eapply configsOk_create|done|by rewrite <- Hcc in Ho|done].
Qed.

(** ** The operations *)

Lemma Held_ok cl S : Held cl S → orderly S.
Proof. intros [o Ho]. exists o. apply Ho. Qed.

(** The configs, as listed at some moment. *)
Lemma during_list cl (P : Sys → Prop) `{!Stable P} (Q : res error (list RedkeyConfig) → Sys → Prop) S :
  (∀ S1, P S1 → Held cl S1) → P S →
  (∀ S1 l, P S1 → Listed l S1 → Q (Ok l) S1) → (∀ S1 e, P S1 → Q (Err e) S1) →
  during (listConfigs cl) Q S.
Proof.
  intros Hheld HP HQ1 HQ2. apply during_go_bind, (during_look _ P); [done|done|].
  intros [s1 specs] x S' H1 (s' & [-> Hl] & ->) _. destruct x as [l|e]; [|by apply HQ2].
  apply during_ret, HQ1; [done|]. destruct (Hheld _ H1) as [o Ho].
  pose proof (so_configs _ _ _ (he_ok _ _ _ Ho)) as Hok. pose proof (he_key _ _ _ Ho) as Hkey.
  unfold Listed. cbn [sy_store] in *. rewrite <- Hkey in Hok.
  rewrite (selected_perm_sorted _ _ l Hok Hl), Hkey. reflexivity.
Qed.

(** Creating the config that is due on the configs as listed. *)
Lemma during_create cl l (Q : res error unit → Sys → Prop) S :
  Held cl S → Listed l S → configDue cl l = true →
  (∀ S1 k, Held cl S1 → Newest cl k S1 → Q (Ok tt) S1) → (∀ S1 e, Held cl S1 → Q (Err e) S1) →
  during (createNewConfig cl (last l)) Q S.
Proof.
  intros Hh Hl Hdue HQ1 HQ2. unfold createNewConfig. set (n := nextSequence (last l)).
  destruct (newConfig_owner cl n) as [refs ->].
  apply during_bind, (during_call _ (λ S, Held cl S ∧ Listed l S)); [done|].
  intros [s1 specs] x S' [[o Ho] H1] (s' & Hc & ->). pose proof (so_configs _ _ _ (he_ok _ _ _ Ho)) as Hok.
  rewrite <- (configDue_same cl l _ H1) in Hdue.
  assert (Hn : n = nextSequence (last (configsIn (mkSys s1 specs)))) by (symmetry; by apply nextSequence_same).
  destruct (nextSequence_fresh req s1 Hok) as (Hpos & _ & Hnone); [by intros d; apply (held_room cl (mkSys s1 specs) o)|].
  cbn [sy_store sy_specs] in *. rewrite <- Hn in Hpos, Hnone.
  assert (Hkey : key_of KRedkeyConfig (set_cf_Meta (set_om_OwnerReferences refs (cf_Meta (newConfig cl n)))
      (newConfig cl n)) = mkKey (nn_Namespace req) (configName (nn_Name req) n))
    by (pose proof (he_key _ _ _ Ho) as <-; done).
  destruct x as [[]|e].
  - destruct Hc as (_ & c & (Hmeta & Hspec & Hst) & ->).
    assert (Hc : createdFor cl n c).
    { split; [done|]. split; [done|]. destruct Hmeta as (G1 & G2 & G3 & G4 & _).
      exact (conj G1 (conj G2 (conj G3 (conj G4 eq_refl)))). }
    pose proof (createdFor_stored cl n c Hc) as (Hck & Hsel & _). rewrite (he_key _ _ _ Ho) in Hck, Hsel.
    assert (Hours : ours req (cf_key c)) by (by exists n).
    rewrite Hkey, <- Hck in *. rewrite Hn in Hc.
    destruct (held_create cl (mkSys s1 specs) o c Ho Hdue Hc Hnone) as [Ho' Hnew]. cbn [sy_store sy_specs] in *.
    split; [by exists o; apply Ho'|]. split.
    { by apply mine_put; [apply Hok|..]. }
    apply during_bind. eapply during_mono.
    + apply (during_spares _ (λ S, Held cl S ∧ Newest cl (cf_key c) S)); [done|]. split; [by exists o|done].
    + intros [] S2 [H2 H3]. apply during_ret. by eapply HQ1.
  - destruct Hc as [-> Hex]. split; [by exists o; apply Ho|]. split; [by apply mine_same; [apply Hok|]|].
    destruct (IsAlreadyExists e) eqn:He; [|by apply during_ret, HQ2; exists o].
    destruct (Hex eq_refl) as [d Hd]. rewrite Hkey in Hd. discriminate (eq_trans (eq_sym Hd) Hnone).
Qed.

(** ** Deletions *)

(** The assertion the rest of a reconcile maintains. *)
Definition Settled (cl : Redkey) (k : NamespacedName) (S : Sys) : Prop := Held cl S ∧ Newest cl k S.

#[local] Instance Settled_stable cl k : Stable (Settled cl k).
Proof. apply and_stable; apply _. Qed.

Lemma Settled_ok cl k S : Settled cl k S → orderly S.
Proof. intros [Hh _]. by apply (Held_ok cl). Qed.

(** With no primaries asked for, any config may go. *)
Lemma Settled_zero cl k S : rs_Primaries (rk_Spec cl) = 0 → Held cl S → Settled cl k S.
Proof. intros Hp Hh. split; [done|]. by intros []. Qed.

Lemma settled_pruned cl k keys S s' :
  Settled cl k S → keyed s' → pruned keys (sy_store S) s' →
  (rs_Primaries (rk_Spec cl) ≠ 0 → k ∉ keys) → Settled cl k (mkSys s' (sy_specs S)).
Proof.
  intros [[o Ho] HN] Hk Hp Hkeep. pose proof (so_configs _ _ _ (he_ok _ _ _ Ho)) as Hok.
  destruct (clusterConfigs_pruned req keys (sy_store S) s' Hok Hk Hp) as (Hok' & Hsub & Hlast).
  assert (HN' : Newest cl k (mkSys s' (sy_specs S))).
  { intros Hr. destruct (HN Hr) as (c & Hc & Hck & Hs). exists c. split; [|done].
    apply Hlast; [done|]. rewrite Hck. auto. }
  split; [|done]. exists o. apply held_configs; [done|done|by rewrite (pr_redkeys _ _ _ Hp)| |].
  - eapply inOrder_sublist; [exact Hsub|apply Ho].
  - intros Hr _. destruct (HN' Hr) as (c & Hc & _ & Hs). by exists c.
Qed.

Lemma settled_deletable cl k key :
  ours req key → (rs_Primaries (rk_Spec cl) ≠ 0 → k ≠ key) → deletable (Settled cl k) key.
Proof.
  intros Hours Hkey S HS. apply (during_call _ (Settled cl k)); [done|].
  intros [s1 specs] x S2 H1 (s' & Hc & ->). pose proof H1 as [[o Ho] _].
  pose proof (co_keyed _ _ (so_configs _ _ _ (he_ok _ _ _ Ho))) as Hk1. cbn [sy_store] in Hk1.
  assert (Hk' : keyed s') by by eapply contract_keyed.
  assert (H2 : Settled cl k (mkSys s' specs)).
  { apply (settled_pruned cl k [key] (mkSys s1 specs)); [done|done| |].
    - destruct x; [destruct Hc as [_ ->]; by apply pruned_sdel|destruct Hc as [-> _]; by apply pruned_refl].
    - intros Hr. rewrite list_elem_of_singleton. auto. }
  split; [by apply (Settled_ok cl k)|]. split; [|done]. cbn [sy_store].
  destruct x; [destruct Hc as [_ ->]; by apply mine_del|destruct Hc as [-> _]; by apply mine_same].
Qed.

Lemma all_deletable cl k l :
  Forall (ours req) (cf_key <$> l) → (rs_Primaries (rk_Spec cl) ≠ 0 → k ∉ cf_key <$> l) →
  Forall (deletable (Settled cl k)) (cf_key <$> l).
Proof.
  intros Hours Hk. apply Forall_forall. intros key Hin. apply settled_deletable.
  - by apply (proj1 (Forall_forall _ _) Hours).
  - intros Hp ->. by apply Hk.
Qed.

(** The superseded configs among those listed at some moment. *)
Lemma superseded_deletable cl k l S i :
  Settled cl k S → Listed l S → rs_Primaries (rk_Spec cl) ≠ 0 → (i < length l)%nat →
  Forall (deletable (Settled cl k)) (cf_key <$> take i l).
Proof.
  intros HS Hl Hp Hi. destruct HS as [[o Ho] HN]. pose proof (so_configs _ _ _ (he_ok _ _ _ Ho)) as Hok. destruct (HN Hp) as (c & Hc & <- & _).
  assert (Hkeys : cf_key <$> l = cf_key <$> configsIn S).
  { clear -Hl. induction Hl as [|x y l l' Hm _ IH]; csimpl; [done|]. by rewrite IH, (sameConfig_key _ _ Hm). }
  apply all_deletable; rewrite fmap_take, Hkeys, <- fmap_take.
  { apply Forall_fmap, Forall_forall. intros d Hd. apply (clusterConfigs_ours req (sy_store S)); [done|].
    by eapply elem_of_sublist; [|apply sublist_take]. }
  intros _. apply (take_spares_last req); [done| |done]. by rewrite <- (Forall2_length _ _ _ Hl).
Qed.

(** ** Status writes *)

Lemma settled_publishable cl k : key_of KRedkey cl = req → publishable cl (Settled cl k).
Proof.
  intros Hcl. split; rewrite Hcl.
  - intros S HS. apply (during_look _ (Settled cl k)); [done|done|].
    intros [s1 specs] x S' H1 (s' & [-> Hx] & ->) _. split; [done|].
    destruct x as [latest|e]; [|done]. destruct H1 as [[o Ho] _].
    by apply (co_keyed _ _ (so_configs _ _ _ (he_ok _ _ _ Ho)) KRedkey).
  - intros latest st S HS Hkey Hst. apply (during_call _ (Settled cl k)); [done|].
    intros [s1 specs] x S2 H1 (s' & Hc & HS2).
    assert (H2 : Settled cl k S2 ∧ mine req s1 (sy_store S2));
      [|destruct H2 as [H2 Hg]; split; [by apply (Settled_ok cl k)|by split]].
    pose proof H1 as [[o Ho] HN]. pose proof (so_configs _ _ _ (he_ok _ _ _ Ho)) as Hok.
    pose proof (contract_keyed _ _ _ _ _ (co_keyed _ _ Hok) Hc) as Hk'.
    destruct x as [o'|e]; [|simpl in Hc; subst; split; [done|by apply mine_same]].
    destruct Hc as (cur & rv & Hcur & _ & -> & ->). simpl in Hcur.
    change (key_of KRedkey (set_rk_Status st latest)) with (key_of KRedkey latest) in *. rewrite Hkey in *.
    pose proof (so_live _ _ _ (he_ok _ _ _ Ho)) as Hlive.
    injection (eq_trans (eq_sym Hcur) Hlive) as ->.
    destruct (held_status cl (mkSys s1 specs) o (sput KRedkey req (withStatus o rv st) s1) rv st k) as [Ho' HN'];
      try done. subst S2. split; [split; [exists (withStatus o rv st); exact Ho'|exact HN']|].
    apply mine_redkey; [exact Hk'|intros key Hne; by apply lookup_insert_ne|done].
Qed.

Lemma Held_key cl S : Held cl S → key_of KRedkey cl = req.
Proof. intros [o Ho]. exact (he_key _ _ _ Ho). Qed.

(** ** A whole reconcile *)

Lemma during_rest cl k l S :
  Settled cl k S → Listed l S → rs_Primaries (rk_Spec cl) ≠ 0 →
  during (finishReconcile r cl l) (λ _, Held cl) S.
Proof.
  intros HS Hl Hp. apply (during_mono _ (λ _, Settled cl k)); [|by intros _ S1 []].
  apply (during_finish (Settled cl k)); [|by intros i; eapply superseded_deletable|done].
  apply settled_publishable. destruct HS as [HS _]. by apply (Held_key cl S).
Qed.

Lemma during_running cl S :
  Held cl S → rs_Primaries (rk_Spec cl) ≠ 0 →
  during (at_stage "ensure_rbac" (ensureRBAC cl) (λ _,
      at_stage "ensure_robin_deployment" (ensureRobinDeployment cl) (λ _,
      at_stage "list_configs" (listConfigs cl) (λ configs,
        if bool_decide (length configs = 0%nat) || needsNewConfig cl (last configs) then
          at_stage "create_new_config" (createNewConfig cl (last configs)) (λ _,
          at_stage "list_configs" (listConfigs cl) (λ configs, finishReconcile r cl configs))
        else finishReconcile r cl configs)))) (λ _, Held cl) S.
Proof.
  intros HS Hp. destruct (spares_ensureRobin cl) as [Hrbac Hdep].
  apply (during_robin_stage _ _ _ (Held cl)); [done|done|]. intros _ S1 H1.
  apply (during_robin_stage _ _ _ (Held cl)); [done|done|]. intros _ S2 H2.
  apply (during_stage _ _ _ (Held cl)), (during_list cl (Held cl)); [done|done| |done]. intros S3 l H3 Hl.
  assert (Hdue : configDue cl l = bool_decide (length l = 0%nat) || needsNewConfig cl (last l))
    by (unfold configDue; by rewrite bool_decide_eq_false_2).
  rewrite <- Hdue. destruct (configDue cl l) eqn:Hd.
  - apply (during_stage _ _ _ (Held cl)), (during_create cl l); [done|done|done| |done]. intros S4 k H4 HN4.
    apply (during_stage _ _ _ (Held cl)), (during_list cl (Settled cl k)); [by intros S5 []|done| |by intros S5 e []].
    intros S5 l5 H5 Hl5. by apply (during_rest cl k).
  - destruct H3 as [o Ho]. rewrite <- (configDue_same cl l _ Hl) in Hd.
    destruct (notDue_newest cl S3 o Ho Hp Hd) as (c & Hc & Hs).
    apply (during_rest cl (cf_key c)); [|done|done]. split; [by exists o|]. intros _. by exists c.
Qed.

(** The teardown may delete any config: none is asked for. *)
Lemma during_teardown cl resync S :
  Held cl S → rs_Primaries (rk_Spec cl) = 0 →
  during (deleteRobinDeployment cl ;;; deleteRBAC cl ;;; deleteAllConfigs cl ;;;
    (cluster' ⇐ updateStatusScaledToZero cl; mret (Ok (mkResult resync, cluster')))) (λ _, Held cl) S.
Proof.
  intros HS Hp. destruct (spares_teardown cl) as [Hdep Hrbac].
  pose proof (settled_publishable cl req (Held_key _ _ HS)) as Hpub.
  apply (during_robin _ _ (Held cl)); [done|done| |done]. intros _ S1 H1.
  apply (during_robin _ _ (Held cl)); [done|done| |done]. intros _ S2 H2.
  apply during_go_bind, during_go_bind, during_wrap_err, (during_look _ (Held cl)); [done|done|].
  intros [s3 specs] x S' H3 (s' & [-> Hl] & ->) _. destruct x as [items|e]; [|done].
  assert (Hours : Forall (ours req) (cf_key <$> items)).
  { destruct H3 as [o Ho]. apply Forall_fmap, Forall_forall. intros d Hd.
    apply (clusterConfigs_ours req s3); [apply (so_configs _ _ _ (he_ok _ _ _ Ho))|].
    unfold clusterConfigs, sortConfigs. rewrite sort_slice_perm, <- (he_key _ _ _ Ho). by rewrite Hl in Hd. }
  eapply during_mono; [apply (during_deleteEach (Settled cl req)); [by apply all_deletable|by apply Settled_zero]|].
  intros [[]|e] S4 H4; [|apply H4]. apply during_go_bind.
  eapply during_mono; [by apply (during_scaledToZero (Settled cl req)); [apply Hpub|]|]. by intros [cl'|e] S5 [].
Qed.

Lemma during_scaleToZero cl resync S :
  Held cl S → rs_Primaries (rk_Spec cl) = 0 →
  during (reconcileScaleToZero resync cl) (λ _, Held cl) S.
Proof.
  intros HS Hp. destruct (spares_ensureRobin cl) as [Hrbac Hdep].
  pose proof (settled_publishable cl req (Held_key _ _ HS)) as Hpub.
  apply during_go_bind, (during_list cl (Held cl)); [done|done| |done]. intros S1 l H1 Hl.
  destruct (last l) as [c|] eqn:Hlast; last first.
  { apply during_go_bind. eapply during_mono; [apply (during_scaledToZero (Settled cl req)); [done|by apply Settled_zero]|].
    by intros [cl'|e] S2 []. }
  destruct (negb _) eqn:Hneg; [|case_match; [by apply during_teardown|]].
  - apply (during_robin _ _ (λ S, Held cl S ∧ Listed l S)); [done|done| |by intros e S2 []]. intros _ S2 H2.
    apply (during_robin _ _ (λ S, Held cl S ∧ Listed l S)); [done|done| |by intros e S3 []]. intros _ S3 [H3 Hl3].
    assert (Hdue : configDue cl l = true) by (unfold configDue; by rewrite bool_decide_eq_true_2, Hlast).
    apply during_go_bind. rewrite <- Hlast. by apply (during_create cl l).
  - apply (during_robin _ _ (Held cl)); [done|done| |done]. intros _ S2 Hs2.
    apply (during_robin _ _ (Held cl)); [done|done| |done]. intros _ S3 Hs3.
    apply during_go_bind. eapply during_mono; [apply (during_aggregate (Settled cl req)); [done|by apply Settled_zero]|].
    by intros [cl'|e] S4 [].
Qed.

(** From any state in order, the system stays in order while a reconcile runs. *)
Lemma during_Reconcile S : orderly S → during (Reconcile r req) (λ _, orderly) S.
Proof.
  intros HS. apply during_bind, (during_look _ orderly); [done|done|].
  intros [s1 specs] x S' [o Ho] (s' & [-> Hx] & ->) _.
  pose proof (so_live _ _ _ Ho) as Hlive. destruct x as [cl|e].
  - injection (eq_trans (eq_sym Hx) Hlive) as ->.
    assert (Hh : Held o (mkSys s1 specs)) by (exists o; by apply held_read).
    apply (during_mono _ (λ _, Held o)); [|by intros _ S2; apply Held_ok]. case_bool_decide as Hp.
    + apply (during_stage _ _ _ (Held o)). eapply during_mono; [by apply during_scaleToZero|].
      intros [[res cl]|e] S2 H2; [|done]. by apply (during_metrics (Held o)).
    + by apply during_running.
  - destruct (IsNotFound e) eqn:He; [discriminate (eq_trans (eq_sym Hlive) (Hx eq_refl))|].
    apply (during_spares (stageError "get_cluster" e) (orderly)); [done|by exists o].
Qed.
End reconciling.
