(* ===== verification/System.v ===== *)
(** * The operator among the others

    The transition system of one cluster: the user, Robin and anything else may
    change the store at any moment, also between two requests of a reconcile; the
    operator starts reconciles, sends their requests one by one, any of which may
    fail, and may stop anywhere.  Reads show the store as it is when they are
    served (Stale.v lets them lag behind).  At every moment the
    invariant of Life.v holds, and from every state in which no reconcile is under
    way the operator catches up. *)

From S2P Require Import Prelude GoLib K8s Types Effects Client Logic FakeCluster.
From S2P Require Import Robin Config Metrics ScaleZero Controller Samples RobinProofs ConfigProofs.
From S2P Require Import ConfigStore Footprint ControllerProofs Failing ScaleZeroProofs Validation.
From S2P Require Import Life Interleaving Reconciling.
Local Open Scope Z_scope.

Section system.
Context `{K8sLib, !K8sLaws}.
Context (r : RedkeyReconciler) (req : NamespacedName).

(** ** The transition system *)

#[local] Instance cluster_interleaved : Interleaved Sys := fresh_interleaved req.
#[local] Instance cluster_laws : InterleavedLaws Sys := fresh_laws req.

(** What is left of the reconcile under way, if one is. *)
Definition Operator : Type := option (prog (Result * option error)).

Definition step : relation (Sys * Operator) := interleaved (Reconcile r req).

(** ** Every moment *)

Abbreviation inv := (steady (R := Result * option error)).

Lemma reachable_inv X Y : inv X → rtc step X Y → inv Y.
Proof. apply reachable_steady. apply during_Reconcile. Qed.

Lemma initial_inv S o : initial req S o → inv (S, None).
Proof.
  intros [H1 H2 H3 H4 H6 H7 H8]. split; [|done]. simpl. exists o.
  split; [split; try done| |]; rewrite ?H3, ?H4, ?H6, ?H8; try lia.
  - by rewrite lookup_singleton_eq.
  - intros g spec [<- _]%lookup_singleton_Some. done.
  - apply inOrder_nil.
Qed.

Lemma step_specs X Y : inv X → step X Y → sy_specs X.1 ⊆ sy_specs Y.1.
Proof.
  intros [[o HS] _] Hstep. destruct Hstep as [S S' p Hstep|S|S S' p p' Hstep|S p]; simpl in *; [|done| |done].
  - destruct (env_evolves req S S' o (so_life _ _ _ HS) Hstep) as [o' He]. apply He.
  - destruct p as [a|T q k]; [done|]. by destruct Hstep as (x & (s' & _ & ->) & _).
Qed.

Lemma reachable_specs X Y : inv X → rtc step X Y → sy_specs X.1 ⊆ sy_specs Y.1.
Proof.
  intros HX Hrtc. revert HX. induction Hrtc as [X|X Y Z Hstep _ IH]; intros HX; [done|].
  etrans; [by apply step_specs|]. by apply IH, (reachable_inv X), rtc_once.
Qed.

(** C1: configs are snapshots of generations.  Start from a new cluster, and let
    the user edit the spec, Robin report and anything else change at any moment,
    also between two requests of a reconcile, any of which may fail and after any
    of which the operator may stop.  At every moment the configs carry strictly
    increasing sequences and were made from strictly increasing generations, each
    with the very spec the user wrote at its generation (and what was written at a
    generation never changes); a running cluster whose current generation is marked
    observed has a newest config made from the current spec. *)
Theorem configs_snapshot_generations (S S1 S2 : Sys) (o : Redkey) (p1 p2 : Operator) :
  initial req S o → rtc step (S, None) (S1, p1) → rtc step (S1, p1) (S2, p2) →
  sy_specs S1 ⊆ sy_specs S2 ∧ ∃ o2, st_redkeys (sy_store S2) !! req = Some o2 ∧
    sy_specs S2 !! rk_Generation o2 = Some (rk_Spec o2) ∧
    rst_ObservedGeneration (rk_Status o2) ≤ rk_Generation o2 ∧
    StronglySorted Z.lt ((λ c, seqOf c) <$> clusterConfigs req (sy_store S2)) ∧
    (∃ gens, StronglySorted Z.lt gens ∧ Forall (λ g, g ≤ rk_Generation o2) gens ∧
      Forall2 (snapshotOf (sy_specs S2)) gens (clusterConfigs req (sy_store S2))) ∧
    (rst_ObservedGeneration (rk_Status o2) = rk_Generation o2 → rs_Primaries (rk_Spec o2) ≠ 0 →
     upToDate req S2 o2).
Proof.
  intros Hi H01 H12. pose proof (reachable_inv _ _ (initial_inv S o Hi) H01) as HX1.
  split; [apply (reachable_specs _ _ HX1 H12)|].
  destruct (reachable_inv _ _ HX1 H12) as [[o2 HS2] _]. exists o2.
  destruct HS2 as [[Hlive Hkey Hok Hspec Hhist Hrange Hobs] (gens & G1 & G2 & G3 & _) Hset].
  repeat split; try done; [by apply clusterConfigs_sequences|by exists gens].
Qed.

(** ** Executions against a client *)

Lemma contract_fresh {T} (q : Req T) s x s' : contract q s' s x s' → contract q s s x s'.
Proof. destruct q; simpl; try done; intros [-> Hx]; by split. Qed.

Section exec.
Context `{!KubeClient W, !KubeQuiet W}.

Lemma handle_advance {T A} (q : Req T) (k : T → prog A) (w w1 : W) x specs :
  handle q w = (w1, x) → advance (mkSys (server w) specs) (Call q k) (mkSys (server w1) specs) (k x).
Proof.
  intros Hh. destruct (handle_contract _ q w w1 x Hh) as (s & ->%quiet_rtc & _ & Hc).
  rewrite quiet_fresh in Hc. exists x. split; [|done]. exists (server w1). split; [by apply contract_fresh|done].
Qed.

(** The first [n] requests of a program. *)
Fixpoint runFor {A} (n : nat) (p : prog A) (w : W) : W * prog A :=
  match n, p with
  | Datatypes.S n', Call q k => let '(w1, x) := handle q w in runFor n' (k x) w1
  | _, _ => (w, p)
  end.

Lemma runFor_steps n p (w : W) specs :
  rtc step (mkSys (server w) specs, Some p)
    (mkSys (server (runFor n p w).1) specs, Some (runFor n p w).2).
Proof.
  revert p w. induction n as [|n IH]; intros p w; [done|]. destruct p as [a|T q k]; [done|]. simpl.
  destruct (handle q w) as [w1 x] eqn:Hh. eapply rtc_l; [by eapply il_request, handle_advance|]. apply IH.
Qed.

Lemma exec_steps p (w w' : W) a specs :
  exec p w = (w', a) → rtc step (mkSys (server w) specs, Some p) (mkSys (server w') specs, None).
Proof.
  revert w. induction p as [a0|T q k IH]; intros w; simpl.
  - intros [= <- <-]. apply rtc_once, il_stop.
  - destruct (handle q w) as [w1 x] eqn:Hh. intros He.
    eapply rtc_l; [by eapply il_request, handle_advance|]. by apply (IH x).
Qed.
End exec.
(** ** Catching up *)

(** The reconcile that catches up is served by an ideal client [V]. *)
Section recovery.
Context `{!KubeClient V, !KubeIdeal V}.

(** A running cluster: the generation ends up observed. *)
Lemma wp_operator_running specs o (v : V) :
  sysOk req (mkSys (server v) specs) o → revisionUnclaimed o → rs_Primaries (rk_Spec o) ≠ 0 →
  wp (Reconcile r req) v (λ out v', out = (mkResult (ResyncInterval r), None) ∧ ∃ rv st,
    st_redkeys (server v') !! req = Some (withStatus o rv st) ∧ rst_ObservedGeneration st = rk_Generation o).
Proof.
  intros HS Hrev Hp. pose proof (so_key _ _ _ HS) as Hkey.
  assert (Hrun : runnable o 1 (server v)).
  { split; rewrite ?Hkey; [apply HS|done|done|apply HS|by intros d; apply (held_room req o (mkSys (server v) specs) o), held_read]. }
  pose proof (wp_Reconcile r o v) as Hwp. rewrite Hkey in Hwp. apply Hwp; [done|].
  intros v' [_ _ _ _ (active & rv & now & _ & Hst) _]. rewrite Hkey in Hst. split; [done|].
  eexists rv, _. split; [rewrite Hst; apply lookup_insert_eq|done].
Qed.

(** The scale to zero is done: no config is left and the generation is observed. *)
Definition atZero (s : Store) (o : Redkey) : Prop :=
  clusterConfigs req s = [] ∧ rst_Phase (rk_Status o) = PhaseReady ∧
  rst_ObservedGeneration (rk_Status o) = rk_Generation o.

(** The scale to zero is under way: the newest config asks Robin for no primaries. *)
Definition towardsZero (s : Store) : Prop :=
  ∃ c, last (clusterConfigs req s) = Some c ∧ rcs_Primaries (cf_Spec c) = 0.

(** A cluster with no primaries. *)
Lemma wp_operator_zero specs o (v : V) :
  sysOk req (mkSys (server v) specs) o → revisionUnclaimed o → rs_Primaries (rk_Spec o) = 0 →
  wp (Reconcile r req) v (λ out v', out = (mkResult (ResyncInterval r), None) ∧
    ((∃ o', st_redkeys (server v') !! req = Some o' ∧ atZero (server v') o') ∨ towardsZero (server v'))).
Proof.
  intros HS Hrev Hp. pose proof (so_key _ _ _ HS) as Hkey.
  assert (Hz : zeroing o (server v)) by (split; rewrite ?Hkey; [apply HS|done|apply HS]).
  assert (Hsame : ∀ s', st_configs s' = st_configs (server v) → clusterConfigs req s' = clusterConfigs req (server v))
    by (intros s' Hs; unfold clusterConfigs, selected_configs; by rewrite Hs).
  destruct (last (clusterConfigs req (server v))) as [c|] eqn:Hlast.
  - destruct (decide (rcs_Primaries (cf_Spec c) = 0)) as [Hc0|Hc0]; [destruct (isApplied c) eqn:Happ|].
    + pose proof (wp_Reconcile_teardown r o c v) as Hwp. rewrite Hkey in Hwp.
      apply Hwp; [done..|]. intros v' Htd. split; [done|]. left. destruct (td_status _ _ _ Htd) as (rv & now & Hst).
      rewrite Hkey in Hst. eexists. rewrite Hst. split; [apply lookup_insert_eq|]. split; [|done]. rewrite <- Hkey.
      apply (tornDown_configs o (server v) (server v')); [apply server_keyed|done].
    + pose proof (wp_Reconcile_waiting r o c v) as Hwp. rewrite Hkey in Hwp.
      apply Hwp; [done..|]. intros v' active rv now _ Hcfg _. split; [done|]. right. exists c.
      by rewrite Hsame, Hlast by done.
    + pose proof (wp_Reconcile_handover r o c v) as Hwp. rewrite Hkey in Hwp.
      apply Hwp; try done; [by intros d; apply (held_room req o (mkSys (server v) specs) o), held_read|]. intros v' d (Hd & _) _ Hcc _ _. split; [done|].
      right. exists d. rewrite Hcc, last_snoc. split; [done|]. rewrite Hd. by destruct (defaultConfigSpec_topology
        (newConfigSpec (rk_Spec o) (nextSequence (Some c)))) as [-> _].
  - apply last_None in Hlast. pose proof (wp_Reconcile_zeroed r o v) as Hwp.
    rewrite Hkey in Hwp. apply Hwp; [done..|]. intros v' rv now Hs. split; [done|]. left.
    eexists. split; [rewrite Hs; apply lookup_insert_eq|]. split; [|done]. by rewrite Hsame, Hlast by by rewrite Hs.
Qed.

(** It changes neither the spec nor the generation. *)
Lemma wp_operator_keeps specs o (v : V) :
  sysOk req (mkSys (server v) specs) o →
  wp (Reconcile r req) v (λ _ v', ∃ o', st_redkeys (server v') !! req = Some o' ∧
    rk_Spec o' = rk_Spec o ∧ rk_Generation o' = rk_Generation o).
Proof.
  intros HS. pose proof (so_key _ _ _ HS) as Hkey. pose proof (wp_attempted r o v) as Hwp. rewrite Hkey in Hwp.
  eapply wp_mono; [apply Hwp; [apply HS|apply HS|]|].
  { intros d. by apply (held_room req o (mkSys (server v) specs) o), held_read. }
  intros out v' (l & _ & _ & [Hr|[(rv & st & Hr & _) _]]).
  - exists o. rewrite Hr. split; [apply HS|done].
  - rewrite Hkey in Hr. exists (withStatus o rv st). split; [rewrite Hr; apply lookup_insert_eq|done].
Qed.

(** C2: the operator catches up from every reachable state in which no reconcile is
    under way, whatever happened before: edits and reports in the middle of
    reconciles, failed reconciles, crashes.  Once requests go through, nobody
    interferes and the current spec leaves the revision annotation alone, one
    reconcile succeeds and asks for the next one after the resync interval; it changes
    neither spec nor generation.  For a running cluster there is then a newest
    config, it was made from the current spec, and the generation is marked
    observed.  For a cluster scaled to zero the newest config then asks Robin for no
    primaries, or no config is left, the phase is Ready and the generation is marked
    observed. *)
Theorem operator_catches_up (S : Sys) (o o1 : Redkey) (v v' : V) (specs : gmap Z RedkeySpec)
    (out : Result * option error) :
  initial req S o → rtc step (S, None) (mkSys (server v) specs, None) →
  st_redkeys (server v) !! req = Some o1 → revisionUnclaimed o1 →
  exec (Reconcile r req) v = (v', out) →
  out = (mkResult (ResyncInterval r), None) ∧
  ∃ o2, st_redkeys (server v') !! req = Some o2 ∧
    rk_Spec o2 = rk_Spec o1 ∧ rk_Generation o2 = rk_Generation o1 ∧
    (rs_Primaries (rk_Spec o2) = 0 → atZero (server v') o2 ∨ towardsZero (server v')) ∧
    (rs_Primaries (rk_Spec o2) ≠ 0 →
     rst_ObservedGeneration (rk_Status o2) = rk_Generation o2 ∧
     ∃ c, last (clusterConfigs req (server v')) = Some c ∧ configGeneration c = Ok (rk_Generation o2) ∧
       carries (rk_Spec o2) (cf_Spec c)).
Proof.
  intros Hi Hrtc Ho1 Hrev He. pose proof (reachable_inv _ _ (initial_inv S o Hi) Hrtc) as HX.
  pose proof HX as [[o1' HS] _]. cbn [fst] in HS.
  pose proof (so_live _ _ _ HS) as Hlive1. cbn [sy_store] in Hlive1. rewrite Ho1 in Hlive1. injection Hlive1 as <-.
  assert (Hinv' : inv (mkSys (server v') specs, None)).
  { apply (reachable_inv _ _ HX). eapply rtc_l; [apply il_start|]. by apply (exec_steps _ v v' out). }
  destruct Hinv' as [[o2 HS2] _]. cbn [fst] in HS2.
  pose proof (so_live _ _ _ HS2) as Hlive. cbn [sy_store] in Hlive.
  destruct (wp_exec _ _ _ _ _ (wp_operator_keeps specs o1 v HS) He) as (o' & Ho' & Hsp & Hg).
  rewrite Hlive in Ho'. injection Ho' as <-.
  destruct (decide (rs_Primaries (rk_Spec o1) = 0)) as [Hp|Hp].
  - destruct (wp_exec _ _ _ _ _ (wp_operator_zero specs o1 v HS Hrev Hp) He) as [Hout Hz].
    split; [done|]. exists o2. rewrite Hsp. repeat (split; [done|]). split; [intros _|done].
    destruct Hz as [(o' & Ho' & Hz)|Hz]; [left|by right]. rewrite Hlive in Ho'. by injection Ho' as ->.
  - destruct (wp_exec _ _ _ _ _ (wp_operator_running specs o1 v HS Hrev Hp) He) as (Hout & rv & st & Hst & Hob).
    rewrite Hlive in Hst. injection Hst as Heq.
    assert (Hobs : rst_ObservedGeneration (rk_Status o2) = rk_Generation o2) by (by rewrite Hg, Heq).
    destruct (so_settled _ _ _ HS2) as (c & Hc & (Hgen & spec & Hs & Hcs) & Hcur); [done|by rewrite Hsp|].
    split; [done|]. exists o2. repeat (split; [done|]). split; [by rewrite Hsp|]. intros _.
    split; [done|]. exists c. split; [done|]. split; [done|]. rewrite Hs in Hcur. by injection Hcur as ->.
Qed.
End recovery.
End system.

(** ** Witnesses *)

(** The user replaces the spec of the cluster "ns/rk" in a world. *)
Definition editWorld {lag} (o : Redkey) (w : World lag) : World lag :=
  {| w_raw := fake_put KRedkey o (w_raw w); w_ok := fake_put_ok KRedkey o (w_raw w) (w_ok w) |}.

Definition newRedkey : Redkey := sampleRedkey 1 3 false zeroStatus.
Definition newSpecs : gmap Z RedkeySpec := {[1 := rk_Spec newRedkey]}.
Definition newWorld : World false := sampleWorld newRedkey [].

(** The user writes the spec of generation [gen]. *)
Definition writeSpec (gen : Z) (spec : RedkeySpec) (w : World false) : World false :=
  match st_redkeys (server w) !! sampleKey with
  | Some o => editWorld (mkRedkey (sampleMeta gen) spec (rk_Status o)) w
  | None => w
  end.

(** A reconcile puts Robin in place and decides to create the first config; then
    the user scales to five primaries; then the reconcile goes on. *)
Definition scaledSpec : RedkeySpec := sampleSpec 5 false None None.
Definition scaledSpecs : gmap Z RedkeySpec := <[2 := scaledSpec]> newSpecs.
Definition paused : World false * prog (Result * option error) :=
  runFor 10 (Reconcile (H := fake_lib) (mkReconciler 30 1) sampleKey) newWorld.
Definition scaledWorld : World false := writeSpec 2 scaledSpec paused.1.
Definition resumedWorld : World false := (exec paused.2 scaledWorld).1.

(** The first config is there, made from the first spec, and only that is marked
    observed. *)
Lemma resumedWorld_state :
  ((λ c, (seqOf c, configGeneration c, rcs_Primaries (cf_Spec c))) <$> clusterConfigs sampleKey (server resumedWorld),
   (λ o, (rk_Generation o, rst_ObservedGeneration (rk_Status o))) <$> st_redkeys (server resumedWorld) !! sampleKey) =
  ([(1, Ok 1, 3)], Some (2, 1)).
Proof. vm_compute. reflexivity. Qed.

Lemma newWorld_initial : initial sampleKey (mkSys (server newWorld) newSpecs) newRedkey.
Proof.
  split; try done.
  apply configsOk_empty; [apply server_keyed|done].
Qed.

Lemma newWorld_paused : rtc (step (H := fake_lib) (mkReconciler 30 1) sampleKey)
  (mkSys (server newWorld) newSpecs, None) (mkSys (server paused.1) newSpecs, Some paused.2).
Proof.
  eapply rtc_l; [apply il_start|].
  exact (runFor_steps (mkReconciler 30 1) sampleKey 10 (Reconcile (mkReconciler 30 1) sampleKey) newWorld newSpecs).
Qed.

Lemma paused_scaled : envStep sampleKey (mkSys (server paused.1) newSpecs) (mkSys (server scaledWorld) scaledSpecs).
Proof.
  assert (Hq : (λ o, (admitsUpdate (storedRedkey o) (encodeSpec scaledSpec), om_key (rk_Meta o), rk_Generation o, rk_Spec o)) <$>
    st_redkeys (server paused.1) !! sampleKey = Some (true, sampleKey, 1, rk_Spec newRedkey)) by (vm_compute; reflexivity).
  unfold scaledWorld, writeSpec. destruct (st_redkeys (server paused.1) !! sampleKey) as [o|] eqn:Ho; [|done].
  injection Hq as H1 H2 H3 H4 H5.
  refine (env_user sampleKey (server paused.1) newSpecs o
    (set_om_ResourceVersion (next_rv (w_raw paused.1)) (sampleMeta 2)) scaledSpec Ho _).
  split; simpl.
  - exists (storedRedkey o), (encodeSpec scaledSpec). split; [|done]. apply decode_stored. by rewrite H5.
  - unfold om_key. simpl. by rewrite H2, H3.
  - left. by rewrite H4.
  - done.
Qed.

Lemma paused_resumed : rtc (step (H := fake_lib) (mkReconciler 30 1) sampleKey)
  (mkSys (server paused.1) newSpecs, Some paused.2) (mkSys (server resumedWorld) scaledSpecs, None).
Proof.
  eapply rtc_l; [apply il_others, paused_scaled|].
  exact (exec_steps (mkReconciler 30 1) sampleKey paused.2 scaledWorld resumedWorld _ scaledSpecs (surjective_pairing _)).
Qed.

Lemma configs_snapshot_generations_witness :
  let S1 := mkSys (server paused.1) newSpecs in
  let S2 := mkSys (server resumedWorld) scaledSpecs in
  size (sy_specs S2) = 2%nat ∧ sy_specs S1 ⊆ sy_specs S2.
Proof.
  intros S1 S2. split; [vm_compute; reflexivity|].
  destruct (configs_snapshot_generations (H := fake_lib) (mkReconciler 30 1) sampleKey
    (mkSys (server newWorld) newSpecs) S1 S2 newRedkey (Some paused.2) None newWorld_initial
    newWorld_paused paused_resumed) as [Hs _].
  exact Hs.
Defined.

Lemma operator_catches_up_witness :
  let w' := (exec (Reconcile (H := fake_lib) (mkReconciler 30 1) sampleKey) resumedWorld).1 in
  length (clusterConfigs sampleKey (server w')) = 2%nat ∧
  ∃ o c, st_redkeys (server w') !! sampleKey = Some o ∧ last (clusterConfigs sampleKey (server w')) = Some c ∧
    carries (rk_Spec o) (cf_Spec c).
Proof.
  intros w'. split; [vm_compute; reflexivity|].
  assert (Hq : (λ o, (rs_Primaries (rk_Spec o), rs_Annotations (rk_Spec o))) <$>
    st_redkeys (server resumedWorld) !! sampleKey = Some (5, None)) by (vm_compute; reflexivity).
  destruct (st_redkeys (server resumedWorld) !! sampleKey) as [o1|] eqn:Ho1; [|discriminate]. injection Hq as Hp Ha.
  assert (Hrev : revisionUnclaimed o1) by (intros [v Hv]; rewrite Ha in Hv; discriminate Hv).
  destruct (operator_catches_up (H := fake_lib) (V := World false) (mkReconciler 30 1) sampleKey
    (mkSys (server newWorld) newSpecs) newRedkey o1 resumedWorld w' scaledSpecs _ newWorld_initial
    (transitivity newWorld_paused paused_resumed) Ho1 Hrev
    (surjective_pairing (exec (Reconcile (mkReconciler 30 1) sampleKey) resumedWorld)))
    as (_ & o2 & H2 & Hsp & _ & _ & H3).
  destruct H3 as (_ & c & Hc & _ & Hcar); [rewrite Hsp, Hp; discriminate|].
  exists o2, c. exact (conj H2 (conj Hc Hcar)).
Defined.

(** ** Sequences over a scale to zero *)

Definition reconcileSample (w : World false) : World false :=
  (exec (Reconcile (H := fake_lib) (mkReconciler 30 1) sampleKey) w).1.

(** Robin reports the newest config applied. *)
Definition robinReports (w : World false) : World false :=
  match last (clusterConfigs sampleKey (server w)) with
  | Some c => reportConfig (reportedOn (next_rv (w_raw w))
      (mkRedkeyConfigStatus ConfigPhaseApplied ClusterStatusReady (mkRedkeySubstatus "" 0) None [] None 0) c) w
  | None => w
  end.

Definition namesAndGenerations (w : World false) : list (string * Z * res NumError Z) :=
  (λ c, (om_Name (cf_Meta c), seqOf c, configGeneration c)) <$> clusterConfigs sampleKey (server w).

(** Sequences restart.  A config's sequence and name follow from the configs that
    exist, and a completed scale to zero leaves none: scaled up again, the same
    cluster gets a config with the sequence and the name of its first one, for a
    later generation. *)
Theorem sequence_restarts :
  let w1 := reconcileSample newWorld in
  let w2 := reconcileSample (writeSpec 2 (sampleSpec 0 false None None) w1) in
  let w3 := reconcileSample (robinReports w2) in
  let w4 := reconcileSample (writeSpec 3 (sampleSpec 3 false None None) w3) in
  namesAndGenerations <$> [w1; w2; w3; w4] =
    [[("rk-1", 1, Ok 1)]; [("rk-1", 1, Ok 1); ("rk-2", 2, Ok 2)]; []; [("rk-1", 1, Ok 3)]].
Proof. vm_compute. reflexivity. Qed.

(** The access modes of the volumes stay with the operator: two specs that differ
    in nothing else give the same config. *)
Lemma accessModes_not_handed_over (s : RedkeySpec) (modes : list string) (n : Z) :
  newConfigSpec (mkRedkeySpec (rs_Auth s) (rs_Version s) (rs_Mode s) (rs_Primaries s) (rs_ReplicasPerPrimary s)
    (rs_Image s) (rs_DeletePVC s) (rs_Backup s) (rs_Robin s) (rs_SkipIfSuperseded s) (rs_PurgeKeysOnRebalance s)
    (rs_Config s) (rs_Resources s) (rs_Labels s) (rs_Annotations s) (rs_Pdb s) (rs_Override s) (rs_Ephemeral s)
    (rs_Storage s) (rs_StorageClassName s) modes) n = newConfigSpec s n.
Proof. done. Qed.
