(* ===== verification/Departing.v ===== *)
(** * Reconciles of a cluster that goes away

    The Redkey of a cluster may be deleted, and its dependents garbage collected,
    while a reconcile of it is under way.  Whatever then happens to the Redkey and
    however the configs dwindle, the rest of the reconcile touches nothing but what
    belongs to its cluster and keeps the configs named as they should be.  This is
    a third instance of the logic of Interleaving.v, with assertions weak enough to
    survive the deletion. *)

From S2P Require Import Prelude GoLib K8s Types Effects Client Logic FakeCluster.
From S2P Require Import Robin Config Metrics ScaleZero Controller Samples RobinProofs ConfigProofs.
From S2P Require Import ConfigStore Footprint ControllerProofs Failing ScaleZeroProofs Validation.
From S2P Require Import Life Interleaving.
Local Open Scope Z_scope.

Section departing.
Context `{K8sLib, !K8sLaws}.
Context (r : RedkeyReconciler) (req : NamespacedName).

(** ** The API server of a cluster that may be deleted *)

(** The Redkey changes, comes or goes; configs are reported on or deleted, but only
    the operator makes new ones. *)
Record dwindles (s s' : Store) : Prop := {
  dw_configs : configsOk req s';
  dw_sequences : ∀ c', c' ∈ clusterConfigs req s' → ∃ c, c ∈ clusterConfigs req s ∧ sameConfig c c';
}.

(** Changes to what belongs to the cluster, which do not bring its Redkey back. *)
Definition minds (s s' : Store) : Prop :=
  mine req s s' ∧ (st_redkeys s !! req = None → st_redkeys s' !! req = None).

Lemma minds_configs s s' : mine req s s' → st_redkeys s' = st_redkeys s → minds s s'.
Proof. intros Hm Hr. split; [done|]. by rewrite Hr. Qed.

#[local] Instance loose_interleaved : Interleaved Store := {
  others := dwindles;
  serve T q s x s' := contract q s s x s';
  orderly := configsOk req;
  guarantee := minds;
}.

Lemma dwindles_same s s' : configsOk req s → keyed s' → st_configs s' = st_configs s → dwindles s s'.
Proof.
  intros Hok Hk Hc. split; [by apply (configsOk_frame req s)|]. intros c' Hc'. exists c'. split; [|done].
  unfold clusterConfigs, selected_configs in *. by rewrite <- Hc.
Qed.

#[local] Instance loose_laws : InterleavedLaws Store.
Proof.
  split; [by intros s s' _ []|]. intros T q s x s' Hok Hq Hc.
  pose proof (contract_keyed q s s x s' (co_keyed _ _ Hok) Hc) as Hk.
  pose proof (contract_spares q s s x s' Hq Hc) as Hsame.
  split; [by apply dwindles_same; [| |apply Hsame]|by apply minds_configs; [apply mine_same|apply Hsame]].
Qed.

#[local] Instance configsOk_stable : Stable (configsOk req) := orderly_stable.

(** The steps of the other actors. *)
Lemma dwindles_elsewhere s s' : configsOk req s → elsewhere req s s' → dwindles s s'.
Proof.
  intros Hok He. destruct (elsewhere_configs req s s' Hok He) as [Hok' Hcc].
  split; [done|]. intros c'. rewrite Hcc. by exists c'.
Qed.

Lemma dwindles_robin s c rv st :
  configsOk req s → c ∈ clusterConfigs req s →
  dwindles s (sput KRedkeyConfig (cf_key c) (reportedOn rv st c) s).
Proof.
  intros Hok Hc. apply list_elem_of_split in Hc as (l1 & l2 & Hl).
  destruct (clusterConfigs_update req s c (reportedOn rv st c) l1 l2) as [Hok' Hcc]; [done..|].
  split; [done|]. intros c'. rewrite Hcc, Hl. setoid_rewrite elem_of_app. setoid_rewrite elem_of_cons.
  intros [Hin|[->|Hin]]; [exists c'|exists c|exists c']; (split; [by auto|done || apply sameConfig_reported]).
Qed.

Lemma dwindles_pruned s s' keys : configsOk req s → keyed s' → pruned keys s s' → dwindles s s'.
Proof.
  intros Hok Hk Hp. destruct (clusterConfigs_pruned req keys s s' Hok Hk Hp) as (Hok' & Hsub & _).
  split; [done|]. intros c' Hc'. exists c'. split; [|done]. by eapply elem_of_sublist.
Qed.

Lemma dwindles_trans s1 s2 s3 : dwindles s1 s2 → dwindles s2 s3 → dwindles s1 s3.
Proof.
  intros [_ H12] [Hok H23]. split; [done|]. intros c3 (c2 & Hc2 & Hs23)%H23.
  destruct (H12 c2 Hc2) as (c1 & Hc1 & Hs12). exists c1. split; [done|]. by etrans.
Qed.

(** ** What the reconcile relies on *)

(** There is room for one more sequence number. *)
Definition Room (s : Store) : Prop :=
  configsOk req s ∧ ∀ c, c ∈ clusterConfigs req s → seqOf c < 2 ^ 63 - 1.

#[local] Instance Room_stable : Stable Room.
Proof.
  split; [by intros s []|]. intros s s' [Hok Hmax] [Hok' Hsub]. split; [done|].
  intros c' (c & Hc & Heq%sameConfig_spec)%Hsub. rewrite Heq. auto.
Qed.

(** The configs as listed at some moment. *)
Record listedOnce (l : list RedkeyConfig) : Prop := {
  lo_ours : Forall (λ c, ours req (cf_key c)) l;
  lo_next : 1 ≤ nextSequence (last l);
}.

Lemma during_listConfigs cl (P : Store → Prop) `{!Stable P} (Q : res error (list RedkeyConfig) → Store → Prop) s :
  key_of KRedkey cl = req → P s →
  (∀ s1 l, P s1 → Forall (λ c, ours req (cf_key c)) l → (Room s1 → listedOnce l) → Q (Ok l) s1) →
  (∀ s1 e, P s1 → Q (Err e) s1) → during (listConfigs cl) Q s.
Proof.
  intros Hkey HP HQ1 HQ2. apply during_go_bind, (during_look _ P); [done|done|].
  intros s1 x s' H1 [-> Hl] _. destruct x as [l|e]; [|by apply HQ2].
  pose proof (stable_orderly s1 H1) as Hok. simpl in Hok. rewrite <- Hkey in Hok.
  rewrite (selected_perm_sorted _ _ l Hok Hl), Hkey in *.
  assert (Hours : Forall (λ c, ours req (cf_key c)) (clusterConfigs req s1)).
  { apply Forall_forall. intros d Hd. by apply (clusterConfigs_ours req s1). }
  apply during_ret, HQ1; [done|done|]. intros [_ Hmax]. split; [done|].
  by destruct (nextSequence_fresh req s1 Hok Hmax) as [Hpos _].
Qed.

Lemma during_createNewConfig cl highest (Q : res error unit → Store → Prop) s :
  key_of KRedkey cl = req → 1 ≤ nextSequence highest → configsOk req s →
  (∀ s1 x, configsOk req s1 → Q x s1) → during (createNewConfig cl highest) Q s.
Proof.
  intros Hcl Hpos Hok HQ. unfold createNewConfig. set (n := nextSequence highest) in *.
  destruct (newConfig_owner cl n) as [refs ->].
  apply during_bind, (during_call _ orderly); [done|]. intros s1 x s' Hok1 Hc. simpl in Hok1.
  destruct x as [[]|e].
  - destruct Hc as (Hnone & c & (Hmeta & Hspec & Hst) & ->).
    assert (Hc : createdFor cl n c).
    { split; [done|]. split; [done|]. destruct Hmeta as (G1 & G2 & G3 & G4 & _).
      exact (conj G1 (conj G2 (conj G3 (conj G4 eq_refl)))). }
    pose proof (createdFor_stored cl n c Hc) as Hsc. rewrite Hcl in Hsc. pose proof Hsc as (Hck & Hsel & _).
    assert (Hkey : key_of KRedkeyConfig (set_cf_Meta (set_om_OwnerReferences refs (cf_Meta (newConfig cl n)))
        (newConfig cl n)) = cf_key c) by (rewrite Hck, <- Hcl; done).
    rewrite Hkey in *. assert (Hok2 : configsOk req (sput KRedkeyConfig (cf_key c) c s1)) by by eapply configsOk_create.
    split; [done|]. split; [apply minds_configs; [apply mine_put; [apply Hok1|by exists n|done]|done]|].
    apply during_bind. eapply during_mono; [by apply (during_spares _ orderly)|]. intros [] s2 Hs2. by apply during_ret, HQ.
  - destruct Hc as [-> _]. split; [done|]. split; [by apply minds_configs; [apply mine_same; [apply Hok1|]|]|].
    case_match; by apply during_ret, HQ.
Qed.

Lemma loose_deletable key : ours req key → deletable (configsOk req) key.
Proof.
  intros Hours s Hs. apply (during_call _ orderly); [done|]. intros s1 x s' Hok1 Hc. simpl in Hok1.
  pose proof (contract_keyed _ _ _ _ _ (co_keyed _ _ Hok1) Hc) as Hk'. destruct x as [[]|e].
  - destruct Hc as [_ ->]. pose proof (dwindles_pruned s1 _ [key] Hok1 Hk' (pruned_sdel key s1)) as [Hok' _].
    split; [done|]. split; [|done]. apply minds_configs; [apply mine_del; [apply Hok1|done]|done].
  - destruct Hc as [-> _]. split; [done|]. split; [|done]. by apply minds_configs; [apply mine_same|].
Qed.

Lemma loose_publishable cl : key_of KRedkey cl = req → publishable cl (configsOk req).
Proof.
  intros Hcl. split; rewrite Hcl.
  - intros s Hs. apply (during_look _ orderly); [done|done|]. intros s1 x s' H1 [-> Hx] _. split; [done|].
    destruct x as [latest|e]; [|done]. by apply (co_keyed _ _ H1 KRedkey).
  - intros latest st s Hs Hkey _. apply (during_call _ orderly); [done|]. intros s1 x s' H1 Hc. simpl in H1.
    pose proof (contract_keyed _ _ _ _ _ (co_keyed _ _ H1) Hc) as Hk'.
    destruct x as [o'|e]; [|simpl in Hc; subst; split; [done|]; split; [by apply minds_configs; [apply mine_same|]|done]].
    destruct Hc as (cur & rv & Hcur & _ & -> & ->).
    change (key_of KRedkey (set_rk_Status st latest)) with (key_of KRedkey latest) in *. rewrite Hkey in *.
    assert (Hok' : configsOk req (sput KRedkey req (withStatus cur rv st) s1))
      by by apply (configsOk_frame req s1).
    split; [exact Hok'|]. split; [|exact Hok'].
    split; [apply mine_redkey; [exact Hk'|intros key Hne; by apply lookup_insert_ne|done]|].
    intros Hnone. discriminate (eq_trans (eq_sym Hnone) Hcur).
Qed.

(** ** A whole reconcile *)

Lemma loose_finish cl l s :
  key_of KRedkey cl = req → Forall (λ c, ours req (cf_key c)) l → configsOk req s →
  during (finishReconcile r cl l) (λ _, configsOk req) s.
Proof.
  intros Hcl Hl Hs. apply (during_finish (configsOk req)); [by apply loose_publishable| |done].
  intros i _. apply Forall_fmap. eapply Forall_impl; [by apply Forall_take|]. intros c. apply loose_deletable.
Qed.

Lemma loose_running cl s :
  key_of KRedkey cl = req → Room s →
  during (at_stage "ensure_rbac" (ensureRBAC cl) (λ _,
      at_stage "ensure_robin_deployment" (ensureRobinDeployment cl) (λ _,
      at_stage "list_configs" (listConfigs cl) (λ configs,
        if bool_decide (length configs = 0%nat) || needsNewConfig cl (last configs) then
          at_stage "create_new_config" (createNewConfig cl (last configs)) (λ _,
          at_stage "list_configs" (listConfigs cl) (λ configs, finishReconcile r cl configs))
        else finishReconcile r cl configs)))) (λ _, configsOk req) s.
Proof.
  intros Hcl Hs. destruct (spares_ensureRobin cl) as [Hrbac Hdep].
  apply (during_stage _ _ _ (configsOk req)). eapply during_mono; [by apply (during_spares _ Room)|].
  intros [[]|e] s1 Hs1; [|apply Hs1]. apply (during_stage _ _ _ (configsOk req)).
  eapply during_mono; [by apply (during_spares _ Room)|]. intros [[]|e] s2 Hs2; [|apply Hs2].
  apply (during_stage _ _ _ (configsOk req)), (during_listConfigs cl Room); [done|done| |by intros s3 e []].
  intros s3 l Hs3 Hours Hl. destruct (Hl Hs3) as [_ Hpos]. destruct Hs3 as [Hok3 _].
  case_match; [|by apply loose_finish].
  apply (during_stage _ _ _ (configsOk req)), (during_createNewConfig cl); [done|done|done|].
  intros s4 [[]|e] Hs4; [|done].
  apply (during_stage _ _ _ (configsOk req)), (during_listConfigs cl (configsOk req)); [done|done| |done].
  intros s5 l5 Hs5 Hours5 _. by apply loose_finish.
Qed.

Lemma loose_teardown cl resync s :
  key_of KRedkey cl = req → configsOk req s →
  during (deleteRobinDeployment cl ;;; deleteRBAC cl ;;; deleteAllConfigs cl ;;;
    (cluster' ⇐ updateStatusScaledToZero cl; mret (Ok (mkResult resync, cluster')))) (λ _, configsOk req) s.
Proof.
  intros Hcl Hs. destruct (spares_teardown cl) as [Hdep Hrbac].
  apply (during_robin _ _ (configsOk req)); [done|done| |done]. intros _ s1 Hs1.
  apply (during_robin _ _ (configsOk req)); [done|done| |done]. intros _ s2 Hs2.
  apply during_go_bind, during_go_bind, during_wrap_err, (during_look _ (configsOk req)); [done|done|].
  intros s3 x s' Hs3 [-> Hl] _. destruct x as [items|e]; [|done].
  assert (Hours : Forall (deletable (configsOk req)) (cf_key <$> items)).
  { apply Forall_fmap, Forall_forall. intros d Hd. apply loose_deletable, (clusterConfigs_ours req s3); [done|].
    unfold clusterConfigs, sortConfigs. rewrite sort_slice_perm, <- Hcl. by rewrite Hl in Hd. }
  eapply during_mono; [by apply (during_deleteEach (configsOk req))|]. intros [[]|e] s4 Hs4; [|done].
  apply during_go_bind. eapply during_mono; [by apply (during_scaledToZero (configsOk req)); [apply loose_publishable|]|].
  by intros [cl'|e] s5 Hs5.
Qed.

Lemma loose_scaleToZero cl resync s :
  key_of KRedkey cl = req → Room s →
  during (reconcileScaleToZero resync cl) (λ _, configsOk req) s.
Proof.
  intros Hcl Hs. destruct (spares_ensureRobin cl) as [Hrbac Hdep].
  pose proof (loose_publishable cl Hcl) as Hpub.
  apply during_go_bind, (during_listConfigs cl Room); [done|done| |by intros s1 e []].
  intros s1 l Hs1 Hours Hl. destruct (Hl Hs1) as [_ Hpos]. destruct Hs1 as [Hok1 _].
  destruct (last l) as [c|]; last first.
  { apply during_go_bind. eapply during_mono; [by apply (during_scaledToZero (configsOk req))|]. by intros [cl'|e] s2. }
  case_match; [|case_match; [by apply loose_teardown|]].
  - apply (during_robin _ _ (configsOk req)); [done|done| |done]. intros _ s2 Hs2.
    apply (during_robin _ _ (configsOk req)); [done|done| |done]. intros _ s3 Hs3.
    apply during_go_bind, (during_createNewConfig cl); [done|done|done|]. by intros s4 [[]|e] Hs4.
  - apply (during_robin _ _ (configsOk req)); [done|done| |done]. intros _ s2 Hs2.
    apply (during_robin _ _ (configsOk req)); [done|done| |done]. intros _ s3 Hs3.
    apply during_go_bind. eapply during_mono; [by apply (during_aggregate (configsOk req))|]. by intros [cl'|e] s4.
Qed.

(** What a reconcile does when it finds no Redkey. *)
Lemma spares_gone e :
  all_calls spares (if IsNotFound e then deleteRedkeyMetrics req ≫= λ _, mret (mkResult 0, @None error)
    else stageError "get_cluster" e).
Proof. destruct (IsNotFound e); [|done]. unfold deleteRedkeyMetrics, opTracker_forget, readyTracker_forget. simpl. repeat split. Qed.

(** Whatever becomes of the Redkey and its configs. *)
Lemma loose_Reconcile s : Room s → during (Reconcile r req) (λ _, configsOk req) s.
Proof.
  intros Hs. apply during_bind, (during_look _ Room); [done|done|].
  intros s1 x s' Hs1 [-> Hx] _. destruct x as [cl|e].
  - assert (Hcl : key_of KRedkey cl = req) by by apply (co_keyed _ _ (proj1 Hs1) KRedkey).
    case_bool_decide as Hp; [|by apply loose_running].
    apply (during_stage _ _ _ (configsOk req)). eapply during_mono; [by apply loose_scaleToZero|].
    intros [[res cl']|e] s2 Hs2; [|done]. by apply (during_metrics (configsOk req)).
  - apply (during_spares _ (configsOk req)); [apply spares_gone|apply Hs1].
Qed.
End departing.
