(* ===== verification/Fleet.v ===== *)
(** * Many clusters at once

    All Redkeys live in one store, and their reconciles run side by side, each
    interleaved with all the others request by request; clusters come and go.  For each
    cluster the rest is one of the other actors of System.v: what the operator does for
    one cluster ([mine]) is elsewhere for any other ([mine_elsewhere]), so every run of
    the fleet, seen from one live cluster, is a run of System.v.  A reconcile that is
    under way when its Redkey is deleted goes on in the logic of Departing.v. *)

From S2P Require Import Prelude GoLib K8s Types Effects Client Logic FakeCluster.
From S2P Require Import Robin Config Metrics ScaleZero Controller Samples RobinProofs ConfigProofs.
From S2P Require Import ConfigStore ControllerProofs Failing ScaleZeroProofs Validation.
From S2P Require Import Life Interleaving Reconciling System Departing.
Local Open Scope Z_scope.

Section fleet.
Context `{K8sLib, !K8sLaws}.
Context (r : RedkeyReconciler).

#[local] Existing Instance configsOk_stable.
#[local] Existing Instance loose_laws.

(** ** The transition system *)

(** A cluster with the spec the user wrote at each generation, or one that has been
    deleted. *)
Inductive Cluster :=
| Live (h : gmap Z RedkeySpec)
| Deleted.

(** The store; the clusters; the reconciles under way, at most one for each. *)
Record Fleet := mkFleet {
  fl_store : Store;
  fl_clusters : gmap NamespacedName Cluster;
  fl_running : gmap NamespacedName (prog (Result * option error));
}.

(** The next request of a program is answered from the store as it is. *)
Definition requested (s : Store) (p : prog (Result * option error)) (s' : Store)
    (p' : prog (Result * option error)) : Prop :=
  match p with
  | Ret _ => False
  | Call q k => ∃ x, contract q s s x s' ∧ p' = k x
  end.

(** The user creates a cluster, edits its spec or deletes its Redkey; Robin reports on
    a config; the garbage collector removes a config of a deleted cluster; anything
    else changes; a reconcile starts, sends a request, or stops.  A cluster may be
    created again under its name once no reconcile of it is under way and its configs
    are gone. *)
Inductive fleetStep : Fleet → Fleet → Prop :=
| fs_create s cs run key o :
    (∀ h, cs !! key ≠ Some (Live h)) → run !! key = None →
    initial key (mkSys (sput KRedkey key o s) {[1 := rk_Spec o]}) o →
    fleetStep (mkFleet s cs run) (mkFleet (sput KRedkey key o s) (<[key := Live {[1 := rk_Spec o]}]> cs) run)
| fs_user s cs run key h o m spec :
    cs !! key = Some (Live h) → st_redkeys s !! key = Some o → userWrite o m spec →
    fleetStep (mkFleet s cs run)
      (mkFleet (sput KRedkey key (mkRedkey m spec (rk_Status o)) s) (<[key := Live (<[om_Generation m := spec]> h)]> cs) run)
| fs_delete s cs run key h :
    cs !! key = Some (Live h) →
    fleetStep (mkFleet s cs run) (mkFleet (sdel KRedkey key s) (<[key := Deleted]> cs) run)
| fs_robin s cs run key c rv st :
    is_Some (cs !! key) → c ∈ clusterConfigs key s →
    fleetStep (mkFleet s cs run)
      (mkFleet (sput KRedkeyConfig (cf_key c) (reportedOn rv st c) s) cs run)
| fs_collect s cs run key c :
    cs !! key = Some Deleted → c ∈ clusterConfigs key s →
    fleetStep (mkFleet s cs run) (mkFleet (sdel KRedkeyConfig (cf_key c) s) cs run)
| fs_other s s' cs run :
    (∀ key, is_Some (cs !! key) → elsewhere key s s') → fleetStep (mkFleet s cs run) (mkFleet s' cs run)
| fs_start s cs run key :
    is_Some (cs !! key) → run !! key = None →
    fleetStep (mkFleet s cs run) (mkFleet s cs (<[key := Reconcile r key]> run))
| fs_request s s' cs run key p p' :
    run !! key = Some p → requested s p s' p' →
    fleetStep (mkFleet s cs run) (mkFleet s' cs (<[key := p']> run))
| fs_stop s cs run key p :
    run !! key = Some p → fleetStep (mkFleet s cs run) (mkFleet s cs (delete key run)).

(** ** One cluster of the fleet *)

(** Some run of System.v leads there. *)
Definition reached (key : NamespacedName) (X : Sys * Operator) : Prop :=
  ∃ S o, initial key S o ∧ rtc (step r key) (S, None) X.

(** Whatever becomes of the Redkey, the rest [p] of a reconcile minds its own. *)
Definition loosely (key : NamespacedName) (p : prog (Result * option error)) (s : Store) : Prop :=
  during (H := loose_interleaved key) p (λ _, configsOk key) s.

(** What holds of one cluster, with the reconcile under way for it. *)
Definition clusterOk (key : NamespacedName) (s : Store) (c : option Cluster) (p : Operator) : Prop :=
  match c with
  | Some (Live h) => reached key (mkSys s h, p) ∧ ∀ q, p = Some q → loosely key q s
  | Some Deleted => st_redkeys s !! key = None ∧ configsOk key s ∧
      ∀ q, p = Some q → q = Reconcile r key ∨ loosely key q s
  | None => p = None
  end.

Definition fleetOk (F : Fleet) : Prop :=
  ∀ key, clusterOk key (fl_store F) (fl_clusters F !! key) (fl_running F !! key).

Lemma reached_ok key S p : reached key (S, p) → ∃ o, sysOk key S o.
Proof.
  intros (S0 & o & Hi & Hrtc).
  by destruct (reachable_inv r key _ _ (initial_inv key S0 o Hi) Hrtc) as [HS _].
Qed.

Lemma reached_configs key S p : reached key (S, p) → configsOk key (sy_store S).
Proof. intros [o HS]%reached_ok. exact (so_configs _ _ _ HS). Qed.

Lemma reached_room key S p : reached key (S, p) → Room key (sy_store S).
Proof.
  intros [o HS]%reached_ok. split; [exact (so_configs _ _ _ HS)|]. intros c Hc.
  apply (held_room key o S o c); [|done]. by apply held_read.
Qed.

Lemma reached_step key X Y : reached key X → step r key X Y → reached key Y.
Proof. intros (S & o & Hi & Hrtc) Hstep. exists S, o. split; [done|]. by eapply rtc_r. Qed.

Lemma reached_env key S S' p : reached key (S, p) → envStep key S S' → reached key (S', p).
Proof. intros Hr Hstep. eapply reached_step; [exact Hr|]. by apply (il_others (H := fresh_interleaved key)). Qed.

Lemma clusterOk_configs key s c p : clusterOk key s (Some c) p → configsOk key s.
Proof. destruct c as [h|]; [intros [Hr _]; exact (reached_configs _ _ _ Hr)|by intros (_ & Hok & _)]. Qed.

Lemma loosely_dwindles key p s s' : loosely key p s → dwindles key s s' → loosely key p s'.
Proof. apply (during_others (H := loose_interleaved key) p (λ _, configsOk key)). Qed.

(** ** Steps *)

(** A step of the cluster's own user or Robin. *)
Lemma clusterOk_env key s s' h h' p :
  clusterOk key s (Some (Live h)) p → envStep key (mkSys s h) (mkSys s' h') → dwindles key s s' →
  clusterOk key s' (Some (Live h')) p.
Proof.
  intros [Hr Hl] Hstep Hd. split; [by eapply reached_env|]. intros q Hq. by eapply loosely_dwindles; [apply Hl|].
Qed.

(** The configs of a deleted cluster dwindle. *)
Lemma clusterOk_gone key s s' p :
  clusterOk key s (Some Deleted) p → dwindles key s s' → st_redkeys s' !! key = None →
  clusterOk key s' (Some Deleted) p.
Proof.
  intros (Hn & Hok & Hp) Hd Hn'. split; [done|]. split; [apply Hd|].
  intros q Hq. destruct (Hp q Hq) as [->|Hl]; [by left|right]. by eapply loosely_dwindles.
Qed.

(** A step elsewhere. *)
Lemma clusterOk_elsewhere key s s' c p :
  clusterOk key s c p → (is_Some c → elsewhere key s s') → clusterOk key s' c p.
Proof.
  intros Hc He. destruct c as [[h|]|]; [| |done]; specialize (He ltac:(by eexists));
    pose proof (dwindles_elsewhere key s s' (clusterOk_configs _ _ _ _ Hc) He) as Hd.
  - eapply clusterOk_env; [done|by apply env_other|done].
  - apply (clusterOk_gone key s); [done|done|]. rewrite (el_redkey _ _ _ He). apply Hc.
Qed.

(** The Redkey goes. *)
Lemma clusterOk_delete key s h p :
  clusterOk key s (Some (Live h)) p → clusterOk key (sdel KRedkey key s) (Some Deleted) p.
Proof.
  intros Hc. pose proof (clusterOk_configs _ _ _ _ Hc) as Hok. destruct Hc as [_ Hl].
  assert (Hd : dwindles key s (sdel KRedkey key s)) by (apply dwindles_same; [done|by apply sdel_keyed, Hok|done]).
  split; [apply lookup_delete_eq|]. split; [apply Hd|]. intros q Hq. right. by eapply loosely_dwindles; [apply Hl|].
Qed.

(** A reconcile starts. *)
Lemma clusterOk_start key s c :
  clusterOk key s (Some c) None → clusterOk key s (Some c) (Some (Reconcile r key)).
Proof.
  intros Hc. destruct c as [h|].
  - destruct Hc as [Hr _]. split.
    + eapply reached_step; [exact Hr|]. apply (il_start (H := fresh_interleaved key)).
    + intros q [= <-]. by apply loose_Reconcile, (reached_room key (mkSys s h) None).
  - destruct Hc as (Hn & Hok & _). split; [done|]. split; [done|]. intros q [= <-]. by left.
Qed.

Lemma clusterOk_stop key s c p : clusterOk key s (Some c) (Some p) → clusterOk key s (Some c) None.
Proof.
  destruct c as [h|].
  - intros [Hr _]. split; [|done]. eapply reached_step; [exact Hr|]. apply (il_stop (H := fresh_interleaved key)).
  - intros (Hn & Hok & _). done.
Qed.

(** Without its Redkey, a reconcile that starts finds nothing to do. *)
Lemma requested_gone key s s' p' :
  st_redkeys s !! key = None → requested s (Reconcile r key) s' p' → s' = s ∧ all_calls spares p'.
Proof.
  intros Hn (x & [-> Hx] & ->). split; [done|]. destruct x as [cl|e]; [|apply spares_gone].
  discriminate (eq_trans (eq_sym Hn) Hx).
Qed.

Lemma requested_loosely key s p s' p' :
  loosely key p s → requested s p s' p' → configsOk key s' ∧ minds key s s' ∧ loosely key p' s'.
Proof. intros Hl Hq. apply (during_advance (H := loose_interleaved key) p p' _ s s' Hl). by destruct p. Qed.

(** A request. *)
Lemma clusterOk_request key s s' c p p' :
  clusterOk key s (Some c) (Some p) → requested s p s' p' →
  mine key s s' ∧ clusterOk key s' (Some c) (Some p').
Proof.
  intros Hc Hq. destruct c as [h|].
  - destruct Hc as [Hr Hl]. destruct (requested_loosely key s p s' p' (Hl p eq_refl) Hq) as (Hok' & [Hm _] & Hl').
    split; [done|]. split; [|by intros q [= <-]]. eapply reached_step; [exact Hr|].
    apply (il_request (H := fresh_interleaved key)). destruct p as [a|T q k]; [done|].
    destruct Hq as (x & Hx & ->). exists x. split; [|done]. by exists s'.
  - destruct Hc as (Hn & Hok & Hp). destruct (Hp p eq_refl) as [->|Hl].
    + destruct (requested_gone key s s' p' Hn Hq) as [-> Hsp]. split; [by apply mine_same; [apply Hok|]|].
      split; [done|]. split; [done|]. intros q [= <-]. right.
      by apply (during_spares (H := loose_interleaved key) p' (configsOk key)).
    + destruct (requested_loosely key s p s' p' Hl Hq) as (Hok' & [Hm Hn'] & Hl').
      split; [done|]. split; [by apply Hn'|]. split; [done|]. intros q [= <-]. by right.
Qed.

(** What one cluster does to its own is elsewhere for the others. *)
Lemma clusterOk_others key key' s s' c' p' :
  key ≠ key' → configsOk key s → mine key s s' → clusterOk key' s c' p' → clusterOk key' s' c' p'.
Proof.
  intros Hne Hok Hm Hc'. apply (clusterOk_elsewhere key' s); [done|]. intros [d ->].
  by apply (mine_elsewhere key); [| |by eapply clusterOk_configs|].
Qed.

(** Changes to the Redkey of a cluster, seen from another. *)
Lemma mine_insert key s o : keyed s → key_of KRedkey o = key → mine key s (sput KRedkey key o s).
Proof.
  intros Hk <-. apply mine_redkey; [by apply (sput_keyed KRedkey o)| |done]. intros key' Hne. by apply lookup_insert_ne.
Qed.

Lemma mine_remove key s : keyed s → mine key s (sdel KRedkey key s).
Proof.
  intros Hk. apply mine_redkey; [by apply sdel_keyed| |done]. intros key' Hne. by apply lookup_delete_ne.
Qed.

(** Reports on a config of a cluster, and its removal. *)
Lemma mine_robin key s c rv st :
  configsOk key s → c ∈ clusterConfigs key s →
  mine key s (sput KRedkeyConfig (cf_key c) (reportedOn rv st c) s).
Proof.
  intros Hok Hc. pose proof (clusterConfigs_ours key _ c Hok Hc) as Hours.
  apply elem_of_clusterConfigs in Hc as [_ Hsel]; [|apply Hok].
  apply (mine_put key s (reportedOn rv st c)); [apply Hok|exact Hours|exact Hsel].
Qed.

Lemma mine_collect key s c :
  configsOk key s → c ∈ clusterConfigs key s → mine key s (sdel KRedkeyConfig (cf_key c) s).
Proof. intros Hok Hc. apply mine_del; [apply Hok|]. by apply (clusterConfigs_ours key s). Qed.

Lemma fleetOk_acts F key s' cs' run' :
  fleetOk F → configsOk key (fl_store F) → mine key (fl_store F) s' →
  (∀ key', key ≠ key' → cs' !! key' = fl_clusters F !! key' ∧ run' !! key' = fl_running F !! key') →
  clusterOk key s' (cs' !! key) (run' !! key) → fleetOk (mkFleet s' cs' run').
Proof.
  intros HF Hok Hm Hsame Hkey key'. cbn [fl_store fl_clusters fl_running].
  destruct (decide (key = key')) as [<-|Hne]; [done|]. destruct (Hsame key' Hne) as [-> ->].
  by apply (clusterOk_others key _ (fl_store F)).
Qed.

Lemma fleetStep_request F F' s s' cs run key p p' :
  F = mkFleet s cs run → F' = mkFleet s' cs (<[key := p']> run) → fleetOk F →
  run !! key = Some p → requested s p s' p' → mine key s s' ∧ fleetOk F'.
Proof.
  intros -> -> HF Hrun Hq. pose proof (HF key) as Hc. cbn [fl_store fl_clusters fl_running] in Hc. rewrite Hrun in Hc.
  destruct (cs !! key) as [c|] eqn:Hcs; [|discriminate Hc].
  destruct (clusterOk_request key s s' c p p' Hc Hq) as [Hm Hc']. split; [done|].
  apply (fleetOk_acts _ key s' cs _ HF); [by eapply clusterOk_configs|done| |].
  - intros key' Hne. by rewrite lookup_insert_ne.
  - by rewrite Hcs, lookup_insert_eq.
Qed.

Lemma fleetOk_create s cs run key o :
  fleetOk (mkFleet s cs run) → initial key (mkSys (sput KRedkey key o s) {[1 := rk_Spec o]}) o → run !! key = None →
  fleetOk (mkFleet (sput KRedkey key o s) (<[key := Live {[1 := rk_Spec o]}]> cs) run).
Proof.
  intros HF Hi Hrun key'. cbn. destruct (decide (key = key')) as [<-|Hne].
  - rewrite lookup_insert_eq, Hrun. split; [|done]. eexists _, o. split; [done|]. apply rtc_refl.
  - rewrite lookup_insert_ne by done. apply (clusterOk_elsewhere key' s); [apply (HF key')|]. intros [c Hc].
    pose proof (HF key') as Hk. cbn in Hk. rewrite Hc in Hk. pose proof (clusterOk_configs _ _ _ _ Hk) as Hok.
    pose proof (mine_insert key s o (co_keyed _ _ Hok) (in_key _ _ _ Hi)) as [M1 M2 M3].
    split; [done|by apply M2|]. intros k d _. done.
Qed.

Lemma fleetOk_user s cs run key h o m spec :
  fleetOk (mkFleet s cs run) → cs !! key = Some (Live h) → st_redkeys s !! key = Some o → userWrite o m spec →
  fleetOk (mkFleet (sput KRedkey key (mkRedkey m spec (rk_Status o)) s) (<[key := Live (<[om_Generation m := spec]> h)]> cs) run).
Proof.
  intros HF Hh Ho Hw. pose proof (HF key) as Hc. cbn in Hc. rewrite Hh in Hc.
  pose proof (clusterOk_configs _ _ _ _ Hc) as Hok. pose proof (co_keyed _ _ Hok) as Hk.
  assert (Hkey : key_of KRedkey (mkRedkey m spec (rk_Status o)) = key)
    by (transitivity (key_of KRedkey o); [exact (uw_key _ _ _ Hw)|exact (Hk KRedkey key o Ho)]).
  pose proof (mine_insert key s _ Hk Hkey) as Hm.
  apply (fleetOk_acts _ key _ _ _ HF Hok); [done|intros key' Hne; by rewrite lookup_insert_ne|].
  rewrite lookup_insert_eq. eapply clusterOk_env; [exact Hc|by apply env_user|]. apply dwindles_same; [done|apply Hm|done].
Qed.

Lemma fleetOk_robin s cs run key c rv st cl :
  fleetOk (mkFleet s cs run) → cs !! key = Some cl → c ∈ clusterConfigs key s →
  fleetOk (mkFleet (sput KRedkeyConfig (cf_key c) (reportedOn rv st c) s) cs run).
Proof.
  intros HF Hcl Hc. pose proof (HF key) as Hk. cbn in Hk. rewrite Hcl in Hk.
  pose proof (clusterOk_configs _ _ _ _ Hk) as Hok. pose proof (dwindles_robin key s c rv st Hok Hc) as Hd.
  apply (fleetOk_acts _ key _ _ _ HF Hok); [|done|].
  - by apply mine_robin.
  - rewrite Hcl. destruct cl as [h|].
    + eapply clusterOk_env; [exact Hk|by apply env_robin|done].
    + apply (clusterOk_gone key s); [done|done|apply Hk].
Qed.

Lemma fleetStep_ok F F' : fleetOk F → fleetStep F F' → fleetOk F'.
Proof.
  intros HF Hstep.
  destruct Hstep as [s cs run key o Hnone Hrun Hi|s cs run key h o m spec Hh Ho Hw|s cs run key h Hh|s cs run key c rv st [cl Hcl] Hc
    |s cs run key c Hcl Hc|s s' cs run He|s cs run key [cl Hcl] Hrun|s s' cs run key p p' Hrun Hq|s cs run key p Hrun].
  - apply (fleetOk_create s cs run key o HF Hi Hrun).
  - apply (fleetOk_user s cs run key h o m spec HF Hh Ho Hw).
  - pose proof (HF key) as Hc. cbn in Hc. rewrite Hh in Hc. pose proof (clusterOk_configs _ _ _ _ Hc) as Hok.
    apply (fleetOk_acts _ key _ _ _ HF Hok); [apply mine_remove, Hok|intros key' Hne; by rewrite lookup_insert_ne|].
    rewrite lookup_insert_eq. by eapply clusterOk_delete.
  - apply (fleetOk_robin s cs run key c rv st cl HF Hcl Hc).
  - pose proof (HF key) as Hk. cbn in Hk. rewrite Hcl in Hk. pose proof (clusterOk_configs _ _ _ _ Hk) as Hok.
    apply (fleetOk_acts _ key _ _ _ HF Hok); [|done|].
    + by apply mine_collect.
    + rewrite Hcl. apply (clusterOk_gone key s); [done| |apply Hk].
      apply (dwindles_pruned key s _ [cf_key c]); [done|apply sdel_keyed, Hok|apply pruned_sdel].
  - intros key. cbn. apply (clusterOk_elsewhere key s); [apply (HF key)|apply He].
  - intros key'. cbn. destruct (decide (key = key')) as [<-|Hne]; [|rewrite lookup_insert_ne by done; apply (HF key')].
    rewrite lookup_insert_eq, Hcl. apply clusterOk_start. pose proof (HF key) as Hc. cbn in Hc. by rewrite Hcl, Hrun in Hc.
  - by eapply (fleetStep_request (mkFleet s cs run)).
  - intros key'. cbn. destruct (decide (key = key')) as [<-|Hne]; [|rewrite lookup_delete_ne by done; apply (HF key')].
    rewrite lookup_delete_eq. pose proof (HF key) as Hc. cbn in Hc. rewrite Hrun in Hc.
    destruct (cs !! key) as [c|]; [by eapply clusterOk_stop|done].
Qed.

Lemma fleetOk_empty s : fleetOk (mkFleet s ∅ ∅).
Proof. intros key. cbn. by rewrite !lookup_empty. Qed.

Lemma reachable_fleetOk F F' : fleetOk F → rtc fleetStep F F' → fleetOk F'.
Proof. intros HF Hrtc. revert HF. induction Hrtc as [|F1 F2 F3 Hstep _ IH]; [done|]. intros HF. by apply IH, (fleetStep_ok F1). Qed.

(** Two clusters share no config. *)
Lemma configs_disjoint key key' s c :
  keyed s → key ≠ key' → c ∈ clusterConfigs key s → c ∈ clusterConfigs key' s → False.
Proof.
  intros Hk Hne. rewrite !elem_of_clusterConfigs by done. intros [_ H1] [_ H2]. apply Hne. exact (selected_inj _ _ c H1 H2).
Qed.

(** ** What the fleet promises *)

(** C5: the clusters do not see each other.  Start from any store, and let users
    create any number of clusters, edit their specs, delete them (also in the middle of
    a reconcile, which goes on) and create them again once they are gone, Robin report
    on any of their configs, the garbage collector remove configs of deleted ones,
    anything that is nobody's change, and the reconciles of all of them run at once,
    request by request, fail and stop anywhere.  Then each live cluster, with the
    reconcile under way for it, is where some run of System.v that starts from its
    creation leads: a run with no other reconciles, in which the store changes only by
    its user, its Robin and what touches neither its Redkey nor its configs.  So what
    holds of one cluster at every moment holds of all of them; and no two clusters,
    live or deleted, ever share a config. *)
Theorem fleet_refines (s : Store) (F : Fleet) :
  rtc fleetStep (mkFleet s ∅ ∅) F →
  (∀ key h, fl_clusters F !! key = Some (Live h) →
    ∃ S o, initial key S o ∧ rtc (step r key) (S, None) (mkSys (fl_store F) h, fl_running F !! key)) ∧
  (∀ key key' c, is_Some (fl_clusters F !! key) → key ≠ key' →
    c ∈ clusterConfigs key (fl_store F) → c ∉ clusterConfigs key' (fl_store F)).
Proof.
  intros Hrtc. pose proof (reachable_fleetOk _ _ (fleetOk_empty s) Hrtc) as HF. split.
  - intros key h Hh. pose proof (HF key) as Hc. rewrite Hh in Hc. apply Hc.
  - intros key key' c [cl Hcl] Hne H1 H2. pose proof (HF key) as Hc. rewrite Hcl in Hc.
    pose proof (co_keyed _ _ (clusterOk_configs _ _ _ _ Hc)) as Hk.
    by apply (configs_disjoint key key' (fl_store F) c).
Qed.

(** The reconcile under way, if any, of a deleted cluster has not begun or has found
    no Redkey. *)
Definition spent (key : NamespacedName) (F : Fleet) : Prop :=
  ∀ p, fl_running F !! key = Some p → p = Reconcile r key ∨ all_calls spares p.

Lemma spent_request key s s' cs run p p' :
  fleetOk (mkFleet s cs run) → cs !! key = Some Deleted → spent key (mkFleet s cs run) →
  run !! key = Some p → requested s p s' p' → dwindles key s s' ∧ all_calls spares p'.
Proof.
  intros HF Hcl Hsp Hrun Hq. pose proof (HF key) as Hc. cbn in Hc. rewrite Hcl in Hc. destruct Hc as (Hn & Hok & _).
  destruct (Hsp p Hrun) as [->|Hall].
  - destruct (requested_gone key s s' p' Hn Hq) as [-> Hsp']. split; [|done]. apply dwindles_same; [done|apply Hok|done].
  - destruct p as [a|T q k]; [done|]. destruct Hq as (x & Hx & ->). destruct Hall as [Hq Hk]. split; [|done].
    apply dwindles_same; [done|by eapply contract_keyed; [apply Hok|]|by apply (contract_spares q s s x s')].
Qed.

(** What another cluster does to its own. *)
Lemma mine_dwindles F key key' s' :
  fleetOk F → is_Some (fl_clusters F !! key) → is_Some (fl_clusters F !! key') → key ≠ key' →
  mine key (fl_store F) s' → dwindles key' (fl_store F) s'.
Proof.
  intros HF [c Hc] [c' Hc'] Hne Hm. pose proof (HF key) as Hk. pose proof (HF key') as Hk'. rewrite Hc in Hk. rewrite Hc' in Hk'.
  apply clusterOk_configs in Hk, Hk'. apply dwindles_elsewhere; [done|]. by apply (mine_elsewhere key).
Qed.

Lemma spent_step key F F' :
  fleetOk F → fl_clusters F !! key = Some Deleted → spent key F → fleetStep F F' → fl_clusters F' !! key = Some Deleted →
  dwindles key (fl_store F) (fl_store F') ∧ spent key F'.
Proof.
  intros HF Hdel Hsp Hstep Hdel'. pose proof (fleetStep_ok F F' HF Hstep) as HF'.
  pose proof (HF key) as Hk. pose proof (HF' key) as Hk'. rewrite Hdel in Hk. rewrite Hdel' in Hk'.
  apply clusterOk_configs in Hk, Hk'.
  destruct Hstep as [s cs run key0 o Hnone Hrun Hi|s cs run key0 h o m spec Hh Ho Hw|s cs run key0 h Hh|s cs run key0 c rv st Hcl Hc
    |s cs run key0 c Hcl Hc|s s' cs run He|s cs run key0 Hcl Hrun|s s' cs run key0 p p' Hrun Hq|s cs run key0 p Hrun];
    cbn [fl_store fl_clusters fl_running] in *.
  - split; [|done]. by apply dwindles_same; [|apply Hk'|].
  - split; [|done]. by apply dwindles_same; [|apply Hk'|].
  - split; [|done]. by apply dwindles_same; [|apply Hk'|].
  - split; [|done]. destruct (decide (key0 = key)) as [->|Hne]; [by apply dwindles_robin|].
    apply (mine_dwindles (mkFleet s cs run) key0); [done|done|by eexists|done|]. destruct Hcl as [cl Hcl].
    pose proof (HF key0) as Hk0. cbn in Hk0. rewrite Hcl in Hk0. apply mine_robin; [by eapply clusterOk_configs|done].
  - split; [|done]. destruct (decide (key0 = key)) as [->|Hne].
    { apply (dwindles_pruned key s _ [cf_key c]); [done|apply sdel_keyed, Hk|apply pruned_sdel]. }
    apply (mine_dwindles (mkFleet s cs run) key0); [done|by eexists|by eexists|done|].
    pose proof (HF key0) as Hk0. cbn in Hk0. rewrite Hcl in Hk0. apply mine_collect; [by eapply clusterOk_configs|done].
  - split; [|done]. apply dwindles_elsewhere; [done|]. apply He. by eexists.
  - split; [by apply dwindles_same; [|apply Hk|]|]. intros p. cbn.
    intros [[<- <-]|[_ Hp]]%lookup_insert_Some; [by left|by apply Hsp].
  - destruct (decide (key0 = key)) as [->|Hne].
    + destruct (spent_request key s s' cs run p p') as [Hd Hall]; [done..|]. split; [done|].
      intros q. cbn. rewrite lookup_insert_eq. intros [= <-]. by right.
    + destruct (fleetStep_request (mkFleet s cs run) _ s s' cs run key0 p p' eq_refl eq_refl HF Hrun Hq) as [Hm _].
      split; [|intros q; cbn; rewrite lookup_insert_ne by done; apply Hsp].
      apply (mine_dwindles (mkFleet s cs run) key0); [done| |by eexists|done|done].
      pose proof (HF key0) as Hk0. cbn in Hk0. rewrite Hrun in Hk0. cbn [fl_clusters].
      destruct (cs !! key0) as [c0|]; [by eexists|discriminate Hk0].
  - split; [by apply dwindles_same; [|apply Hk|]|]. intros q. cbn. intros [_ Hq]%lookup_delete_Some. by apply Hsp.
Qed.

(** C6: a deleted cluster stays deleted.  Once the Redkey is gone and the reconcile that
    was under way at that moment, if any, is over, then for as long as the cluster is
    not created again no step of anybody brings back its Redkey or makes a config for
    it, however many more reconciles of it are started, and whatever all the other
    clusters do: its configs are among those it had, up to reports of Robin, and once
    the garbage collector has removed them there are none. *)
Theorem deleted_stays_deleted (s : Store) (F F' : Fleet) (key : NamespacedName) :
  rtc fleetStep (mkFleet s ∅ ∅) F → fl_clusters F !! key = Some Deleted → fl_running F !! key = None →
  rtc (λ F1 F2, fleetStep F1 F2 ∧ fl_clusters F2 !! key = Some Deleted) F F' →
  st_redkeys (fl_store F') !! key = None ∧
  (∀ c', c' ∈ clusterConfigs key (fl_store F') → ∃ c, c ∈ clusterConfigs key (fl_store F) ∧ sameConfig c c') ∧
  (clusterConfigs key (fl_store F) = [] → clusterConfigs key (fl_store F') = []).
Proof.
  intros Hrtc Hdel Hidle Hrtc'. pose proof (reachable_fleetOk _ _ (fleetOk_empty s) Hrtc) as HF.
  assert (Hsp : spent key F) by (intros p; by rewrite Hidle).
  assert (Hend : fleetOk F' ∧ fl_clusters F' !! key = Some Deleted ∧ dwindles key (fl_store F) (fl_store F')).
  { clear Hrtc Hidle. induction Hrtc' as [F|F1 F2 F3 [Hstep Hdel2] _ IH].
    - split; [done|]. split; [done|]. pose proof (HF key) as Hk. rewrite Hdel in Hk. apply clusterOk_configs in Hk.
      by apply dwindles_same; [|apply Hk|].
    - destruct (spent_step key F1 F2) as [Hd Hsp2]; [done..|].
      destruct IH as (HF3 & Hdel3 & Hd3); [done|by apply (fleetStep_ok F1)|done|].
      split; [done|]. split; [done|]. by eapply dwindles_trans. }
  destruct Hend as (HF' & Hdel' & [_ Hsub]). pose proof (HF' key) as Hk'. rewrite Hdel' in Hk'.
  split; [apply Hk'|]. split; [done|]. intros Hnil. apply elem_of_nil_inv.
  intros c' (c & Hc & _)%Hsub. rewrite Hnil in Hc. by apply not_elem_of_nil in Hc.
Qed.

(** ** Executions against a client *)

(** A step that neither creates nor deletes a cluster. *)
Definition calm (cs : gmap NamespacedName Cluster) (F F' : Fleet) : Prop :=
  fleetStep F F' ∧ fl_clusters F' = cs.

Lemma calm_fleet cs F F' : rtc (calm cs) F F' → rtc fleetStep F F'.
Proof. apply rtc_subrel. by intros ?? []. Qed.

Lemma calm_deleted cs F F' key :
  cs !! key = Some Deleted → rtc (calm cs) F F' →
  rtc (λ F1 F2, fleetStep F1 F2 ∧ fl_clusters F2 !! key = Some Deleted) F F'.
Proof. intros Hkey. apply rtc_subrel. by intros ?? [? ->]. Qed.

Section exec.
Context `{!KubeClient W, !KubeQuiet W}.

Lemma runFor_fleet n p (w : W) cs run key :
  run !! key = Some p →
  rtc (calm cs) (mkFleet (server w) cs run)
    (mkFleet (server (runFor n p w).1) cs (<[key := (runFor n p w).2]> run)).
Proof.
  revert p w run. induction n as [|n IH]; intros p w run Hrun.
  { simpl. by rewrite insert_id. }
  destruct p as [a|T q k]; [simpl; by rewrite insert_id|]. simpl.
  destruct (handle q w) as [w1 x] eqn:Hh. apply (rtc_l _ _ (mkFleet (server w1) cs (<[key := k x]> run))).
  { split; [|reflexivity]. eapply (fs_request (server w) (server w1)); [exact Hrun|]. exists x. split; [|done].
    destruct (handle_contract _ q w w1 x Hh) as (s' & ->%quiet_rtc & _ & Hc).
    rewrite quiet_fresh in Hc. by apply contract_fresh. }
  specialize (IH (k x) w1 (<[key := k x]> run) (lookup_insert_eq _ _ _)). by rewrite insert_insert_eq in IH.
Qed.

Lemma startFor_fleet n (w : W) cs run key :
  is_Some (cs !! key) → run !! key = None →
  rtc (calm cs) (mkFleet (server w) cs run)
    (mkFleet (server (runFor n (Reconcile r key) w).1) cs (<[key := (runFor n (Reconcile r key) w).2]> run)).
Proof.
  intros Hs Hn. apply (rtc_l _ _ (mkFleet (server w) cs (<[key := Reconcile r key]> run)));
    [split; [by apply (fs_start _ _ _ key)|reflexivity]|].
  pose proof (runFor_fleet n (Reconcile r key) w cs (<[key := Reconcile r key]> run) key (lookup_insert_eq _ _ _)) as Hr.
  by rewrite insert_insert_eq in Hr.
Qed.

(** An object is deleted. *)
Lemma handle_deleted k key (w w1 : W) :
  handle (Delete k key) w = (w1, Ok tt) → server w1 = sdel k key (server w).
Proof. intros Hh. by destruct (handle_contract _ _ w w1 _ Hh) as (s' & ->%quiet_rtc & _ & _ & Hc). Qed.
End exec.
End fleet.

(** ** Witness: two clusters, reconciled side by side *)

Definition emptyStore : Store := mkStore ∅ ∅ ∅ ∅ ∅ ∅.

(** A cluster whose name is that of the other one's first config. *)
Definition otherKey : NamespacedName := mkKey "ns" "rk-1".
Definition otherRedkey : Redkey :=
  mkRedkey (mkMeta "rk-1" "ns" None None [] 1 "v1" "uid-2" 0) (sampleSpec 5 false None None) zeroStatus.

Definition twoWorld : World false := editWorld otherRedkey newWorld.
Definition twoClusters : gmap NamespacedName Cluster :=
  <[otherKey := Live {[1 := rk_Spec otherRedkey]}]> {[sampleKey := Live newSpecs]}.

Definition taskOf (key : NamespacedName) : prog (Result * option error) :=
  Reconcile (H := fake_lib) (mkReconciler 30 1) key.

(** Ten requests for the one, all for the other, the rest for the first. *)
Definition twoA : World false * prog (Result * option error) := runFor 10 (taskOf sampleKey) twoWorld.
Definition twoB : World false * prog (Result * option error) := runFor 100 (taskOf otherKey) twoA.1.
Definition twoC : World false * prog (Result * option error) := runFor 100 twoA.2 twoB.1.
Definition twoFleet : Fleet :=
  mkFleet (server twoC.1) twoClusters (<[sampleKey := twoC.2]> (<[otherKey := twoB.2]> (<[sampleKey := twoA.2]> ∅))).

Lemma twoFleet_configs :
  ((λ c, om_Name (cf_Meta c)) <$> clusterConfigs sampleKey (fl_store twoFleet),
   (λ c, om_Name (cf_Meta c)) <$> clusterConfigs otherKey (fl_store twoFleet)) = (["rk-1"], ["rk-1-1"]).
Proof. vm_compute. reflexivity. Qed.

(** The first cluster is created in an empty store. *)
Lemma newWorld_created :
  fleetStep (H := fake_lib) (mkReconciler 30 1) (mkFleet emptyStore ∅ ∅) (mkFleet (server newWorld) {[sampleKey := Live newSpecs]} ∅).
Proof.
  assert (Hw1 : server newWorld = sput KRedkey sampleKey newRedkey emptyStore) by reflexivity.
  rewrite Hw1, <- insert_empty. apply (fs_create _ emptyStore ∅ ∅ sampleKey newRedkey).
  - intros h. by rewrite lookup_empty.
  - done.
  - exact (eq_ind (server newWorld) (λ s, initial sampleKey (mkSys s newSpecs) newRedkey) newWorld_initial _ Hw1).
Qed.

Lemma twoFleet_reached : rtc (fleetStep (H := fake_lib) (mkReconciler 30 1)) (mkFleet emptyStore ∅ ∅) twoFleet.
Proof.
  set (o2 := set_rk_rv (next_rv (w_raw newWorld)) otherRedkey).
  assert (Hw2 : server twoWorld = sput KRedkey otherKey o2 (server newWorld)) by reflexivity.
  eapply rtc_l; [exact newWorld_created|].
  eapply rtc_l; [apply (fs_create _ (server newWorld) {[sampleKey := Live newSpecs]} ∅ otherKey o2)|].
  { intros h Hh. vm_compute in Hh. discriminate Hh. }
  { done. }
  { split; [apply lookup_insert_eq|reflexivity|reflexivity|reflexivity|reflexivity| |by vm_compute].
    rewrite <- Hw2. apply configsOk_empty; [apply server_keyed|reflexivity]. }
  rewrite <- Hw2. change (<[otherKey := Live {[1 := rk_Spec o2]}]> {[sampleKey := Live newSpecs]}) with twoClusters.
  assert (Hs1 : is_Some (twoClusters !! sampleKey)) by (by eexists).
  assert (Hs2 : is_Some (twoClusters !! otherKey)) by (by eexists).
  apply (calm_fleet _ twoClusters).
  etrans; [exact (startFor_fleet (mkReconciler 30 1) 10 twoWorld twoClusters ∅ sampleKey Hs1 (lookup_empty _))|].
  fold (taskOf sampleKey). fold twoA.
  etrans; [apply (startFor_fleet (mkReconciler 30 1) 100 twoA.1 twoClusters _ otherKey Hs2); by rewrite lookup_insert_ne|].
  fold (taskOf otherKey). fold twoB.
  apply (runFor_fleet (mkReconciler 30 1) 100 twoA.2 twoB.1 twoClusters _ sampleKey).
  rewrite lookup_insert_ne by done. apply lookup_insert_eq.
Qed.

Lemma fleet_refines_witness :
  size (fl_clusters twoFleet) = 2%nat ∧
  (∃ S o, initial sampleKey S o ∧ rtc (step (H := fake_lib) (mkReconciler 30 1) sampleKey) (S, None)
    (mkSys (fl_store twoFleet) newSpecs, fl_running twoFleet !! sampleKey)) ∧
  ∀ c, c ∈ clusterConfigs sampleKey (fl_store twoFleet) → c ∉ clusterConfigs otherKey (fl_store twoFleet).
Proof.
  destruct (fleet_refines (H := fake_lib) (mkReconciler 30 1) emptyStore twoFleet twoFleet_reached) as [Hr Hd].
  split; [reflexivity|]. split; [exact (Hr sampleKey newSpecs eq_refl)|].
  intros c. apply (Hd sampleKey otherKey c); [by exists (Live newSpecs)|discriminate].
Defined.

(** ** Witness: a cluster deleted in the middle of a reconcile *)

(** The reconcile has decided to create the first config; the Redkey is deleted; the
    reconcile goes on; the garbage collector removes the config; another reconcile. *)
Definition orphanKey : NamespacedName := mkKey "ns" "rk-1".
Definition goneA : World false := (handle (Delete KRedkey sampleKey) paused.1).1.
Definition goneB : World false * prog (Result * option error) := runFor 100 paused.2 goneA.
Definition goneC : World false := (handle (Delete KRedkeyConfig orphanKey) goneB.1).1.
Definition goneD : World false * prog (Result * option error) := runFor 100 (taskOf sampleKey) goneC.

Definition goneClusters : gmap NamespacedName Cluster := {[sampleKey := Deleted]}.
Definition goneFleet : Fleet := mkFleet (server goneB.1) goneClusters ∅.
Definition collectedFleet : Fleet := mkFleet (server goneD.1) goneClusters (<[sampleKey := goneD.2]> ∅).

(** The reconcile that goes on makes a config for a cluster that is no more. *)
Lemma goneFleet_configs :
  cf_key <$> clusterConfigs sampleKey (fl_store goneFleet) = [orphanKey] ∧
  clusterConfigs sampleKey (server goneC) = [].
Proof. vm_compute. done. Qed.

Lemma goneA_deleted : server goneA = sdel KRedkey sampleKey (server paused.1).
Proof.
  apply (handle_deleted KRedkey sampleKey). unfold goneA.
  destruct (handle (Delete KRedkey sampleKey) paused.1) as [w x] eqn:Hh.
  assert (Hx : (handle (Delete KRedkey sampleKey) paused.1).2 = Ok tt) by (vm_compute; reflexivity).
  rewrite Hh in Hx. simpl in *. by rewrite Hx.
Qed.

Lemma goneC_deleted : server goneC = sdel KRedkeyConfig orphanKey (server goneB.1).
Proof.
  apply (handle_deleted KRedkeyConfig orphanKey). unfold goneC.
  destruct (handle (Delete KRedkeyConfig orphanKey) goneB.1) as [w x] eqn:Hh.
  assert (Hx : (handle (Delete KRedkeyConfig orphanKey) goneB.1).2 = Ok tt) by (vm_compute; reflexivity).
  rewrite Hh in Hx. simpl in *. by rewrite Hx.
Qed.

Lemma goneFleet_reached : rtc (fleetStep (H := fake_lib) (mkReconciler 30 1)) (mkFleet emptyStore ∅ ∅) goneFleet.
Proof.
  eapply rtc_l; [exact newWorld_created|].
  etrans; [apply (calm_fleet _ {[sampleKey := Live newSpecs]})|].
  { apply (startFor_fleet (mkReconciler 30 1) 10 newWorld); [eexists; apply lookup_singleton_eq|done]. }
  fold paused. eapply rtc_l; [apply (fs_delete _ _ _ _ sampleKey newSpecs); apply lookup_singleton_eq|].
  rewrite <- goneA_deleted, insert_singleton_eq.
  etrans; [apply (calm_fleet _ goneClusters), (runFor_fleet (mkReconciler 30 1) 100 paused.2 goneA); apply lookup_insert_eq|].
  fold goneB. rewrite insert_insert_eq.
  pose proof (fs_stop (mkReconciler 30 1) (server goneB.1) goneClusters (<[sampleKey := goneB.2]> ∅) sampleKey goneB.2
    (lookup_insert_eq _ _ _)) as Hs.
  rewrite delete_insert_id in Hs by done. exact (rtc_once _ _ Hs).
Qed.

Lemma collectedFleet_reached :
  rtc (λ F1 F2, fleetStep (H := fake_lib) (mkReconciler 30 1) F1 F2 ∧ fl_clusters F2 !! sampleKey = Some Deleted)
    goneFleet collectedFleet.
Proof.
  assert (Hdel : goneClusters !! sampleKey = Some Deleted) by apply lookup_singleton_eq.
  apply (calm_deleted _ goneClusters _ _ sampleKey Hdel).
  destruct goneFleet_configs as [Hkeys _].
  destruct (clusterConfigs sampleKey (fl_store goneFleet)) as [|c l] eqn:Hl; [done|].
  pose proof (f_equal (hd orphanKey) Hkeys : cf_key c = orphanKey) as Hkey.
  apply (rtc_l _ _ (mkFleet (server goneC) goneClusters ∅)).
  { split; [|reflexivity]. rewrite goneC_deleted, <- Hkey. apply (fs_collect _ _ _ _ sampleKey); [exact Hdel|].
    change (server goneB.1) with (fl_store goneFleet). rewrite Hl. by left. }
  apply (startFor_fleet (mkReconciler 30 1) 100 goneC goneClusters ∅ sampleKey); [by eexists|done].
Qed.

Lemma deleted_stays_deleted_witness :
  length (clusterConfigs sampleKey (fl_store goneFleet)) = 1%nat ∧
  st_redkeys (fl_store collectedFleet) !! sampleKey = None ∧
  ∀ c', c' ∈ clusterConfigs sampleKey (fl_store collectedFleet) →
    ∃ c, c ∈ clusterConfigs sampleKey (fl_store goneFleet) ∧ sameConfig c c'.
Proof.
  destruct (deleted_stays_deleted (H := fake_lib) (mkReconciler 30 1) emptyStore goneFleet collectedFleet sampleKey
    goneFleet_reached (lookup_singleton_eq _ _) (lookup_empty _) collectedFleet_reached) as (Hn & Hs & _).
  split; [vm_compute; reflexivity|]. split; [exact Hn|exact Hs].
Defined.
