(* ===== verification/Stale.v ===== *)
(** * The operator behind lagging caches

    The client the manager gives the reconciler reads from informer caches, one
    per kind, each of which shows the store as it once was and only moves forward.
    [Cached] is the store of Life.v with the versions of it that the Redkey cache
    and the config cache have yet to catch up with; reads are answered from what
    the caches show, writes reach the store.  On a cluster that is never scaled to
    zero the order of the configs survives any such lag. *)

From S2P Require Import Prelude GoLib K8s Types Effects Client Logic FakeCluster.
From S2P Require Import Robin Config Metrics ScaleZero Controller Samples RobinProofs ConfigProofs.
From S2P Require Import ConfigStore ControllerProofs Failing ScaleZeroProofs Validation.
From S2P Require Import Life Interleaving Reconciling System.
Local Open Scope Z_scope.

(** ** Numbered generations *)

(** The [n]-th of ever newer generations is at least [n]. *)
Lemma sorted_position gens b i g :
  StronglySorted Z.lt gens → Forall (λ g, b ≤ g) gens → gens !! i = Some g → b + Z.of_nat i ≤ g.
Proof.
  intros Hs. revert b i. induction Hs as [|x l Hs IH Hx]; intros b i Hb Hi; [done|].
  apply Forall_cons in Hb as [Hb _]. destruct i as [|i]; simpl in Hi; [injection Hi as ->; lia|].
  apply (IH (b + 1)) in Hi; [lia|]. eapply Forall_impl; [exact Hx|]. intros y Hy. simpl in *. lia.
Qed.

Section stale.
Context `{K8sLib, !K8sLaws}.
Context (r : RedkeyReconciler) (req : NamespacedName).

(** ** The system *)

(** The store and the history, with the older versions of the store that the
    Redkey cache and the config cache still have before them: each shows the first
    of its list, or the store itself when there is none left. *)
Record Cached := mkCached {
  ca_sys : Sys;
  ca_redkeys : list Store;
  ca_configs : list Store;
}.

Abbreviation nowOf C := (sy_store (ca_sys C)).
Abbreviation specsOf C := (sy_specs (ca_sys C)).
Abbreviation configsNow C := (clusterConfigs req (nowOf C)).

Definition shownRedkeys (C : Cached) : Store := hd (nowOf C) (ca_redkeys C).
Definition shownConfigs (C : Cached) : Store := hd (nowOf C) (ca_configs C).

(** The store changes; the caches do not know yet. *)
Definition moveTo (C : Cached) (S' : Sys) : Cached :=
  mkCached S' (ca_redkeys C ++ [nowOf C]) (ca_configs C ++ [nowOf C]).

(** No spec asks for zero primaries. *)
Definition running (specs : gmap Z RedkeySpec) : Prop :=
  ∀ g spec, specs !! g = Some spec → rs_Primaries spec ≠ 0.

(** The user, Robin or anything else acts, or a cache catches up with one version. *)
Inductive cachedStep : Cached → Cached → Prop :=
| cs_world C S' : envStep req (ca_sys C) S' → running (sy_specs S') → cachedStep C (moveTo C S')
| cs_redkeys S s q qc : cachedStep (mkCached S (s :: q) qc) (mkCached S q qc)
| cs_configs S s q qr : cachedStep (mkCached S qr (s :: q)) (mkCached S qr q).

(** A request is answered from some cache [c] whose Redkeys and configs are the ones
    shown, objects of other kinds being of any age. *)
Definition servedCached {T} (q : Req T) (C : Cached) (x : T) (C' : Cached) : Prop :=
  ∃ c s', st_redkeys c = st_redkeys (shownRedkeys C) ∧ st_configs c = st_configs (shownConfigs C) ∧
    contract q c (nowOf C) x s' ∧ C' = moveTo C (mkSys s' (specsOf C)).

(** ** The invariant *)

(** The generation of the Redkey in a store, and the sequence of the newest config. *)
Definition generationIn (s : Store) : Z := from_option rk_Generation 0 (st_redkeys s !! req).
Definition topIn (s : Store) : Z := from_option (λ c, seqOf c) 0 (last (clusterConfigs req s)).

(** The Redkey in [s] has a spec on record. *)
Definition recorded (specs : gmap Z RedkeySpec) (s : Store) : Prop :=
  keyed s ∧ ∃ v, st_redkeys s !! req = Some v ∧ specs !! rk_Generation v = Some (rk_Spec v) ∧ 1 ≤ rk_Generation v.

(** Config [n] was made from the [n]-th of the generations [gens]. *)
Definition numbered (specs : gmap Z RedkeySpec) (gens : list Z) (c : RedkeyConfig) : Prop :=
  ∃ g, gens !! Z.to_nat (seqOf c - 1) = Some g ∧ snapshotOf specs g c.

Definition fits (specs : gmap Z RedkeySpec) (gens : list Z) (s : Store) : Prop :=
  configsOk req s ∧ Forall (numbered specs gens) (clusterConfigs req s).

(** The configs with sequences from [t + 1] to [n] are all there. *)
Definition covered (t n : Z) (s : Store) : Prop :=
  ∀ k, t < k ≤ n → ∃ c, c ∈ clusterConfigs req s ∧ seqOf c = k.

(** [gens] are the generations configs have been made for, oldest first. *)
Record cachedOk (C : Cached) (o : Redkey) (gens : list Z) : Prop := {
  ck_life : lifeOk req (ca_sys C) o;
  ck_running : running (specsOf C);
  ck_sorted : StronglySorted Z.lt gens;
  ck_positive : Forall (λ g, 1 ≤ g) gens;
  ck_bound : Forall (λ g, g ≤ generationIn (shownRedkeys C)) gens;
  ck_redkeys : Forall (recorded (specsOf C)) (ca_redkeys C ++ [nowOf C]);
  ck_forward : StronglySorted Z.le (generationIn <$> ca_redkeys C ++ [nowOf C]);
  ck_configs : Forall (fits (specsOf C) gens) (ca_configs C ++ [nowOf C]);
  ck_onward : StronglySorted Z.le (topIn <$> ca_configs C ++ [nowOf C]);
  ck_top : topIn (nowOf C) = Z.of_nat (length gens);
  ck_covered : covered (topIn (shownConfigs C)) (Z.of_nat (length gens)) (nowOf C);
}.

#[local] Instance stale_interleaved : Interleaved Cached := {
  others := cachedStep;
  serve T q C x C' := servedCached q C x C';
  orderly C := ∃ o gens, cachedOk C o gens;
  guarantee _ _ := True;
}.

(** ** Queues of versions *)

Lemma hd_snoc {A} (q : list A) (x y : A) : hd y (q ++ [x]) = hd x q.
Proof. by destruct q. Qed.

Lemma shown_elem {A} (q : list A) (x : A) : hd x q ∈ q ++ [x].
Proof. destruct q; left. Qed.

Lemma shown_le (f : Store → Z) q now :
  StronglySorted Z.le (f <$> q ++ [now]) → f (hd now q) ≤ f now.
Proof.
  destruct q as [|s q]; [done|]. rewrite <- app_comm_cons, fmap_cons. intros [_ Hall]%StronglySorted_inv.
  rewrite fmap_app in Hall. apply Forall_app in Hall as [_ Hall]. by apply Forall_cons in Hall as [? _].
Qed.

Lemma queue_push (f : Store → Z) q now now' :
  StronglySorted Z.le (f <$> q ++ [now]) → f now ≤ f now' →
  StronglySorted Z.le (f <$> (q ++ [now]) ++ [now']).
Proof.
  intros Hs Hle. rewrite fmap_app. apply StronglySorted_app_2; [|done|by repeat constructor].
  intros x y Hx ->%list_elem_of_singleton. rewrite fmap_app in Hs, Hx. apply elem_of_app in Hx as [Hx|Hx].
  - etrans; [|exact Hle]. eapply (StronglySorted_app_1_elem_of Z.le); [exact Hs|exact Hx|left].
  - by apply list_elem_of_singleton in Hx as ->.
Qed.

Lemma queue_pop (f : Store → Z) s q now :
  StronglySorted Z.le (f <$> (s :: q) ++ [now]) →
  StronglySorted Z.le (f <$> q ++ [now]) ∧ f s ≤ f (hd now q).
Proof.
  simpl. intros [Hs Hall]%StronglySorted_inv. split; [done|].
  apply (proj1 (Forall_forall _ _) Hall). apply list_elem_of_fmap_2, shown_elem.
Qed.

(** ** What the others do *)

(** What cannot go back: the history, what the caches show, and the configs, of
    which only Robin's reports change. *)
Record quieter (C C' : Cached) : Prop := {
  qu_specs : specsOf C ⊆ specsOf C';
  qu_redkeys : generationIn (shownRedkeys C) ≤ generationIn (shownRedkeys C');
  qu_shown : topIn (shownConfigs C) ≤ topIn (shownConfigs C');
  qu_configs : Forall2 sameConfig (configsNow C) (configsNow C');
}.

Lemma recorded_specs specs specs' s : specs ⊆ specs' → recorded specs s → recorded specs' s.
Proof. intros Hsub (Hk & v & Hv & Hs & Hg). split; [done|]. exists v. split; [done|]. split; [by eapply lookup_weaken|done]. Qed.

Lemma numbered_mono specs specs' gens gens' c :
  specs ⊆ specs' → gens `prefix_of` gens' → numbered specs gens c → numbered specs' gens' c.
Proof.
  intros Hsub Hpre (g & Hg & Hs). exists g. split; [by eapply prefix_lookup_Some|by eapply snapshotOf_specs].
Qed.

Lemma fits_mono specs specs' gens gens' s :
  specs ⊆ specs' → gens `prefix_of` gens' → fits specs gens s → fits specs' gens' s.
Proof.
  intros Hsub Hpre [Hok Hn]. split; [done|]. eapply Forall_impl; [exact Hn|]. intros c. by apply numbered_mono.
Qed.

Lemma topIn_same s s' :
  Forall2 sameConfig (clusterConfigs req s) (clusterConfigs req s') → topIn s' = topIn s.
Proof.
  intros Hl. unfold topIn. destruct (last (clusterConfigs req s)) as [c|] eqn:Hc.
  - destruct (sameConfig_last _ _ c Hl Hc) as (c' & -> & Hs%sameConfig_spec). simpl. by rewrite Hs.
  - apply last_None in Hc. rewrite Hc in Hl. by apply Forall2_nil_inv_l in Hl as ->.
Qed.

Lemma numbered_same specs gens c c' : sameConfig c c' → numbered specs gens c → numbered specs gens c'.
Proof.
  intros Hsame (g & Hg & Hs). exists g. split; [by rewrite (sameConfig_spec _ _ Hsame)|by eapply sameConfig_snapshot].
Qed.

Lemma Forall_same (P : RedkeyConfig → Prop) l l' :
  (∀ c c', sameConfig c c' → P c → P c') → Forall2 sameConfig l l' → Forall P l → Forall P l'.
Proof. intros HP. induction 1; intros Hall; inversion Hall; subst; constructor; eauto. Qed.

Lemma covered_same t n s s' :
  Forall2 sameConfig (clusterConfigs req s) (clusterConfigs req s') → covered t n s → covered t n s'.
Proof.
  intros Hl Hcov k Hk. destruct (Hcov k Hk) as (c & [i Hi]%list_elem_of_lookup & Hseq).
  destruct (Forall2_lookup_l _ _ _ _ _ Hl Hi) as (c' & Hc' & Hs%sameConfig_spec). exists c'.
  split; [by eapply list_elem_of_lookup_2|by rewrite Hs].
Qed.

Lemma covered_mono t t' n s : t ≤ t' → covered t n s → covered t' n s.
Proof. intros Hle Hcov k Hk. apply Hcov. lia. Qed.

(** The store changes, and [gens] may have grown. *)
Lemma cachedOk_move C S' o o' gens gens' :
  cachedOk C o gens → lifeOk req S' o' → rk_Generation o ≤ rk_Generation o' → 1 ≤ rk_Generation o' →
  specsOf C ⊆ sy_specs S' → running (sy_specs S') →
  gens `prefix_of` gens' → StronglySorted Z.lt gens' → Forall (λ g, 1 ≤ g) gens' →
  Forall (λ g, g ≤ generationIn (shownRedkeys C)) gens' →
  Forall (numbered (sy_specs S') gens') (clusterConfigs req (sy_store S')) →
  topIn (sy_store S') = Z.of_nat (length gens') →
  covered (topIn (shownConfigs C)) (Z.of_nat (length gens')) (sy_store S') →
  cachedOk (moveTo C S') o' gens'.
Proof.
  intros [C1 C2 C3 C4 C5 C6 C7 C8 C9 C10 C11] Hl Hg H1 Hsp Hrun Hpre Hsort Hpos Hbound Hnum Htop Hcov.
  pose proof (lf_live _ _ _ Hl) as Hlive. pose proof (lf_live _ _ _ C1) as Hlive0.
  unfold moveTo, shownRedkeys, shownConfigs in *.
  split; cbn [ca_sys ca_redkeys ca_configs]; unfold shownRedkeys, shownConfigs;
    cbn [ca_sys ca_redkeys ca_configs]; rewrite ?hd_snoc; try done.
  - apply Forall_app. split; [by eapply Forall_impl; [exact C6|]; intros s; apply recorded_specs|].
    constructor; [|constructor]. split; [apply (lf_configs _ _ _ Hl)|]. exists o'. split; [done|]. split; [apply Hl|done].
  - apply queue_push; [done|]. unfold generationIn. by rewrite Hlive, Hlive0.
  - apply Forall_app. split; [by eapply Forall_impl; [exact C8|]; intros s; apply fits_mono|].
    constructor; [|constructor]. split; [apply (lf_configs _ _ _ Hl)|done].
  - apply queue_push; [done|]. rewrite C10, Htop. apply prefix_length in Hpre. lia.
Qed.

Lemma quieter_move C S' :
  specsOf C ⊆ sy_specs S' → Forall2 sameConfig (configsNow C) (clusterConfigs req (sy_store S')) →
  quieter C (moveTo C S').
Proof.
  intros Hsp Hcc. split; [done| | |done]; unfold shownRedkeys, shownConfigs, moveTo;
    cbn [ca_sys ca_redkeys ca_configs]; by rewrite hd_snoc.
Qed.

Lemma cachedOk_now C o gens : cachedOk C o gens → fits (specsOf C) gens (nowOf C).
Proof. intros HC. pose proof (ck_configs _ _ _ HC) as Hall. by apply Forall_app in Hall as [_ [? _]%Forall_cons]. Qed.

Lemma cachedStep_ok C C' o gens :
  cachedOk C o gens → cachedStep C C' → ∃ o', cachedOk C' o' gens ∧ quieter C C'.
Proof.
  intros HC Hstep. destruct Hstep as [C S' Henv Hrun|S s q qc|S s q qr].
  - destruct (env_evolves req _ _ o (ck_life _ _ _ HC) Henv) as [o' [E1 E2 E3 E4 E5]]. exists o'.
    split; [|by apply quieter_move]. pose proof HC as [C1 C2 C3 C4 C5 C6 C7 C8 C9 C10 C11].
    apply (cachedOk_move C S' o o' gens gens); try done.
    + pose proof (lf_range _ _ _ C1). lia.
    + eapply Forall_same; [intros c c'; apply numbered_same|exact E5|].
      apply cachedOk_now in HC as [_ Hn]. eapply Forall_impl; [exact Hn|]. intros c. by apply numbered_mono.
    + by rewrite (topIn_same (nowOf C)).
    + by eapply covered_same.
  - destruct HC as [C1 C2 C3 C4 C5 C6 C7 C8 C9 C10 C11]. cbn [ca_sys ca_redkeys ca_configs] in *.
    destruct (queue_pop _ _ _ _ C7) as [H7 Hle]. exists o. split; [split; try done|split; try done; reflexivity].
    + eapply Forall_impl; [exact C5|]. intros g Hg. etrans; [exact Hg|exact Hle].
    + by apply Forall_cons in C6 as [_ ?].
  - destruct HC as [C1 C2 C3 C4 C5 C6 C7 C8 C9 C10 C11]. cbn [ca_sys ca_redkeys ca_configs] in *.
    destruct (queue_pop _ _ _ _ C9) as [H9 Hle]. exists o. split; [split; try done|split; try done; reflexivity].
    + by apply Forall_cons in C8 as [_ ?].
    + eapply covered_mono; [exact Hle|exact C11].
Qed.

#[local] Instance stale_laws : InterleavedLaws Cached.
Proof.
  split.
  - intros C C' (o & gens & HC) Hstep. destruct (cachedStep_ok C C' o gens HC Hstep) as (o' & HC' & _). by exists o', gens.
  - intros T q [[s specs] qr qc] x C' (o & gens & HC) Hq (c & s' & _ & _ & Hc & ->).
    split; [|done]. apply cs_world; [|apply (ck_running _ _ _ HC)].
    apply env_other, elsewhere_same; [|by apply (contract_spares q c s x s')].
    eapply contract_keyed; [|exact Hc]. apply (lf_configs _ _ _ (ck_life _ _ _ HC)).
Qed.

(** ** What a reconcile knows *)

(** [cl] is a Redkey the cache has shown, and no config is newer. *)
Record knowsRedkey (cl : Redkey) (C : Cached) (gens : list Z) : Prop := {
  kr_key : key_of KRedkey cl = req;
  kr_spec : specsOf C !! rk_Generation cl = Some (rk_Spec cl);
  kr_shown : 1 ≤ rk_Generation cl ≤ generationIn (shownRedkeys C);
  kr_bound : Forall (λ g, g ≤ rk_Generation cl) gens;
}.

(** [v] is a version of the store the config cache has shown, and no config newer
    than its newest is missing. *)
Record knowsConfigs (v : Store) (C : Cached) (gens : list Z) : Prop := {
  kc_fits : fits (specsOf C) gens v;
  kc_top : topIn v ≤ topIn (shownConfigs C);
  kc_covered : covered (topIn v) (Z.of_nat (length gens)) (nowOf C);
}.

Definition Read (cl : Redkey) (C : Cached) : Prop := ∃ o gens, cachedOk C o gens ∧ knowsRedkey cl C gens.
Definition Known (cl : Redkey) (v : Store) (C : Cached) : Prop :=
  ∃ o gens, cachedOk C o gens ∧ knowsRedkey cl C gens ∧ knowsConfigs v C gens.

Lemma knowsRedkey_quieter cl C C' gens : knowsRedkey cl C gens → quieter C C' → knowsRedkey cl C' gens.
Proof. intros [H1 H2 H3 H4] [Q1 Q2 Q3 Q4]. split; [done|by eapply lookup_weaken|lia|done]. Qed.

Lemma knowsConfigs_quieter v C C' gens : knowsConfigs v C gens → quieter C C' → knowsConfigs v C' gens.
Proof.
  intros [H1 H2 H3] [Q1 Q2 Q3 Q4]. split; [by eapply fits_mono|lia|by eapply covered_same].
Qed.

#[local] Instance Read_stable cl : Stable (Read cl).
Proof.
  split; [intros C (o & gens & HC & _); by exists o, gens|]. intros C C' (o & gens & HC & Hr) Hstep.
  destruct (cachedStep_ok C C' o gens HC Hstep) as (o' & HC' & Hq). exists o', gens.
  split; [done|by eapply knowsRedkey_quieter].
Qed.

#[local] Instance Known_stable cl v : Stable (Known cl v).
Proof.
  split; [intros C (o & gens & HC & _); by exists o, gens|]. intros C C' (o & gens & HC & Hr & Hc) Hstep.
  destruct (cachedStep_ok C C' o gens HC Hstep) as (o' & HC' & Hq). exists o', gens.
  split; [done|]. split; [by eapply knowsRedkey_quieter|by eapply knowsConfigs_quieter].
Qed.

Lemma Known_read cl v C : Known cl v C → Read cl C.
Proof. intros (o & gens & HC & Hr & _). by exists o, gens. Qed.

(** Reads change nothing. *)
Lemma orderly_read (P : Cached → Prop) `{!Stable P} (C : Cached) :
  P C → P (moveTo C (mkSys (nowOf C) (specsOf C))).
Proof.
  intros HP. destruct (stable_orderly C HP) as (o & gens & HC). apply (stable_others C); [done|].
  destruct C as [[s specs] qr qc]. apply cs_world; [|apply (ck_running _ _ _ HC)].
  apply env_other, elsewhere_same; [|done]. apply (lf_configs _ _ _ (ck_life _ _ _ HC)).
Qed.

(** ** Deleting superseded configs *)

(** The configs of [s'] are those of [s], some older than [t] apart. *)
Record trimmed (t : Z) (s s' : Store) : Prop := {
  tm_ok : configsOk req s';
  tm_sub : ∀ c, c ∈ clusterConfigs req s' → c ∈ clusterConfigs req s;
  tm_keep : ∀ c, c ∈ clusterConfigs req s → t ≤ seqOf c → c ∈ clusterConfigs req s';
  tm_top : t ≤ topIn s → topIn s' = topIn s;
}.

Lemma topIn_last s c : last (clusterConfigs req s) = Some c → topIn s = seqOf c.
Proof. intros Hc. unfold topIn. by rewrite Hc. Qed.

Lemma trimmed_sdel s n t :
  configsOk req s → 1 ≤ n < t →
  trimmed t s (sdel KRedkeyConfig (mkKey (nn_Namespace req) (configName (nn_Name req) n)) s).
Proof.
  intros Hok Hn. set (key := mkKey _ _). pose proof (co_keyed _ _ Hok) as Hk.
  assert (Hk' : keyed (sdel KRedkeyConfig key s)) by by apply sdel_keyed.
  pose proof (pruned_sdel key s) as Hp.
  destruct (clusterConfigs_pruned req [key] s _ Hok Hk' Hp) as (Hok' & Hsub & Hlast).
  assert (Hnot : ∀ c, c ∈ clusterConfigs req s → t ≤ seqOf c → cf_key c ∉ [key]).
  { intros c Hc Ht Hkey%list_elem_of_singleton. apply elem_of_clusterConfigs in Hc as [Hc _]; [|done]. rewrite Hkey in Hc.
    destruct (co_taken _ _ Hok n c) as [_ Hseq]; [lia|exact Hc|lia]. }
  split; [done| | |].
  - intros c Hc. by eapply elem_of_sublist.
  - intros c Hc Ht. apply elem_of_clusterConfigs; [done|].
    pose proof Hc as [Hc' Hsel]%elem_of_clusterConfigs; [|done]. split; [|done]. apply (pr_keep _ _ _ Hp); auto.
  - intros Ht. destruct (last (clusterConfigs req s)) as [c|] eqn:Hc.
    + rewrite (topIn_last s c Hc) in *. apply topIn_last, Hlast; [done|]. apply Hnot; [by apply last_Some_elem_of|done].
    + unfold topIn in Ht. rewrite Hc in Ht. simpl in Ht. lia.
Qed.

Lemma Known_trimmed cl v C s' :
  Known cl v C → st_redkeys s' = st_redkeys (nowOf C) → trimmed (topIn v) (nowOf C) s' →
  Known cl v (moveTo C (mkSys s' (specsOf C))).
Proof.
  intros (o & gens & HC & [R1 R2 R3 R4] & [K1 K2 K3]) Hrk [T1 T2 T3 T4].
  pose proof HC as [C1 C2 C3 C4 C5 C6 C7 C8 C9 C10 C11].
  assert (Hle : topIn (shownConfigs C) ≤ topIn (nowOf C)) by by apply shown_le.
  assert (Hcov : ∀ t, topIn v ≤ t → covered t (Z.of_nat (length gens)) (nowOf C) →
    covered t (Z.of_nat (length gens)) s').
  { intros t Ht Hc k Hk. destruct (Hc k Hk) as (c & Hc' & Hseq). exists c. split; [apply T3; [done|lia]|done]. }
  exists o, gens. split; [|split].
  - destruct C as [[s specs] qr qc]. cbn [ca_sys sy_store sy_specs] in *.
    pose proof (lf_range _ _ _ C1). apply (cachedOk_move _ _ o o gens gens); cbn [sy_store sy_specs]; try done.
    + apply (lifeOk_configs req s); [done|done|by rewrite Hrk].
    + lia.
    + apply Forall_forall. intros c Hc%T2. apply cachedOk_now in HC as [_ Hn].
      by apply (proj1 (Forall_forall _ _) Hn).
    + rewrite T4; [done|]. cbn [ca_sys sy_store] in *. lia.
    + by apply Hcov.
  - unfold moveTo. split; try done. unfold shownRedkeys. cbn [ca_sys ca_redkeys]. by rewrite hd_snoc.
  - unfold moveTo. split; [done| |by apply Hcov]. unfold shownConfigs. cbn [ca_sys ca_configs]. by rewrite hd_snoc.
Qed.

Lemma elem_topIn s c : c ∈ clusterConfigs req s → seqOf c ≤ topIn s.
Proof.
  intros Hc. destruct (last (clusterConfigs req s)) as [d|] eqn:Hd.
  - rewrite (topIn_last s d Hd). by apply (StronglySorted_last _ _ d (clusterConfigs_sorted req s) Hd c).
  - apply last_None in Hd. by rewrite Hd in Hc; apply not_elem_of_nil in Hc.
Qed.

(** All configs but the newest listed one are older than it. *)
Lemma elem_take_topIn s i c :
  configsOk req s → (i < length (clusterConfigs req s))%nat → c ∈ take i (clusterConfigs req s) →
  seqOf c < topIn s.
Proof.
  intros Hok Hi Hc. pose proof (clusterConfigs_sequences req s Hok) as Hs.
  destruct (last (clusterConfigs req s)) as [d|] eqn:Hd; [|by apply last_None in Hd; rewrite Hd in Hi; simpl in Hi; lia].
  rewrite (topIn_last s d Hd). rewrite <- (take_drop i (clusterConfigs req s)), fmap_app in Hs.
  eapply (StronglySorted_app_1_elem_of Z.lt); [exact Hs|exact (list_elem_of_fmap_2 (λ c, seqOf c) _ c Hc)|].
  apply (list_elem_of_fmap_2 (λ c, seqOf c) _ d), last_Some_elem_of. rewrite <- (take_drop i (clusterConfigs req s)), last_app in Hd.
  destruct (last (drop i (clusterConfigs req s))) as [e|] eqn:E; [congruence|].
  apply last_None, (f_equal length) in E. rewrite length_drop in E. simpl in E. lia.
Qed.

Lemma superseded_known cl v i :
  (i < length (clusterConfigs req v))%nat →
  Forall (deletable (Known cl v)) (cf_key <$> take i (clusterConfigs req v)).
Proof.
  intros Hi. apply Forall_fmap, Forall_forall. intros c Hc C HC.
  apply (during_call _ (Known cl v)); [done|]. intros C1 x C2 H1 (c1 & s' & _ & _ & Hd & ->).
  assert (H2 : Known cl v (moveTo C1 (mkSys s' (specsOf C1)))); [|split; [by apply (stable_orderly (P := Known cl v))|done]].
  destruct x as [[]|e]; [|destruct Hd as [-> _]; by apply (orderly_read (Known cl v))].
  destruct Hd as [_ ->]. pose proof H1 as (o & gens & H2 & _ & [[Hv _] _ _]).
  destruct (co_named _ _ Hv c) as [-> Hpos]; [by eapply elem_of_sublist; [|apply sublist_take]|].
  apply Known_trimmed; [done..|]. apply trimmed_sdel; [apply (lf_configs _ _ _ (ck_life _ _ _ H2))|].
  split; [done|by eapply elem_take_topIn].
Qed.

(** ** Status writes *)

Lemma Known_status cl v C o s' rv st :
  st_redkeys (nowOf C) !! req = Some o → keyed s' → st_configs s' = st_configs (nowOf C) →
  st_redkeys s' = <[req := withStatus o rv st]> (st_redkeys (nowOf C)) →
  rst_ObservedGeneration st = rk_Generation cl →
  Known cl v C → Known cl v (moveTo C (mkSys s' (specsOf C))).
Proof.
  intros Ho Hk Hcfg Hrk Hst (o1 & gens & HC & HR & HV).
  pose proof HC as [C1 C2 C3 C4 C5 C6 C7 C8 C9 C10 C11]. pose proof (lf_live _ _ _ C1) as Hlive.
  rewrite Ho in Hlive. injection Hlive as <-.
  assert (Hcc : clusterConfigs req s' = configsNow C) by (unfold clusterConfigs, selected_configs; by rewrite Hcfg).
  pose proof (shown_le generationIn _ _ C7) as Hle. pose proof HR as [_ _ [R1 R2] _].
  unfold shownRedkeys in R2. unfold generationIn at 2 in Hle. rewrite Ho in Hle. simpl in Hle.
  pose proof (lf_range _ _ _ C1).
  assert (Hq : quieter C (moveTo C (mkSys s' (specsOf C)))) by (apply quieter_move; cbn [sy_store sy_specs]; by rewrite ?Hcc).
  exists (withStatus o rv st), gens. split; [|split; [by eapply knowsRedkey_quieter|by eapply knowsConfigs_quieter]].
  apply (cachedOk_move C _ o _ gens gens); cbn [sy_store sy_specs]; rewrite ?Hcc; try done.
  - apply lifeOk_status; try done. lia.
  - change (rk_Generation (withStatus o rv st)) with (rk_Generation o). lia.
  - apply (cachedOk_now _ _ _ HC).
  - rewrite <- C10. apply topIn_same. by rewrite Hcc.
  - eapply covered_same; [|exact C11]. by rewrite Hcc.
Qed.

Lemma known_publishable cl v : key_of KRedkey cl = req → publishable cl (Known cl v).
Proof.
  intros Hcl. split; rewrite Hcl.
  - intros C HC. apply (during_call _ (Known cl v)); [done|].
    intros C1 x C2 H1 (c & s' & Hcr & _ & [-> Hx] & ->).
    assert (H2 : Known cl v (moveTo C1 (mkSys (nowOf C1) (specsOf C1)))) by by apply (orderly_read (Known cl v)).
    split; [by apply (stable_orderly (P := Known cl v))|]. split; [done|]. split; [done|].
    destruct x as [latest|e]; [|done].
    destruct H1 as (o & gens & HC1 & _). pose proof (ck_redkeys _ _ _ HC1) as Hall.
    destruct (proj1 (Forall_forall _ _) Hall _ (shown_elem _ _)) as [Hk _].
    apply (Hk KRedkey). change (st_redkeys (shownRedkeys C1) !! req = Some latest). by rewrite <- Hcr.
  - intros latest st C HC Hkey Hst. apply (during_call _ (Known cl v)); [done|].
    intros C1 x C2 H1 (c & s' & _ & _ & Hw & ->).
    assert (H2 : Known cl v (moveTo C1 (mkSys s' (specsOf C1)))); [|split; [by apply (stable_orderly (P := Known cl v))|done]].
    pose proof H1 as (o & gens & HC1 & _). pose proof (lf_live _ _ _ (ck_life _ _ _ HC1)) as Hlive.
    assert (Hk' : keyed s') by (eapply contract_keyed; [|exact Hw]; apply (lf_configs _ _ _ (ck_life _ _ _ HC1))).
    destruct x as [o'|e]; [|simpl in Hw; subst s'; by apply (orderly_read (Known cl v))].
    destruct Hw as (cur & rv & Hcur & _ & -> & ->). simpl in Hcur.
    change (key_of KRedkey (set_rk_Status st latest)) with (key_of KRedkey latest) in *. rewrite Hkey in *.
    injection (eq_trans (eq_sym Hcur) Hlive) as ->.
    by apply (Known_status cl v C1 o _ rv st).
Qed.

(** ** Creating the config that is due *)

Lemma length_bound gens b :
  StronglySorted Z.lt gens → Forall (λ g, 1 ≤ g) gens → Forall (λ g, g ≤ b) gens → 0 ≤ b →
  Z.of_nat (length gens) ≤ b.
Proof.
  intros Hs Hpos Hb H0'. destruct (last gens) as [g|] eqn:Hg; [|by apply last_None in Hg as ->].
  rewrite last_lookup in Hg. pose proof (sorted_position gens 1 _ g Hs Hpos Hg).
  pose proof (Forall_lookup_1 _ _ _ _ Hb Hg). simpl in *. lia.
Qed.

Lemma nextSequence_top s :
  configsOk req s → topIn s < 2 ^ 63 - 1 → 0 ≤ topIn s ∧ nextSequence (last (clusterConfigs req s)) = topIn s + 1.
Proof.
  intros Hok Ht. unfold topIn in *. destruct (last (clusterConfigs req s)) as [c|] eqn:Hc; simpl in *; [|done].
  destruct (co_named _ _ Hok c) as [_ Hpos]; [by apply last_Some_elem_of|].
  split; [lia|]. rewrite int64_id; [done|unfold in_int64; lia].
Qed.

(** A create that succeeds had seen the newest config. *)
Lemma create_seen v C o gens c :
  cachedOk C o gens → knowsConfigs v C gens → storedConfig req (topIn v + 1) c →
  st_configs (nowOf C) !! cf_key c = None → topIn v = Z.of_nat (length gens).
Proof.
  intros HC [_ Hle Hcov] (Hkey & _ & _) Hnone.
  pose proof (shown_le topIn _ _ (ck_onward _ _ _ HC)) as Htop. rewrite (ck_top _ _ _ HC) in Htop.
  unfold shownConfigs in Hle. apply Z.le_antisymm; [lia|]. apply Z.nlt_ge. intros Hlt.
  destruct (Hcov (topIn v + 1)) as (d & Hd & Hseq); [lia|].
  destruct (cachedOk_now _ _ _ HC) as [Hok _]. destruct (co_named _ _ Hok d Hd) as [Hdk _].
  apply elem_of_clusterConfigs in Hd as [Hd _]; [|apply Hok].
  rewrite Hdk, Hseq, <- Hkey in Hd. congruence.
Qed.

(** And was for a newer generation than any before. *)
Lemma create_newer cl v C gens :
  knowsConfigs v C gens → topIn v = Z.of_nat (length gens) → StronglySorted Z.lt gens →
  rs_Primaries (rk_Spec cl) ≠ 0 → configDue cl (clusterConfigs req v) = true →
  Forall (λ g, g < rk_Generation cl) gens.
Proof.
  intros [[Hok Hn] _ _] Htop Hs Hp Hdue. destruct (last gens) as [g|] eqn:Hg; [|by apply last_None in Hg as ->].
  assert (Hlast : last (clusterConfigs req v) ≠ None).
  { intros Hnone. unfold topIn in Htop. rewrite Hnone in Htop. simpl in Htop. by destruct gens. }
  destruct (last (clusterConfigs req v)) as [d|] eqn:Hd; [|done].
  rewrite (topIn_last v d Hd) in Htop.
  destruct (proj1 (Forall_forall _ _) Hn d) as (g' & Hg' & Hgen & _); [by apply last_Some_elem_of|].
  rewrite last_lookup in Hg. replace (Z.to_nat (seqOf d - 1)) with (pred (length gens)) in Hg' by lia.
  assert (g' = g) as -> by congruence. pose proof (due_newer cl _ d g Hp Hdue Hd Hgen) as Hlt.
  rewrite <- last_lookup in Hg. apply last_Some in Hg as (gens0 & ->).
  apply Forall_app. split; [|by repeat constructor]. apply Forall_forall. intros x Hx.
  assert (x < g) by (eapply (StronglySorted_app_1_elem_of Z.lt); [exact Hs|exact Hx|left]). lia.
Qed.

Lemma Known_create cl v C c :
  Known cl v C → configDue cl (clusterConfigs req v) = true →
  createdFor cl (nextSequence (last (clusterConfigs req v))) c →
  st_configs (nowOf C) !! cf_key c = None →
  Read cl (moveTo C (mkSys (sput KRedkeyConfig (cf_key c) c (nowOf C)) (specsOf C))).
Proof.
  intros (o & gens & HC & [R1 R2 R3 R4] & HV) Hdue Hc Hnone.
  pose proof HC as [C1 C2 C3 C4 C5 C6 C7 C8 C9 C10 C11]. pose proof (C2 _ _ R2) as Hp.
  pose proof (lf_range _ _ _ C1) as Hr. pose proof (lf_live _ _ _ C1) as Hlive.
  pose proof (shown_le generationIn _ _ C7) as Hle. unfold generationIn at 2 in Hle. rewrite Hlive in Hle. simpl in Hle.
  pose proof (shown_le topIn _ _ C9) as Htop. fold (shownRedkeys C) in Hle. fold (shownConfigs C) in Htop.
  pose proof (length_bound gens (rk_Generation cl) C3 C4 R4 ltac:(lia)) as Hlen.
  pose proof HV as [[Hvok _] Hvle _].
  destruct (nextSequence_top v Hvok) as [Hv0 Hnext]; [lia|]. rewrite Hnext in Hc.
  pose proof (createdFor_stored cl _ c Hc) as Hst. rewrite R1 in Hst.
  pose proof (create_seen v C o gens c HC HV Hst Hnone) as Hseen.
  pose proof (create_newer cl v C gens HV Hseen C3 Hp Hdue) as Hnew.
  destruct (createdFor_snapshot (specsOf C) cl (topIn v + 1) c) as [Hsnap Hseq]; [unfold in_int64; lia|done|done|].
  destruct (cachedOk_now _ _ _ HC) as [Hok Hnum].
  assert (Hcc : clusterConfigs req (sput KRedkeyConfig (cf_key c) c (nowOf C)) = configsNow C ++ [c]).
  { apply (clusterConfigs_create req (nowOf C) c (topIn v + 1)); [done|lia|done|done|].
    intros d Hd%elem_topIn. lia. }
  set (gens' := gens ++ [rk_Generation cl]).
  assert (Hlen' : Z.of_nat (length gens') = topIn v + 1) by (unfold gens'; rewrite length_app; simpl; lia).
  assert (Hpre : gens `prefix_of` gens') by by apply prefix_app_r.
  exists o, gens'. split.
  - apply (cachedOk_move C _ o o gens gens'); cbn [sy_store sy_specs]; try done; rewrite ?Hcc.
    + destruct C as [[s specs] qr qc]. apply (lifeOk_configs req s); [done| |done].
      by apply (configsOk_create req s c (topIn v + 1)); [|lia|..].
    + lia.
    + apply StronglySorted_app_2; [|done|by repeat constructor]. intros x y Hx ->%list_elem_of_singleton.
      by apply (proj1 (Forall_forall _ _) Hnew).
    + apply Forall_app. split; [done|]. constructor; [lia|constructor].
    + apply Forall_app. split; [done|]. constructor; [lia|constructor].
    + apply Forall_app. split; [eapply Forall_impl; [exact Hnum|]; intros d; by apply numbered_mono|].
      constructor; [|constructor]. exists (rk_Generation cl). split; [|done].
      rewrite Hseq. replace (Z.to_nat (topIn v + 1 - 1)) with (length gens) by lia.
      unfold gens'. by rewrite lookup_app_r, Nat.sub_diag.
    + unfold topIn. rewrite Hcc, last_snoc. simpl. lia.
    + intros k Hk. rewrite Hcc. destruct (decide (k = topIn v + 1)) as [->|Hne].
      { exists c. split; [apply elem_of_app; right; left|done]. }
      destruct (C11 k) as (d & Hd & Hdk); [lia|]. exists d. split; [apply elem_of_app; by left|done].
  - split; [done|done| |].
    + unfold shownRedkeys, moveTo. cbn [ca_sys ca_redkeys]. by rewrite hd_snoc.
    + apply Forall_app. split; [done|]. constructor; [lia|constructor].
Qed.

(** ** A whole reconcile *)

(** The configs, as the cache shows them. *)
Lemma stale_list cl (P : Cached → Prop) `{!Stable P} (Q : res error (list RedkeyConfig) → Cached → Prop) C :
  (∀ C1, P C1 → Read cl C1) → P C →
  (∀ C1 v, Known cl v C1 → Q (Ok (clusterConfigs req v)) C1) → (∀ C1 e, P C1 → Q (Err e) C1) →
  during (listConfigs cl) Q C.
Proof.
  intros HP HC HQ1 HQ2. apply during_go_bind, (during_call _ P); [done|].
  intros C1 x C2 H1 (c & s' & _ & Hcc & [-> Hl] & ->).
  assert (H2 : P (moveTo C1 (mkSys (nowOf C1) (specsOf C1)))) by by apply (orderly_read P).
  split; [by apply (stable_orderly (P := P))|]. split; [done|]. destruct x as [l|e]; [|by apply HQ2].
  destruct (HP _ H1) as (o & gens & HC1 & HR). pose proof (ck_configs _ _ _ HC1) as Hall.
  pose proof (proj1 (Forall_forall _ _) Hall _ (shown_elem _ _)) as Hfits. fold (shownConfigs C1) in Hfits.
  assert (Hsel : l ≡ₚ selected_configs (nn_Namespace req) (nn_Name req) (shownConfigs C1)).
  { pose proof (kr_key _ _ _ HR) as Hkey. unfold selected_configs in *. rewrite Hcc in Hl.
    by rewrite <- Hkey. }
  apply during_ret. rewrite (selected_perm_sorted req _ l (proj1 Hfits) Hsel). apply HQ1.
  apply (orderly_read (Known cl (shownConfigs C1))). exists o, gens. split; [done|]. split; [done|].
  split; [done|done|apply HC1].
Qed.

Lemma stale_create cl v C :
  Known cl v C → configDue cl (clusterConfigs req v) = true →
  during (createNewConfig cl (last (clusterConfigs req v))) (λ _, Read cl) C.
Proof.
  intros HC Hdue. unfold createNewConfig. set (n := nextSequence _).
  destruct (newConfig_owner cl n) as [refs ->].
  apply during_bind, (during_call _ (Known cl v)); [done|].
  intros C1 x C2 H1 (c1 & s' & _ & _ & Hc & ->).
  assert (H2 : Read cl (moveTo C1 (mkSys s' (specsOf C1)))).
  { destruct x as [[]|e]; [|destruct Hc as [-> _]; by apply (orderly_read (Read cl)), (Known_read cl v)].
    destruct Hc as (Hnone & c & (Hmeta & Hspec & Hst) & ->).
    assert (Hc : createdFor cl n c).
    { split; [done|]. split; [done|]. destruct Hmeta as (G1 & G2 & G3 & G4 & _).
      exact (conj G1 (conj G2 (conj G3 (conj G4 eq_refl)))). }
    pose proof (createdFor_stored cl n c Hc) as (Hkey & _ & _).
    assert (Heq : key_of KRedkeyConfig (set_cf_Meta (set_om_OwnerReferences refs (cf_Meta (newConfig cl n)))
      (newConfig cl n)) = cf_key c) by by rewrite Hkey.
    rewrite Heq in Hnone |- *. by apply (Known_create cl v). }
  split; [by apply (stable_orderly (P := Read cl))|]. split; [done|]. destruct x as [[]|e].
  - apply during_bind. eapply during_mono; [by apply (during_spares _ (Read cl))|]. by intros [] C3.
  - case_match; by apply during_ret.
Qed.

Lemma stale_finish cl v C :
  Known cl v C → during (finishReconcile r cl (clusterConfigs req v)) (λ _, Read cl) C.
Proof.
  intros HC. apply (during_mono _ (λ _, Known cl v)); [|intros _ C'; apply Known_read].
  apply (during_finish (Known cl v)); [|by intros i; apply superseded_known|done].
  apply known_publishable. destruct HC as (o & gens & _ & HR & _). exact (kr_key _ _ _ HR).
Qed.

Lemma stale_running cl C :
  Read cl C → rs_Primaries (rk_Spec cl) ≠ 0 →
  during (at_stage "ensure_rbac" (ensureRBAC cl) (λ _,
      at_stage "ensure_robin_deployment" (ensureRobinDeployment cl) (λ _,
      at_stage "list_configs" (listConfigs cl) (λ configs,
        if bool_decide (length configs = 0%nat) || needsNewConfig cl (last configs) then
          at_stage "create_new_config" (createNewConfig cl (last configs)) (λ _,
          at_stage "list_configs" (listConfigs cl) (λ configs, finishReconcile r cl configs))
        else finishReconcile r cl configs)))) (λ _, Read cl) C.
Proof.
  intros HC Hp. destruct (spares_ensureRobin cl) as [Hrbac Hdep].
  apply (during_robin_stage _ _ _ (Read cl)); [done|done|]. intros _ C1 H1.
  apply (during_robin_stage _ _ _ (Read cl)); [done|done|]. intros _ C2 H2.
  apply (during_stage _ _ _ (Read cl)), (stale_list cl (Read cl)); [done|done| |done]. intros C3 v H3.
  assert (Hdue : configDue cl (clusterConfigs req v) =
      bool_decide (length (clusterConfigs req v) = 0%nat) || needsNewConfig cl (last (clusterConfigs req v)))
    by (unfold configDue; by rewrite bool_decide_eq_false_2).
  rewrite <- Hdue. destruct (configDue cl _) eqn:Hd; [|by apply stale_finish].
  apply (during_stage _ _ _ (Read cl)). eapply during_mono; [by apply (stale_create cl v)|].
  intros [[]|e] C4 H4; [|done].
  apply (during_stage _ _ _ (Read cl)), (stale_list cl (Read cl)); [done|done| |done].
  intros C5 v5. apply stale_finish.
Qed.

Lemma stale_Reconcile C : orderly C → during (Reconcile r req) (λ _, orderly) C.
Proof.
  intros HC. apply during_bind, (during_call _ orderly); [done|].
  intros C1 x C2 H1 (c & s' & Hcr & _ & [-> Hx] & ->).
  assert (H2 : orderly (moveTo C1 (mkSys (nowOf C1) (specsOf C1)))) by by apply (orderly_read orderly).
  split; [done|]. split; [done|]. destruct H1 as (o & gens & HC1). pose proof (ck_redkeys _ _ _ HC1) as Hall.
  destruct (proj1 (Forall_forall _ _) Hall _ (shown_elem _ _)) as (Hk & w & Hw & Hsp & Hg).
  fold (shownRedkeys C1) in Hw. change (sget KRedkey c) with (st_redkeys c) in Hx. rewrite Hcr in Hx.
  destruct x as [cl|e].
  - injection (eq_trans (eq_sym Hx) Hw) as ->.
    assert (HR : Read w (moveTo C1 (mkSys (nowOf C1) (specsOf C1)))).
    { apply (orderly_read (Read w)). exists o, gens. split; [done|]. split; [by apply (Hk KRedkey)|done| |].
      - unfold generationIn. rewrite Hw. simpl. lia.
      - pose proof (ck_bound _ _ _ HC1) as Hb. unfold generationIn in Hb. by rewrite Hw in Hb. }
    pose proof (ck_running _ _ _ HC1 _ _ Hsp) as Hp. rewrite bool_decide_eq_false_2 by done.
    apply (during_mono _ (λ _, Read w)); [by apply stale_running|intros _ C3; apply stable_orderly].
  - destruct (IsNotFound e) eqn:He; [discriminate (eq_trans (eq_sym Hw) (Hx eq_refl))|].
    by apply (during_spares (stageError "get_cluster" e) orderly).
Qed.

(** ** Every moment *)

Definition cachedRun : relation (Cached * option (prog (Result * option error))) :=
  interleaved (Reconcile r req).

Lemma initial_cached S o : initial req S o → running (sy_specs S) → orderly (mkCached S [] []).
Proof.
  intros [I1 I2 I3 I4 I6 I7 I8] Hrun. exists o, []. split; cbn [ca_sys ca_redkeys ca_configs]; try done; try (by constructor).
  - split; try done; rewrite ?I3, ?I4, ?I6; try lia; [by rewrite lookup_singleton_eq|].
    intros g spec [<- _]%lookup_singleton_Some. done.
  - constructor; [|constructor]. split; [apply I7|]. exists o. rewrite I6, I3, lookup_singleton_eq. split; [done|]. split; [done|lia].
  - repeat constructor.
  - constructor; [|constructor]. split; [done|]. by rewrite I8.
  - repeat constructor.
  - unfold topIn. by rewrite I8.
  - intros k Hk. change (topIn (sy_store S) < k ≤ 0) in Hk. unfold topIn in Hk. rewrite I8 in Hk. simpl in Hk. lia.
Qed.

Lemma reachable_cached S o C p :
  initial req S o → running (sy_specs S) → rtc cachedRun (mkCached S [] [], None) (C, p) → ∃ o2 gens, cachedOk C o2 gens.
Proof.
  intros Hi Hrun Hrtc.
  assert (Hst : steady (mkCached S [] [], @None (prog (Result * option error)))) by (split; [by eapply initial_cached|done]).
  by destruct (reachable_steady (Reconcile r req) _ _ stale_Reconcile Hst Hrtc) as [HC _].
Qed.

(** Configs made from the same generations in the same order. *)
Lemma numbered_order specs gens s :
  configsOk req s → StronglySorted Z.lt gens → Forall (numbered specs gens) (clusterConfigs req s) →
  ∃ gens', StronglySorted Z.lt gens' ∧ (∀ g, g ∈ gens' → g ∈ gens) ∧
    Forall2 (snapshotOf specs) gens' (clusterConfigs req s).
Proof.
  intros Hok Hs. pose proof (clusterConfigs_sequences req s Hok) as Hseq.
  assert (Hpos : ∀ c, c ∈ clusterConfigs req s → 1 ≤ seqOf c) by (intros c Hc; by apply (co_named _ _ Hok)).
  revert Hseq Hpos. generalize (clusterConfigs req s). induction l as [|c l IH]; intros Hseq Hpos Hnum.
  { exists []. split; [constructor|]. split; [by intros g Hg%not_elem_of_nil|constructor]. }
  rewrite fmap_cons in Hseq. apply StronglySorted_inv in Hseq as [Hseq Hc].
  apply Forall_cons in Hnum as [(g & Hg & Hsnap) Hnum].
  destruct IH as (gens' & G1 & G2 & G3); [done|intros d Hd; apply Hpos; by right|done|].
  exists (g :: gens'). split; [|split; [|by constructor]].
  - constructor; [done|]. apply Forall_forall. intros x Hx.
    apply list_elem_of_lookup in Hx as [i Hi]. destruct (Forall2_lookup_l _ _ _ _ _ G3 Hi) as (d & Hd & Hsd).
    destruct (Forall_lookup_1 _ _ _ _ Hnum Hd) as (g' & Hg' & Hsd').
    rewrite (snapshotOf_functional specs x g' d Hsd Hsd').
    pose proof (list_elem_of_lookup_2 _ _ _ Hd) as Hin.
    assert (seqOf c < seqOf d).
    { apply (proj1 (Forall_forall _ _) Hc). by apply (list_elem_of_fmap_2 (λ c, seqOf c)). }
    assert (1 ≤ seqOf c) by (apply Hpos; left).
    eapply (sorted_lookup Z.lt); [exact Hs|exact Hg|exact Hg'|lia].
  - intros x [->|Hx]%elem_of_cons; [by eapply list_elem_of_lookup_2|by apply G2].
Qed.

(** C3: no cache lag disorders the configs.  Let the reads of the operator be
    answered from caches that lag behind the store by any number of versions, each
    kind by its own, and only ever move forward; let the user, Robin and others
    write at any moment, and requests fail and reconciles stop anywhere.  As long as
    no spec asks for zero primaries, at every moment both the stored configs and
    those the cache shows carry strictly increasing sequences and were made from
    strictly increasing generations, each with the spec the user wrote at its
    generation, and a sequence is never used for two generations. *)
Theorem configs_ordered_under_stale_caches (S : Sys) (o : Redkey) (C : Cached)
    (p : option (prog (Result * option error))) :
  initial req S o → running (sy_specs S) → rtc cachedRun (mkCached S [] [], None) (C, p) →
  (∀ s, s = nowOf C ∨ s = shownConfigs C →
    StronglySorted Z.lt ((λ c, seqOf c) <$> clusterConfigs req s) ∧
    ∃ gens, StronglySorted Z.lt gens ∧ Forall2 (snapshotOf (specsOf C)) gens (clusterConfigs req s)) ∧
  (∀ c d g, c ∈ clusterConfigs req (shownConfigs C) → d ∈ configsNow C → seqOf c = seqOf d →
    configGeneration c = Ok g → configGeneration d = Ok g) ∧
  ∃ o2, st_redkeys (nowOf C) !! req = Some o2 ∧ specsOf C !! rk_Generation o2 = Some (rk_Spec o2) ∧
    ∀ d, d ∈ configsNow C → ∃ g, configGeneration d = Ok g ∧ g ≤ rk_Generation o2.
Proof.
  intros Hi Hrun Hrtc. destruct (reachable_cached S o C p Hi Hrun Hrtc) as (o2 & gens & HC). pose proof HC as [C1 C2 C3 C4 C5 C6 C7 C8 C9 C10 C11].
  destruct (cachedOk_now _ _ _ HC) as [Hok Hnum].
  destruct (proj1 (Forall_forall _ _) C8 _ (shown_elem _ _)) as [Hok' Hnum']. fold (shownConfigs C) in Hok', Hnum'.
  split; [|split].
  - intros s Hs. assert (Hf : fits (specsOf C) gens s) by by destruct Hs as [->| ->].
    destruct Hf as [Hs1 Hs2]. split; [by apply clusterConfigs_sequences|].
    destruct (numbered_order _ _ _ Hs1 C3 Hs2) as (gens' & G1 & _ & G2). by exists gens'.
  - intros c d g Hc Hd Heq Hg. destruct (proj1 (Forall_forall _ _) Hnum' c Hc) as (g1 & Hg1 & Hs1 & _).
    destruct (proj1 (Forall_forall _ _) Hnum d Hd) as (g2 & Hg2 & Hs2 & _).
    rewrite Heq in Hg1. congruence.
  - pose proof (lf_live _ _ _ C1) as Hlive. exists o2. split; [done|]. split; [apply C1|].
    intros d Hd. destruct (proj1 (Forall_forall _ _) Hnum d Hd) as (g & Hg & Hs & _). exists g. split; [done|].
    pose proof (shown_le generationIn _ _ C7) as Hle. unfold generationIn at 2 in Hle. rewrite Hlive in Hle.
    pose proof (Forall_lookup_1 _ _ _ _ C5 Hg) as Hb. unfold shownRedkeys in Hb. simpl in *. lia.
Qed.
End stale.

(** ** Witness: two reconciles before the caches move *)

Lemma cache_stays {T} (q : Req T) (w : FakeWorld) : fw_cache (fake_handle true q w).1 = fw_cache w.
Proof. destruct q; simpl; try done; repeat case_match; try done; by destruct k. Qed.

(** The caches show what the world's cache shows. *)
Record lagging (w : World true) (C : Cached) : Prop := {
  lg_now : sy_store (ca_sys C) = server w;
  lg_redkeys : st_redkeys (shownRedkeys C) = st_redkeys (fw_cache (w_raw w));
  lg_configs : st_configs (shownConfigs C) = st_configs (fw_cache (w_raw w));
}.

Lemma exec_lagging {A} (p : prog A) (w w' : World true) a C (task : prog A) :
  exec p w = (w', a) → lagging w C →
  ∃ C', rtc (interleaved (H := stale_interleaved (H := fake_lib) sampleKey) task) (C, Some p) (C', None) ∧ lagging w' C'.
Proof.
  revert w C. induction p as [a0|T q k IH]; intros w C; simpl.
  - intros [= <- <-] HC. exists C. split; [apply rtc_once, il_stop|done].
  - intros He HC. destruct (handle q w) as [w1 x] eqn:Hh. simpl in He.
    pose proof (fake_handle_contract true q (w_raw w) (w_raw w1) x (w_ok w)) as Hc.
    injection Hh as <- <-. cbn [w_raw] in Hc. specialize (Hc (surjective_pairing _)). rewrite cache_stays in Hc.
    set (w1 := {| w_raw := _ |}) in *.
    assert (HC1 : lagging w1 (moveTo C (mkSys (server w1) (sy_specs (ca_sys C))))).
    { destruct HC as [G1 G2 G3]. split; [done|..]; unfold shownRedkeys, shownConfigs, moveTo; cbn [ca_sys ca_redkeys ca_configs];
        rewrite hd_snoc; cbn [w1 w_raw]; rewrite cache_stays; [exact G2|exact G3]. }
    destruct (IH _ w1 _ He HC1) as (C' & Hrtc & HC'). exists C'. split; [|done].
    eapply rtc_l; [|exact Hrtc]. apply il_request. simpl. eexists. split; [|done].
    exists (fw_cache (w_raw w)), (server w1). destruct HC as [G1 G2 G3]. split; [done|]. split; [done|].
    split; [|done]. rewrite G1. exact Hc.
Qed.

Definition laggingWorld : World true := staleWorld newRedkey [] [].
Definition laggingReconcile : prog (Result * option error) :=
  Reconcile (H := fake_lib) (mkReconciler 30 1) sampleKey.
Definition laggingTwice : World true := (exec laggingReconcile (exec laggingReconcile laggingWorld).1).1.

(** One config is stored, and the caches show none. *)
Lemma laggingTwice_state :
  length (clusterConfigs sampleKey (server laggingTwice)) = 1%nat ∧
  clusterConfigs sampleKey (fw_cache (w_raw laggingTwice)) = [].
Proof. vm_compute. done. Qed.

Lemma laggingTwice_reached : ∃ C,
  rtc (cachedRun (H := fake_lib) (mkReconciler 30 1) sampleKey)
    (mkCached (mkSys (server newWorld) newSpecs) [] [], None) (C, None) ∧ lagging laggingTwice C.
Proof.
  set (C0 := mkCached (mkSys (server newWorld) newSpecs) [] []).
  destruct (exec_lagging laggingReconcile laggingWorld (exec laggingReconcile laggingWorld).1
    (exec laggingReconcile laggingWorld).2 C0 laggingReconcile) as (C1 & R1 & H1); [apply surjective_pairing|done|].
  destruct (exec_lagging laggingReconcile _ laggingTwice (exec laggingReconcile (exec laggingReconcile laggingWorld).1).2
    C1 laggingReconcile (surjective_pairing _) H1) as (C2 & R2 & H2).
  exists C2. split; [|done]. eapply rtc_l; [apply il_start|]. etrans; [exact R1|].
  eapply rtc_l; [apply il_start|exact R2].
Qed.

Lemma newSpecs_running : running newSpecs.
Proof. unfold running, newSpecs. intros g spec [_ <-]%lookup_singleton_Some. done. Qed.

Lemma configs_ordered_under_stale_caches_witness : ∃ C,
  lagging laggingTwice C ∧ length (clusterConfigs sampleKey (sy_store (ca_sys C))) = 1%nat ∧
  clusterConfigs sampleKey (shownConfigs C) = [] ∧
  StronglySorted Z.lt ((λ c, seqOf c) <$> clusterConfigs sampleKey (sy_store (ca_sys C))).
Proof.
  destruct laggingTwice_reached as (C & Hrtc & HC). exists C.
  destruct (configs_ordered_under_stale_caches (H := fake_lib) (mkReconciler 30 1) sampleKey
    (mkSys (server newWorld) newSpecs) newRedkey C None newWorld_initial newSpecs_running Hrtc) as [Hord _].
  destruct (Hord _ (or_introl eq_refl)) as [Hs _].
  split; [exact HC|]. destruct HC as [G1 _ G3]. destruct laggingTwice_state as [L1 L2].
  split; [by rewrite G1|]. split; [|exact Hs].
  unfold clusterConfigs, selected_configs in *. by rewrite G3.
Defined.
