(* ===== verification/CatchUp.v ===== *)
(** * After the caches have caught up

    What lagging caches leave behind, a later reconcile makes good: as long as the
    generation in force has not been marked observed, one reconcile that reads the
    store as it is hands it to Robin, whatever the caches had shown before. *)

From S2P Require Import Prelude GoLib K8s Types Effects Client Logic FakeCluster.
From S2P Require Import Robin Config Metrics ScaleZero Controller Samples RobinProofs ConfigProofs.
From S2P Require Import ConfigStore ControllerProofs Failing ScaleZeroProofs Validation.
From S2P Require Import Life Interleaving Reconciling System Stale.
Local Open Scope Z_scope.

Section catchup.
Context `{K8sLib, !K8sLaws} `{!KubeClient V, !KubeIdeal V}.
Context (r : RedkeyReconciler) (req : NamespacedName).

Lemma cachedOk_runnable C o gens :
  cachedOk req C o gens → revisionUnclaimed o → runnable o 1 (sy_store (ca_sys C)).
Proof.
  intros HC Hrev. pose proof (ck_life _ _ _ _ HC) as Hl. pose proof (lf_key _ _ _ Hl) as Hkey.
  split; rewrite ?Hkey; [apply Hl| |done|apply Hl|].
  - apply (ck_running _ _ _ _ HC (rk_Generation o)), Hl.
  - intros c Hc. pose proof (elem_topIn req _ c Hc) as Hle. rewrite (ck_top _ _ _ _ HC) in Hle.
    pose proof (lf_range _ _ _ Hl). pose proof (lf_live _ _ _ Hl) as Hlive.
    pose proof (shown_le (generationIn req) _ _ (ck_forward _ _ _ _ HC)) as Hsh.
    unfold generationIn at 2 in Hsh. rewrite Hlive in Hsh. simpl in Hsh.
    assert (Z.of_nat (length gens) ≤ rk_Generation o); [|lia].
    apply length_bound; [apply HC|apply HC| |lia].
    eapply Forall_impl; [apply (ck_bound _ _ _ _ HC)|]. unfold shownRedkeys. intros g Hg. simpl in Hg. lia.
Qed.

(** The newest config is not for a later generation than the one in force. *)
Lemma cachedOk_newest C o gens c g :
  cachedOk req C o gens → last (clusterConfigs req (sy_store (ca_sys C))) = Some c → configGeneration c = Ok g →
  g ≤ rk_Generation o ∧ snapshotOf (sy_specs (ca_sys C)) g c.
Proof.
  intros HC Hlast Hg. destruct (cachedOk_now _ _ _ _ HC) as [_ Hnum].
  destruct (proj1 (Forall_forall _ _) Hnum c (last_Some_elem_of _ _ Hlast)) as (g' & Hg' & Hs).
  assert (g' = g) as -> by (destruct Hs as [Hs _]; congruence). split; [|done].
  pose proof (shown_le (generationIn req) _ _ (ck_forward _ _ _ _ HC)) as Hsh.
  unfold generationIn at 2 in Hsh. rewrite (lf_live _ _ _ (ck_life _ _ _ _ HC)) in Hsh.
  pose proof (Forall_lookup_1 _ _ _ _ (ck_bound _ _ _ _ HC) Hg') as Hb. unfold shownRedkeys in Hb. simpl in *. lia.
Qed.

(** What is due is made, and what is not due is there. *)
Lemma withNewConfig_newest C o gens configs :
  cachedOk req C o gens → rst_ObservedGeneration (rk_Status o) < rk_Generation o →
  withNewConfig o (clusterConfigs req (sy_store (ca_sys C))) configs →
  ∃ c, last configs = Some c ∧ snapshotOf (sy_specs (ca_sys C)) (rk_Generation o) c.
Proof.
  intros HC Hob. pose proof (ck_life _ _ _ _ HC) as Hl. pose proof (lf_range _ _ _ Hl) as Hr.
  unfold withNewConfig. destruct (bool_decide _ || _) eqn:Hdue.
  - intros (c & Hc & ->). exists c. rewrite last_snoc. split; [done|].
    eapply createdFor_snapshot; [unfold in_int64; lia|apply Hl|exact Hc].
  - intros ->. apply orb_false_iff in Hdue as [Hne Hneed].
    destruct (last (clusterConfigs req (sy_store (ca_sys C)))) as [c|] eqn:Hlast; last first.
    { apply last_None in Hlast. by rewrite Hlast in Hne. }
    exists c. split; [done|].
    assert (Hex : ∃ g, configGeneration c = Ok g ∧ rk_Generation o ≤ g).
    { destruct (configGeneration c) as [g|e] eqn:Hg; [exists g; split; [done|]; apply Z.nlt_ge; intros Hlt|exfalso];
        apply not_true_iff_false in Hneed; apply Hneed, needsNewConfig_iff; (split; [done|]); intros d g' [= <-]; congruence. }
    destruct Hex as (g & Hg & Hge). destruct (cachedOk_newest C o gens c g HC Hlast Hg) as [Hle Hs].
    by replace (rk_Generation o) with g by lia.
Qed.

(** C4: no unmarked generation is lost to lagging caches.  Let reads lag behind the
    store in any way, requests fail and reconciles stop anywhere, on a cluster none of
    whose specs asks for zero primaries.  If the generation in force has not been
    marked observed (as after any edit of the spec) and its spec leaves the revision
    annotation alone, then once the caches have caught up and requests go
    through one reconcile succeeds, the newest config is for that generation and
    carries its spec, and only then the generation is marked observed. *)
Theorem unobserved_generation_served (S : Sys) (o o1 : Redkey) (C : Cached)
    (p : option (prog (Result * option error))) (v v' : V) (out : Result * option error) :
  initial req S o → running (sy_specs S) → rtc (cachedRun r req) (mkCached S [] [], None) (C, p) →
  server v = sy_store (ca_sys C) → st_redkeys (server v) !! req = Some o1 →
  rst_ObservedGeneration (rk_Status o1) < rk_Generation o1 → revisionUnclaimed o1 →
  exec (Reconcile r req) v = (v', out) →
  out = (mkResult (ResyncInterval r), None) ∧
  ∃ o2 c, st_redkeys (server v') !! req = Some o2 ∧ rk_Spec o2 = rk_Spec o1 ∧ rk_Generation o2 = rk_Generation o1 ∧
    rst_ObservedGeneration (rk_Status o2) = rk_Generation o1 ∧
    last (clusterConfigs req (server v')) = Some c ∧ configGeneration c = Ok (rk_Generation o1) ∧
    carries (rk_Spec o1) (cf_Spec c).
Proof.
  intros Hi Hrun Hrtc Hv Ho1 Hob Hrev He. destruct (reachable_cached r req S o C p Hi Hrun Hrtc) as (o1' & gens & HC).
  pose proof (ck_life _ _ _ _ HC) as Hl. pose proof (lf_live _ _ _ Hl) as Hlive. rewrite <- Hv, Ho1 in Hlive.
  injection Hlive as <-. pose proof (lf_key _ _ _ Hl) as Hkey.
  pose proof (cachedOk_runnable C o1 gens HC Hrev) as Hrn. rewrite <- Hv in Hrn.
  pose proof (wp_Reconcile r o1 v (λ out v', out = (mkResult (ResyncInterval r), None) ∧ reconciled o1 (server v) (server v'))
    Hrn (λ v' H, conj eq_refl H)) as Hwp. rewrite Hkey in Hwp.
  destruct (wp_exec _ _ _ _ _ Hwp He) as [-> [_ _ (configs & Hnew & Hafter) _ (active & rv & now & _ & Hst) _]].
  rewrite Hkey in *. split; [done|]. rewrite Hv in Hnew.
  destruct (withNewConfig_newest C o1 gens configs HC Hob Hnew) as (c & Hc & [Hg (spec & Hs & Hcar)]).
  rewrite (lf_spec _ _ _ Hl) in Hs. injection Hs as <-.
  destruct (keepApplied_suffix configs) as (gone & _ & Hlast).
  eexists _, c. rewrite Hst, lookup_insert_eq, Hafter, Hlast. split; [done|]. do 3 (split; [done|]). by split.
Qed.
End catchup.

(** ** Witness: two reconciles before the caches move, and one after *)

(** The same world, read as it is. *)
Definition caughtUpWith (w : World true) : World false := {| w_raw := w_raw w; w_ok := w_ok w |}.

Lemma caughtUpWith_server w : server (caughtUpWith w) = server w.
Proof. done. Qed.

Lemma caughtUpWith_state :
  let w := caughtUpWith laggingTwice in
  ∃ o, st_redkeys (server w) !! sampleKey = Some o ∧ rst_ObservedGeneration (rk_Status o) < rk_Generation o ∧
    revisionUnclaimed o ∧ length (clusterConfigs sampleKey (server w)) = 1%nat.
Proof.
  intros w. assert (Hs : (λ o, (rst_ObservedGeneration (rk_Status o) <? rk_Generation o, rs_Annotations (rk_Spec o))) <$>
    st_redkeys (server w) !! sampleKey = Some (true, None))
    by (vm_compute; reflexivity).
  destruct (st_redkeys (server w) !! sampleKey) as [o|]; [|discriminate Hs]. exists o. injection Hs as Hs%Z.ltb_lt Ha.
  split; [done|]. split; [done|]. split; [intros [v Hv]; rewrite Ha in Hv; discriminate Hv|]. vm_compute. reflexivity.
Qed.

Lemma unobserved_generation_served_witness :
  ∃ o2 c, let w' := (exec (Reconcile (H := fake_lib) (mkReconciler 30 1) sampleKey) (caughtUpWith laggingTwice)).1 in
    st_redkeys (server w') !! sampleKey = Some o2 ∧ last (clusterConfigs sampleKey (server w')) = Some c ∧
    configGeneration c = Ok (rst_ObservedGeneration (rk_Status o2)).
Proof.
  destruct laggingTwice_reached as (C & Hrtc & HC). destruct caughtUpWith_state as (o1 & Ho1 & Hlt & Hrev & _).
  destruct (unobserved_generation_served (H := fake_lib) (V := World false) (mkReconciler 30 1) sampleKey
    (mkSys (server newWorld) newSpecs) newRedkey o1 C None (caughtUpWith laggingTwice) _ _ newWorld_initial newSpecs_running Hrtc
    (eq_trans (caughtUpWith_server _) (eq_sym (lg_now _ _ HC))) Ho1 Hlt Hrev (surjective_pairing (exec (Reconcile (mkReconciler 30 1) sampleKey) (caughtUpWith laggingTwice))))
    as (_ & o2 & c & H1 & _ & _ & H2 & H3 & H4 & _).
  exists o2, c. split; [exact H1|]. split; [exact H3|]. by rewrite H2.
Defined.
