(* ===== verification/RedisClient.v ===== *)
(** * The end-to-end tests' view of a Redis cluster (test/e2e/framework/redisclient.go)

    Parsing of CLUSTER INFO and CLUSTER NODES, the health check the tests rely on,
    the commands they run in pods, and the round trip through what Redis prints.
    Running a command in a pod is a parameter. *)

From Stdlib Require Import Ascii.
From S2P Require Import Prelude GoLib K8s Types Effects.
Local Open Scope Z_scope.

Definition newline : ascii := ascii_of_nat 10.

(** ** CLUSTER INFO *)

Record ClusterInfo := mkClusterInfo {
  ci_State : string;
  ci_SlotsAssigned : Z;
  ci_SlotsOK : Z;
  ci_SlotsPFail : Z;
  ci_SlotsFail : Z;
  ci_KnownNodes : Z;
  ci_ClusterSize : Z;
  ci_MessagesSent : Z;
  ci_MessagesReceived : Z;
}.

Definition emptyClusterInfo : ClusterInfo := mkClusterInfo "" 0 0 0 0 0 0 0 0.

(** [n, _ = strconv.Atoi(value)]: the value next to the error is zero for text
    that is not a number and the nearest bound for one that is out of range. *)
Definition Atoi_ignoring_error (s : string) : Z :=
  match ParseInt s with
  | Ok z => z
  | Err ErrSyntax => 0
  | Err ErrRange => match s with String "-"%char _ => - 2 ^ 63 | _ => 2 ^ 63 - 1 end
  end.

(** [strings.SplitN(line, ":", 2)] when it has two parts. *)
Fixpoint cut (sep : ascii) (s : string) : option (string * string) :=
  match s with
  | EmptyString => None
  | String a s' =>
      if bool_decide (a = sep) then Some ("", s')
      else match cut sep s' with Some (l, r) => Some (String a l, r) | None => None end
  end.

(** The [switch] on one key. *)
Definition setInfo (info : ClusterInfo) (key value : string) : ClusterInfo :=
  let '(mkClusterInfo st sa so sp sf kn cs ms mr) := info in
  let n := Atoi_ignoring_error value in
  if bool_decide (key = "cluster_state") then mkClusterInfo value sa so sp sf kn cs ms mr
  else if bool_decide (key = "cluster_slots_assigned") then mkClusterInfo st n so sp sf kn cs ms mr
  else if bool_decide (key = "cluster_slots_ok") then mkClusterInfo st sa n sp sf kn cs ms mr
  else if bool_decide (key = "cluster_slots_pfail") then mkClusterInfo st sa so n sf kn cs ms mr
  else if bool_decide (key = "cluster_slots_fail") then mkClusterInfo st sa so sp n kn cs ms mr
  else if bool_decide (key = "cluster_known_nodes") then mkClusterInfo st sa so sp sf n cs ms mr
  else if bool_decide (key = "cluster_size") then mkClusterInfo st sa so sp sf kn n ms mr
  else if bool_decide (key = "cluster_stats_messages_sent") then mkClusterInfo st sa so sp sf kn cs n mr
  else if bool_decide (key = "cluster_stats_messages_received") then mkClusterInfo st sa so sp sf kn cs ms n
  else info.

Definition infoLine (info : ClusterInfo) (line : string) : ClusterInfo :=
  match cut ":"%char (TrimSpace line) with
  | Some (k, v) => setInfo info (TrimSpace k) (TrimSpace v)
  | None => info
  end.

Definition ParseClusterInfo (output : string) : ClusterInfo :=
  foldl infoLine emptyClusterInfo (splitOn newline output).

(** ** CLUSTER NODES *)

Record ClusterNode := mkClusterNode {
  cn_ID : string;
  cn_IP : string;
  cn_Port : Z;
  cn_Flags : string;
  cn_MasterID : string;
  cn_Slots : list string;
}.

(** [strings.Contains]. *)
Fixpoint hasPrefix (p s : string) : bool :=
  match p, s with
  | EmptyString, _ => true
  | String a p', String b s' => bool_decide (a = b) && hasPrefix p' s'
  | _, _ => false
  end.
Fixpoint Contains (s p : string) : bool :=
  hasPrefix p s || match s with String _ s' => Contains s' p | EmptyString => false end.

Definition IsReplica (n : ClusterNode) : bool := Contains (cn_Flags n) "slave".
Definition IsPrimary (n : ClusterNode) : bool := Contains (cn_Flags n) "master".

(** [strings.Fields] on ASCII text: the maximal runs of characters that are not
    spaces. *)
Fixpoint fieldsFrom (word s : string) : list string :=
  match s with
  | EmptyString => if bool_decide (word = "") then [] else [word]
  | String a s' =>
      if isSpace a then (if bool_decide (word = "") then [] else [word]) ++ fieldsFrom "" s'
      else fieldsFrom (word +:+ String a "") s'
  end.
Definition Fields (s : string) : list string := fieldsFrom "" s.

(** One line of the output: [None] for the lines that are skipped. *)
Definition nodeLine (line : string) : option ClusterNode :=
  match Fields (TrimSpace line) with
  | id :: addr :: flags :: master :: f4 :: f5 :: f6 :: f7 :: slots =>
      let hostPort := splitOn ":"%char (default "" (head (splitOn "@"%char addr))) in
      let '(ip, port) :=
        match hostPort with
        | ip :: port :: _ => (ip, Atoi_ignoring_error port)
        | _ => ("", 0)
        end in
      Some (mkClusterNode id ip port flags master slots)
  | _ => None
  end.

Definition ParseClusterNodes (output : string) : list ClusterNode :=
  omap nodeLine (splitOn newline output).

(** ** The health check *)

Section commands.
(** [ExecInPod] on one pod: the standard output of a command, or an error. *)
Variable ExecInPod : string → res error string.

Definition withPassword (password plain auth : string) : string :=
  if bool_decide (password = "") then plain else "redis-cli -a " +:+ password +:+ auth.

Definition GetClusterInfo (password : string) : res error ClusterInfo :=
  match ExecInPod (withPassword password "redis-cli cluster info" " cluster info") with
  | Err e => Err (Errorf "cluster info" e)
  | Ok out => Ok (ParseClusterInfo out)
  end.

Definition GetClusterNodes (password : string) : res error (list ClusterNode) :=
  match ExecInPod (withPassword password "redis-cli cluster nodes" " cluster nodes") with
  | Err e => Err (Errorf "cluster nodes" e)
  | Ok out => Ok (ParseClusterNodes out)
  end.

Definition resolvedNodes (nodes : list ClusterNode) : Z :=
  Z.of_nat (length (filter (λ n, IsPrimary n || IsReplica n = true) nodes)).

Definition VerifyClusterHealthy (expectedNodes : Z) (password : string) : res error unit :=
  match GetClusterInfo password with
  | Err e => Err e
  | Ok info =>
      if negb (bool_decide (ci_State info = "ok")) then Err (OtherError "cluster state")
      else if negb (bool_decide (ci_SlotsAssigned info = 16384)) then Err (OtherError "slots assigned")
      else if (0 <? expectedNodes) && (ci_KnownNodes info <? expectedNodes) then Err (OtherError "known nodes")
      else if 0 <? expectedNodes then
        match GetClusterNodes password with
        | Err e => Err (Errorf "getting cluster nodes" e)
        | Ok nodes =>
            if negb (bool_decide (resolvedNodes nodes = expectedNodes)) then Err (OtherError "resolved nodes")
            else Ok tt
        end
      else Ok tt
  end.

(** The check passes exactly when the cluster reports itself ok with all 16384
    slots assigned and, when a number of nodes is asked for, at least that many
    are known and exactly that many have a resolved role. *)
Theorem VerifyClusterHealthy_iff (expectedNodes : Z) (password : string) :
  VerifyClusterHealthy expectedNodes password = Ok tt ↔
  ∃ info, GetClusterInfo password = Ok info ∧ ci_State info = "ok" ∧ ci_SlotsAssigned info = 16384 ∧
    (0 < expectedNodes → expectedNodes ≤ ci_KnownNodes info ∧
     ∃ nodes, GetClusterNodes password = Ok nodes ∧ resolvedNodes nodes = expectedNodes).
Proof.
  unfold VerifyClusterHealthy. destruct (GetClusterInfo password) as [info|e]; [|naive_solver].
  destruct (bool_decide_reflect (ci_State info = "ok")) as [Hs|Hs]; simpl; [|naive_solver].
  destruct (bool_decide_reflect (ci_SlotsAssigned info = 16384)) as [Ha|Ha]; simpl; [|naive_solver].
  destruct (Z.ltb_spec 0 expectedNodes) as [Hp|Hp]; simpl; [|naive_solver lia].
  destruct (Z.ltb_spec (ci_KnownNodes info) expectedNodes) as [Hk|Hk]; [naive_solver lia|].
  destruct (GetClusterNodes password) as [nodes|err]; [|naive_solver].
  destruct (bool_decide_reflect (resolvedNodes nodes = expectedNodes)) as [Hr|Hr]; simpl; naive_solver.
Qed.
End commands.

(** ** The commands

    The other functions run commands in named pods and may change what the pods
    answer next: the state of the pods is passed along. *)

(** The first run of digits: [regexp.MustCompile(`\d+`).FindString]. *)
Fixpoint leadingDigits (s : string) : string :=
  match s with
  | String a s' => match digit_val a with Some _ => String a (leadingDigits s') | None => "" end
  | EmptyString => ""
  end.
Fixpoint firstDigits (s : string) : string :=
  match s with
  | String a s' => match digit_val a with Some _ => leadingDigits s | None => firstDigits s' end
  | EmptyString => ""
  end.

(** [strings.Join(words, " ")]. *)
Fixpoint joinWords (words : list string) : string :=
  match words with
  | [] => ""
  | [w] => w
  | w :: words' => w +:+ " " +:+ joinWords words'
  end.

Section pods.
Context {W : Type} (ExecInPod : string → string → W → W * res error string).
(** [time.Now().UnixNano()]. *)
Context (UnixNano : W → W * Z).

Definition GetNodeID (podName password : string) (w : W) : W * res error string :=
  let '(w1, out) := ExecInPod podName (withPassword password "redis-cli cluster myid" " cluster myid") w in
  (w1, match out with Ok stdout => Ok (TrimSpace stdout) | Err e => Err e end).

(** A command of which only the error counts. *)
Definition run (podName cmd : string) (w : W) : W * option error :=
  let '(w1, out) := ExecInPod podName cmd w in (w1, match out with Ok _ => None | Err e => Some e end).

Definition ForgetNode (podName nodeID password : string) : W → W * option error :=
  run podName (withPassword password ("redis-cli cluster forget " +:+ nodeID) (" cluster forget " +:+ nodeID)).

Definition MeetNode (podName targetIP : string) (targetPort : Z) (password : string) : W → W * option error :=
  let args := targetIP +:+ " " +:+ FormatInt targetPort in
  run podName (withPassword password ("redis-cli cluster meet " +:+ args) (" cluster meet " +:+ args)).

Definition DelSlots (podName : string) (slots : list Z) (password : string) : W → W * option error :=
  let slotsArg := joinWords (FormatInt <$> slots) in
  run podName (withPassword password ("redis-cli cluster delslots " +:+ slotsArg) (" cluster delslots " +:+ slotsArg)).

Definition ownedSlotCommand : string :=
  "redis-cli cluster nodes | grep myself | awk '{ print $9 }' | cut -d- -f1".

Definition SetSlotMigratingBetween (srcPod dstPod : string) (w : W) : W * res error Z :=
  let '(w1, srcID) := GetNodeID srcPod "" w in
  match srcID with
  | Err e => (w1, Err (Errorf "getting node ID" e))
  | Ok srcID =>
  let '(w2, dstID) := GetNodeID dstPod "" w1 in
  match dstID with
  | Err e => (w2, Err (Errorf "getting node ID" e))
  | Ok dstID =>
  let '(w3, slotOut) := ExecInPod srcPod ownedSlotCommand w2 in
  match slotOut with
  | Err e => (w3, Err (Errorf "reading an owned slot" e))
  | Ok slotOut =>
  match ParseInt (TrimSpace slotOut) with
  | Err _ => (w3, Err (Errorf "parsing owned slot" (OtherError "invalid number")))
  | Ok slot =>
  let '(w4, out) := ExecInPod srcPod ("redis-cli cluster setslot " +:+ FormatInt slot +:+ " migrating " +:+ dstID) w3 in
  match out with
  | Err e => (w4, Err (Errorf "setting slot migrating" e))
  | Ok _ =>
  let '(w5, out) := ExecInPod dstPod ("redis-cli cluster setslot " +:+ FormatInt slot +:+ " importing " +:+ srcID) w4 in
  match out with
  | Err e => (w5, Err (Errorf "setting slot importing" e))
  | Ok _ => (w5, Ok slot)
  end end end end end end.

(** [InsertKeys] from the [i]-th key on, [n] keys to go. *)
Fixpoint insertKeysFrom (podName password : string) (i : Z) (n : nat) (w : W) : W * option error :=
  match n with
  | O => (w, None)
  | S n' =>
      let '(w1, nano) := UnixNano w in
      let key := "e2e-key-" +:+ FormatInt i +:+ "-" +:+ FormatInt nano in
      let args := " set " +:+ key +:+ " value-" +:+ FormatInt i in
      let cmd := if bool_decide (password = "") then "redis-cli -c" +:+ args
                 else "redis-cli -c -a " +:+ password +:+ args in
      let '(w2, out) := ExecInPod podName cmd w1 in
      match out with
      | Err e => (w2, Some (Errorf "inserting key" e))
      | Ok _ => insertKeysFrom podName password (i + 1) n' w2
      end
  end.
Definition InsertKeys (podName : string) (count : Z) (password : string) : W → W * option error :=
  insertKeysFrom podName password 0 (Z.to_nat count).

(** The loop of [GetDBSize], with the total so far. *)
Fixpoint dbSizeFrom (password : string) (total : Z) (podNames : list string) (w : W) : W * res error Z :=
  match podNames with
  | [] => (w, Ok total)
  | pod :: pods =>
      let '(w1, roleOut) := ExecInPod pod (withPassword password "redis-cli role" " role") w in
      match roleOut with
      | Err e => (w1, Err (Errorf "role check" e))
      | Ok roleOut =>
      let firstLine := TrimSpace (default "" (head (splitOn newline roleOut))) in
      if negb (bool_decide (firstLine = "master")) then dbSizeFrom password total pods w1
      else
        let '(w2, stdout) := ExecInPod pod (withPassword password "redis-cli DBSIZE" " DBSIZE") w1 in
        match stdout with
        | Err e => (w2, Err (Errorf "dbsize" e))
        | Ok stdout =>
            let found := firstDigits (TrimSpace stdout) in
            if bool_decide (found = "") then dbSizeFrom password total pods w2
            else dbSizeFrom password (int64 (total + Atoi_ignoring_error found)) pods w2
        end
      end
  end.
Definition GetDBSize (podNames : list string) (password : string) : W → W * res error Z :=
  dbSizeFrom password 0 podNames.

Fixpoint FlushAll (podNames : list string) (password : string) (w : W) : W * option error :=
  match podNames with
  | [] => (w, None)
  | pod :: pods =>
      let '(w1, out) := ExecInPod pod (withPassword password "redis-cli FLUSHALL" " FLUSHALL") w in
      match out with
      | Err e => (w1, Some (Errorf "flushing" e))
      | Ok _ => FlushAll pods password w1
      end
  end.

Definition PingRedis (podName password : string) (w : W) : W * bool :=
  let '(w1, out) := ExecInPod podName (withPassword password "redis-cli ping" " ping") w in
  (w1, match out with Ok stdout => bool_decide (TrimSpace stdout = "PONG") | Err _ => false end).

Definition CheckAuthRequired (podName : string) (w : W) : W * bool :=
  let '(w1, pong) := PingRedis podName "" w in (w1, negb pong).
Definition CheckAuthDisabled (podName : string) : W → W * bool := PingRedis podName "".
End pods.

(** Sample output of a three-node cluster, one node still in its handshake. *)
Definition sampleNodes : string :=
  "aa 10.0.0.1:6379@16379 myself,master - 0 0 1 connected 0-8191" +:+ String newline
  ("bb 10.0.0.2:6379@16379 slave aa 0 0 1 connected" +:+ String newline
  ("cc 10.0.0.3:6379@16379 handshake - 0 0 0 disconnected" +:+ String newline "")).

Example ParseClusterNodes_sample :
  (λ n, (cn_IP n, cn_Port n, cn_Slots n, IsPrimary n, IsReplica n)) <$> ParseClusterNodes sampleNodes =
  [("10.0.0.1", 6379, ["0-8191"], true, false); ("10.0.0.2", 6379, [], false, true);
   ("10.0.0.3", 6379, [], false, false)].
Proof. vm_compute. reflexivity. Qed.

(** ** Reading back what Redis prints *)

Fixpoint charsAre (P : ascii → bool) (s : string) : bool :=
  match s with String a s' => P a && charsAre P s' | EmptyString => true end.

Lemma charsAre_app P s t : charsAre P (s +:+ t) = charsAre P s && charsAre P t.
Proof. induction s as [|a s IH]; [done|]. rewrite string_app_cons. simpl. by rewrite IH, andb_assoc. Qed.

Lemma charsAre_impl (P Q : ascii → bool) s :
  (∀ a, P a = true → Q a = true) → charsAre P s = true → charsAre Q s = true.
Proof.
  intros HPQ. induction s as [|a s IH]; [done|]. simpl. rewrite !andb_true_iff. intros [H1 H2]. auto.
Qed.

Definition isDigit (a : ascii) : bool := match digit_val a with Some _ => true | None => false end.
Definition notSpace (a : ascii) : bool := negb (isSpace a).

Lemma isDigit_code a : isDigit a = true → (48 ≤ nat_of_ascii a ≤ 57)%nat.
Proof.
  unfold isDigit, digit_val, nat_of_ascii. case_bool_decide as Hd; [|done]. intros _.
  destruct (N_of_ascii a) as [|p]; simpl in *; lia.
Qed.

Lemma isDigit_notSpace a : isDigit a = true → notSpace a = true.
Proof.
  intros Hd%isDigit_code. unfold notSpace, isSpace. rewrite bool_decide_eq_false_2; [done|]. lia.
Qed.

Lemma isDigit_ne a b : isDigit a = true → isDigit b = false → a ≠ b.
Proof. intros Ha Hb ->. congruence. Qed.

Lemma digits_pretty_N_go x s : charsAre isDigit s = true → charsAre isDigit (pretty_N_go x s) = true.
Proof.
  revert s. induction (N.lt_wf_0 x) as [x _ IH]; intros s Hs.
  destruct (decide (0 < x)%N) as [Hpos|Hz]; [|by assert (x = 0%N) as -> by lia].
  rewrite pretty_N_go_step by done. apply IH; [by apply N.div_lt|]. simpl. rewrite Hs, andb_true_r.
  unfold isDigit. rewrite digit_val_pretty; [done|]. apply N.mod_lt. lia.
Qed.

Lemma digits_FormatInt z : 0 ≤ z → charsAre isDigit (FormatInt z) = true.
Proof.
  intros Hz. unfold FormatInt. rewrite pretty_Z_nonneg by done. unfold pretty, pretty_N.
  case_decide; [done|]. by apply digits_pretty_N_go.
Qed.

(** A word: not empty, without spaces. *)
Definition word (w : string) : Prop := w ≠ "" ∧ charsAre notSpace w = true.

Lemma fieldsFrom_word acc w s : charsAre notSpace w = true → fieldsFrom acc (w +:+ s) = fieldsFrom (acc +:+ w) s.
Proof.
  revert acc. induction w as [|a w IH]; intros acc Hw; [by rewrite string_app_nil_l, string_app_nil_r|].
  simpl in Hw. apply andb_true_iff in Hw as [Ha Hw]. rewrite string_app_cons. simpl.
  unfold notSpace in Ha. apply negb_true_iff in Ha. rewrite Ha, IH by done. by rewrite string_app_assoc.
Qed.

Lemma Fields_joinWords words : Forall word words → Fields (joinWords words) = words.
Proof.
  unfold Fields. induction 1 as [|w words [Hne Hw] Hall IH]; [done|].
  assert (Hend : ∀ s, fieldsFrom "" (w +:+ String " "%char s) = w :: fieldsFrom "" s).
  { intros s. rewrite fieldsFrom_word, string_app_nil_l by done. simpl. by rewrite bool_decide_eq_false_2. }
  destruct words as [|w' words].
  - simpl. rewrite <- (string_app_nil_r w) at 1. rewrite fieldsFrom_word, string_app_nil_l by done. simpl.
    by rewrite bool_decide_eq_false_2.
  - change (joinWords (w :: w' :: words)) with (w +:+ String " "%char (joinWords (w' :: words))).
    by rewrite Hend, IH.
Qed.

Lemma trimRight_word s w : word w → trimRight (s +:+ w) = s +:+ w.
Proof.
  intros [Hne Hw].
  assert (Hbase : trimRight w = w).
  { clear s. induction w as [|a w IH]; [done|]. simpl in Hw. apply andb_true_iff in Hw as [Ha Hw]. simpl.
    unfold notSpace in Ha. apply negb_true_iff in Ha. destruct w as [|b w]; [simpl; by rewrite Ha|].
    by rewrite IH. }
  assert (Hne' : ∀ s, s +:+ w ≠ "") by (intros [|a s']; [by rewrite string_app_nil_l|by rewrite string_app_cons]).
  induction s as [|a s IH]; [by rewrite string_app_nil_l|]. rewrite string_app_cons. simpl. rewrite IH.
  destruct (s +:+ w) as [|b t] eqn:E; [by destruct (Hne' s)|done].
Qed.

Lemma joinWords_last words w : ∃ s, joinWords (words ++ [w]) = s +:+ w.
Proof.
  induction words as [|v words [s IH]]; simpl; [exists ""; by rewrite string_app_nil_l|].
  destruct (words ++ [w]) as [|x l] eqn:E; [by destruct words|]. rewrite IH.
  exists (v +:+ " " +:+ s). by rewrite <- !string_app_assoc.
Qed.

Lemma TrimSpace_joinWords words : Forall word words → TrimSpace (joinWords words) = joinWords words.
Proof.
  intros Hall. destruct words as [|w words]; [done|].
  assert (Hleft : trimLeft (joinWords (w :: words)) = joinWords (w :: words)).
  { apply Forall_cons in Hall as [[Hne Hw] _]. destruct w as [|a w]; [done|]. simpl in Hw.
    apply andb_true_iff in Hw as [Ha _]. unfold notSpace in Ha. apply negb_true_iff in Ha.
    destruct words; simpl; by rewrite Ha. }
  unfold TrimSpace. rewrite Hleft. destruct (exists_last (l := w :: words)) as (ws & v & Heq); [done|].
  rewrite Heq in *. apply Forall_app in Hall as [_ [Hv _]%Forall_cons].
  destruct (joinWords_last ws v) as [s ->]. by apply trimRight_word.
Qed.

(** Splitting at a separator that a piece does not contain. *)
Definition lacks (sep : ascii) (s : string) : bool := charsAre (λ a, negb (bool_decide (a = sep))) s.

Lemma splitOn_app sep s t : lacks sep s = true → splitOn sep (s +:+ String sep t) = s :: splitOn sep t.
Proof.
  unfold lacks. induction s as [|a s IH]; intros Hs.
  - rewrite string_app_nil_l. simpl. by rewrite bool_decide_eq_true_2.
  - simpl in Hs. apply andb_true_iff in Hs as [Ha Hs]. rewrite string_app_cons. simpl.
    apply negb_true_iff in Ha. by rewrite Ha, IH.
Qed.

Lemma splitOn_lacks sep s : lacks sep s = true → splitOn sep s = [s].
Proof.
  unfold lacks. induction s as [|a s IH]; intros Hs; [done|]. simpl in Hs. apply andb_true_iff in Hs as [Ha Hs].
  simpl. apply negb_true_iff in Ha. by rewrite Ha, IH.
Qed.

(** At every separator, whether or not there is one before. *)
Lemma splitOn_app_any sep s t : splitOn sep (s +:+ String sep t) = splitOn sep s ++ splitOn sep t.
Proof.
  induction s as [|a s IH].
  - rewrite string_app_nil_l. simpl. by rewrite bool_decide_eq_true_2.
  - rewrite string_app_cons. simpl. rewrite IH. pose proof (splitOn_nonempty sep s) as Hne.
    case_match; [done|]. by destruct (splitOn sep s).
Qed.

(** The parts hold no separator, and there are several where there is one. *)
Lemma splitOn_parts sep s p : p ∈ splitOn sep s → lacks sep p = true.
Proof.
  revert p. induction s as [|a s IH]; intros p Hp; simpl in Hp.
  - by apply list_elem_of_singleton in Hp as ->.
  - pose proof (splitOn_nonempty sep s) as Hne. destruct (bool_decide (a = sep)) eqn:Ha.
    + apply elem_of_cons in Hp as [->|Hp]; auto.
    + destruct (splitOn sep s) as [|q qs]; [done|]. apply elem_of_cons in Hp as [->|Hp]; [|apply IH; by right].
      unfold lacks in *. simpl. rewrite Ha. simpl. apply IH. by left.
Qed.

Lemma splitOn_several sep s : lacks sep s = false → ∃ p q ps, splitOn sep s = p :: q :: ps.
Proof.
  unfold lacks. induction s as [|a s IH]; [done|]. simpl. pose proof (splitOn_nonempty sep s) as Hne.
  destruct (bool_decide (a = sep)); simpl.
  - intros _. destruct (splitOn sep s) as [|q qs]; [done|]. by eexists _, _, _.
  - intros (p & q & ps & ->)%IH. by eexists _, _, _.
Qed.

Lemma digits_lack sep s : isDigit sep = false → charsAre isDigit s = true → lacks sep s = true.
Proof.
  intros Hsep. apply charsAre_impl. intros a Ha. by rewrite bool_decide_eq_false_2 by (by eapply isDigit_ne).
Qed.

(** One line of CLUSTER NODES as Redis documents it:
    [<id> <ip:port@cport[,hostname]> <flags> <master> <ping> <pong> <epoch> <link> <slots>...],
    where [ne_suffix] is what follows the cluster bus port, if anything. *)
Record NodeExtra := mkNodeExtra {
  ne_cport : Z; ne_suffix : string; ne_ping : Z; ne_pong : Z; ne_epoch : Z; ne_link : string }.

Definition nodeAddress (n : ClusterNode) (x : NodeExtra) : string :=
  (cn_IP n +:+ ":" +:+ FormatInt (cn_Port n)) +:+ "@" +:+ FormatInt (ne_cport x) +:+ ne_suffix x.
Definition nodeWords (n : ClusterNode) (x : NodeExtra) : list string :=
  cn_ID n :: nodeAddress n x :: cn_Flags n :: cn_MasterID n :: FormatInt (ne_ping x) :: FormatInt (ne_pong x) ::
  FormatInt (ne_epoch x) :: ne_link x :: cn_Slots n.
Definition nodesText (nodes : list (ClusterNode * NodeExtra)) : string :=
  foldr (λ '(n, x) s, joinWords (nodeWords n x) +:+ String newline s) "" nodes.

(** A node as Redis prints it: no blanks inside its fields, no [@] in the address. *)
Record printable (n : ClusterNode) (x : NodeExtra) : Prop := {
  pr_id : word (cn_ID n);
  pr_ip : charsAre notSpace (cn_IP n) = true ∧ lacks "@"%char (cn_IP n) = true;
  pr_suffix : charsAre notSpace (ne_suffix x) = true;
  pr_port : 0 ≤ cn_Port n < 2 ^ 63;
  pr_flags : word (cn_Flags n);
  pr_master : word (cn_MasterID n);
  pr_slots : Forall word (cn_Slots n);
  pr_numbers : 0 ≤ ne_cport x ∧ 0 ≤ ne_ping x ∧ 0 ≤ ne_pong x ∧ 0 ≤ ne_epoch x;
  pr_link : word (ne_link x);
}.

Lemma word_FormatInt z : 0 ≤ z → word (FormatInt z).
Proof.
  intros Hz. split; [apply FormatInt_not_empty|].
  eapply charsAre_impl; [apply isDigit_notSpace|by apply digits_FormatInt].
Qed.

Lemma printable_words n x : printable n x → Forall word (nodeWords n x).
Proof.
  intros [Hid (Hip & _) Hsuf [Hport _] Hfl Hma Hsl (Hc & Hpi & Hpo & Hep) Hli].
  assert (Haddr : word (nodeAddress n x)).
  { unfold nodeAddress. destruct (word_FormatInt _ Hport) as [_ W1], (word_FormatInt _ Hc) as [_ W2]. split.
    - destruct (cn_IP n); [by rewrite string_app_nil_l|by rewrite !string_app_cons].
    - by rewrite !charsAre_app, Hip, W1, W2, Hsuf. }
  unfold nodeWords. repeat (apply Forall_cons; split); auto using word_FormatInt.
Qed.

(** The node as the tests read it: an address with a colon of its own, as IPv6
    addresses have, is cut there, and what follows is taken for the port. *)
Definition readAs (n : ClusterNode) : ClusterNode :=
  match splitOn ":"%char (cn_IP n) with
  | ip :: port :: _ => mkClusterNode (cn_ID n) ip (Atoi_ignoring_error port) (cn_Flags n) (cn_MasterID n) (cn_Slots n)
  | _ => n
  end.

Lemma nodeLine_printed n x : printable n x → nodeLine (joinWords (nodeWords n x)) = Some (readAs n).
Proof.
  intros Hn. unfold nodeLine. rewrite TrimSpace_joinWords, Fields_joinWords by by apply printable_words.
  destruct Hn as [_ (_ & Ha) _ [Hp1 Hp2] _ _ _ _ _]. pose proof (digits_FormatInt _ Hp1) as Hd.
  unfold nodeWords, nodeAddress. cbn iota beta.
  change ("@" +:+ FormatInt (ne_cport x) +:+ ne_suffix x) with (String "@"%char (FormatInt (ne_cport x) +:+ ne_suffix x)).
  rewrite splitOn_app.
  - cbn [hd_error head default from_option]. unfold id. change (":" +:+ FormatInt (cn_Port n)) with (String ":"%char (FormatInt (cn_Port n))).
    rewrite splitOn_app_any, (splitOn_lacks _ (FormatInt (cn_Port n))) by by apply digits_lack.
    unfold readAs. destruct (lacks ":"%char (cn_IP n)) eqn:Hc.
    + rewrite splitOn_lacks by done. simpl. unfold Atoi_ignoring_error. rewrite ParseInt_FormatInt by (unfold in_int64; lia). by destruct n.
    + by destruct (splitOn_several _ _ Hc) as (p & q & ps & ->).
  - unfold lacks. rewrite !charsAre_app. unfold lacks in Ha. rewrite Ha. simpl.
    by apply (digits_lack "@"%char).
Qed.

Lemma words_lack_newline words : Forall word words → lacks newline (joinWords words) = true.
Proof.
  assert (Hw : ∀ w, charsAre notSpace w = true → lacks newline w = true).
  { intros w. apply charsAre_impl. intros a Ha. rewrite bool_decide_eq_false_2; [done|]. intros ->. vm_compute in Ha. discriminate Ha. }
  induction 1 as [|w words [_ Hwd] _ IH]; [done|]. destruct words as [|v words]; [by apply Hw|].
  change (joinWords (w :: v :: words)) with (w +:+ " " +:+ joinWords (v :: words)).
  pose proof (Hw w Hwd) as Hlw. unfold lacks in *. by rewrite !charsAre_app, Hlw, IH.
Qed.

(** C35: the parser of CLUSTER NODES on what Redis prints.  For any number of
    nodes whose fields hold no blanks and whose addresses hold no [@], any suffix of
    the address and any values of the fields the tests do not read, parsing the
    printed lines gives the nodes in order, with their flags, primaries and slots,
    migrating ones included; a node whose address has no colon is read back exactly,
    address and port included, and one whose address has a colon, as every IPv6
    address does, is read with a wrong address: the part before the first colon. *)
Theorem ParseClusterNodes_printed (nodes : list (ClusterNode * NodeExtra)) :
  Forall (λ nx, printable nx.1 nx.2) nodes →
  ParseClusterNodes (nodesText nodes) = readAs <$> nodes.*1 ∧
  (∀ n, lacks ":"%char (cn_IP n) = true → readAs n = n) ∧
  (∀ n, lacks ":"%char (cn_IP n) = false → cn_IP (readAs n) ≠ cn_IP n ∧ head (splitOn ":"%char (cn_IP n)) = Some (cn_IP (readAs n))).
Proof.
  intros Hall. split; [|split].
  - unfold ParseClusterNodes. induction Hall as [|[n x] nodes Hn _ IH]; [done|]. simpl in Hn.
    cbn [nodesText foldr]. rewrite splitOn_app by by apply words_lack_newline, printable_words.
    cbn [omap list_omap]. rewrite nodeLine_printed by done. csimpl. f_equal. exact IH.
  - intros n Hc. unfold readAs. by rewrite splitOn_lacks.
  - intros n Hc. unfold readAs. destruct (splitOn_several _ _ Hc) as (p & q & ps & Hs). rewrite Hs. simpl. split; [|done].
    intros Heq. assert (Hp : lacks ":"%char p = true) by (apply (splitOn_parts ":"%char (cn_IP n)); rewrite Hs; left).
    rewrite Heq in Hp. congruence.
Qed.

Definition printedNodes : list (ClusterNode * NodeExtra) :=
  [(mkClusterNode "aa" "10.0.0.1" 6379 "myself,master" "-" ["0-8191"; "[5460->-bb]"], mkNodeExtra 16379 ",redis-0.local" 0 0 1 "connected");
   (mkClusterNode "bb" "10.0.0.2" 6379 "slave,fail?" "aa" [], mkNodeExtra 16379 "" 0 1700000000 1 "connected")].

Lemma ParseClusterNodes_printed_witness :
  (length printedNodes = 2)%nat ∧ ParseClusterNodes (nodesText printedNodes) = printedNodes.*1.
Proof.
  split; [reflexivity|]. destruct (ParseClusterNodes_printed printedNodes) as [Hp _]; [|exact Hp].
  repeat (apply Forall_cons; split); [..|constructor];
    (split; simpl; try done; try (by repeat constructor); try lia).
Defined.

(** An IPv6 address is cut at its first colon. *)
Example ParseClusterNodes_ipv6 :
  (λ n, (cn_IP n, cn_Port n)) <$> ParseClusterNodes "aa 2001:db8::7:6379@16379 master - 0 0 1 connected" = [("2001", 0)].
Proof. vm_compute. reflexivity. Qed.

(** ** Substrings *)

Lemma hasPrefix_app p s u : hasPrefix p s = true → hasPrefix p (s +:+ u) = true.
Proof.
  revert s. induction p as [|a p IH]; intros s; [by destruct (s +:+ u)|].
  destruct s as [|b s]; [done|]. rewrite string_app_cons. simpl. rewrite !andb_true_iff. intros [H1 H2]. auto.
Qed.

Lemma Contains_app_l s u p : Contains s p = true → Contains (s +:+ u) p = true.
Proof.
  induction s as [|a s IH].
  - cbn [Contains]. rewrite orb_false_r. intros Hp. apply (hasPrefix_app p "" u) in Hp. rewrite string_app_nil_l in *.
    destruct u; simpl in *; by rewrite Hp.
  - rewrite string_app_cons. cbn [Contains]. rewrite !orb_true_iff. intros [Hp|Hs]; [left|right; auto].
    by apply (hasPrefix_app p (String a s) u) in Hp.
Qed.

Lemma Contains_app_r s u p : Contains u p = true → Contains (s +:+ u) p = true.
Proof.
  intros Hu. induction s as [|a s IH]; [by rewrite string_app_nil_l|]. rewrite string_app_cons. simpl.
  by rewrite IH, orb_true_r.
Qed.

Lemma Contains_joinWords words w p : w ∈ words → Contains w p = true → Contains (joinWords words) p = true.
Proof.
  intros Hin Hw. induction words as [|v words IH]; [by apply not_elem_of_nil in Hin|].
  destruct words as [|v' words]; [by apply list_elem_of_singleton in Hin as <-|].
  change (joinWords (v :: v' :: words)) with (v +:+ " " +:+ joinWords (v' :: words)).
  apply elem_of_cons in Hin as [<-|Hin]; [by apply Contains_app_l|]. by apply Contains_app_r, Contains_app_r, IH.
Qed.

Lemma Contains_nodesText nodes n x w p :
  (n, x) ∈ nodes → w ∈ nodeWords n x → Contains w p = true → Contains (nodesText nodes) p = true.
Proof.
  intros Hin Hw Hp. induction nodes as [|[m y] nodes IH]; [by apply not_elem_of_nil in Hin|].
  cbn [nodesText foldr]. apply elem_of_cons in Hin as [[= <- <-]|Hin].
  - by apply Contains_app_l, (Contains_joinWords _ w).
  - change (String newline (foldr _ "" nodes)) with (String newline "" +:+ nodesText nodes).
    by apply Contains_app_r, Contains_app_r, IH.
Qed.

(** ** Counting keys *)

(** [GetDBSize] counts the keys of the primaries only: when every pod answers, a
    pod's role is primary when its first line says so, and the primaries hold
    [size] keys each, the answer is their sum. *)
Lemma GetDBSize_primaries (answer : string → string → res error string) (primary : string → bool)
    (size : string → Z) (pods : list string) (total : Z) :
  (∀ pod, pod ∈ pods → ∃ out, answer pod "redis-cli role" = Ok out ∧
    (TrimSpace (default "" (head (splitOn newline out))) = "master" ↔ primary pod = true)) →
  (∀ pod, pod ∈ pods → primary pod = true → 0 ≤ size pod ∧ ∃ out, answer pod "redis-cli DBSIZE" = Ok out ∧
    firstDigits (TrimSpace out) = FormatInt (size pod)) →
  let sum := foldr (λ pod n, if primary pod then size pod + n else n) 0 pods in
  0 ≤ total → total + sum < 2 ^ 63 →
  dbSizeFrom (W := unit) (λ pod cmd w, (w, answer pod cmd)) "" total pods () = ((), Ok (total + sum)).
Proof.
  revert total. induction pods as [|pod pods IH]; intros total Hrole Hsize sum Ht Hmax; [simpl; by rewrite Z.add_0_r|].
  assert (Hrest : 0 ≤ foldr (λ pod n, if primary pod then size pod + n else n) 0 pods).
  { clear -Hsize. induction pods as [|q pods IH]; simpl; [done|]. destruct (primary q) eqn:Hq.
    - destruct (Hsize q) as [H1 _]; [right; left|done|]. enough (0 ≤ foldr (λ pod n, if primary pod then size pod + n else n) 0 pods) by lia.
      apply IH. intros r Hr. apply Hsize. apply elem_of_cons in Hr as [->|Hr]; [left|by do 2 right].
    - apply IH. intros r Hr. apply Hsize. apply elem_of_cons in Hr as [->|Hr]; [left|by do 2 right]. }
  assert (IH' : ∀ t, 0 ≤ t → t + foldr (λ pod n, if primary pod then size pod + n else n) 0 pods < 2 ^ 63 →
    dbSizeFrom (W := unit) (λ pod cmd w, (w, answer pod cmd)) "" t pods () =
      ((), Ok (t + foldr (λ pod n, if primary pod then size pod + n else n) 0 pods))).
  { intros t H1 H2. apply IH; [intros q Hq; apply Hrole; by right|intros q Hq; apply Hsize; by right|done|done]. }
  cbn [dbSizeFrom]. change (withPassword "" "redis-cli role" " role") with "redis-cli role".
  change (withPassword "" "redis-cli DBSIZE" " DBSIZE") with "redis-cli DBSIZE".
  destruct (Hrole pod) as (out & -> & Hm); [left|]. unfold sum in *. simpl in *. destruct (primary pod) eqn:Hp.
  - rewrite bool_decide_eq_true_2 by (by apply Hm). destruct (Hsize pod) as (Hs & out' & -> & Hd); [left|done|].
    simpl. rewrite Hd, bool_decide_eq_false_2 by apply FormatInt_not_empty.
    unfold Atoi_ignoring_error. rewrite ParseInt_FormatInt by (unfold in_int64; lia).
    rewrite int64_id by (unfold in_int64; lia). rewrite IH' by lia. do 2 f_equal. lia.
  - rewrite bool_decide_eq_false_2 by (intros Hx; apply Hm in Hx; congruence). simpl. by apply IH'.
Qed.
