(* ===== verification/Waiting.v ===== *)
(** * Waiting for a cluster (test/e2e/framework/wait.go, test/chaos/framework/readiness.go)

    How the end-to-end and chaos tests decide that a cluster has converged: the
    choice of the newest config, the readiness gates over one look at the cluster,
    and the polling loops around them.  What a look finds (reads of the API, output
    of commands in pods, cancellation of the context) is an argument; the polling
    loop of apimachinery is a parameter.  The gates are put to the states of
    System.v. *)

From S2P Require Import Prelude GoLib K8s Types Effects Client Logic FakeCluster.
From S2P Require Import Config Metrics ScaleZero Controller Samples ConfigProofs ConfigStore Failing.
From S2P Require Import ScaleZeroProofs Validation Life.
From S2P Require Import Interleaving Reconciling System RedisClient.
Local Open Scope Z_scope.

(** ** Durations from the environment *)

Definition Second : Z := 10 ^ 9.

(** [envDurationSeconds], in nanoseconds; [env] is [os.Getenv]. *)
Definition envDurationSeconds (env : string → string) (key : string) (defaultSeconds : Z) : Z :=
  let v := env key in
  if bool_decide (v = "") then int64 (defaultSeconds * Second)
  else match ParseInt v with
       | Ok parsed => if 0 <? parsed then int64 (parsed * Second) else int64 (defaultSeconds * Second)
       | Err _ => int64 (defaultSeconds * Second)
       end.

(** ** The newest config *)

(** [highest := &items[0]; for ... { if items[i].Spec.Sequence > highest.Spec.Sequence }]. *)
Definition highestOf (first : RedkeyConfig) (items : list RedkeyConfig) : RedkeyConfig :=
  foldl (λ highest c, if seqOf highest <? seqOf c then c else highest) first items.

(** [maxSeq := -1; for ... { if items[i].Spec.Sequence > maxSeq { ... } }]. *)
Definition activeOf (items : list RedkeyConfig) : option RedkeyConfig :=
  (foldl (λ '(maxSeq, active) c, if maxSeq <? seqOf c then (seqOf c, Some c) else (maxSeq, active))
    (-1, None) items).2.

(** The sort of [ListConfigs]: the inner loop, with [x] at position [i], swaps
    whatever is smaller into that position. *)
Fixpoint exchangePass (x : RedkeyConfig) (l : list RedkeyConfig) : RedkeyConfig * list RedkeyConfig :=
  match l with
  | [] => (x, [])
  | y :: l' =>
      if seqOf y <? seqOf x then let '(m, r) := exchangePass y l' in (m, x :: r)
      else let '(m, r) := exchangePass x l' in (m, y :: r)
  end.

(** The outer loop, over [n] positions. *)
Fixpoint exchangeSort (n : nat) (l : list RedkeyConfig) : list RedkeyConfig :=
  match n, l with
  | S n', x :: l' => let '(m, r) := exchangePass x l' in m :: exchangeSort n' r
  | _, _ => l
  end.

(** [ListConfigs] of the tests, from the answer of the API. *)
Definition ListConfigs_sorted (answer : res error (list RedkeyConfig)) : res error (list RedkeyConfig) :=
  match answer with Err e => Err e | Ok items => Ok (exchangeSort (length items) items) end.

(** [WaitForActiveConfigApplied], one look. *)
Definition activeConfigApplied (answer : res error (list RedkeyConfig)) : bool :=
  match answer with
  | Err _ => false
  | Ok items =>
      match activeOf items with
      | Some active => bool_decide (rct_ConfigPhase (cf_Status active) = ConfigPhaseApplied)
      | None => false
      end
  end.

(** [WaitForActiveConfigAppliedTopology], one look; the expected numbers are [int]s. *)
Definition activeConfigAppliedTopology (primaries replicas : Z) (answer : res error (list RedkeyConfig)) : bool :=
  match answer with
  | Err _ => false
  | Ok items =>
      match activeOf items with
      | Some active =>
          bool_decide (rcs_Primaries (cf_Spec active) = int32 primaries) &&
          bool_decide (rcs_ReplicasPerPrimary (cf_Spec active) = int32 replicas) &&
          bool_decide (rct_ConfigPhase (cf_Status active) = ConfigPhaseApplied)
      | None => false
      end
  end.

(** ** Pods *)

Record Pod := mkPod {
  pod_Name : string;
  pod_Phase : string;
  pod_Conditions : list (string * string);
}.

Definition PodRunning : string := "Running".

(** [WaitForPodsReady], one look. *)
Definition podsReady (expectedCount : Z) (answer : res error (list Pod)) : bool :=
  match answer with
  | Err _ => false
  | Ok items =>
      bool_decide (Z.of_nat (length items) = expectedCount) &&
      forallb (λ pod, bool_decide (pod_Phase pod = PodRunning) &&
        existsb (λ '(t, s), bool_decide (t = "Ready") && bool_decide (s = "True")) (pod_Conditions pod)) items
  end.

(** ** The readiness gates *)

(** Why a cluster is not ready yet; the code puts it in words. *)
Inductive NotReady :=
| ErrorGettingCluster (e : error)
| PhaseNotReady (phase : string)
| NotObserved (observed generation : Z)
| NoReason
| ErrorListingConfigs (e : error)
| NoConfigYet
| HighestConfigPhase (name : string) (sequence : Z) (phase : string)
| HighestConfigStatus (name : string) (sequence : Z) (status : string)
| ErrorListingPods (e : error)
| PodCountZero
| PodCount (count expected primaries : Z)
| PodPhaseNotRunning (name phase : string)
| HealthyMissing
| HealthyNotTrue (status reason : string).

(** What one look at the cluster finds: the answers of the API, and whether the
    context was cancelled by the time the configs could not be listed. *)
Record Sight := mkSight {
  si_cluster : res error Redkey;
  si_configs : res error (list RedkeyConfig);
  si_cancelled : bool;
  si_pods : res error (list Pod);
}.

(** [highestConfigSettled]. *)
Definition highestConfigSettled (s : Sight) : res NotReady unit :=
  match si_configs s with
  | Err e => Err (if si_cancelled s then NoReason else ErrorListingConfigs e)
  | Ok [] => Err NoConfigYet
  | Ok (first :: rest) =>
      let highest := highestOf first (first :: rest) in
      let name := om_Name (cf_Meta highest) in
      if negb (bool_decide (rct_ConfigPhase (cf_Status highest) = ConfigPhaseApplied)) then
        Err (HighestConfigPhase name (seqOf highest) (rct_ConfigPhase (cf_Status highest)))
      else if negb (bool_decide (rct_Status (cf_Status highest) = ClusterStatusReady)) then
        Err (HighestConfigStatus name (seqOf highest) (rct_Status (cf_Status highest)))
      else Ok tt
  end.

Fixpoint podsRunning (pods : list Pod) : res NotReady unit :=
  match pods with
  | [] => Ok tt
  | pod :: pods' =>
      if negb (bool_decide (pod_Phase pod = PodRunning)) then Err (PodPhaseNotRunning (pod_Name pod) (pod_Phase pod))
      else podsRunning pods'
  end.

(** [chaosReadyState]. *)
Definition chaosReadyState `{K8sLib} (s : Sight) : res NotReady unit :=
  match si_cluster s with
  | Err e => Err (ErrorGettingCluster e)
  | Ok cluster =>
      let st := rk_Status cluster in
      if negb (bool_decide (rst_Phase st = PhaseReady)) then Err (PhaseNotReady (rst_Phase st))
      else if negb (bool_decide (rst_ObservedGeneration st = rk_Generation cluster)) then
        Err (NotObserved (rst_ObservedGeneration st) (rk_Generation cluster))
      else match highestConfigSettled s with
      | Err reason => Err reason
      | Ok _ =>
      match si_pods s with
      | Err e => Err (ErrorListingPods e)
      | Ok pods =>
          let expected := NodesNeeded (rk_Spec cluster) in
          if bool_decide (length pods = 0%nat) then Err PodCountZero
          else if negb (bool_decide (Z.of_nat (length pods) = expected)) then
            Err (PodCount (Z.of_nat (length pods)) expected (rs_Primaries (rk_Spec cluster)))
          else match podsRunning pods with
          | Err reason => Err reason
          | Ok _ =>
              match FindStatusCondition (rst_Conditions st) ConditionHealthy with
              | None => Err HealthyMissing
              | Some healthy =>
                  if negb (bool_decide (c_Status healthy = ConditionTrue)) then
                    Err (HealthyNotTrue (c_Status healthy) (c_Reason healthy))
                  else Ok tt
              end
          end
      end
      end
  end.

(** [IsChaosConverged]. *)
Definition IsChaosConverged `{K8sLib} (s : Sight) : bool := is_ok (chaosReadyState s).

(** [IsInSlotMovementPhase], from the answer to [GetRedkey]. *)
Definition IsInSlotMovementPhase (answer : res error Redkey) : bool :=
  match answer with
  | Err _ => false
  | Ok cluster =>
      let s := rss_Status (rst_Substatus (rk_Status cluster)) in
      bool_decide (s = SubstatusRebalancing) || bool_decide (s = SubstatusDrainingPrimaries) ||
      bool_decide (s = SubstatusFormingCluster)
  end.

(** ** The topology checks *)

(** [clusterCheckPasses], from what the command in the pod prints. *)
Definition clusterCheckPasses (stdout : res error string) : bool :=
  match stdout with
  | Err _ => false
  | Ok out => negb (Contains out "[ERR]") && negb (Contains out "[WARNING]")
  end.

(** [clusterNodesHasFailure]. *)
Definition clusterNodesHasFailure (stdout : res error string) : bool :=
  match stdout with
  | Err _ => true
  | Ok out => Contains out "fail" || Contains out "->" || Contains out "<-"
  end.

(** [AssertAllSlotsAssigned]; [info] is the output of CLUSTER INFO in a pod. *)
Definition AssertAllSlotsAssigned (answer : res error (list Pod)) (info : string → res error string) : option error :=
  match answer with
  | Err e => Some e
  | Ok [] => Some (OtherError "no redis pods found")
  | Ok (pod :: _) =>
      match info (pod_Name pod) with
      | Err e => Some (Errorf "failed to get cluster info" e)
      | Ok out => if Contains out "cluster_slots_ok:16384" then None else Some (OtherError "not all slots assigned")
      end
  end.

(** [AssertNoNodesInFailState]; [nodes] is the output of CLUSTER NODES in a pod. *)
Fixpoint noneInFailState (nodes : string → res error string) (pods : list Pod) : option error :=
  match pods with
  | [] => None
  | pod :: pods' =>
      match nodes (pod_Name pod) with
      | Err e => Some (Errorf "failed to get cluster nodes" e)
      | Ok out => if Contains out "fail" then Some (OtherError "node in fail state") else noneInFailState nodes pods'
      end
  end.
Definition AssertNoNodesInFailState (answer : res error (list Pod)) (nodes : string → res error string) : option error :=
  match answer with
  | Err e => Some e
  | Ok [] => Some (OtherError "no redis pods found")
  | Ok pods => noneInFailState nodes pods
  end.

Definition requiredStableChecks : nat := 3.

(** Why the topology is not stable yet. *)
Inductive NotStable :=
| ErrorListing (e : error)
| NoPodsFound
| CheckNotClean (pod : string)
| FailState (pod : string)
| WaitingForStability (stable : nat).

(** One look of [AssertTopologyStable]: the context before it, the pods, and for
    each pod the context when its turn comes, what the two commands print and
    whether the context was cancelled after each. *)
Record TopologySight := mkTopologySight {
  ts_ctx : option error;
  ts_pods : res error (list Pod);
  ts_ctxListed : bool;
  ts_ctxPod : string → bool;
  ts_check : string → res error string;
  ts_ctxChecked : string → bool;
  ts_nodes : string → res error string;
  ts_ctxNodes : string → bool;
}.

(** The loop over the pods: whether all are clean; if not, whether the counter is
    reset and the reason, if there is a new one. *)
Inductive PodsVerdict := AllClean | Cancelled | NotClean (reason : option NotStable).

Fixpoint checkPods (s : TopologySight) (pods : list Pod) : PodsVerdict :=
  match pods with
  | [] => AllClean
  | pod :: pods' =>
      let name := pod_Name pod in
      if ts_ctxPod s name then Cancelled
      else if negb (clusterCheckPasses (ts_check s name)) then
        NotClean (if ts_ctxChecked s name then None else Some (CheckNotClean name))
      else if clusterNodesHasFailure (ts_nodes s name) then
        NotClean (if ts_ctxNodes s name then None else Some (FailState name))
      else checkPods s pods'
  end.

(** The variables the polls share: [lastReason] and [stable]. *)
Definition Stability : Type := option NotStable * nat.

(** The condition polled: done or not, or an error that ends the polling. *)
Definition topologyLook (st : Stability) (s : TopologySight) : Stability * (bool * option error) :=
  let '(lastReason, stable) := st in
  match ts_ctx s with
  | Some e => (st, (false, Some e))
  | None =>
      match ts_pods s with
      | Err e => ((if ts_ctxListed s then lastReason else Some (ErrorListing e), 0%nat), (false, None))
      | Ok [] => ((Some NoPodsFound, 0%nat), (false, None))
      | Ok pods =>
          match checkPods s pods with
          | Cancelled => (st, (false, None))
          | NotClean reason => ((match reason with Some r => Some r | None => lastReason end, 0%nat), (false, None))
          | AllClean =>
              let stable := S stable in
              if (stable <? requiredStableChecks)%nat then
                ((Some (WaitingForStability stable), stable), (false, None))
              else ((lastReason, stable), (true, None))
          end
      end
  end.

(** ** Polling *)

(** [wait.PollUntilContextTimeout]: from the state the condition shares, what it
    will see at each poll, and the condition, to the final state and the error. *)
Class PollLib := {
  PollUntilContextTimeout : ∀ {St Obs}, (St → Obs → St * (bool * option error)) → St → (nat → Obs) →
    St * option error;
}.

(** [n] polls, and then the error [e] of the expired context. *)
Fixpoint pollFor {St Obs} (n : nat) (e : error) (cond : St → Obs → St * (bool * option error))
    (s : St) (obs : nat → Obs) : St * option error :=
  match n with
  | O => (s, Some e)
  | S n' =>
      let '(s', (done, err)) := cond s (obs 0%nat) in
      match err with
      | Some e' => (s', Some e')
      | None => if (done : bool) then (s', None) else pollFor n' e cond s' (λ i, obs (S i))
      end
  end.

(** Its documented behaviour, when the time given allows [n] polls: the condition is
    polled, at once and then at every interval, until it returns true or an error
    or time is up. *)
Definition allowsPolls `{PollLib} {St Obs} (n : nat) (e : error) (cond : St → Obs → St * (bool * option error))
    (s : St) (obs : nat → Obs) : Prop :=
  PollUntilContextTimeout cond s obs = pollFor n e cond s obs.

(** A wait that ended: by an error, with the last reason seen, or well. *)
Definition ended {R} (out : option R * option error) : res (option R * error) unit :=
  match out.2 with Some e => Err (out.1, e) | None => Ok tt end.

(** [AssertTopologyStable]. *)
Definition AssertTopologyStable `{PollLib} (obs : nat → TopologySight) : res (option NotStable * error) unit :=
  let '((lastReason, _), err) := PollUntilContextTimeout topologyLook (None, 0%nat) obs in ended (lastReason, err).

(** [WaitForChaosReady]: a look is the context before it, the sight, and whether
    the context was cancelled after it. *)
Definition chaosLook `{K8sLib} (last : option NotReady) (look : option error * Sight * bool)
    : option NotReady * (bool * option error) :=
  let '(ctx, s, cancelled) := look in
  match ctx with
  | Some e => (last, (false, Some e))
  | None =>
      match chaosReadyState s with
      | Ok _ => (last, (true, None))
      | Err reason => (if (cancelled : bool) then last else Some reason, (false, None))
      end
  end.
Definition WaitForChaosReady `{K8sLib, PollLib} (obs : nat → option error * Sight * bool)
    : res (option NotReady * error) unit :=
  ended (PollUntilContextTimeout chaosLook None obs).

(** ** The waits of the end-to-end tests

    Each polls one read and ends with a read of its own, [after]. *)

(** [WaitForClusterPhase], [WaitForClusterStatus] and [WaitForConfigPhase]: until the
    object shows the value wanted in one field. *)
Definition fieldLook {A} (field : A → string) (desired : string) (last : string) (answer : res error A)
    : string * (bool * option error) :=
  match answer with
  | Err _ => (last, (false, None))
  | Ok o => (field o, (bool_decide (field o = desired), None))
  end.
Definition waitForField `{PollLib} {A} (field : A → string) (desired : string) (obs : nat → res error A)
    (after : res error A) : res error A :=
  match (PollUntilContextTimeout (fieldLook field desired) "" obs).2 with
  | Some e => Err (Errorf "timed out waiting" e)
  | None => after
  end.
Definition WaitForClusterPhase `{PollLib} : string → (nat → res error Redkey) → res error Redkey → res error Redkey :=
  waitForField (λ cluster, rst_Phase (rk_Status cluster)).
Definition WaitForClusterStatus `{PollLib} : string → (nat → res error Redkey) → res error Redkey → res error Redkey :=
  waitForField (λ cluster, rst_Status (rk_Status cluster)).
Definition WaitForConfigPhase `{PollLib} :
    string → (nat → res error RedkeyConfig) → res error RedkeyConfig → res error RedkeyConfig :=
  waitForField (λ config, rct_ConfigPhase (cf_Status config)).
Definition WaitForClusterReady `{PollLib} : (nat → res error Redkey) → res error Redkey → res error Redkey :=
  WaitForClusterPhase PhaseReady.

(** A condition without memory. *)
Definition plainLook {A} (look : A → bool) (u : unit) (answer : A) : unit * (bool * option error) :=
  (u, (look answer, None)).

Definition WaitForPodsReady `{PollLib} (expectedCount : Z) (obs : nat → res error (list Pod)) : option error :=
  (PollUntilContextTimeout (plainLook (podsReady expectedCount)) () obs).2.

(** [WaitForActiveConfigApplied]: what it returns is the newest config of a last
    listing, or a nil pointer when that is empty. *)
Definition WaitForActiveConfigApplied `{PollLib} (obs : nat → res error (list RedkeyConfig))
    (after : res error (list RedkeyConfig)) : res error (option RedkeyConfig) :=
  match (PollUntilContextTimeout (plainLook activeConfigApplied) () obs).2 with
  | Some e => Err (Errorf "timed out waiting for active config" e)
  | None => match after with Ok items => Ok (activeOf items) | Err e => Err e end
  end.

(** [WaitForActiveConfigAppliedTopology]: once the topology has been seen applied, it
    waits again for any config applied. *)
Definition WaitForActiveConfigAppliedTopology `{PollLib} (primaries replicas : Z)
    (obs obs' : nat → res error (list RedkeyConfig)) (after : res error (list RedkeyConfig))
    : res error (option RedkeyConfig) :=
  match (PollUntilContextTimeout (plainLook (activeConfigAppliedTopology primaries replicas)) () obs).2 with
  | Some e => Err (Errorf "timed out waiting for active config" e)
  | None => WaitForActiveConfigApplied obs' after
  end.

(** ** The newest config, three ways *)

Lemma exchangePass_perm x l m r : exchangePass x l = (m, r) → m :: r ≡ₚ x :: l.
Proof.
  revert x m r. induction l as [|y l IH]; intros x m r; simpl; [by intros [= <- <-]|].
  destruct (seqOf y <? seqOf x).
  - destruct (exchangePass y l) as [m' r'] eqn:E. intros [= <- <-]. apply IH in E.
    rewrite (Permutation_swap x m' r'). by constructor.
  - destruct (exchangePass x l) as [m' r'] eqn:E. intros [= <- <-]. apply IH in E.
    by rewrite (Permutation_swap y m' r'), E, Permutation_swap.
Qed.

Lemma exchangePass_min x l m r :
  exchangePass x l = (m, r) → seqOf m ≤ seqOf x ∧ ∀ c, c ∈ r → seqOf m ≤ seqOf c.
Proof.
  revert x m r. induction l as [|y l IH]; intros x m r; simpl.
  { intros [= <- <-]. split; [lia|]. intros c Hc. by apply not_elem_of_nil in Hc. }
  destruct (Z.ltb_spec (seqOf y) (seqOf x)) as [Hlt|Hle].
  - destruct (exchangePass y l) as [m' r'] eqn:E. intros [= <- <-]. apply IH in E as [H1 H2].
    split; [lia|]. intros c [->|Hc]%elem_of_cons; [lia|auto].
  - destruct (exchangePass x l) as [m' r'] eqn:E. intros [= <- <-]. apply IH in E as [H1 H2].
    split; [lia|]. intros c [->|Hc]%elem_of_cons; [lia|auto].
Qed.

Lemma exchangeSort_spec n l :
  (length l ≤ n)%nat → exchangeSort n l ≡ₚ l ∧ StronglySorted (key_le (λ c, seqOf c)) (exchangeSort n l).
Proof.
  revert l. induction n as [|n IH]; intros [|x l] Hn; simpl in *; [split; [done|constructor]|lia|split; [done|constructor]|].
  destruct (exchangePass x l) as [m r] eqn:E. pose proof (exchangePass_perm _ _ _ _ E) as Hp.
  pose proof (Permutation_length Hp) as Hlen. simpl in Hlen. injection Hlen as Hlen.
  destruct (IH r) as [Hr Hs]; [lia|]. split; [by rewrite Hr|]. constructor; [done|].
  apply Forall_forall. intros c Hc. rewrite Hr in Hc. by apply (exchangePass_min _ _ _ _ E).
Qed.

(** Both loops find a maximum, the first one met. *)
Lemma highestOf_spec c0 l :
  highestOf c0 l ∈ c0 :: l ∧ seqOf c0 ≤ seqOf (highestOf c0 l) ∧ ∀ c, c ∈ l → seqOf c ≤ seqOf (highestOf c0 l).
Proof.
  unfold highestOf. revert c0. induction l as [|c l IH]; intros c0; simpl.
  { split; [left|]. split; [lia|]. intros c Hc. by apply not_elem_of_nil in Hc. }
  destruct (Z.ltb_spec (seqOf c0) (seqOf c)) as [Hlt|Hle].
  - destruct (IH c) as (H1 & H2 & H3). split; [by right|]. split; [lia|].
    intros d [->|Hd]%elem_of_cons; [done|auto].
  - destruct (IH c0) as (H1 & H2 & H3). split; [apply elem_of_cons in H1 as [->|H1]; [left|by right; right]|].
    split; [done|]. intros d [->|Hd]%elem_of_cons; [lia|auto].
Qed.

Definition activeStep : Z * option RedkeyConfig → RedkeyConfig → Z * option RedkeyConfig :=
  λ '(maxSeq, active) c, if maxSeq <? seqOf c then (seqOf c, Some c) else (maxSeq, active).

Lemma activeOf_Some c0 l : (foldl activeStep (seqOf c0, Some c0) l).2 = Some (highestOf c0 l).
Proof.
  unfold highestOf. revert c0. induction l as [|c l IH]; intros c0; [done|]. cbn [foldl]. unfold activeStep at 2.
  destruct (seqOf c0 <? seqOf c); apply IH.
Qed.

Lemma activeOf_highest c0 l : 0 ≤ seqOf c0 → activeOf (c0 :: l) = Some (highestOf c0 (c0 :: l)).
Proof.
  intros Hc. unfold activeOf. fold activeStep. cbn [foldl]. unfold activeStep at 2.
  rewrite (proj2 (Z.ltb_lt _ _)) by lia. rewrite activeOf_Some. unfold highestOf. cbn [foldl].
  by rewrite Z.ltb_irrefl.
Qed.

Section newest.
Context (req : NamespacedName) (s : Store) (items : list RedkeyConfig).
Hypothesis Hok : configsOk req s.
Hypothesis Hitems : items ≡ₚ selected_configs (nn_Namespace req) (nn_Name req) s.

Lemma items_configs : items ≡ₚ clusterConfigs req s.
Proof. rewrite Hitems. unfold clusterConfigs, sortConfigs. by rewrite sort_slice_perm. Qed.

Lemma highestOf_last c0 rest : items = c0 :: rest → last (clusterConfigs req s) = Some (highestOf c0 items).
Proof.
  intros Heq. destruct (highestOf_spec c0 items) as (H1 & _ & H3).
  assert (Hin : highestOf c0 items ∈ clusterConfigs req s).
  { rewrite <- items_configs. rewrite Heq in *. apply elem_of_cons in H1 as [->|H1]; [left|done]. }
  destruct (last (clusterConfigs req s)) as [d|] eqn:Hd; [|apply last_None in Hd; rewrite Hd in Hin; by apply not_elem_of_nil in Hin].
  pose proof (last_Some_elem_of _ _ Hd) as Hdin. f_equal.
  pose proof (StronglySorted_last _ _ d (clusterConfigs_sorted req s) Hd _ Hin) as Hle. simpl in Hle.
  assert (Hge : seqOf d ≤ seqOf (highestOf c0 items)) by (apply H3; by rewrite items_configs).
  destruct (co_named _ _ Hok d Hdin) as [K1 _], (co_named _ _ Hok _ Hin) as [K2 _].
  apply elem_of_clusterConfigs in Hdin as [L1 _]; [|apply Hok].
  apply elem_of_clusterConfigs in Hin as [L2 _]; [|apply Hok].
  rewrite K1 in L1. rewrite K2 in L2. replace (seqOf (highestOf c0 items)) with (seqOf d) in L2 by lia.
  congruence.
Qed.
End newest.

(** The tests see the operator's newest config.  Whatever order the API lists
    the configs of a well-named cluster in, the tests' listing is the operator's
    ([listConfigs]: by ascending sequence), and both ways in which the tests look
    for the config with the highest sequence find the last of it, which is the one
    from which the operator decides whether a new config is due. *)
Theorem tests_see_newest_config (req : NamespacedName) (s : Store) (items : list RedkeyConfig) :
  configsOk req s → items ≡ₚ selected_configs (nn_Namespace req) (nn_Name req) s →
  ListConfigs_sorted (Ok items) = Ok (sortConfigs items) ∧ sortConfigs items = clusterConfigs req s ∧
  activeOf items = last (clusterConfigs req s) ∧
  match items with [] => clusterConfigs req s = [] | c :: _ => last (clusterConfigs req s) = Some (highestOf c items) end.
Proof.
  intros Hok Hitems. pose proof (items_configs req s items Hitems) as Hp.
  assert (Hsel : sortConfigs items = clusterConfigs req s) by by apply selected_perm_sorted.
  split; [|split; [done|]].
  - unfold ListConfigs_sorted. f_equal. destruct (exchangeSort_spec (length items) items) as [H1 H2]; [done|].
    rewrite Hsel. symmetry. apply clusterConfigs_unique; [done| |done|].
    + rewrite H1, Hp. apply NoDup_clusterConfigs, Hok.
    + intros c. by rewrite H1, Hp.
  - destruct items as [|c rest] eqn:E.
    + apply Permutation_nil_l in Hp. by rewrite <- Hp.
    + rewrite (highestOf_last req s (c :: rest) Hok Hitems c rest) by done. split; [|done].
      apply activeOf_highest. destruct (co_named _ _ Hok c); [|lia]. rewrite <- Hp. left.
Qed.

(** ** A cluster that converges

    The history of System.v's witnesses goes on: the operator catches up with the
    second spec, Robin reports the second config applied, and a last reconcile
    publishes that. *)

Definition waitingReconcile : prog (Result * option error) :=
  Reconcile (H := fake_lib) (mkReconciler 30 1) sampleKey.
Definition caughtUp : World false := (exec waitingReconcile resumedWorld).1.

Definition appliedStatus : RedkeyConfigStatus :=
  mkRedkeyConfigStatus ConfigPhaseApplied ClusterStatusReady (mkRedkeySubstatus "" 0) None
    [mkCondition ConditionHealthy ConditionTrue 0 0 "AllChecksPassed" ""] None 0.

Definition appliedWorld (w : World false) : World false :=
  match last (clusterConfigs sampleKey (server w)) with
  | Some c => reportConfig (reportedOn (next_rv (w_raw w)) appliedStatus c) w
  | None => w
  end.
Definition converged : World false := (exec waitingReconcile (appliedWorld caughtUp)).1.

Abbreviation waitingStep := (step (H := fake_lib) (mkReconciler 30 1) sampleKey).

Lemma caughtUp_reachable :
  rtc waitingStep (mkSys (server newWorld) newSpecs, None) (mkSys (server caughtUp) scaledSpecs, None).
Proof.
  etrans; [exact (transitivity newWorld_paused paused_resumed)|]. eapply rtc_l; [apply il_start|].
  exact (exec_steps (mkReconciler 30 1) sampleKey waitingReconcile resumedWorld caughtUp _ scaledSpecs (surjective_pairing _)).
Qed.

Lemma appliedWorld_step w specs : last (clusterConfigs sampleKey (server w)) ≠ None →
  envStep sampleKey (mkSys (server w) specs) (mkSys (server (appliedWorld w)) specs).
Proof.
  unfold appliedWorld. destruct (last (clusterConfigs sampleKey (server w))) as [c|] eqn:Hc; [|done]. intros _.
  exact (env_robin sampleKey (server w) specs c _ appliedStatus (last_Some_elem_of _ _ Hc)).
Qed.

Lemma converged_reachable :
  rtc waitingStep (mkSys (server newWorld) newSpecs, None) (mkSys (server converged) scaledSpecs, None).
Proof.
  etrans; [exact caughtUp_reachable|]. eapply rtc_l; [apply il_others, (appliedWorld_step caughtUp scaledSpecs)|].
  { vm_compute. discriminate. }
  eapply rtc_l; [apply il_start|].
  exact (exec_steps (mkReconciler 30 1) sampleKey waitingReconcile (appliedWorld caughtUp) converged _ scaledSpecs (surjective_pairing _)).
Qed.

Lemma caughtUp_configsOk : configsOk sampleKey (server caughtUp).
Proof.
  destruct (reachable_inv (mkReconciler 30 1) sampleKey _ _
    (initial_inv sampleKey _ _ newWorld_initial) caughtUp_reachable) as [[o HS] _].
  exact (so_configs _ _ _ HS).
Qed.

Lemma rev_listed s :
  rev (clusterConfigs sampleKey s) ≡ₚ selected_configs (nn_Namespace sampleKey) (nn_Name sampleKey) s.
Proof.
  rewrite <- Permutation_rev. unfold clusterConfigs, sortConfigs. apply sort_slice_perm.
Qed.

Lemma tests_see_newest_config_witness :
  let items := rev (clusterConfigs sampleKey (server caughtUp)) in
  length items = 2%nat ∧ activeOf items = last (clusterConfigs sampleKey (server caughtUp)).
Proof.
  intros items. split; [vm_compute; reflexivity|].
  destruct (tests_see_newest_config sampleKey (server caughtUp) items caughtUp_configsOk (rev_listed _))
    as (_ & _ & Hactive & _).
  exact Hactive.
Defined.

(** ** What the gates promise *)

Lemma podsRunning_ok pods : podsRunning pods = Ok tt ↔ Forall (λ p, pod_Phase p = PodRunning) pods.
Proof.
  induction pods as [|p pods IH]; simpl; [by split; [constructor|]|]. rewrite Forall_cons, <- IH.
  destruct (bool_decide_reflect (pod_Phase p = PodRunning)); simpl; naive_solver.
Qed.

(** What one look that passes has seen. *)
Record looksReady `{K8sLib} (s : Sight) (cl : Redkey) (first : RedkeyConfig) (items : list RedkeyConfig)
    (pods : list Pod) : Prop := {
  lr_cluster : si_cluster s = Ok cl;
  lr_phase : rst_Phase (rk_Status cl) = PhaseReady;
  lr_observed : rst_ObservedGeneration (rk_Status cl) = rk_Generation cl;
  lr_configs : si_configs s = Ok items;
  lr_first : head items = Some first;
  lr_applied : rct_ConfigPhase (cf_Status (highestOf first items)) = ConfigPhaseApplied;
  lr_ready : rct_Status (cf_Status (highestOf first items)) = ClusterStatusReady;
  lr_pods : si_pods s = Ok pods;
  lr_count : pods ≠ [] ∧ Z.of_nat (length pods) = NodesNeeded (rk_Spec cl);
  lr_running : Forall (λ p, pod_Phase p = PodRunning) pods;
  lr_healthy : ∃ h, FindStatusCondition (rst_Conditions (rk_Status cl)) ConditionHealthy = Some h ∧
    c_Status h = ConditionTrue;
}.

Lemma chaosReadyState_iff `{K8sLib} s :
  chaosReadyState s = Ok tt ↔ ∃ cl first items pods, looksReady s cl first items pods.
Proof.
  unfold chaosReadyState. split.
  - destruct (si_cluster s) as [cl|] eqn:E1; [|done].
    destruct (bool_decide_reflect (rst_Phase (rk_Status cl) = PhaseReady)) as [E2|]; simpl; [|done].
    destruct (bool_decide_reflect (rst_ObservedGeneration (rk_Status cl) = rk_Generation cl)) as [E3|]; simpl; [|done].
    unfold highestConfigSettled. destruct (si_configs s) as [[|first rest]|] eqn:E4; [done| |done].
    set (items := first :: rest) in *.
    destruct (bool_decide_reflect (rct_ConfigPhase (cf_Status (highestOf first items)) = ConfigPhaseApplied)) as [E5|]; cbn [negb]; [|done].
    destruct (bool_decide_reflect (rct_Status (cf_Status (highestOf first items)) = ClusterStatusReady)) as [E6|]; cbn [negb]; [|done].
    destruct (si_pods s) as [pods|] eqn:E7; [|done].
    destruct (bool_decide_reflect (length pods = 0%nat)) as [|E8]; [done|].
    destruct (bool_decide_reflect (Z.of_nat (length pods) = NodesNeeded (rk_Spec cl))) as [E9|]; cbn [negb]; [|done].
    destruct (podsRunning pods) as [[]|] eqn:E10; [|done].
    destruct (FindStatusCondition _ ConditionHealthy) as [h|] eqn:E11; [|done].
    destruct (bool_decide_reflect (c_Status h = ConditionTrue)) as [E12|]; cbn [negb]; [|done].
    intros _. exists cl, first, items, pods. split; try done; [|by apply podsRunning_ok|by exists h].
    split; [by intros ->|done].
  - intros (cl & first & items & pods & [-> E2 E3 E4 E5 E6 E7 E8 [E9 E10] E11 (h & E12 & E13)]).
    rewrite !bool_decide_eq_true_2 by done. unfold highestConfigSettled. rewrite E4. destruct items as [|c rest]; [done|].
    injection E5 as ->. rewrite !bool_decide_eq_true_2, E8 by done. cbn [negb].
    rewrite bool_decide_eq_false_2 by (by destruct pods). rewrite bool_decide_eq_true_2 by done. cbn [negb].
    apply podsRunning_ok in E11. by rewrite E11, E12, bool_decide_eq_true_2.
Qed.

(** C22: the chaos tests' gate means what it says.  In any state the cluster can
    reach (System.v), a look at it that passes [chaosReadyState] has seen a cluster
    whose newest config was made from the very spec in force, carries it, and has
    been applied and reported ready by Robin; that asks for primaries; that has
    exactly the pods its spec needs, all running; and that Robin holds healthy. *)
Theorem chaosReadyState_sound `{K8sLib, !K8sLaws} (r : RedkeyReconciler) (req : NamespacedName) (S S' : Sys)
    (o o' : Redkey) (p : Operator) (items : list RedkeyConfig) (s : Sight) :
  initial req S o → rtc (step r req) (S, None) (S', p) → st_redkeys (sy_store S') !! req = Some o' →
  items ≡ₚ selected_configs (nn_Namespace req) (nn_Name req) (sy_store S') →
  si_cluster s = Ok o' → si_configs s = Ok items → chaosReadyState s = Ok tt →
  rs_Primaries (rk_Spec o') ≠ 0 ∧
  (∃ c, last (clusterConfigs req (sy_store S')) = Some c ∧ configGeneration c = Ok (rk_Generation o') ∧
    carries (rk_Spec o') (cf_Spec c) ∧
    rct_ConfigPhase (cf_Status c) = ConfigPhaseApplied ∧ rct_Status (cf_Status c) = ClusterStatusReady) ∧
  (∃ pods, si_pods s = Ok pods ∧ Z.of_nat (length pods) = NodesNeeded (rk_Spec o') ∧
    Forall (λ p, pod_Phase p = PodRunning) pods) ∧
  ∃ h, FindStatusCondition (rst_Conditions (rk_Status o')) ConditionHealthy = Some h ∧ c_Status h = ConditionTrue.
Proof.
  intros Hi Hrtc Hlive Hitems Hcl Hcfg Hready.
  destruct (reachable_inv r req _ _ (initial_inv req S o Hi) Hrtc) as [[o1 HS] _]. cbn [fst] in HS.
  pose proof (so_live _ _ _ HS) as Hlive'. rewrite Hlive in Hlive'. injection Hlive' as <-.
  apply chaosReadyState_iff in Hready as (cl & first & l & pods & [E1 E2 E3 E4 E5 E6 E7 E8 [E9 E10] E11 E12]).
  rewrite Hcl in E1. injection E1 as <-. rewrite Hcfg in E4. injection E4 as <-.
  assert (Hp : rs_Primaries (rk_Spec o') ≠ 0).
  { intros Hz. unfold NodesNeeded in E10. rewrite Hz, Z.mul_0_l in E10. change (int32 0) with 0 in E10. by destruct pods. }
  destruct (so_settled _ _ _ HS E3 Hp) as (c & Hc & [Hgen (spec & Hs & Hcs)] & Ho).
  rewrite Hs in Ho. injection Ho as ->.
  destruct items as [|c0 rest]; [done|]. injection E5 as ->.
  pose proof (highestOf_last req _ _ (so_configs _ _ _ HS) Hitems first rest eq_refl) as Hhigh.
  assert (Heq : highestOf first (first :: rest) = c) by congruence. rewrite Heq in E6, E7.
  split; [done|]. split; [by exists c|]. split; [by exists pods|done].
Qed.

Definition convergedPods : list Pod :=
  (λ n, mkPod n PodRunning []) <$> ["rk-0"; "rk-1"; "rk-2"; "rk-3"; "rk-4"].
Definition convergedSight : Sight :=
  mkSight (match st_redkeys (server converged) !! sampleKey with Some o => Ok o | None => Err NotFound end)
    (Ok (rev (clusterConfigs sampleKey (server converged)))) false (Ok convergedPods).

Lemma chaosReadyState_sound_witness :
  ∃ o, st_redkeys (server converged) !! sampleKey = Some o ∧ rs_Primaries (rk_Spec o) ≠ 0.
Proof.
  destruct (st_redkeys (server converged) !! sampleKey) as [o|] eqn:Ho; [|by vm_compute in Ho]. exists o.
  split; [reflexivity|].
  apply (proj1 (chaosReadyState_sound (H := fake_lib) (mkReconciler 30 1) sampleKey (mkSys (server newWorld) newSpecs)
    (mkSys (server converged) scaledSpecs) newRedkey o None (rev (clusterConfigs sampleKey (server converged)))
    convergedSight newWorld_initial converged_reachable Ho (rev_listed _)
    ltac:(unfold convergedSight; cbn [si_cluster]; by rewrite Ho) eq_refl ltac:(vm_compute; reflexivity))).
Defined.

(** ** Polling until the topology is stable *)

(** A look that sees pods, all of them clean. *)
Definition cleanLook (s : TopologySight) : Prop :=
  ts_ctx s = None ∧ ∃ pods, ts_pods s = Ok pods ∧ pods ≠ [] ∧
    ∀ pod, pod ∈ pods → ts_ctxPod s (pod_Name pod) = false ∧
      clusterCheckPasses (ts_check s (pod_Name pod)) = true ∧
      clusterNodesHasFailure (ts_nodes s (pod_Name pod)) = false.

(** A context once cancelled stays cancelled. *)
Definition cancelsForGood (obs : nat → TopologySight) : Prop :=
  ∀ i name, ts_ctxPod (obs i) name = true → ts_ctx (obs (S i)) ≠ None.

Lemma checkPods_clean s pods :
  checkPods s pods = AllClean ↔ ∀ pod, pod ∈ pods → ts_ctxPod s (pod_Name pod) = false ∧
    clusterCheckPasses (ts_check s (pod_Name pod)) = true ∧
    clusterNodesHasFailure (ts_nodes s (pod_Name pod)) = false.
Proof.
  induction pods as [|pod pods IH]; simpl; [split; [|done]; intros _ pod Hp; by apply not_elem_of_nil in Hp|].
  split.
  - destruct (ts_ctxPod s (pod_Name pod)) eqn:E1; [done|].
    destruct (clusterCheckPasses (ts_check s (pod_Name pod))) eqn:E2; simpl; [|done].
    destruct (clusterNodesHasFailure (ts_nodes s (pod_Name pod))) eqn:E3; [done|].
    intros Hall x [->|Hx]%elem_of_cons; [done|]. by apply IH.
  - intros Hall. destruct (Hall pod) as (-> & -> & ->); [left|]. simpl. apply IH. intros x Hx. apply Hall. by right.
Qed.

Lemma checkPods_cancelled s pods : checkPods s pods = Cancelled → ∃ name, ts_ctxPod s name = true.
Proof.
  induction pods as [|pod pods IH]; simpl; [done|].
  destruct (ts_ctxPod s (pod_Name pod)) eqn:E1; [by exists (pod_Name pod)|].
  destruct (negb _); [done|]. by destruct (clusterNodesHasFailure _).
Qed.

(** What a look does to the counter. *)
Lemma topologyLook_cases last k s :
  (∃ e, ts_ctx s = Some e ∧ topologyLook (last, k) s = ((last, k), (false, Some e))) ∨
  (cleanLook s ∧ ∃ last', topologyLook (last, k) s =
    ((last', S k), (negb (S k <? requiredStableChecks)%nat, None))) ∨
  (¬ cleanLook s ∧ ts_ctx s = None ∧ ∃ last', topologyLook (last, k) s = ((last', 0%nat), (false, None))) ∨
  (¬ cleanLook s ∧ ts_ctx s = None ∧ (∃ name, ts_ctxPod s name = true) ∧
    topologyLook (last, k) s = ((last, k), (false, None))).
Proof.
  unfold topologyLook, cleanLook. destruct (ts_ctx s) as [e|]; [left; by exists e|right].
  destruct (ts_pods s) as [[|pod pods]|e] eqn:Hp.
  - right. left. split; [naive_solver|]. split; [done|]. by eexists.
  - assert (Hiff : (∃ l, Ok (E := error) (pod :: pods) = Ok l ∧ l ≠ [] ∧ ∀ x, x ∈ l → ts_ctxPod s (pod_Name x) = false ∧
        clusterCheckPasses (ts_check s (pod_Name x)) = true ∧ clusterNodesHasFailure (ts_nodes s (pod_Name x)) = false) ↔
      checkPods s (pod :: pods) = AllClean).
    { rewrite checkPods_clean. split; [by intros (l & [= <-] & _ & Hl)|]. intros Hl. by exists (pod :: pods). }
    destruct (checkPods s (pod :: pods)) as [| |reason] eqn:Hc.
    + left. split; [by split; [|apply Hiff]|]. case_match; by eexists.
    + right. right. split; [by intros [_ Hx%Hiff]|]. split; [done|]. split; [by eapply checkPods_cancelled|done].
    + right. left. split; [by intros [_ Hx%Hiff]|]. split; [done|]. by eexists.
  - right. left. split; [naive_solver|]. split; [done|]. by eexists.
Qed.

(** Three clean looks in a row, starting at look [j], nothing having ended the wait before. *)
Definition stableFrom (obs : nat → TopologySight) (j : nat) : Prop :=
  (∀ i, (i < j)%nat → ts_ctx (obs i) = None) ∧ cleanLook (obs j) ∧ cleanLook (obs (S j)) ∧ cleanLook (obs (S (S j))).

(** With [k] clean looks behind, [3 - k] more are enough. *)
Definition endsStable (n k : nat) (obs : nat → TopologySight) : Prop :=
  (3 - k ≤ n ∧ ∀ i, i < 3 - k → cleanLook (obs i))%nat ∨ ∃ j, (j + 3 ≤ n)%nat ∧ stableFrom obs j.

Lemma stableFrom_S obs j :
  ts_ctx (obs 0%nat) = None → stableFrom (λ i, obs (S i)) j ↔ stableFrom obs (S j).
Proof.
  intros H0. unfold stableFrom. split; intros [H1 H2]; (split; [|done]).
  - intros [|i] Hi; [done|]. apply H1. lia.
  - intros i Hi. apply H1. lia.
Qed.

Lemma cleanLook_ctx s : cleanLook s → ts_ctx s = None.
Proof. by intros [H _]. Qed.

Lemma topology_polls n e last k obs :
  cancelsForGood obs → (k < 3)%nat →
  (pollFor n e topologyLook (last, k) obs).2 = None ↔ endsStable n k obs.
Proof.
  revert last k obs. induction n as [|n IH]; intros last k obs Hgood Hk; cbn [pollFor].
  { split; [done|]. intros [[H1 _]|(j & H1 & _)]; lia. }
  assert (Hgood' : cancelsForGood (λ i, obs (S i))) by (intros i name; apply Hgood).
  destruct (topologyLook_cases last k (obs 0%nat)) as [(e' & Hctx & ->)|[(Hclean & last' & ->)|[(Hd & Hctx & last' & ->)|(Hd & Hctx & (name & Hn) & ->)]]].
  - split; [done|]. intros [[H1 H2]|(j & H1 & H2 & H3 & _)].
    + specialize (H2 0%nat ltac:(lia)). apply cleanLook_ctx in H2. congruence.
    + destruct j as [|j]; [apply cleanLook_ctx in H3; congruence|]. specialize (H2 0%nat ltac:(lia)). congruence.
  - pose proof (cleanLook_ctx _ Hclean) as Hctx. unfold requiredStableChecks.
    destruct (Nat.ltb_spec (S k) 3) as [Hlt|Hge]; cbn [negb].
    + rewrite IH by done. unfold endsStable. split.
      * intros [[H1 H2]|(j & H1 & H2)].
        -- left. split; [lia|]. intros [|i] Hi; [done|]. apply H2. lia.
        -- right. exists (S j). split; [lia|]. by apply stableFrom_S.
      * intros [[H1 H2]|([|j] & H1 & H2)].
        -- left. split; [lia|]. intros i Hi. apply H2. lia.
        -- left. destruct H2 as (_ & _ & H3 & H4). split; [lia|]. intros [|[|i]] Hi; [done|done|lia].
        -- right. exists j. split; [lia|]. by apply stableFrom_S in H2.
    + split; [|done]. intros _. left. split; [lia|]. intros i Hi. by replace i with 0%nat by lia.
  - rewrite IH by (done || lia). unfold endsStable. split.
    + intros [[H1 H2]|(j & H1 & H2)].
      * right. exists 1%nat. split; [lia|]. split; [by intros i Hi; replace i with 0%nat by lia|].
        split; [apply (H2 0%nat); lia|]. split; [apply (H2 1%nat); lia|apply (H2 2%nat); lia].
      * right. exists (S j). split; [lia|]. by apply stableFrom_S.
    + intros [[_ H2]|([|j] & H1 & H2)]; [by destruct Hd; apply H2; lia|by destruct Hd; apply H2|].
      right. exists j. split; [lia|]. by apply stableFrom_S in H2.
  - pose proof (Hgood 0%nat name Hn) as Hnext.
    split.
    + rewrite IH by done. intros [[_ H2]|(j & _ & H2 & H3 & _)].
      * specialize (H2 0%nat ltac:(lia)). by apply cleanLook_ctx in H2.
      * destruct j as [|j]; [by apply cleanLook_ctx in H3|]. by specialize (H2 0%nat ltac:(lia)).
    + intros [[_ H2]|([|j] & H1 & H2)]; [by destruct Hd; apply H2; lia|by destruct Hd; apply H2|].
      destruct H2 as (H2 & H3 & _). destruct j as [|j]; [by apply cleanLook_ctx in H3|].
      by specialize (H2 1%nat ltac:(lia)).
Qed.

Lemma endsStable_start n obs : endsStable n 0 obs ↔ ∃ j, (j + 3 ≤ n)%nat ∧ stableFrom obs j.
Proof.
  split; [|by right]. intros [[H1 H2]|Hj]; [|done]. exists 0%nat. split; [lia|]. split; [lia|].
  split; [apply H2; lia|]. split; apply H2; lia.
Qed.

(** The topology check asks for three clean looks in a row.  When the time
    given allows [n] polls, [AssertTopologyStable] succeeds exactly if among them
    there are three consecutive ones that each saw at least one pod and found every
    pod's cluster check and node list clean, and nothing cancelled the wait before;
    any look in between that is not clean starts the count again. *)
Theorem AssertTopologyStable_iff `{PollLib} (n : nat) (e : error) (obs : nat → TopologySight) :
  allowsPolls n e topologyLook (None, 0%nat) obs → cancelsForGood obs →
  AssertTopologyStable obs = Ok tt ↔ ∃ j, (j + 3 ≤ n)%nat ∧ stableFrom obs j.
Proof.
  intros Heq Hgood. unfold AssertTopologyStable. rewrite Heq.
  rewrite <- endsStable_start, <- (topology_polls n e None 0 obs Hgood) by lia.
  destruct (pollFor n e topologyLook (None, 0%nat) obs) as [[last k] err]. unfold ended. cbn [fst snd].
  by destruct err.
Qed.

(** The gate of [WaitForChaosReady] passes at some poll. *)
Lemma WaitForChaosReady_iff `{K8sLib, PollLib} n e obs :
  allowsPolls n e chaosLook None obs →
  WaitForChaosReady obs = Ok tt ↔
  ∃ k, (k < n)%nat ∧ chaosReadyState (obs k).1.2 = Ok tt ∧ ∀ i, (i ≤ k)%nat → (obs i).1.1 = None.
Proof.
  intros Heq. unfold WaitForChaosReady. rewrite Heq. clear Heq. generalize (@None NotReady).
  revert obs. induction n as [|n IH]; intros obs last; cbn [pollFor].
  { split; [done|]. intros (k & Hk & _). lia. }
  destruct (obs 0%nat) as [[[e'|] s] cancelled] eqn:E; simpl.
  - split; [done|]. intros (k & _ & _ & Hk). specialize (Hk 0%nat ltac:(lia)). by rewrite E in Hk.
  - destruct (chaosReadyState s) as [[]|reason] eqn:Hs.
    + split; [|done]. intros _. exists 0%nat. rewrite E. split; [lia|]. split; [done|].
      intros i Hi. replace i with 0%nat by lia. by rewrite E.
    + rewrite IH. split; intros (k & H1 & H2 & H3).
      * exists (S k). split; [lia|]. split; [done|]. intros [|i] Hi; [by rewrite E|]. apply H3. lia.
      * destruct k as [|k]; [rewrite E in H2; simpl in H2; congruence|].
        exists k. split; [lia|]. split; [done|]. intros i Hi. apply H3. lia.
Qed.

(** Witness: seven polls; the second and third look are clean, the fourth is not. *)
#[local] Instance sevenPolls : PollLib := {|
  PollUntilContextTimeout St Obs cond s obs := pollFor 7 (OtherError "context deadline exceeded") cond s obs |}.

Definition topologySight (check : string) : TopologySight :=
  mkTopologySight None (Ok [mkPod "rk-0" PodRunning []]) false (λ _, false) (λ _, Ok check) (λ _, false)
    (λ _, Ok sampleNodes) (λ _, false).
Definition topologyLooks (i : nat) : TopologySight :=
  topologySight (if bool_decide (i ∈ [1; 2; 4; 5; 6]%nat) then "[OK] All 16384 slots covered." else "[WARNING] open slots").

Lemma AssertTopologyStable_iff_witness :
  AssertTopologyStable topologyLooks = Ok tt ∧ ∃ j, (j + 3 ≤ 7)%nat ∧ stableFrom topologyLooks j.
Proof.
  assert (Hok : AssertTopologyStable topologyLooks = Ok tt) by (vm_compute; reflexivity).
  split; [exact Hok|].
  exact (proj1 (AssertTopologyStable_iff 7 (OtherError "context deadline exceeded") topologyLooks eq_refl
    ltac:(intros i name Hc; discriminate Hc)) Hok).
Defined.

(** A clean node list means that no node is failing and no slot is on the move. *)
Lemma clusterNodesHasFailure_printed nodes n x :
  clusterNodesHasFailure (Ok (nodesText nodes)) = false → (n, x) ∈ nodes →
  Contains (cn_Flags n) "fail" = false ∧
  ∀ slot, slot ∈ cn_Slots n → Contains slot "->" = false ∧ Contains slot "<-" = false.
Proof.
  simpl. intros [[H1 H2]%orb_false_iff H3]%orb_false_iff Hin.
  assert (Hno : ∀ w p, w ∈ nodeWords n x → Contains (nodesText nodes) p = false → Contains w p = false).
  { intros w p Hw Hp. apply not_true_is_false. intros Hc. by rewrite (Contains_nodesText nodes n x w p) in Hp. }
  split; [apply Hno; [|done]; unfold nodeWords; set_solver|].
  intros slot Hs. split; (apply Hno; [|done]); unfold nodeWords; do 8 right; exact Hs.
Qed.
