(* ===== verification/Maintenance.v ===== *)
(** * Tests that write in Robin's place (test/e2e/framework/wait.go)

    [SetClusterConfigStatus] puts Robin into maintenance, or back, by writing the
    status of the newest config while Robin and the operator keep working.  The
    API client it is given is an argument: a state that is passed along, a listing
    and a status update.  Under the laws of such a client, what the tests do is one
    more report of Robin in System.v. *)

From S2P Require Import Prelude GoLib K8s Types Effects Client Logic FakeCluster.
From S2P Require Import Config Controller Samples ConfigProofs ConfigStore ControllerProofs ScaleZeroProofs.
From S2P Require Import Life Interleaving Reconciling System RedisClient Waiting.
Local Open Scope Z_scope.

(** ** The code *)

(** How the function ends: it returns an error or nil, or dereferences nil. *)
Inductive StatusOutcome :=
| Returned (e : option error)
| Panicked.

(** [active.Status.Status = status]. *)
Definition set_cf_StatusStatus (status : string) (c : RedkeyConfig) : RedkeyConfig :=
  let st := cf_Status c in
  mkRedkeyConfig (cf_Meta c) (cf_Spec c)
    (mkRedkeyConfigStatus (rct_ConfigPhase st) status (rct_Substatus st) (rct_Nodes st) (rct_Conditions st)
       (rct_LastUpdatedAt st) (rct_ObservedGeneration st)).

Section set_status.
Context {Σ : Type}.
Context (list : Σ → Σ * res error (list RedkeyConfig)) (update : RedkeyConfig → Σ → Σ * res error unit).

(** The function that is retried. *)
Definition setStatusAttempt (clusterName namespace status : string) (s : Σ) : Σ * StatusOutcome :=
  let '(s1, answer) := list s in
  match answer with
  | Err e => (s1, Returned (Some (Errorf ("listing configs for cluster " +:+ clusterName) e)))
  | Ok items =>
      if bool_decide (length items = 0%nat) then
        (s1, Returned (Some (OtherError ("no RedkeyConfig found for cluster " +:+ clusterName +:+ " in namespace " +:+ namespace))))
      else
        match activeOf items with
        | None => (s1, Panicked)
        | Some active =>
            let '(s2, written) := update (set_cf_StatusStatus status active) s1 in
            match written with
            | Err e => (s2, Returned (Some (Errorf ("updating config " +:+ om_Name (cf_Meta active) +:+ " status to " +:+ status) e)))
            | Ok _ => (s2, Returned None)
            end
        end
  end.

(** [SetClusterConfigStatus], given [retry.RetryOnConflict] at this type. *)
Definition SetClusterConfigStatus (RetryOnConflict : (Σ → Σ * StatusOutcome) → Σ → Σ * StatusOutcome)
    (clusterName namespace status : string) : Σ → Σ * StatusOutcome :=
  RetryOnConflict (setStatusAttempt clusterName namespace status).

(** ** The client *)

(** What [retry.RetryOnConflict] does: try again, some number of times, while the
    answer is a conflict. *)
Fixpoint retryStatus (n : nat) (f : Σ → Σ * StatusOutcome) (s : Σ) : Σ * StatusOutcome :=
  match n with
  | O => f s
  | S n' =>
      match f s with
      | (s1, Returned (Some e)) => if IsConflict e then retryStatus n' f s1 else (s1, Returned (Some e))
      | res => res
      end
  end.

Context `{K8sLib, !K8sLaws}.
Context (r : RedkeyReconciler) (req : NamespacedName) (view : Σ → Sys * Operator).
Context (known : Σ → gmap (NamespacedName * string) RedkeyConfig).
Context (RetryOnConflict : (Σ → Σ * StatusOutcome) → Σ → Σ * StatusOutcome).

(** The version of a config. *)
Definition version (c : RedkeyConfig) : NamespacedName * string := (cf_key c, om_ResourceVersion (cf_Meta c)).

(** A client of a cluster of System.v.  Anything may happen before a request is
    answered.  A key and a resource version name one version of a config for good:
    [known] is the record of them.  A listing shows the configs there are; a status
    update goes through only if the version stored has the resource version that was
    sent, and then replaces its status and gives it another resource version. *)
Record TestClient : Prop := {
  tc_list : ∀ s s1 answer, list s = (s1, answer) →
    rtc (step r req) (view s) (view s1) ∧ known s ⊆ known s1 ∧
    match answer with
    | Ok l => l ≡ₚ selected_configs (nn_Namespace req) (nn_Name req) (sy_store (view s1).1) ∧
        ∀ c, c ∈ l → known s1 !! version c = Some c
    | Err _ => True
    end;
  tc_update : ∀ c s s1 answer, update c s = (s1, answer) → known s ⊆ known s1 ∧ ∃ S p,
    rtc (step r req) (view s) (S, p) ∧
    match answer with
    | Ok _ => ∃ d rv, st_configs (sy_store S) !! cf_key c = Some d ∧
        om_ResourceVersion (cf_Meta d) = om_ResourceVersion (cf_Meta c) ∧ known s1 !! version d = Some d ∧
        view s1 = (mkSys (sput KRedkeyConfig (cf_key d) (reportedOn rv (cf_Status c) d) (sy_store S)) (sy_specs S), p)
    | Err _ => view s1 = (S, p)
    end;
  tc_retry : ∃ n, ∀ f s, RetryOnConflict f s = retryStatus n f s;
}.

(** ** Playing Robin *)

(** The state [s] is reached, and nobody has panicked. *)
Definition inLife (s : Σ) : Prop := ∃ S o, initial req S o ∧ rtc (step r req) (S, None) (view s).

Lemma inLife_configs s S p : inLife s → rtc (step r req) (view s) (S, p) → configsOk req (sy_store S).
Proof.
  intros (S0 & o & Hi & Hr0) H1.
  destruct (reachable_inv r req _ _ (initial_inv req S0 o Hi) (transitivity Hr0 H1)) as [[o' HS] _].
  exact (so_configs _ _ _ HS).
Qed.

(** The newest config [c] of some moment since [s] was still stored, that very version
    of it, when its status was written: every report there had been on it is part of
    what is stored now. *)
Definition written (status : string) (s s' : Σ) : Prop :=
  ∃ S1 p1 S2 p2 c rv,
    rtc (step r req) (view s) (S1, p1) ∧ last (clusterConfigs req (sy_store S1)) = Some c ∧
    rtc (step r req) (S1, p1) (S2, p2) ∧ st_configs (sy_store S2) !! cf_key c = Some c ∧
    view s' = (mkSys (sput KRedkeyConfig (cf_key c)
      (reportedOn rv (cf_Status (set_cf_StatusStatus status c)) c) (sy_store S2)) (sy_specs S2), p2).

Lemma robin_writes S p c rv st :
  configsOk req (sy_store S) → ours req (cf_key c) → st_configs (sy_store S) !! cf_key c = Some c →
  step r req (S, p) (mkSys (sput KRedkeyConfig (cf_key c) (reportedOn rv st c) (sy_store S)) (sy_specs S), p).
Proof.
  intros Hok (n & Hn & Hk) Hc. apply (il_others (H := fresh_interleaved req)). destruct S as [s0 specs]. apply env_robin.
  apply elem_of_clusterConfigs; [apply Hok|]. split; [done|]. rewrite Hk in Hc. by apply (co_taken _ _ Hok n).
Qed.

Lemma setStatusAttempt_ok name ns status s s' out :
  TestClient → inLife s → setStatusAttempt name ns status s = (s', out) →
  rtc (step r req) (view s) (view s') ∧ out ≠ Panicked ∧ (out = Returned None → written status s s').
Proof.
  intros Htc Hs. unfold setStatusAttempt. destruct (list s) as [s1 answer] eqn:Hl.
  destruct (tc_list Htc _ _ _ Hl) as (Hr1 & _ & Hans). destruct (view s1) as [S1 p1] eqn:Hv1. cbn [fst] in Hans.
  destruct answer as [items|e]; [|intros [= <- <-]; by rewrite Hv1].
  case_bool_decide as Hlen; [intros [= <- <-]; by rewrite Hv1|]. destruct Hans as [Hans Hlog].
  pose proof (inLife_configs s S1 p1 Hs Hr1) as Hok1.
  destruct (tests_see_newest_config req (sy_store S1) items Hok1 Hans) as (_ & _ & Hact & Hhigh). rewrite Hact.
  destruct items as [|c0 items]; [done|]. rewrite Hhigh. set (c := highestOf c0 (c0 :: items)) in *.
  assert (Hin : c ∈ clusterConfigs req (sy_store S1)) by by apply last_Some_elem_of.
  assert (Hkn : known s1 !! version c = Some c) .
  { apply Hlog. rewrite Hans. unfold clusterConfigs, sortConfigs in Hin. by rewrite sort_slice_perm in Hin. }
  destruct (update _ s1) as [s2 answer] eqn:Hu. destruct (tc_update Htc _ _ _ _ Hu) as (Hgrow & S2 & p2 & Hr2 & Hx).
  rewrite Hv1 in Hr2. pose proof (transitivity Hr1 Hr2) as Hr12. destruct answer as [[]|e]; intros [= <- <-]; [|by rewrite Hx].
  destruct Hx as (d & rv & Hd & Hrv & Hdn & Hv2). pose proof (clusterConfigs_ours req (sy_store S1) c Hok1 Hin) as Hours. pose proof (inLife_configs s S2 p2 Hs Hr12) as Hok2.
  change (cf_key (set_cf_StatusStatus status c)) with (cf_key c) in Hd.
  assert (d = c) as ->.
  { pose proof (lookup_weaken _ _ _ _ Hkn Hgrow) as Hc2. pose proof (co_keyed _ _ Hok2 KRedkeyConfig _ d Hd) as Hkey.
    change (cf_key d = cf_key c) in Hkey. unfold version in Hdn, Hc2. rewrite Hkey, Hrv in Hdn.
    change (om_ResourceVersion (cf_Meta (set_cf_StatusStatus status c))) with (om_ResourceVersion (cf_Meta c)) in Hdn. congruence. }
  split; [rewrite Hv2; eapply rtc_r; [done|]; apply robin_writes; [done..]|].
  split; [done|]. intros _. by exists S1, p1, S2, p2, c, rv.
Qed.

(** C34: a test that writes a status plays Robin.  Whatever Robin, the user and the
    operator do meanwhile, and however often the write is tried again,
    [SetClusterConfigStatus] neither panics nor takes the cluster anywhere System.v
    could not: it is a run of System.v, so everything shown of those holds while tests
    write; and if it returns nil, the config that was the newest when it looked got
    the status while exactly the version it had seen was stored, so no report of
    Robin's in between was overwritten, and kept the rest of its status. *)
Theorem SetClusterConfigStatus_plays_robin (name ns status : string) (s s' : Σ) (out : StatusOutcome) :
  TestClient → inLife s → SetClusterConfigStatus RetryOnConflict name ns status s = (s', out) →
  rtc (step r req) (view s) (view s') ∧ out ≠ Panicked ∧ (out = Returned None → written status s s').
Proof.
  intros Htc. unfold SetClusterConfigStatus. destruct (tc_retry Htc) as [n ->]. revert s.
  induction n as [|n IH]; intros s Hs; simpl; [by apply setStatusAttempt_ok|].
  destruct (setStatusAttempt name ns status s) as [s1 out1] eqn:Ha.
  destruct (setStatusAttempt_ok _ _ _ _ _ _ Htc Hs Ha) as (H1 & Hnp & Hw).
  destruct out1 as [[e|]|]; [|by intros [= <- <-]|done]. destruct (IsConflict e); [|by intros [= <- <-]].
  intros Hr. destruct Hs as (S0 & o & Hi & Hr0).
  destruct (IH s1) as (H2 & Hnp2 & Hw2); [by exists S0, o; split; [|etrans]|done|].
  split; [by etrans|]. split; [done|]. intros Hout.
  destruct (Hw2 Hout) as (S1 & p1 & S2 & p2 & c & rv & Hr2 & Hrest). exists S1, p1, S2, p2, c, rv. split; [by etrans|done].
Qed.
End set_status.

(** ** Witness: maintenance mode, written between two reconciles *)

(** A world in which nobody else acts, with the record of the versions there were. *)
Record LoggedWorld := mkLoggedWorld {
  lw_world : World false;
  lw_log : gmap (NamespacedName * string) RedkeyConfig;
  lw_ok : ∀ key c, st_configs (server lw_world) !! key = Some c → lw_log !! (key, om_ResourceVersion (cf_Meta c)) = Some c;
}.

Definition freshVersion (l : LoggedWorld) : string :=
  fresh (set_map (C := gset _) (D := gset string) snd (dom (lw_log l))).

Lemma freshVersion_new l key : lw_log l !! (key, freshVersion l) = None.
Proof.
  apply not_elem_of_dom. intros Hin. apply (is_fresh (set_map (C := gset _) (D := gset string) snd (dom (lw_log l)))).
  apply elem_of_map. by exists (key, freshVersion l).
Qed.

(** The config [d] of a world gets a status. *)
Definition reportLogged (d : RedkeyConfig) (st : RedkeyConfigStatus) (l : LoggedWorld) : LoggedWorld.
Proof.
  refine (mkLoggedWorld (reportConfig (reportedOn (freshVersion l) st d) (lw_world l))
    (<[(cf_key d, freshVersion l) := reportedOn (freshVersion l) st d]> (lw_log l)) _).
  intros key c Hc.
  change (<[cf_key d := reportedOn (freshVersion l) st d]> (st_configs (server (lw_world l))) !! key = Some c) in Hc.
  apply lookup_insert_Some in Hc as [[<- <-]|[Hne Hc]]; [apply lookup_insert_eq|].
  rewrite lookup_insert_ne by congruence. by apply lw_ok.
Defined.

Definition worldList (l : LoggedWorld) : LoggedWorld * res error (list RedkeyConfig) :=
  (l, Ok (selected_configs "ns" "rk" (server (lw_world l)))).

Definition worldUpdate (c : RedkeyConfig) (l : LoggedWorld) : LoggedWorld * res error unit :=
  match st_configs (server (lw_world l)) !! cf_key c with
  | Some d =>
      if bool_decide (om_ResourceVersion (cf_Meta d) = om_ResourceVersion (cf_Meta c))
      then (reportLogged d (cf_Status c) l, Ok tt)
      else (l, Err Conflict)
  | None => (l, Err NotFound)
  end.

Definition worldView (l : LoggedWorld) : Sys * Operator := (mkSys (server (lw_world l)) scaledSpecs, None).

Lemma worldClient : TestClient (H := fake_lib) worldList worldUpdate (mkReconciler 30 1) sampleKey worldView lw_log (retryStatus 4).
Proof.
  split.
  - intros l l1 answer [= <- <-]. split; [done|]. split; [done|]. split; [done|]. intros c Hc.
    apply list_elem_of_filter in Hc as [_ ([key c'] & -> & Hc%elem_of_map_to_list)%list_elem_of_fmap].
    pose proof (server_keyed (lw_world l) KRedkeyConfig key c' Hc) as Hkey. change (cf_key c' = key) in Hkey.
    unfold version. simpl. rewrite Hkey. by apply lw_ok.
  - intros c l l1 answer. unfold worldUpdate. destruct (st_configs (server (lw_world l)) !! cf_key c) as [d|] eqn:Hd.
    + case_bool_decide as Hrv; intros [= <- <-].
      * pose proof (server_keyed (lw_world l) KRedkeyConfig _ d Hd) as Hkey. change (cf_key d = cf_key c) in Hkey.
        split; [by apply insert_subseteq, freshVersion_new|]. exists (mkSys (server (lw_world l)) scaledSpecs), None.
        split; [done|]. exists d, (freshVersion l). split; [done|]. split; [done|]. split; [|done].
        simpl. rewrite lookup_insert_ne; [unfold version; rewrite Hkey; by apply lw_ok|].
        intros Heq. pose proof (freshVersion_new l (cf_key d)) as Hn. rewrite Heq in Hn. unfold version in Hn.
        rewrite Hkey in Hn. by rewrite (lw_ok l _ _ Hd) in Hn.
      * split; [done|]. by exists (mkSys (server (lw_world l)) scaledSpecs), None.
    + intros [= <- <-]. split; [done|]. by exists (mkSys (server (lw_world l)) scaledSpecs), None.
  - by exists 4%nat.
Qed.

(** The versions stored at some moment. *)
Definition versionsOf (s : Store) : gmap (NamespacedName * string) RedkeyConfig :=
  list_to_map ((λ x : NamespacedName * RedkeyConfig, ((x.1, om_ResourceVersion (cf_Meta x.2)), x.2)) <$> map_to_list (st_configs s)).

Lemma versionsOf_ok s key c : st_configs s !! key = Some c → versionsOf s !! (key, om_ResourceVersion (cf_Meta c)) = Some c.
Proof.
  intros Hc. apply elem_of_list_to_map_1.
  - apply (NoDup_fmap_1 fst). rewrite <- !list_fmap_compose. apply NoDup_fst_map_to_list.
  - apply list_elem_of_fmap. exists (key, c). split; [done|]. by apply elem_of_map_to_list.
Qed.

Definition resumedLogged : LoggedWorld := mkLoggedWorld resumedWorld (versionsOf (server resumedWorld)) (versionsOf_ok _).

Lemma SetClusterConfigStatus_plays_robin_witness :
  let '(w', out) := SetClusterConfigStatus worldList worldUpdate (retryStatus 4) "rk" "ns" "Maintenance" resumedLogged in
  out = Returned None ∧ written (H := fake_lib) (mkReconciler 30 1) sampleKey worldView "Maintenance" resumedLogged w'.
Proof.
  destruct (SetClusterConfigStatus worldList worldUpdate (retryStatus 4) "rk" "ns" "Maintenance" resumedLogged) as [w' out] eqn:Hr.
  assert (Hout : out = Returned None).
  { transitivity (SetClusterConfigStatus worldList worldUpdate (retryStatus 4) "rk" "ns" "Maintenance" resumedLogged).2; [by rewrite Hr|].
    vm_compute. reflexivity. }
  destruct (SetClusterConfigStatus_plays_robin (H := fake_lib) worldList worldUpdate (mkReconciler 30 1) sampleKey worldView
    lw_log (retryStatus 4) "rk" "ns" "Maintenance" resumedLogged w' out worldClient
    (ex_intro _ (mkSys (server newWorld) newSpecs) (ex_intro _ newRedkey
      (conj newWorld_initial (transitivity newWorld_paused paused_resumed)))) Hr) as (_ & _ & Hw).
  split; [exact Hout|exact (Hw Hout)].
Defined.
