(* ===== verification/Cost.v ===== *)
(** * How many requests a reconcile makes

    A cost logic for [prog] with time credits: [pays k p c] says that [k]
    credits, plus one for every config the API lists on the way, pay for the API
    requests of [p] and leave [c a] of them when [p] returns [a].  The credits a
    listing yields pay for the loops over the list it returned. *)

From S2P Require Import Prelude GoLib K8s Types Effects Client Logic FakeCluster.
From S2P Require Import Robin Config Metrics ScaleZero Controller Samples Footprint.
Local Open Scope nat_scope.

(** ** Costs *)

(** One for a request that goes to the API. *)
Definition price {T} (q : Req T) : nat :=
  match q with
  | Get _ _ | ListConfigs _ _ | Create _ _ | Delete _ _ | Patch _ _ _ | StatusUpdate _ => 1
  | _ => 0
  end.

(** The configs an answer lists. *)
Definition yield {T} (q : Req T) : T → nat :=
  match q in Req T return T → nat with
  | ListConfigs _ _ => λ r, match r with Ok l => length l | Err _ => 0 end
  | _ => λ _, 0
  end.

Definition requests (tr : list event) : nat := sum_list_with (λ e, match e with @Ev T q _ => price q end) tr.
Definition listed (tr : list event) : nat := sum_list_with (λ e, match e with @Ev T q r => yield q r end) tr.

Fixpoint pays {A} (k : nat) (p : prog A) (c : A → nat) : Prop :=
  match p with
  | Ret a => c a ≤ k
  | Call q f => price q ≤ k ∧ ∀ r, pays (k - price q + yield q r) (f r) c
  end.

Lemma pays_runs {A} k (p : prog A) c tr a :
  pays k p c → runs p tr a → requests tr + c a ≤ k + listed tr.
Proof.
  revert k tr. induction p as [b|T q f IH]; intros k tr; simpl.
  - intros Hc [-> ->]. simpl. lia.
  - intros [Hq Hf] (r & tr' & -> & Hr). specialize (IH r _ _ (Hf r) Hr).
    unfold requests, listed in *. simpl. lia.
Qed.

Lemma pays_mono {A} k k' (p : prog A) (c c' : A → nat) :
  k ≤ k' → (∀ a, c' a ≤ c a) → pays k p c → pays k' p c'.
Proof.
  revert k k'. induction p as [b|T q f IH]; intros k k' Hk Hc; simpl.
  - specialize (Hc b). lia.
  - intros [Hq Hf]. split; [lia|]. intros r. eapply (IH r); [|done|apply Hf]. lia.
Qed.

Lemma pays_weaken {A} k k' (p : prog A) c : k ≤ k' → pays k p c → pays k' p c.
Proof. intros Hk. by apply pays_mono. Qed.

(** Credits not needed are kept. *)
Lemma pays_frame {A} k d (p : prog A) c : pays k p c → pays (k + d) p (λ a, c a + d).
Proof.
  revert k. induction p as [b|T q f IH]; intros k; simpl; [lia|]. intros [Hq Hf]. split; [lia|].
  intros r. eapply pays_weaken; [|apply IH, Hf]. lia.
Qed.

Lemma pays_bind {A B} k (p : prog A) (f : A → prog B) c1 c :
  pays k p c1 → (∀ a, pays (c1 a) (f a) c) → pays k (p ≫= f) c.
Proof.
  revert k. induction p as [b|T q g IH]; intros k; simpl.
  - intros Hk Hf. eapply pays_weaken; [exact Hk|apply Hf].
  - intros [Hq Hg] Hf. split; [done|]. intros r. by apply IH.
Qed.

(** [p] needs [k1] of the credits, and leaves what it returns. *)
Lemma pays_then {A B} k1 k2 (p : prog A) (f : A → prog B) c1 c :
  pays k1 p c1 → (∀ a, pays (c1 a + k2) (f a) c) → pays (k1 + k2) (p ≫= f) c.
Proof. intros Hp Hf. eapply pays_bind; [by apply pays_frame|done]. Qed.

Lemma pays_go {A B} k1 k2 (p : go A) (f : A → go B) c :
  pays k1 p (λ _, 0) → (∀ a, pays k2 (f a) c) → (∀ e, c (Err e) ≤ k2) → pays (k1 + k2) (go_bind p f) c.
Proof. intros Hp Hf Hc. eapply pays_then; [exact Hp|]. intros [a|e]; [apply Hf|simpl; apply Hc]. Qed.

Lemma pays_stage {A} k1 k2 stage (p : go A) f :
  pays k1 p (λ _, 0) → (∀ a, pays k2 (f a) (λ _, 0)) → pays (k1 + k2) (at_stage stage p f) (λ _, 0).
Proof. intros Hp Hf. eapply pays_then; [exact Hp|]. intros [a|e]; [apply Hf|]. simpl. split; lia. Qed.

(** A request that returns nothing to spend. *)
Lemma pays_local {A} req k (p : prog A) : all_calls (localCall req) p → pays k p (λ _, k).
Proof.
  revert k. induction p as [b|T q f IH]; intros k; [simpl; lia|]. intros [Hq Hf].
  assert (Hp : price q = 0) by by destruct q. split; [rewrite Hp; lia|]. intros r.
  apply (pays_weaken k); [lia|by apply IH].
Qed.

(** Follow a program through every response. *)
Ltac pay_calls :=
  repeat (simpl; match goal with
  | |- _ ∧ _ => split
  | |- ∀ _, _ => intros ?
  | |- _ ≤ _ => lia
  | |- context [match ?x with _ => _ end] => destruct x
  end).

(** ** The operations *)

Abbreviation nothing := (λ _, 0).

Section cost.
Context `{K8sLaws}.

Lemma pays_ensureRBAC cluster : pays 7 (ensureRBAC cluster) nothing.
Proof.
  unfold ensureRBAC, ensureServiceAccount, ensureRole, ensureRoleBinding.
  destruct (SetControllerReference cluster (rbacMeta cluster)); [|simpl; lia].
  apply (pays_go 2 5); [pay_calls| |intros e; simpl; lia]. intros _. apply (pays_go 2 3); [pay_calls| |intros e; simpl; lia]. intros _. pay_calls.
Qed.

Lemma pays_ensureRobinDeployment cluster : pays 2 (ensureRobinDeployment cluster) nothing.
Proof. unfold ensureRobinDeployment. destruct (SetControllerReference cluster _); pay_calls. Qed.

Lemma pays_createNewConfig cluster highest : pays 1 (createNewConfig cluster highest) nothing.
Proof. unfold createNewConfig. destruct (SetControllerReference cluster _); pay_calls. Qed.

(** A listing leaves a credit for every config in the list. *)
Definition perConfig (out : res error (list RedkeyConfig)) : nat :=
  match out with Ok l => length l | Err _ => 0 end.

Lemma length_sortConfigs l : length (sortConfigs l) = length l.
Proof. unfold sortConfigs. by rewrite sort_slice_perm. Qed.

Lemma pays_listConfigs cluster : pays 1 (listConfigs cluster) perConfig.
Proof.
  split; [done|]. intros [l|e]; simpl; [|lia]. by rewrite length_sortConfigs.
Qed.

Lemma pays_retry {A} n k (p : go A) : pays k p nothing → pays (S n * k) (retry_conflict n p) nothing.
Proof.
  intros Hp. induction n as [|n IH]; [simpl; by rewrite Nat.add_0_r|].
  change (S (S n) * k) with (k + S n * k). eapply pays_then; [exact Hp|]. intros [a|e]; simpl; [lia|].
  case_match; [exact IH|simpl; lia].
Qed.

Lemma pays_aggregateStatus cluster configs n :
  (∀ A (p : go A), RetryOnConflict p = retry_conflict n p) →
  pays (2 * S n) (aggregateStatus cluster configs) nothing.
Proof.
  intros Hn. unfold aggregateStatus. destruct (selectActiveConfig configs) as [c|]; [|simpl; lia].
  rewrite Hn. replace (2 * S n) with (S n * 2 + 0) by lia. apply pays_go; [|intros a; simpl; lia|intros e; simpl; lia].
  apply pays_retry. pay_calls.
Qed.

Lemma pays_deleteConfigs l : pays (length l) (deleteConfigs l) nothing.
Proof.
  induction l as [|c l IH]; [simpl; lia|]. split; [simpl; lia|]. intros [[]|e]; simpl; rewrite Nat.sub_0_r, Nat.add_0_r.
  - split; [lia|]. intros _. by rewrite Nat.sub_0_r, Nat.add_0_r.
  - destruct (IsNotFound e); [done|simpl; lia].
Qed.

Lemma pays_cleanup configs : pays (length configs) (cleanupSupersededConfigs configs) nothing.
Proof.
  unfold cleanupSupersededConfigs. case_bool_decide; [simpl; lia|].
  destruct (find_last_index isApplied configs) as [[|i]|]; [simpl; lia| |simpl; lia].
  eapply pays_bind; [eapply pays_weaken; [|apply pays_deleteConfigs]; rewrite length_take; lia|].
  intros [[]|]; simpl; lia.
Qed.

Lemma pays_deleteEach l : pays (length l) (deleteEach l) nothing.
Proof.
  induction l as [|c l IH]; [simpl; lia|]. apply (pays_go 1 (length l)); [pay_calls|done|intros e; simpl; lia].
Qed.

Lemma pays_deleteAllConfigs cluster : pays 1 (deleteAllConfigs cluster) nothing.
Proof.
  eapply pays_bind with perConfig; [pay_calls|]. intros [l|e]; [apply pays_deleteEach|simpl; lia].
Qed.

Lemma pays_metrics cluster active k : pays k (recordRedkeyMetrics cluster active) (λ _, k).
Proof. eapply pays_local, recordMetrics_calls. Qed.

Lemma pays_finish r cluster configs n :
  (∀ A (p : go A), RetryOnConflict p = retry_conflict n p) →
  pays (length configs + 2 * S n) (finishReconcile r cluster configs) nothing.
Proof.
  intros Hn. unfold finishReconcile. destruct configs as [|c configs].
  { eapply pays_bind; [apply pays_metrics|]. intros []. simpl. lia. }
  eapply pays_then; [apply pays_cleanup|]. intros [rest [e|]]; [simpl; split; lia|].
  replace (0 + 2 * S n) with (2 * S n + 0) by lia.
  apply pays_stage; [by apply pays_aggregateStatus|]. intros cl.
  eapply pays_bind; [apply pays_metrics|]. intros []. simpl. lia.
Qed.

Lemma pays_scaleToZero resync cluster n :
  (∀ A (p : go A), RetryOnConflict p = retry_conflict n p) →
  pays (11 + 2 * S n) (reconcileScaleToZero resync cluster) nothing.
Proof.
  intros Hn. change (11 + 2 * S n) with (1 + (10 + 2 * S n)).
  eapply pays_then; [eapply pays_mono; [done| |apply pays_listConfigs]; intros a; apply Nat.le_0_l|].
  intros [configs|e]; [|simpl; lia]. destruct (last configs) as [c|]; [|pay_calls].
  simpl plus. case_match; [|case_match].
  - apply (pays_go 7 (3 + 2 * S n)); [apply pays_ensureRBAC|intros _|intros e; simpl; lia].
    apply (pays_go 2 (1 + 2 * S n)); [apply pays_ensureRobinDeployment|intros _|intros e; simpl; lia].
    apply (pays_go 1 (2 * S n)); [apply pays_createNewConfig|intros _; simpl; lia|intros e; simpl; lia].
  - apply (pays_go 1 (9 + 2 * S n)); [pay_calls|intros _|intros e; simpl; lia].
    apply (pays_go 3 (6 + 2 * S n)); [pay_calls|intros _|intros e; simpl; lia].
    apply (pays_go 1 (5 + 2 * S n)); [apply pays_deleteAllConfigs|intros _|intros e; simpl; lia].
    apply (pays_go 1 (4 + 2 * S n)); [pay_calls|intros; simpl; lia|intros e; simpl; lia].
  - apply (pays_go 7 (3 + 2 * S n)); [apply pays_ensureRBAC|intros _|intros e; simpl; lia].
    apply (pays_go 2 (1 + 2 * S n)); [apply pays_ensureRobinDeployment|intros _|intros e; simpl; lia].
    replace (1 + 2 * S n) with (2 * S n + 1) by lia.
    apply pays_go; [by apply pays_aggregateStatus|intros; simpl; lia|intros e; simpl; lia].
Qed.

Lemma pays_Reconcile r req n :
  (∀ A (p : go A), RetryOnConflict p = retry_conflict n p) → pays (15 + 2 * n) (Reconcile r req) nothing.
Proof.
  intros Hn. replace (15 + 2 * n) with (1 + (12 + 2 * S n)) by lia.
  eapply pays_then with nothing; [pay_calls|]. intros [cluster|e]; simpl plus; last first.
  { destruct (IsNotFound e); [|pay_calls]. unfold deleteRedkeyMetrics, opTracker_forget, readyTracker_forget. pay_calls. }
  destruct (bool_decide (rs_Primaries (rk_Spec cluster) = 0%Z)).
  { apply (pays_weaken (11 + 2 * S n + 0)); [lia|]. apply pays_stage; [by apply pays_scaleToZero|]. intros [res cl].
    eapply pays_bind; [apply pays_metrics|]. intros []. simpl. lia. }
  apply (pays_stage 7 (5 + 2 * S n)); [apply pays_ensureRBAC|intros _].
  apply (pays_stage 2 (3 + 2 * S n)); [apply pays_ensureRobinDeployment|intros _].
  (* a listing pays for the cleanup that follows *)
  assert (Hlist : ∀ k f, (∀ l, pays (length l + k) (f l) nothing) →
    pays (1 + k) (at_stage "list_configs" (listConfigs cluster) f) nothing).
  { intros k f Hf. eapply pays_then; [apply pays_listConfigs|]. intros [l|e]; [apply Hf|simpl; split; lia]. }
  apply (Hlist (2 + 2 * S n)). intros configs. cbv zeta.
  destruct (bool_decide _ || _).
  - apply (pays_weaken (1 + (1 + 2 * S n))); [lia|].
    apply (pays_stage 1 (1 + 2 * S n)); [apply pays_createNewConfig|intros _].
    apply (Hlist (2 * S n)). intros configs'. by apply pays_finish.
  - eapply pays_weaken; [|by apply pays_finish]. lia.
Qed.
End cost.

(** C21: a reconcile ends after a bounded number of requests.  Whatever the API
    answers, with [n] repetitions allowed on conflicts, it makes at most
    [15 + 2 * n] API requests and one more for every config the API listed: no
    answer can keep its loops running. *)
Theorem Reconcile_requests_bounded `{K8sLaws} (n : nat) (r : RedkeyReconciler) (req : NamespacedName)
    (tr : list event) (out : Result * option error) :
  (∀ A (p : go A), RetryOnConflict p = retry_conflict n p) → runs (Reconcile r req) tr out →
  requests tr ≤ 15 + 2 * n + listed tr.
Proof. intros Hn Hr. pose proof (pays_runs _ _ _ _ _ (pays_Reconcile r req n Hn) Hr) as Hb. simpl in *. lia. Qed.

(** The first reconcile of a new cluster. *)
Lemma Reconcile_requests_bounded_witness :
  let tr := trace (Reconcile (H := fake_lib) (mkReconciler 30 1) sampleKey) (sampleWorld (sampleRedkey 1 3 true zeroStatus) []) in
  (requests tr, listed tr) = (14, 1) ∧ requests tr ≤ 15 + 2 * 4 + listed tr.
Proof.
  intros tr. split; [vm_compute; reflexivity|].
  apply (Reconcile_requests_bounded (H := fake_lib) 4 (mkReconciler 30 1) sampleKey tr
    (exec (Reconcile (mkReconciler 30 1) sampleKey) (sampleWorld (sampleRedkey 1 3 true zeroStatus) [])).2).
  - reflexivity.
  - apply exec_runs.
Defined.
