(* ===== verification/Divergences.v ===== *)
(** * Behaviours worth knowing

    Executions and facts in which the code does something its comments or
    documents do not lead one to expect. *)

From S2P Require Import Prelude GoLib K8s Types Effects Client Logic FakeCluster.
From S2P Require Import Robin Config Metrics ScaleZero Controller Samples RobinProofs ConfigProofs.
From S2P Require Import ConfigStore ControllerProofs ScaleZeroProofs Validation Life System.
Local Open Scope Z_scope.

Definition reconcile : prog (Result * option error) :=
  Reconcile (H := fake_lib) (mkReconciler 30 1) sampleKey.

(** The Redkey "ns/rk" in a world. *)
Definition liveRedkey {lag} (w : World lag) : option Redkey := st_redkeys (server w) !! sampleKey.

(** The phase can be Ready while configs wait.  When no config is in
    progress the oldest one is the active one, so if Robin has finished with it
    (even by superseding it) and reported no error, the cluster is published as
    Ready with nothing pending, whatever newer configs are still to be applied. *)
Theorem ready_while_pending `{K8sLaws} (existing : list Condition) (c : RedkeyConfig)
    (rest : list RedkeyConfig) :
  isTerminalConfigPhase (rct_ConfigPhase (cf_Status c)) = true →
  rct_Status (cf_Status c) ≠ ClusterPhaseError →
  (∀ d, d ∈ rest → rct_ConfigPhase (cf_Status d) ≠ ConfigPhaseInProgress) →
  selectActiveConfig (c :: rest) = Some c ∧
  computePhaseFromConditions (aggregateConditions existing c) = PhaseReady ∧
  conditionIsTrue (aggregateConditions existing c) "ConfigPending" = false.
Proof.
  intros Ht Hs Hrest. split; [|split].
  - assert (Hnone : find_first (λ c, bool_decide (rct_ConfigPhase (cf_Status c) = ConfigPhaseInProgress))
      (c :: rest) = None).
    { apply find_first_None. intros d [->|Hd]%elem_of_cons; apply bool_decide_eq_false_2; [|by apply Hrest].
      intros Hp. by rewrite Hp in Ht. }
    unfold selectActiveConfig. rewrite Hnone. by destruct rest.
  - rewrite phaseOf_aggregate. unfold phaseOf. by rewrite Ht, bool_decide_eq_false_2.
  - apply (conditionIsTrue_owned existing c "ConfigPending" false "StatusAggregated" "").
    unfold ownedConditions. rewrite Ht. set_solver.
Qed.

Lemma ready_while_pending_witness :
  let c1 := sampleConfig 1 1 3 ConfigPhaseSuperseded ClusterStatusReady in
  let c2 := sampleConfig 2 2 4 ConfigPhasePending "" in
  selectActiveConfig [c1; c2] = Some c1 ∧
  computePhaseFromConditions (H := fake_lib) (aggregateConditions [] c1) = PhaseReady.
Proof.
  intros c1 c2.
  destruct (ready_while_pending (H := fake_lib) [] c1 [c2]) as (H1 & H2 & _).
  - reflexivity.
  - discriminate.
  - intros d Hd. apply list_elem_of_singleton in Hd as ->. discriminate.
  - split; [exact H1|exact H2].
Defined.

(** ** The topology a scale to zero leaves recorded *)

Section general.
Context `{K8sLib, !K8sLaws} `{!KubeClient W, !KubeIdeal W}.



(** ** Configs of a former life *)

End general.

(** Robin reports on the newest config. *)
Definition robinSays (phase status : string) (w : World false) : World false :=
  match last (clusterConfigs sampleKey (server w)) with
  | Some c => reportConfig (reportedOn (next_rv (w_raw w))
      (mkRedkeyConfigStatus phase status (mkRedkeySubstatus "" 0) None [] None 0) c) w
  | None => w
  end.

Definition liveTopology (w : World false) : option (Z * Z) :=
  (λ r, (rst_LastAppliedPrimaries (rk_Status r), rst_LastAppliedReplicasPerPrimary (rk_Status r)))
    <$> liveRedkey w.

Definition step (w : World false) : World false := (exec reconcile w).1.


(** Two such histories: the topology recorded for the scale-from-zero lock can be missing or
    out of date.  First history: the only config (3 primaries) becomes applied
    and the user scales to zero before the next reconcile; when the teardown is
    over nothing has been recorded.  Second history: config 2 (5 primaries) was
    applied after config 1 (3 primaries) and the user scales to zero before the
    next reconcile; when the teardown is over the recorded topology is config
    1's, which is not the one the storage was left with. *)
Theorem recorded_topology_out_of_date :
  (let w := sampleWorld (sampleRedkey 2 0 false (statusObserved 1 0))
     [sampleConfig 1 1 3 ConfigPhaseApplied ClusterStatusReady] in
   let w3 := step (robinSays ConfigPhaseApplied ClusterStatusReady (step w)) in
   clusterConfigs sampleKey (server w3) = [] ∧ liveTopology w3 = Some (0, 0)) ∧
  (let w := sampleWorld (sampleRedkey 3 0 false (statusObserved 2 3))
     [sampleConfig 1 1 3 ConfigPhaseApplied ClusterStatusReady;
      sampleConfig 2 2 5 ConfigPhaseApplied ClusterStatusReady] in
   let w3 := step (step w) in
   let w4 := step (robinSays ConfigPhaseApplied ClusterStatusReady w3) in
   length (clusterConfigs sampleKey (server w3)) = 3%nat ∧
   clusterConfigs sampleKey (server w4) = [] ∧ liveTopology w4 = Some (3, 0)).
Proof. vm_compute. repeat split. Qed.

(** ** Lagging caches and a scale to zero *)

Fixpoint execRaw {A} (p : prog A) (w : FakeWorld) : FakeWorld * A :=
  match p with
  | Ret a => (w, a)
  | Call q k => let '(w1, x) := fake_handle true q w in execRaw (k x) w1
  end.

(** A reconcile whose caches show the live Redkey and the given configs. *)
Definition reconcileSeeing (configs : Store) (w : FakeWorld) : FakeWorld :=
  let seen := mkStore (st_redkeys (fw_server w)) (st_configs configs) (st_deployments (fw_server w))
    (st_serviceaccounts (fw_server w)) (st_roles (fw_server w)) (st_rolebindings (fw_server w)) in
  (execRaw reconcile (mkWorld (fw_server w) seen (fw_log w) (fw_memory w) (fw_clock w))).1.

Definition reconcileFresh (w : FakeWorld) : FakeWorld := reconcileSeeing (fw_server w) w.

Definition userWrites (gen primaries : Z) (w : FakeWorld) : FakeWorld :=
  match st_redkeys (fw_server w) !! sampleKey with
  | Some o => fake_put KRedkey (mkRedkey (sampleMeta gen) (sampleSpec primaries false None None) (rk_Status o)) w
  | None => w
  end.

Definition robinApplies (w : FakeWorld) : FakeWorld :=
  match last (clusterConfigs sampleKey (fw_server w)) with
  | Some c => fake_put KRedkeyConfig (reportedOn (next_rv w)
      (mkRedkeyConfigStatus ConfigPhaseApplied ClusterStatusReady (mkRedkeySubstatus "" 0) None [] None 0) c) w
  | None => w
  end.

Definition madeFor (w : FakeWorld) : list (Z * res NumError Z) :=
  (λ c, (seqOf c, configGeneration c)) <$> clusterConfigs sampleKey (fw_server w).

(** The generation of the Redkey and the one marked observed. *)
Definition observedOf (w : FakeWorld) : option (Z * Z) :=
  (λ o, (rk_Generation o, rst_ObservedGeneration (rk_Status o))) <$> st_redkeys (fw_server w) !! sampleKey.

(** A stale cache can lose a generation.  From the creation of the cluster on:
    config 1 is made and applied; the spec is edited and config 2 made for generation
    2; the spec is edited again, and the next reconcile reads a config cache that does
    not show config 2 yet.  It tries to create config 2 again, takes the
    [AlreadyExists] answer for success, and publishes generation 3 as observed, although
    no config was created for it; and when the cache has caught up none is due, so Robin
    never sees the third spec until it is edited again. *)
Theorem stale_cache_loses_generation :
  let w1 := robinApplies (reconcileFresh (rawWorld (sampleRedkey 1 3 false zeroStatus) [] [])) in
  let w2 := reconcileFresh (userWrites 2 4 w1) in
  let w3 := reconcileSeeing (fw_server w1) (userWrites 3 5 w2) in
  let w4 := reconcileFresh w3 in
  let w5 := reconcileFresh (userWrites 4 6 w4) in
  madeFor <$> [w1; w2; w3; w4; w5] =
    [[(1, Ok 1)]; [(1, Ok 1); (2, Ok 2)]; [(1, Ok 1); (2, Ok 2)]; [(1, Ok 1); (2, Ok 2)];
     [(1, Ok 1); (2, Ok 2); (3, Ok 4)]] ∧
  observedOf w3 = Some (3, 3) ∧ observedOf w4 = Some (3, 3).
Proof. vm_compute. repeat split. Qed.

(** A scale to zero lets a lagging cache disorder the configs.  A cluster of three
    primaries is scaled to zero, torn down, and scaled up again while the config
    cache still shows the configs of before; config 3 is created for generation 3.
    The spec is edited once more, and the cache gets to see the deletions but not
    yet config 3: the next reconcile creates config 1 for generation 4, to be
    applied before config 3 of generation 3.  ([configs_ordered_under_stale_caches]
    excludes this for clusters that are never scaled to zero.) *)
Theorem scale_to_zero_disorders_stale_configs :
  let w1 := robinApplies (reconcileFresh (rawWorld (sampleRedkey 1 3 false zeroStatus) [] [])) in
  let w2 := robinApplies (reconcileFresh (userWrites 2 0 (reconcileFresh w1))) in
  let w3 := reconcileFresh w2 in
  let w4 := reconcileSeeing (fw_server w2) (userWrites 3 3 w3) in
  let w5 := reconcileSeeing (fw_server w3) (userWrites 4 5 w4) in
  madeFor <$> [w1; w2; w3; w4; w5] =
    [[(1, Ok 1)]; [(1, Ok 1); (2, Ok 2)]; []; [(3, Ok 3)]; [(1, Ok 4); (3, Ok 3)]].
Proof. vm_compute. reflexivity. Qed.

(** ** Deleting and creating again *)

(** The user deletes the Redkey and creates one of the same name, which takes its
    place; what the old one owned is still there. *)
Definition recreatedRedkey (primaries : Z) : Redkey :=
  mkRedkey (mkMeta "rk" "ns" None None [] 1 "v1" "uid-2" 0) (sampleSpec primaries false None None) zeroStatus.

Definition recreate (primaries : Z) (w : FakeWorld) : FakeWorld :=
  fake_put KRedkey (recreatedRedkey primaries) w.

(** The garbage collector removes what a deleted Redkey owned. *)
Definition dependentOf (uid : string) {k} (o : obj k) : bool :=
  existsb (λ ref, bool_decide (or_UID ref = uid)) (om_OwnerReferences (meta_of k o)).

Definition collect (uid : string) (w : FakeWorld) : FakeWorld :=
  let sweep k : gmap NamespacedName (obj k) := filter (λ x, dependentOf uid x.2 = false) (sget k (fw_server w)) in
  mkWorld (mkStore (st_redkeys (fw_server w)) (sweep KRedkeyConfig) (sweep KDeployment) (sweep KServiceAccount)
    (sweep KRole) (sweep KRoleBinding)) (fw_cache w) (fw_log w) (fw_memory w) (fw_clock w).

(** What the user sees of the cluster: the primaries asked for, the generation and
    the one observed, the phase; and the primaries of the newest config. *)
Definition published (w : FakeWorld) : option (Z * Z * Z * string) * option Z :=
  ((λ o, (rs_Primaries (rk_Spec o), rk_Generation o, rst_ObservedGeneration (rk_Status o), rst_Phase (rk_Status o)))
     <$> st_redkeys (fw_server w) !! sampleKey,
   (λ c, rcs_Primaries (cf_Spec c)) <$> last (clusterConfigs sampleKey (fw_server w))).


(** One history of it: a cluster created again under its name takes over the configs of its
    former life.  The old one reached generation 2 with five primaries.  The new one
    asks for seven and is published as Ready with its generation observed, although no
    config asks for seven.  Once the garbage collector has removed what the old one
    owned, the operator makes its config, as it does at once when that has happened
    before the new one appears.  If the dependents were left behind
    (deletion that orphans them), its next generation is swallowed as well, and only
    one above the old cluster's last is handed to Robin. *)
Theorem recreated_cluster_inherits_configs :
  let w2 := robinApplies (reconcileFresh (userWrites 2 5 (robinApplies (reconcileFresh
    (rawWorld (sampleRedkey 1 3 false zeroStatus) [] []))))) in
  let w3 := reconcileFresh (recreate 7 w2) in
  let collected := reconcileFresh (reconcileFresh (collect "uid-1" w3)) in
  let w4 := reconcileFresh (userWrites 2 8 w3) in
  let w5 := reconcileFresh (userWrites 3 9 w4) in
  madeFor <$> [w2; w3; collected; w4; w5] =
    [[(1, Ok 1); (2, Ok 2)]; [(2, Ok 2)]; [(1, Ok 1)]; [(2, Ok 2)]; [(2, Ok 2); (3, Ok 3)]] ∧
  published w3 = (Some (7, 1, 1, PhaseReady), Some 5) ∧
  published (reconcileFresh (reconcileFresh (recreate 7 (collect "uid-1" w2)))) = (Some (7, 1, 1, PhaseConfiguring), Some 7) ∧
  published collected = (Some (7, 1, 1, PhaseConfiguring), Some 7) ∧
  published w4 = (Some (8, 2, 2, PhaseReady), Some 5).
Proof. vm_compute. repeat split. Qed.

(** A reconcile outlives its Redkey.  Deleted and created again between two requests of
    a reconcile, the new Redkey (seven primaries) gets a config made from the old one's
    spec (three), owned by the old one, and is marked observed on the strength of it;
    once the garbage collector has removed that config the next reconciles make the
    right one. *)
Theorem reconcile_outlives_redkey :
  let w := w_raw (exec paused.2 (editWorld (recreatedRedkey 7) paused.1)).1 in
  published w = (Some (7, 1, 1, PhaseConfiguring), Some 3) ∧
  (λ c, dependentOf "uid-1" (k := KRedkeyConfig) c) <$> clusterConfigs sampleKey (fw_server w) = [true] ∧
  published (reconcileFresh w) = (Some (7, 1, 1, PhaseConfiguring), Some 3) ∧
  published (reconcileFresh (collect "uid-1" w)) = (Some (7, 1, 1, PhaseConfiguring), Some 7).
Proof. vm_compute. repeat split. Qed.
