(* ===== verification/MainProofs.v ===== *)
(** * Correctness of start-up *)

From Stdlib Require Import Ascii.
From S2P Require Import Prelude GoLib K8s Types Effects Client Robin Config ScaleZero Controller Main.
Local Open Scope Z_scope.

(** ** Watched namespaces *)

(** Text without separators or blanks: what the name of a namespace is made of. *)
Definition plainChar (a : ascii) : bool := negb (bool_decide (a = ","%char)) && negb (isSpace a).
Fixpoint plainText (s : string) : bool :=
  match s with EmptyString => true | String a s' => plainChar a && plainText s' end.
Fixpoint blank (s : string) : bool :=
  match s with EmptyString => true | String a s' => isSpace a && blank s' end.

Lemma isSpace_comma : isSpace ","%char = false.
Proof. reflexivity. Qed.

Lemma trimLeft_blank b s : blank b = true → trimLeft (b +:+ s) = trimLeft s.
Proof.
  induction b as [|a b IH]; [done|]. simpl. rewrite andb_true_iff. intros [-> Hb]. by apply IH.
Qed.

Lemma trimRight_blank b : blank b = true → trimRight b = "".
Proof.
  induction b as [|a b IH]; [done|]. simpl. rewrite andb_true_iff. intros [Ha Hb].
  by rewrite IH, Ha.
Qed.

Lemma trimRight_plain s b : plainText s = true → blank b = true → trimRight (s +:+ b) = s.
Proof.
  intros Hs Hb. induction s as [|a s IH]; [by apply trimRight_blank|].
  rewrite string_app_cons. simpl in *. unfold plainChar in Hs. rewrite !andb_true_iff, !negb_true_iff in Hs.
  destruct Hs as [[_ Ha] Hs]. rewrite IH by done. rewrite Ha. by destruct s.
Qed.

Lemma trimLeft_plain s b : plainText s = true → s ≠ "" → trimLeft (s +:+ b) = s +:+ b.
Proof.
  destruct s as [|a s]; [done|]. rewrite string_app_cons. simpl. unfold plainChar.
  rewrite !andb_true_iff, !negb_true_iff. intros [[_ ->] _] _. done.
Qed.

(** A padded name trims to itself, blanks alone to nothing. *)
Lemma TrimSpace_padded b1 s b2 :
  blank b1 = true → plainText s = true → blank b2 = true → TrimSpace (b1 +:+ s +:+ b2) = s.
Proof.
  intros H1 Hs H2. unfold TrimSpace. rewrite trimLeft_blank by done.
  destruct s as [|a s].
  - clear Hs. assert (Hl : ∀ b, blank b = true → blank (trimLeft b) = true).
    { induction b as [|c b IH]; [done|]. simpl. rewrite andb_true_iff. intros [Hc Hb]. rewrite Hc. by apply IH. }
    by apply trimRight_blank, Hl.
  - rewrite trimLeft_plain by done. by apply trimRight_plain.
Qed.

(** A piece without the separator. *)
Lemma splitOn_piece sep p : string_mem sep p = false → splitOn sep p = [p].
Proof.
  induction p as [|a p IH]; [done|]. simpl. intros Hp. apply orb_false_iff in Hp as [Ha Hp].
  rewrite IH by done. apply bool_decide_eq_false in Ha. rewrite bool_decide_eq_false_2; [done|congruence].
Qed.

Lemma splitOn_cons sep p s :
  string_mem sep p = false → splitOn sep (p +:+ String sep s) = p :: splitOn sep s.
Proof.
  induction p as [|a p IH]; intros Hp.
  - simpl. by rewrite bool_decide_eq_true_2.
  - rewrite string_app_cons. simpl in *. apply orb_false_iff in Hp as [Ha Hp].
    rewrite IH by done. apply bool_decide_eq_false in Ha. rewrite bool_decide_eq_false_2; [done|congruence].
Qed.

(** The flag as a user writes it: names with blanks around them, separated by
    commas. *)
Definition entryText (e : string * string * string) : string := e.1.1 +:+ e.1.2 +:+ e.2.

Fixpoint joinComma (l : list string) : string :=
  match l with
  | [] => ""
  | [p] => p
  | p :: l' => p +:+ String ","%char (joinComma l')
  end.

Lemma splitOn_join l :
  l ≠ [] → (∀ p, p ∈ l → string_mem ","%char p = false) → splitOn ","%char (joinComma l) = l.
Proof.
  induction l as [|p l IH]; [done|]. intros _ Hl.
  assert (Hp : string_mem ","%char p = false) by (apply Hl; by left).
  destruct l as [|q l]; [by apply splitOn_piece|].
  change (joinComma (p :: q :: l)) with (p +:+ String ","%char (joinComma (q :: l))).
  rewrite splitOn_cons by done. rewrite IH; [done|done|]. intros r Hr. apply Hl. by right.
Qed.

Definition wellPadded (e : string * string * string) : Prop :=
  blank e.1.1 = true ∧ plainText e.1.2 = true ∧ blank e.2 = true.

Lemma blank_no_comma b : blank b = true → string_mem ","%char b = false.
Proof.
  induction b as [|a b IH]; [done|]. simpl. rewrite andb_true_iff. intros [Ha Hb]. rewrite IH by done.
  rewrite bool_decide_eq_false_2; [done|]. intros <-. done.
Qed.

Lemma plain_no_comma s : plainText s = true → string_mem ","%char s = false.
Proof.
  induction s as [|a s IH]; [done|]. simpl. unfold plainChar. rewrite !andb_true_iff, negb_true_iff.
  intros [[Ha _] Hs]. rewrite IH by done. apply bool_decide_eq_false in Ha.
  rewrite bool_decide_eq_false_2; [done|congruence].
Qed.

(** The namespaces the operator watches are the ones the user lists.  For
    any list of names separated by commas, with blanks around them or entries
    left empty, the cache is restricted to exactly the non-empty names; an
    empty flag restricts it to nothing in particular (all namespaces). *)
Theorem defaultNamespaces_listed (l : list (string * string * string)) :
  l ≠ [] → Forall wellPadded l → joinComma (entryText <$> l) ≠ "" →
  ∃ watched, defaultNamespaces (joinComma (entryText <$> l)) = Some watched ∧
    (∀ ns, ns ∈ watched ↔ ns ≠ "" ∧ ∃ b1 b2, (b1, ns, b2) ∈ l) ∧ defaultNamespaces "" = None.
Proof.
  intros Hne Hl Hflag. unfold defaultNamespaces at 1. rewrite bool_decide_eq_false_2 by done.
  rewrite Forall_forall in Hl. eexists. split; [done|]. split; [|done]. intros ns.
  rewrite splitOn_join; [|by destruct l|]; last first.
  { intros p (e & -> & He)%list_elem_of_fmap. destruct (Hl e He) as (H1 & H2 & H3).
    unfold entryText. rewrite !string_mem_app.
    by rewrite (blank_no_comma _ H1), (plain_no_comma _ H2), (blank_no_comma _ H3). }
  rewrite elem_of_list_to_set, list_elem_of_filter.
  assert (Ht : ∀ e, e ∈ l → TrimSpace (entryText e) = e.1.2).
  { intros e He. destruct (Hl e He) as (H1 & H2 & H3). by apply TrimSpace_padded. }
  rewrite list_elem_of_fmap. apply and_iff_compat_l. split.
  - intros (t & -> & (e & -> & He)%list_elem_of_fmap). destruct e as [[b1 n] b2]. rewrite Ht by done.
    by exists b1, b2.
  - intros (b1 & b2 & He). exists (entryText (b1, ns, b2)). split; [by rewrite Ht|].
    by apply list_elem_of_fmap_2.
Qed.

Lemma defaultNamespaces_listed_witness :
  ∃ watched, defaultNamespaces "team-a, team-b,," = Some watched ∧ "team-b" ∈ watched.
Proof.
  destruct (defaultNamespaces_listed [("", "team-a", ""); (" ", "team-b", ""); ("", "", ""); ("", "", "")])
    as (watched & Hw & Hin & _).
  - discriminate.
  - repeat constructor.
  - discriminate.
  - exists watched. split; [exact Hw|]. apply Hin. split; [discriminate|]. exists " ", "".
    apply (bool_decide_unpack _). vm_compute. exact I.
Defined.

(** ** TLS options *)

Definition http2Opt (f : Flags) : list (option TLSOpt) :=
  if enableHTTP2 f then [] else [Some DisableHTTP2].
Definition certOpt (path : string) (o : TLSOpt) : list (option TLSOpt) :=
  if bool_decide (path = "") then [] else [Some o].

(** The TLS options of the two servers.  They start from the same slice, to
    which each server's certificate option is appended; as long as a
    one-element slice has no spare capacity each server gets HTTP/2 disabled
    exactly when it should be and its own certificate; with spare capacity the
    webhook server would serve the metrics server's certificate. *)
Theorem tlsOptions_own_certificate (grow : nat → nat) (f : Flags) :
  let '(h, webhookTLSOpts, metricsTLSOpts) := tlsOptions grow f in
  (grow 1%nat = 1%nat →
   readSlice h webhookTLSOpts = http2Opt f ++ certOpt (webhookCertPath f) WebhookGetCertificate ∧
   readSlice h metricsTLSOpts = http2Opt f ++ certOpt (metricsCertPath f) MetricsGetCertificate) ∧
  ((1 < grow 1%nat)%nat → enableHTTP2 f = false → webhookCertPath f ≠ "" → metricsCertPath f ≠ "" →
   readSlice h webhookTLSOpts = [Some DisableHTTP2; Some MetricsGetCertificate]).
Proof.
  destruct (tlsOptions grow f) as [[h ws] ms] eqn:Ht. unfold tlsOptions in Ht. unfold http2Opt, certOpt.
  split.
  - intros Hg. revert Ht. unfold append. simpl. rewrite Hg. simpl.
    destruct (enableHTTP2 f), (bool_decide (webhookCertPath f = "")), (bool_decide (metricsCertPath f = ""));
      simpl; intros [= <- <- <-]; split; reflexivity.
  - intros Hg He Hw Hm. revert Ht. rewrite He, !bool_decide_eq_false_2 by done.
    destruct (grow 1%nat) as [|[|n]] eqn:En; [lia|lia|]. unfold append. simpl. rewrite En. simpl.
    by intros [= <- <- <-].
Qed.

Lemma tlsOptions_own_certificate_witness :
  let f := mkFlags ":8443" "/m" "tls.crt" "tls.key" "/w" "tls.crt" "tls.key" false ":8081" true false ""
    fiveMinutes 10 false ":6060" false in
  let '(h, ws, ms) := tlsOptions (λ n, n) f in
  readSlice h ws = [Some DisableHTTP2; Some WebhookGetCertificate] ∧
  readSlice h ms = [Some DisableHTTP2; Some MetricsGetCertificate].
Proof.
  intros f. exact (proj1 (tlsOptions_own_certificate (λ n, n) f) eq_refl).
Defined.

(** ** The sequence of steps *)

Lemma prefix_snoc_in {A} (l k : list A) x :
  l `prefix_of` k ++ [x] → x ∈ l → x ∉ k → l = k ++ [x].
Proof.
  intros [r Hr] Hin Hnot. destruct r as [|y r _] using rev_ind; [by rewrite app_nil_r in Hr|].
  rewrite app_assoc in Hr. apply app_inj_tail in Hr as [-> _]. set_solver.
Qed.

Lemma runSteps_outcome succeeds l done code :
  runSteps succeeds l = (done, code) →
  done `prefix_of` l ∧
  (code = 0 ∧ done = l ∧ (∀ s, s ∈ l → fallible s = true → succeeds s = true) ∨
   code = 1 ∧ ∃ before s, done = before ++ [s] ∧ fallible s = true ∧ succeeds s = false ∧
     ∀ s', s' ∈ before → fallible s' = true → succeeds s' = true).
Proof.
  revert done code. induction l as [|s l IH]; intros done code; simpl.
  { intros [= <- <-]. split; [done|]. left. split; [done|]. split; [done|]. intros s Hs. inversion Hs. }
  destruct (fallible s && negb (succeeds s)) eqn:Hs.
  - apply andb_true_iff in Hs as [Hf Hn%negb_true_iff]. intros [= <- <-].
    split; [by apply (prefix_app_r _ [s]) || exists l|]. right. split; [done|].
    exists [], s. repeat split; try done. intros s' Hs'. inversion Hs'.
  - destruct (runSteps succeeds l) as [done' code'] eqn:Hr. intros [= <- <-].
    destruct (IH _ _ eq_refl) as [Hp Hout]. split; [by apply prefix_cons|].
    assert (Hok : fallible s = true → succeeds s = true)
      by (intros Hf; rewrite Hf in Hs; by destruct (succeeds s)).
    destruct Hout as [(-> & -> & Hall)|(-> & before & x & -> & Hf & Hx & Hall)]; [left|right].
    + split; [done|]. split; [done|]. by intros s' [->|Hs']%elem_of_cons; auto.
    + split; [done|]. exists (s :: before), x. repeat split; try done.
      by intros s' [->|Hs']%elem_of_cons; auto.
Qed.

(** The process exits with code 2 exactly when initialisation panics, and then
    nothing has been started. *)
Lemma process_outcome version goVersion f initialises succeeds done code :
  process version goVersion f initialises succeeds = (done, code) →
  (code = 2 ↔ ∃ s, s ∈ init version goVersion ∧ initialises s = false) ∧
  (code = 2 → done = []) ∧ (code ≠ 2 → main version f succeeds = (done, code)).
Proof.
  unfold process. destruct (forallb initialises (init version goVersion)) eqn:Hi.
  - intros Hm. assert (Hc : code ≠ 2) by (destruct (runSteps_outcome _ _ _ _ Hm) as [_ [[-> _]|[-> _]]]; done).
    split; [|by split]. split; [done|]. intros (s & Hs & Hb). rewrite forallb_forall in Hi.
    apply list_elem_of_In in Hs. by rewrite Hi in Hb.
  - intros [= <- <-]. split; [|by split]. split; [intros _|done].
    assert (Hex : ¬ Forall (λ s, initialises s = true) (init version goVersion)).
    { rewrite Forall_forall. intros Hall. apply not_true_iff_false in Hi. apply Hi, forallb_forall. intros s Hs.
      by apply Hall, list_elem_of_In. }
    apply not_Forall_Exists, Exists_exists in Hex as (s & Hs & Hb); [|intros s; apply _].
    exists s. split; [done|]. by apply not_true_iff_false.
Qed.

(** [main] exits with code 0 only after every step succeeded, stops at the
    first failing step with code 1, and starts the manager only when everything
    before it (the controller set up, the configured certificate watchers and
    the two probes registered) succeeded. *)
Theorem main_outcome (version : string) (f : Flags) (succeeds : StartStep → bool) (done : list StartStep)
    (code : Z) :
  showVersion f = false → main version f succeeds = (done, code) →
  (code = 0 ∨ code = 1) ∧ done `prefix_of` mainSteps version f ∧
  (code = 0 → done = mainSteps version f) ∧
  (StartManager ∈ done → ∃ before, mainSteps version f = before ++ [StartManager] ∧
     ∀ s, s ∈ before → fallible s = true → succeeds s = true).
Proof.
  intros Hv Hm. apply runSteps_outcome in Hm as [Hp Hout].
  assert (Hlast : ∃ before, mainSteps version f = before ++ [StartManager] ∧ StartManager ∉ before).
  { exists (removelast (mainSteps version f)). unfold mainSteps. rewrite Hv.
    destruct (set_path (webhookCertPath f)), (set_path (metricsCertPath f)), (enablePprof f);
      (split; [reflexivity|]); simpl; rewrite !not_elem_of_cons; repeat split; try discriminate;
      apply not_elem_of_nil. }
  destruct Hlast as (before & Hsteps & Hnot).
  split; [destruct Hout as [[-> _]|[-> _]]; [by left|by right]|]. split; [done|].
  split; [by destruct Hout as [(_ & -> & _)|(-> & _)]|].
  intros Hin. exists before. split; [done|]. intros s Hs Hf.
  rewrite Hsteps in Hp. apply (prefix_snoc_in _ _ _ Hp Hin) in Hnot.
  destruct Hout as [(_ & -> & Hall)|(_ & b & x & Hb & _ & _ & Hall)].
  - apply Hall; [|done]. rewrite Hsteps. set_solver.
  - rewrite Hb in Hnot. apply app_inj_tail in Hnot as [-> _]. by apply Hall.
Qed.

(** The controller cannot be set up: the process exits before the manager runs. *)
Lemma main_outcome_witness :
  let failing := λ s, match s with SetupWithManager _ => false | _ => true end in
  let '(done, code) := main "1.0" defaultFlags failing in
  code = 1 ∧ length done = 3%nat ∧ done `prefix_of` mainSteps "1.0" defaultFlags.
Proof.
  split; [vm_compute; reflexivity|]. split; [vm_compute; reflexivity|].
  apply (main_outcome "1.0" defaultFlags (λ s, match s with SetupWithManager _ => false | _ => true end) _ 1);
    reflexivity.
Defined.
